(** * RiX Pratt parser: a shallow embedding of [src/parser.js]

    The JavaScript class [Parser] is rendered as a state-and-error monad over
    the record [Parser] (token vector, cursor, current token).  Every method
    of the class becomes a definition of the same name.  The mutual recursion
    of the methods always passes through [parseExpression], so the knot is
    tied there, on a fuel argument; [while] and [do ... while] loops are
    written with two loop combinators that consume the same fuel.

    Conventions of the embedding:
    - the diagnostic fields [pos] and [original] of tokens and nodes are left
      out (the test-suite compares trees after stripping them);
    - JavaScript strings are [string]s, a character being a code unit below
      256; an absent or [null] string field of a token is the empty string;
    - a thrown [Error] is the result [Error msg], where [msg] is the message
      handed to [this.error] (without the position prefix). *)

From Stdlib Require Import String Ascii List ZArith Bool Lia.
Import ListNotations.
Open Scope string_scope.
Open Scope list_scope.
Open Scope Z_scope.

(** ** JavaScript string primitives used by the parser *)

Module JsString.

Definition length (s : string) : Z := Z.of_nat (String.length s).

(** [s.indexOf(c)] for a one-character needle, counted from index [i]. *)
Fixpoint indexOf_from (c : ascii) (s : string) (i : Z) : Z :=
  match s with
  | EmptyString => -1
  | String d s' => if Ascii.eqb d c then i else indexOf_from c s' (i + 1)
  end.

Definition indexOf (c : ascii) (s : string) : Z := indexOf_from c s 0.

(** [s.lastIndexOf(c)]. *)
Fixpoint lastIndexOf_from (c : ascii) (s : string) (i : Z) (found : Z) : Z :=
  match s with
  | EmptyString => found
  | String d s' =>
      lastIndexOf_from c s' (i + 1) (if Ascii.eqb d c then i else found)
  end.

Definition lastIndexOf (c : ascii) (s : string) : Z :=
  lastIndexOf_from c s 0 (-1).

Definition includes (c : ascii) (s : string) : bool :=
  negb (indexOf c s =? -1).

Definition startsWith (c : ascii) (s : string) : bool :=
  match s with
  | String d _ => Ascii.eqb d c
  | EmptyString => false
  end.

Fixpoint drop (n : nat) (s : string) : string :=
  match n, s with
  | O, _ => s
  | S n', String _ s' => drop n' s'
  | S _, EmptyString => EmptyString
  end.

Fixpoint take (n : nat) (s : string) : string :=
  match n, s with
  | S n', String c s' => String c (take n' s')
  | _, _ => EmptyString
  end.

(** Relative index resolution of [String.prototype.slice]. *)
Definition clampIndex (len k : Z) : Z :=
  if k <? 0 then Z.max (len + k) 0 else Z.min k len.

(** [s.slice(from, to)]. *)
Definition slice (s : string) (from to : Z) : string :=
  let len := length s in
  let a := clampIndex len from in
  let b := clampIndex len to in
  take (Z.to_nat (b - a)) (drop (Z.to_nat a) s).

(** [s.slice(from)]. *)
Definition sliceFrom (s : string) (from : Z) : string :=
  drop (Z.to_nat (clampIndex (length s) from)) s.

(** White space, as far as code units below 256 go: TAB, LF, VT, FF, CR,
    SPACE and NBSP. *)
Definition isWhiteSpace (c : ascii) : bool :=
  let n := nat_of_ascii c in
  (Nat.eqb n 9 || Nat.eqb n 10 || Nat.eqb n 11 || Nat.eqb n 12
   || Nat.eqb n 13 || Nat.eqb n 32 || Nat.eqb n 160)%bool.

Fixpoint trimStart (s : string) : string :=
  match s with
  | String c s' => if isWhiteSpace c then trimStart s' else s
  | EmptyString => EmptyString
  end.

(** Drops the white space at the end: a character is kept when it is not
    white space or when something is kept after it. *)
Fixpoint trimEnd (s : string) : string :=
  match s with
  | EmptyString => EmptyString
  | String c s' =>
      match trimEnd s' with
      | EmptyString => if isWhiteSpace c then EmptyString
                       else String c EmptyString
      | r => String c r
      end
  end.

Definition trim (s : string) : string := trimEnd (trimStart s).

End JsString.

(** ** Tokens *)

Inductive token_type :=
| TNumber | TString | TIdentifier | TSymbol | TPlaceHolder
| TSemicolonSequence | TEnd.

Definition token_type_name (t : token_type) : string :=
  match t with
  | TNumber => "Number" | TString => "String" | TIdentifier => "Identifier"
  | TSymbol => "Symbol" | TPlaceHolder => "PlaceHolder"
  | TSemicolonSequence => "SemicolonSequence" | TEnd => "End"
  end.

Definition token_type_eqb (a b : token_type) : bool :=
  match a, b with
  | TNumber, TNumber | TString, TString | TIdentifier, TIdentifier
  | TSymbol, TSymbol | TPlaceHolder, TPlaceHolder
  | TSemicolonSequence, TSemicolonSequence | TEnd, TEnd => true
  | _, _ => false
  end.

Record token := mkToken {
  tok_type : token_type;
  tok_value : string;
  tok_kind : string;
  tok_place : Z;
  tok_count : Z
}.

(** The sentinel of [advance]: [{ type: 'End', value: null }]. *)
Definition EndToken : token := mkToken TEnd "" "" 0 0.

(** [token.value === s] *)
Definition value_is (t : token) (s : string) : bool := String.eqb (tok_value t) s.
Definition kind_is (t : token) (s : string) : bool := String.eqb (tok_kind t) s.
Definition type_is (t : token) (ty : token_type) : bool :=
  token_type_eqb (tok_type t) ty.

(** ** The system-symbol oracle *)

(** What [systemLookup(name)] returns, as far as the parser reads it; the
    descriptor is otherwise only attached to [SystemIdentifier] nodes. *)

Record systemInfo := mkSystemInfo {
  sys_type : string;
  sys_precedence : option Z;
  sys_associativity : option string;
  sys_operatorType : option string
}.

(** ** Syntax-tree nodes *)

(** What a property read such as [node.name] can give: nothing, a string, or
    (for the [name] of a function definition) a node. *)
Inductive jsv (N : Type) :=
| JUndefined
| JNull
| JStr (s : string)
| JNode (n : N).
Arguments JUndefined {N}.
Arguments JNull {N}.
Arguments JStr {N} s.
Arguments JNode {N} n.

Record param (N : Type) := mkParam {
  name : jsv N;
  defaultValue : option N
}.
Arguments mkParam {N}.
Arguments name {N}.
Arguments defaultValue {N}.

(** [{positional, keyword, conditionals, metadata}].  The literal that
    [:->] uses for a head without arguments has no [conditionals] key; it is
    read here as the empty list. *)
Record params (N : Type) := mkParams {
  positional : list (param N);
  keyword : list (param N);
  conditionals : list N;
  metadata : list (string * N)
}.
Arguments mkParams {N}.
Arguments positional {N}.
Arguments keyword {N}.
Arguments conditionals {N}.
Arguments metadata {N}.

(** Call-site arguments; [keyword] is a JavaScript object keyed by name. *)
Record callArgs (N : Type) := mkArgs {
  args_positional : list N;
  args_keyword : list (string * N)
}.
Arguments mkArgs {N}.
Arguments args_positional {N}.
Arguments args_keyword {N}.

Record patternFunc (N : Type) := mkPattern {
  pat_parameters : params N;
  pat_body : N
}.
Arguments mkPattern {N}.
Arguments pat_parameters {N}.
Arguments pat_body {N}.

(** One entry of a tensor's [structure]: [{row, separatorLevel}]. *)
Record structureEntry (N : Type) := mkEntry {
  row : list N;
  separatorLevel : Z
}.
Arguments mkEntry {N}.
Arguments row {N}.
Arguments separatorLevel {N}.

(** The result of [Math.max] over separator levels. *)
Inductive jsnum :=
| NegInfinity
| Int (z : Z).

#[warnings="-register-all"]
Inductive node :=
| Number (value : string)
| StringNode (value kind : string)
| UserIdentifier (name : string)
| SystemIdentifier (name : string) (info : systemInfo)
| PlaceHolder (place : Z)
| NULL
| UnaryOperation (operator : string) (operand : node)
| BinaryOperation (operator : string) (left right : node)
| Grouping (expression : node)
| Tuple (elements : list node)
| Array (elements : list node)
| SetNode (elements : list node)
| MapNode (elements : list node)
| System (elements : list node)
| Matrix (rows : list (list node))
| Tensor (structure : list (structureEntry node)) (maxDimension : jsnum)
| WithMetadata (primary : node) (metadata : list (string * node))
| CodeBlock (statements : list node)
| FunctionCall (function : node) (arguments : callArgs node)
| FunctionDefinition (name : node) (parameters : params node) (body : node)
| FunctionLambda (parameters : params node) (body : node)
| PatternMatchingFunction (name : node) (parameters : params node)
    (patterns : list (patternFunc node)) (metadata : list (string * node))
| ParameterList (parameters : params node)
| Pipe (left right : node)
| ExplicitPipe (left right : node)
| MapPipe (left right : node)
| Filter (left right : node)
| Reduce (left right : node)
| PropertyAccess (object property : node)
| Derivative (function : node) (order : nat)
    (variables : option (list string))
    (evaluation operations : option (list node))
| Integral (function : node) (order : nat)
    (variables : option (list string))
    (evaluation operations : option (list node))
| EmbeddedLanguage (language context : option string) (body : string)
| Statement (expression : node)
| Comment (value kind : string).

(** The [type] tag of a node.  The brace container and the [|>>] node share
    the tag [Map]. *)
Definition node_type (n : node) : string :=
  match n with
  | Number _ => "Number" | StringNode _ _ => "String"
  | UserIdentifier _ => "UserIdentifier"
  | SystemIdentifier _ _ => "SystemIdentifier"
  | PlaceHolder _ => "PlaceHolder" | NULL => "NULL"
  | UnaryOperation _ _ => "UnaryOperation"
  | BinaryOperation _ _ _ => "BinaryOperation"
  | Grouping _ => "Grouping" | Tuple _ => "Tuple" | Array _ => "Array"
  | SetNode _ => "Set" | MapNode _ => "Map" | System _ => "System"
  | Matrix _ => "Matrix" | Tensor _ _ => "Tensor"
  | WithMetadata _ _ => "WithMetadata" | CodeBlock _ => "CodeBlock"
  | FunctionCall _ _ => "FunctionCall"
  | FunctionDefinition _ _ _ => "FunctionDefinition"
  | FunctionLambda _ _ => "FunctionLambda"
  | PatternMatchingFunction _ _ _ _ => "PatternMatchingFunction"
  | ParameterList _ => "ParameterList"
  | Pipe _ _ => "Pipe" | ExplicitPipe _ _ => "ExplicitPipe"
  | MapPipe _ _ => "Map" | Filter _ _ => "Filter" | Reduce _ _ => "Reduce"
  | PropertyAccess _ _ => "PropertyAccess"
  | Derivative _ _ _ _ _ => "Derivative"
  | Integral _ _ _ _ _ => "Integral"
  | EmbeddedLanguage _ _ _ => "EmbeddedLanguage"
  | Statement _ => "Statement" | Comment _ _ => "Comment"
  end.

(** ** Property reads on nodes *)

(** [node.name]: identifiers carry a string, function definitions a node. *)
Definition node_name (n : node) : jsv node :=
  match n with
  | UserIdentifier s => JStr s
  | SystemIdentifier s _ => JStr s
  | FunctionDefinition f _ _ => JNode f
  | PatternMatchingFunction f _ _ _ => JNode f
  | _ => JUndefined
  end.

(** [node.value] *)
Definition node_value (n : node) : jsv node :=
  match n with
  | Number v => JStr v
  | StringNode v _ => JStr v
  | Comment v _ => JStr v
  | _ => JUndefined
  end.

Definition truthy {N} (v : jsv N) : bool :=
  match v with
  | JStr s => negb (String.eqb s "")
  | JNode _ => true
  | JUndefined | JNull => false
  end.

(** [a || b] *)
Definition js_or {N} (a b : jsv N) : jsv N := if truthy a then a else b.

(** [n.type === 'BinaryOperation' && n.operator === op], with the operands. *)
Definition asBinary (op : string) (n : node) : option (node * node) :=
  match n with
  | BinaryOperation o l r => if String.eqb o op then Some (l, r) else None
  | _ => None
  end.

Definition isUserIdentifier (n : node) : bool :=
  match n with UserIdentifier _ => true | _ => false end.

Definition isIdentifierNode (n : node) : bool :=
  match n with
  | UserIdentifier _ | SystemIdentifier _ _ => true
  | _ => false
  end.

(** *** Objects used as maps

    An object that starts as [{}] and is filled by [obj[key] = v] is the
    list of its own properties, in the order in which [Object.entries] and
    a comparison of trees see them: the keys that are array indices first,
    in ascending order, then the other keys in the order of their
    creation. *)

Definition digitOf (c : ascii) : option Z :=
  let n := Z.of_nat (nat_of_ascii c) in
  if (48 <=? n) && (n <=? 57) then Some (n - 48) else None.

Fixpoint decimalFrom (s : string) (acc : Z) : option Z :=
  match s with
  | EmptyString => Some acc
  | String c s' =>
      match digitOf c with
      | Some d => decimalFrom s' (10 * acc + d)
      | None => None
      end
  end.

(** The number that a key denotes when it is an array index: the canonical
    decimal form of an integer from 0 to 2^32 - 2. *)
Definition arrayIndex (key : string) : option Z :=
  match key with
  | EmptyString => None
  | String c rest =>
      if Ascii.eqb c "0" && negb (String.eqb rest "") then None
      else
        match decimalFrom key 0 with
        | Some n => if n <=? 4294967294 then Some n else None
        | None => None
        end
  end.

(** Whether a new key [key] is enumerated before the existing key [k]. *)
Definition comesBefore (key k : string) : bool :=
  match arrayIndex key with
  | Some n =>
      match arrayIndex k with
      | Some m => n <? m
      | None => true
      end
  | None => false
  end.

(** The value of an existing key is replaced where it stands. *)
Fixpoint obj_replace {A} (key : string) (v : A) (o : list (string * A))
  : list (string * A) :=
  match o with
  | [] => []
  | (k, w) :: o' =>
      if String.eqb k key then (k, v) :: o' else (k, w) :: obj_replace key v o'
  end.

(** A new key takes its place in the order of enumeration. *)
Fixpoint obj_add {A} (key : string) (v : A) (o : list (string * A))
  : list (string * A) :=
  match o with
  | [] => [(key, v)]
  | (k, w) :: o' =>
      if comesBefore key k then (key, v) :: o else (k, w) :: obj_add key v o'
  end.

(** [obj[key] = v], for [v] an object (here always a node).  The key
    [__proto__] reaches the setter inherited from [Object.prototype], which
    changes the prototype and creates no property. *)
Definition obj_set {A} (key : string) (v : A) (o : list (string * A))
  : list (string * A) :=
  if String.eqb key "__proto__" then o
  else if existsb (fun e => String.eqb (fst e) key) o then obj_replace key v o
  else obj_add key v o.

(** ** Precedence levels and the symbol table *)

Module PRECEDENCE.
Definition STATEMENT : Z := 0.
Definition ASSIGNMENT : Z := 10.
Definition PIPE : Z := 20.
Definition ARROW : Z := 25.
Definition LOGICAL_OR : Z := 30.
Definition LOGICAL_AND : Z := 40.
Definition CONDITION : Z := 45.
Definition EQUALITY : Z := 50.
Definition COMPARISON : Z := 60.
Definition INTERVAL : Z := 70.
Definition ADDITION : Z := 80.
Definition MULTIPLICATION : Z := 90.
Definition EXPONENTIATION : Z := 100.
Definition UNARY : Z := 110.
Definition CALCULUS : Z := 115.
Definition POSTFIX : Z := 120.
Definition PROPERTY : Z := 130.
End PRECEDENCE.

Record symbolInfo := mkInfo {
  precedence : Z;
  associativity : option string;
  info_type : string
}.

Definition infixR (p : Z) : symbolInfo := mkInfo p (Some "right") "infix".
Definition infixL (p : Z) : symbolInfo := mkInfo p (Some "left") "infix".

(** [SYMBOL_TABLE] (the [prefix: true] mark of [+] and [-] is never read). *)
Definition SYMBOL_TABLE : list (string * symbolInfo) :=
  [ (":=", infixR PRECEDENCE.ASSIGNMENT);
    (":=:", infixR PRECEDENCE.ASSIGNMENT);
    (":<:", infixR PRECEDENCE.ASSIGNMENT);
    (":>:", infixR PRECEDENCE.ASSIGNMENT);
    (":<=:", infixR PRECEDENCE.ASSIGNMENT);
    (":>=:", infixR PRECEDENCE.ASSIGNMENT);
    (":=>", infixR PRECEDENCE.ASSIGNMENT);
    ("|>", infixL PRECEDENCE.PIPE);
    ("||>", infixL PRECEDENCE.PIPE);
    ("|>>", infixL PRECEDENCE.PIPE);
    ("|>:", infixL PRECEDENCE.PIPE);
    ("|>?", infixL PRECEDENCE.PIPE);
    ("|+", infixL PRECEDENCE.PIPE);
    ("|*", infixL PRECEDENCE.PIPE);
    ("|:", infixL PRECEDENCE.PIPE);
    ("|;", infixL PRECEDENCE.PIPE);
    ("|^", infixL PRECEDENCE.PIPE);
    ("|?", infixL PRECEDENCE.PIPE);
    ("=", infixL PRECEDENCE.EQUALITY);
    ("?=", infixL PRECEDENCE.EQUALITY);
    ("!=", infixL PRECEDENCE.EQUALITY);
    ("==", infixL PRECEDENCE.EQUALITY);
    ("<", infixL PRECEDENCE.COMPARISON);
    (">", infixL PRECEDENCE.COMPARISON);
    ("<=", infixL PRECEDENCE.COMPARISON);
    (">=", infixL PRECEDENCE.COMPARISON);
    ("?<", infixL PRECEDENCE.COMPARISON);
    ("?>", infixL PRECEDENCE.COMPARISON);
    ("?<=", infixL PRECEDENCE.COMPARISON);
    ("?>=", infixL PRECEDENCE.COMPARISON);
    (":", infixL PRECEDENCE.INTERVAL);
    ("+", infixL PRECEDENCE.ADDITION);
    ("-", infixL PRECEDENCE.ADDITION);
    ("*", infixL PRECEDENCE.MULTIPLICATION);
    ("/", infixL PRECEDENCE.MULTIPLICATION);
    ("//", infixL PRECEDENCE.MULTIPLICATION);
    ("%", infixL PRECEDENCE.MULTIPLICATION);
    ("/^", infixL PRECEDENCE.MULTIPLICATION);
    ("/~", infixL PRECEDENCE.MULTIPLICATION);
    ("/%", infixL PRECEDENCE.MULTIPLICATION);
    ("^", infixR PRECEDENCE.EXPONENTIATION);
    ("**", infixR PRECEDENCE.EXPONENTIATION);
    ("->", infixR PRECEDENCE.ARROW);
    ("=>", infixR PRECEDENCE.ASSIGNMENT);
    (":->", infixR PRECEDENCE.ASSIGNMENT);
    ("?", infixL PRECEDENCE.CONDITION);
    (".", infixL PRECEDENCE.PROPERTY);
    ("'", mkInfo PRECEDENCE.CALCULUS (Some "left") "calculus");
    ("(", mkInfo 0 None "grouping");
    (")", mkInfo 0 None "grouping");
    ("[", mkInfo PRECEDENCE.POSTFIX None "postfix");
    ("]", mkInfo 0 None "grouping");
    ("{", mkInfo 0 None "grouping");
    ("}", mkInfo 0 None "grouping");
    ("{{", mkInfo 0 None "codeblock");
    ("}}", mkInfo 0 None "codeblock");
    (",", mkInfo 5 (Some "left") "infix");
    (";", mkInfo PRECEDENCE.STATEMENT (Some "left") "statement") ].

(** The names of the members that the object literal [SYMBOL_TABLE]
    inherits from [Object.prototype]. *)
Definition OBJECT_PROTOTYPE : list string :=
  [ "constructor"; "__defineGetter__"; "__defineSetter__"; "hasOwnProperty";
    "__lookupGetter__"; "__lookupSetter__"; "isPrototypeOf";
    "propertyIsEnumerable"; "toString"; "valueOf"; "__proto__";
    "toLocaleString" ].

(** What [getSymbolInfo] hands to the expression loop: an object with the
    fields of a table entry, or a member inherited from [Object.prototype]
    (a function, or the prototype itself), on which [precedence],
    [associativity] and [type] are all undefined. *)
Inductive symbolEntry :=
| Entry (info : symbolInfo)
| Inherited.

Coercion Entry : symbolInfo >-> symbolEntry.

(** [SYMBOL_TABLE[v]], when it is truthy: an own entry of the table or,
    failing that, an inherited member. *)
Definition lookupSymbol (v : string) : option symbolEntry :=
  match find (fun e => String.eqb (fst e) v) SYMBOL_TABLE with
  | Some e => Some (Entry (snd e))
  | None =>
      if existsb (String.eqb v) OBJECT_PROTOTYPE then Some Inherited
      else None
  end.

(** [symbolInfo.precedence < minPrec]; the comparison of [undefined] with a
    number is false. *)
Definition precedenceBelow (symbolInfo : symbolEntry) (minPrec : Z) : bool :=
  match symbolInfo with
  | Entry info => precedence info <? minPrec
  | Inherited => false
  end.

(** [symbolInfo.type === t] *)
Definition typeIs (symbolInfo : symbolEntry) (t : string) : bool :=
  match symbolInfo with
  | Entry info => String.eqb (info_type info) t
  | Inherited => false
  end.

(** ** The parser object and its monad *)

Record Parser := mkParser {
  tokens : list token;
  position : nat;
  current : token
}.

Inductive result (A : Type) :=
| Ok (a : A)
| Error (msg : string)
| OutOfFuel.
Arguments Ok {A} a.
Arguments Error {A} msg.
Arguments OutOfFuel {A}.

Definition M (A : Type) : Type := Parser -> result (A * Parser).

Definition ret {A} (a : A) : M A := fun p => Ok (a, p).

Definition bind {A B} (m : M A) (k : A -> M B) : M B :=
  fun p =>
    match m p with
    | Ok (a, p') => k a p'
    | Error e => Error e
    | OutOfFuel => OutOfFuel
    end.

Declare Scope parser_scope.
Delimit Scope parser_scope with parser.
Notation "x <- m ;; k" := (bind m (fun x => k))
  (at level 61, m at next level, right associativity) : parser_scope.
Notation "' pat <- m ;; k" := (bind m (fun x => match x with pat => k end))
  (at level 61, pat pattern, m at next level, right associativity)
  : parser_scope.
Notation "m ;; k" := (bind m (fun _ => k))
  (at level 61, right associativity) : parser_scope.
Open Scope parser_scope.

(** [this.error(message)] *)
Definition error {A} (message : string) : M A := fun _ => Error message.

(** [this.current] *)
Definition getCurrent : M token := fun p => Ok (current p, p).

Definition getParser : M Parser := fun p => Ok (p, p).

Definition advanceParser (p : Parser) : Parser :=
  match nth_error (tokens p) (position p) with
  | Some t => mkParser (tokens p) (S (position p)) t
  | None => mkParser (tokens p) (position p) EndToken
  end.

(** [this.advance()] *)
Definition advance : M unit := fun p => Ok (tt, advanceParser p).

(** [new Parser(tokens, systemLookup)] *)
Definition newParser (ts : list token) : Parser :=
  advanceParser (mkParser ts 0 EndToken).

(** *** Loops *)

(** How a loop body ends: [Next] reaches the loop test (the end of the body
    or a [continue]), [Break] leaves the loop. *)
Inductive flow := Next | Break.

(** [while (cond) body], the loop variables being the state [s]. *)
Fixpoint while_ {S : Type} (fuel : nat) (cond : S -> token -> bool)
  (body : S -> M (flow * S)) (s : S) : M S :=
  fun p =>
    match fuel with
    | O => OutOfFuel
    | Datatypes.S fuel' =>
        if cond s (current p) then
          match body s p with
          | Ok ((Next, s'), p') => while_ fuel' cond body s' p'
          | Ok ((Break, s'), p') => Ok (s', p')
          | Error e => Error e
          | OutOfFuel => OutOfFuel
          end
        else Ok (s, p)
    end.

(** [do body while (cond)] *)
Definition do_while {S : Type} (fuel : nat) (cond : S -> token -> bool)
  (body : S -> M (flow * S)) (s : S) : M S :=
  '(f, s') <- body s ;;
  match f with
  | Next => while_ fuel cond body s'
  | Break => ret s'
  end.

(** The usual loop test [current.value !== close && current.type !== 'End']. *)
Definition notAt (close : string) (t : token) : bool :=
  negb (value_is t close) && negb (type_is t TEnd).

(** ** Pure helpers of the parser *)

(** The look-ahead of [parseGrouping]: the [while (tempPos < tokens.length)]
    loop, run over the tokens from [tempPos] on.  Returns
    [(hasSemicolon, hasComma)]. *)
Fixpoint scanGrouping (rest : list token) (parenDepth : Z) (hasComma : bool)
  : bool * bool :=
  match rest with
  | [] => (false, hasComma)
  | t :: rest' =>
      if value_is t "(" then scanGrouping rest' (parenDepth + 1) hasComma
      else if value_is t ")" then
        if parenDepth =? 0 then (false, hasComma)
        else scanGrouping rest' (parenDepth - 1) hasComma
      else if parenDepth =? 0 then
        if value_is t ";" then (true, hasComma)
        else if value_is t "," then scanGrouping rest' parenDepth true
        else scanGrouping rest' parenDepth hasComma
      else scanGrouping rest' parenDepth hasComma
  end.

(** [Math.max(...levels)] *)
Definition Math_max (levels : list Z) : jsnum :=
  match levels with
  | [] => NegInfinity
  | z :: zs => Int (fold_left Z.max zs z)
  end.

(** The double nearest to an integer (one within the range of the doubles):
    the integer itself below 2^53, and from there on the nearest multiple of
    the spacing of the doubles around it, a tie going to the even one. *)
Definition roundToDouble (n : Z) : Z :=
  let a := Z.abs n in
  if a <? 2 ^ 53 then n
  else
    let ulp := 2 ^ (Z.log2 a - 52) in
    let q := a / ulp in
    let r := a mod ulp in
    let half := ulp / 2 in
    let q' :=
      if r <? half then q
      else if half <? r then q + 1
      else if Z.even q then q else q + 1 in
    Z.sgn n * (q' * ulp).

(** [x + 1], in the arithmetic of doubles. *)
Definition jsnum_succ (x : jsnum) : jsnum :=
  match x with
  | NegInfinity => NegInfinity
  | Int z => Int (roundToDouble (z + 1))
  end.

Definition jsnum_is (x : jsnum) (z : Z) : bool :=
  match x with
  | NegInfinity => false
  | Int y => y =? z
  end.

(** [buildMatrixTensor(matrixStructure, startToken)] *)
Definition buildMatrixTensor (matrixStructure : list (structureEntry node))
  : node :=
  let maxSeparatorLevel := Math_max (map separatorLevel matrixStructure) in
  if jsnum_is maxSeparatorLevel 1 then Matrix (map row matrixStructure)
  else Tensor matrixStructure (jsnum_succ maxSeparatorLevel).

(** The five equation operators of a system container. *)
Definition isEquationOperator (op : string) : bool :=
  String.eqb op ":=:" || String.eqb op ":>:" || String.eqb op ":<:"
  || String.eqb op ":<=:" || String.eqb op ":>=:".

Definition emptyParams : params node := mkParams [] [] [] [].

(** [containsCalculusOperations(expr)] *)
Fixpoint containsCalculusOperations (expr : node) : bool :=
  match expr with
  | Derivative _ _ _ _ _ | Integral _ _ _ _ _ => true
  | UserIdentifier n =>
      if String.eqb n "" then false else JsString.includes "'"%char n
  | BinaryOperation _ l r | Pipe l r | ExplicitPipe l r | MapPipe l r
  | Filter l r | Reduce l r =>
      containsCalculusOperations l || containsCalculusOperations r
  | FunctionCall f _ => containsCalculusOperations f
  | Tuple els | Array els | SetNode els | MapNode els | System els =>
      existsb containsCalculusOperations els
  | _ => false
  end.

(** [parseParameterFromArg(arg, inKeywordSection)]: the parameter and the
    condition ([null] when there is none). *)
Definition parseParameterFromArg (arg : node) : param node * option node :=
  match asBinary ":=" arg, asBinary "?" arg with
  | Some (l, r), _ =>
      let nm := js_or (node_name l) (node_value l) in
      match asBinary "?" r with
      | Some (rl, rr) => (mkParam nm (Some rl), Some rr)
      | None => (mkParam nm (Some r), None)
      end
  | None, Some (l, r) =>
      (mkParam (js_or (node_name l) (node_value l)) None, Some r)
  | None, None =>
      if isUserIdentifier arg
      then (mkParam (js_or (node_name arg) (node_value arg)) None, None)
      else (mkParam JNull None, None)
  end.

(** [convertArgsToParams(args)], on the [{positional, keyword}] shape that
    [parseFunctionCallArgs] builds. *)
Definition convertArgsToParams (args : callArgs node) : params node :=
  let fromPositional :=
    fold_left
      (fun (ps : params node) (arg : node) =>
         let '(prm, condition) := parseParameterFromArg arg in
         mkParams (positional ps ++ [prm]) (keyword ps)
           (match condition with
            | Some c => conditionals ps ++ [c]
            | None => conditionals ps
            end)
           (metadata ps))
      (args_positional args) emptyParams in
  fold_left
    (fun (ps : params node) (entry : string * node) =>
       let '(key, value) := entry in
       match asBinary "?" value with
       | Some (l, r) =>
           mkParams (positional ps)
             (keyword ps ++ [mkParam (JStr key) (Some l)])
             (conditionals ps ++ [r]) (metadata ps)
       | None =>
           mkParams (positional ps)
             (keyword ps ++ [mkParam (JStr key) (Some value)])
             (conditionals ps) (metadata ps)
       end)
    (args_keyword args) fromPositional.

(** *** Arrow lowering (the tail of the [->] and [:=>] branches of
    [parseInfix], after the right operand has been parsed) *)

(** The node built for [left -> right]. *)
Definition lowerArrow (left right : node) : node :=
  match left with
  | Grouping (ParameterList ps) => FunctionLambda ps right
  | Grouping e =>
      let parameters :=
        match e with
        | UserIdentifier n =>
            mkParams [mkParam (JStr n) None] [] [] []
        | _ =>
            match asBinary "?" e with
            | Some (l, r) =>
                mkParams [mkParam (js_or (node_name l) (node_value l)) None]
                  [] [r] []
            | None => emptyParams
            end
        end in
      FunctionLambda parameters right
  | Tuple els =>
      let names :=
        flat_map
          (fun element =>
             match element with
             | UserIdentifier n => [mkParam (JStr n) None]
             | _ => []
             end) els in
      FunctionLambda (mkParams names [] [] []) right
  | _ => BinaryOperation "->" left right
  end.

(** [rawPatterns] and [globalMetadata] for the right operand of [:=>]. *)
Definition rawPatternsOf (right : node) : list node * list (string * node) :=
  match right with
  | Array els => (els, [])
  | WithMetadata (Array els) meta =>
      match els with
      | Array inner :: _ => (inner, meta)
      | _ => (els, meta)
      end
  | _ => ([right], [])
  end.

(** One pass of [for (const pattern of rawPatterns)]: the pattern pushed for
    this entry, if any. *)
Definition patternOf (pattern : node) : option (patternFunc node) :=
  match pattern with
  | FunctionLambda ps b => Some (mkPattern ps b)
  | _ =>
      match asBinary "->" pattern with
      | Some (l, r) =>
          let parameters :=
            match l with
            | Grouping paramExpr =>
                match asBinary "?" paramExpr with
                | Some (pl, pr) =>
                    mkParams
                      [mkParam (js_or (node_name pl) (node_value pl)) None]
                      [] [pr] []
                | None =>
                    match paramExpr with
                    | UserIdentifier n =>
                        mkParams
                          [mkParam (js_or (JStr n) JUndefined) None] [] [] []
                    | _ => emptyParams
                    end
                end
            | _ => emptyParams
            end in
          Some (mkPattern parameters r)
      | None => None
      end
  end.

Definition lowerPatterns (rawPatterns : list node) : list (patternFunc node) :=
  flat_map
    (fun pattern =>
       match patternOf pattern with
       | Some pf => [pf]
       | None => []
       end) rawPatterns.

(** The node built for [left :=> right]. *)
Definition lowerPatternMatching (left right : node) : node :=
  let '(funcName, parameters) :=
    match left with
    | FunctionCall f args => (f, convertArgsToParams args)
    | _ => (left, emptyParams)
    end in
  let '(rawPatterns, globalMetadata) := rawPatternsOf right in
  PatternMatchingFunction funcName parameters (lowerPatterns rawPatterns)
    globalMetadata.

(** The node built for [left :-> right]. *)
Definition lowerFunctionDefinition (left right : node) : node :=
  match left with
  | FunctionCall f args => FunctionDefinition f (convertArgsToParams args) right
  | _ => FunctionDefinition left emptyParams right
  end.

(** *** The embedded-language header parser *)

(** The scan [for (let i = parenStart; i < s.length; i++)] that looks for the
    parenthesis closing the one at [parenStart]; [s] is the text from index
    [i] on.  Returns [parenEnd], or [-1]. *)
Fixpoint matchParen (s : string) (i : Z) (parenCount : Z) : Z :=
  match s with
  | EmptyString => -1
  | String c s' =>
      if Ascii.eqb c "("%char then matchParen s' (i + 1) (parenCount + 1)
      else if Ascii.eqb c ")"%char then
        if parenCount - 1 =? 0 then i
        else matchParen s' (i + 1) (parenCount - 1)
      else matchParen s' (i + 1) parenCount
  end.

Definition findParenEnd (s : string) (parenStart : Z) : Z :=
  matchParen (JsString.sliceFrom s parenStart) parenStart 0.

(** The index of the header colon ([colonIndex] when the header is cut). *)
Definition headerColonIndex (content : string) : Z :=
  let parenStart := JsString.indexOf "("%char content in
  let colonIndex :=
    if negb (parenStart =? -1) then
      let parenEnd := findParenEnd content parenStart in
      if negb (parenEnd =? -1) then
        let afterParens := JsString.sliceFrom content (parenEnd + 1) in
        let colonAfterParens := JsString.indexOf ":"%char afterParens in
        if negb (colonAfterParens =? -1)
        then parenEnd + 1 + colonAfterParens
        else -1
      else -1
    else -1 in
  if colonIndex =? -1 then JsString.indexOf ":"%char content else colonIndex.

(** [header] and [body] as cut at the header colon. *)
Definition splitHeader (content : string) : string * string :=
  let colonIndex := headerColonIndex content in
  (JsString.trim (JsString.slice content 0 colonIndex),
   JsString.sliceFrom content (colonIndex + 1)).

Definition nonEmpty (s : string) : option string :=
  if String.eqb s "" then None else Some s.

(** The header analysis: [(language, context)] or the error thrown. *)
Definition parseHeader (header : string)
  : result (option string * option string) :=
  let headerParenStart := JsString.indexOf "("%char header in
  let headerParenEnd := JsString.lastIndexOf ")"%char header in
  if negb (headerParenEnd =? -1) && (headerParenStart =? -1) then
    Error "Unmatched closing parenthesis in embedded language header"
  else if negb (headerParenStart =? -1) then
    let parenEnd := findParenEnd header headerParenStart in
    if parenEnd =? -1 then
      Error "Unmatched opening parenthesis in embedded language header"
    else if negb (parenEnd =? JsString.length header - 1) then
      Error "Invalid embedded language header format. Expected: LANGUAGE(CONTEXT):BODY"
    else
      let afterCloseParen := JsString.sliceFrom header (parenEnd + 1) in
      if JsString.includes "("%char afterCloseParen then
        Error "Multiple parenthetical groups not allowed in embedded language header"
      else
        Ok (nonEmpty (JsString.trim (JsString.slice header 0 headerParenStart)),
            Some (JsString.trim
                    (JsString.slice header (headerParenStart + 1) parenEnd)))
  else Ok (nonEmpty header, None).

(** [parseEmbeddedLanguage(token)], as a function of [token.value]. *)
Definition parseEmbeddedLanguage (content : string) : result node :=
  if JsString.startsWith ":"%char content
     || (JsString.indexOf ":"%char content =? -1) then
    let body :=
      if JsString.startsWith ":"%char content
      then JsString.sliceFrom content 1 else content in
    Ok (EmbeddedLanguage (Some "RiX-String") None body)
  else
    let '(header, body) := splitHeader content in
    match parseHeader header with
    | Ok (language, context) => Ok (EmbeddedLanguage language context body)
    | Error e => Error e
    | OutOfFuel => OutOfFuel
    end.

(** Lifts a pure, possibly failing computation into the parser monad. *)
Definition liftResult {A} (r : result A) : M A :=
  fun p =>
    match r with
    | Ok a => Ok (a, p)
    | Error e => Error e
    | OutOfFuel => OutOfFuel
    end.

(** ** The parser methods *)

(** The loop variables of [parseMatrixOrArray]. *)
Record arrayState := mkArrayState {
  arr_elements : list node;
  hasMetadata : bool;
  primaryElement : option node;
  metadataMap : list (string * node);
  nonMetadataCount : Z;
  arr_hasSemicolons : bool;
  matrixStructure : list (structureEntry node);
  currentRow : list node
}.

Definition arrayState0 : arrayState :=
  mkArrayState [] false None [] 0 false [] [].

(** The loop variables of [parseBraceContainer]. *)
Record braceState := mkBraceState {
  brace_elements : list node;
  hasAssignments : bool;
  hasPatternMatches : bool;
  hasEquations : bool;
  brace_hasSemicolons : bool
}.

Definition braceState0 : braceState := mkBraceState [] false false false false.

(** The result of [parseCalculusParentheses]. *)
Record parenResult := mkParenResult {
  isEvaluation : bool;
  content : list node
}.

Section Methods.

(** The host's oracle. *)
Variable systemLookup : string -> systemInfo.

(** [getSymbolInfo(token)] *)
Definition getSymbolInfo (t : token) : symbolEntry :=
  let operand := Entry (mkInfo 0 None "operand") in
  match tok_type t with
  | TSymbol =>
      match lookupSymbol (tok_value t) with
      | Some info => info
      | None => Entry (mkInfo 0 None "unknown")
      end
  | TSemicolonSequence => Entry (mkInfo 0 None "separator")
  | TIdentifier =>
      if kind_is t "System" then
        let systemInfo := systemLookup (tok_value t) in
        if String.eqb (sys_type systemInfo) "operator" then
          Entry
            (mkInfo
               (match sys_precedence systemInfo with
                | Some z => if z =? 0 then PRECEDENCE.MULTIPLICATION else z
                | None => PRECEDENCE.MULTIPLICATION
                end)
               (match sys_associativity systemInfo with
                | Some a => if String.eqb a "" then Some "left" else Some a
                | None => Some "left"
                end)
               (match sys_operatorType systemInfo with
                | Some o => if String.eqb o "" then "infix" else o
                | None => "infix"
                end))
        else operand
      else operand
  | _ => operand
  end.

(** [consumeSemicolonSequence()] *)
Definition consumeSemicolonSequence : M Z :=
  cur <- getCurrent ;;
  if type_is cur TSemicolonSequence then advance ;; ret (tok_count cur)
  else if value_is cur ";" then advance ;; ret 1
  else ret 0.

Definition isSemicolonToken (t : token) : bool :=
  value_is t ";" || type_is t TSemicolonSequence.

(** [parseVariableList()] *)
Definition parseVariableList (fuel : nat) : M (list string) :=
  cur <- getCurrent ;;
  if negb (value_is cur "]") then
    do_while fuel (fun _ _ => true)
      (fun variables =>
         cur <- getCurrent ;;
         variables <-
           (if type_is cur TIdentifier
            then advance ;; ret (variables ++ [tok_value cur])
            else error "Expected variable name in variable list") ;;
         cur <- getCurrent ;;
         if value_is cur "," then advance ;; ret (Next, variables)
         else if value_is cur "]" then ret (Break, variables)
         else error "Expected comma or closing bracket in variable list")
      []
  else ret [].

Section Knot.

(** The recursive calls: [parseExpression] on the remaining fuel. *)
Variable parseExpression : Z -> M node.
Variable fuel : nat.

(** [parseTupleElement()] *)
Definition parseTupleElement : M node := parseExpression 0.

(** [parseTupleElements()] *)
Definition parseTupleElements : M (list node) :=
  firstElement <- parseTupleElement ;;
  while_ fuel (fun _ cur => value_is cur ",")
    (fun elements =>
       advance ;;
       cur <- getCurrent ;;
       if value_is cur "," || value_is cur ")" then
         if value_is cur ","
         then error "Consecutive commas not allowed in tuples"
         else ret (Break, elements)
       else
         element <- parseTupleElement ;;
         ret (Next, elements ++ [element]))
    [firstElement].

(** [parseFunctionParameter(isKeywordOnly)] *)
Definition parseFunctionParameter (isKeywordOnly : bool) : M (param node) :=
  cur <- getCurrent ;;
  name <-
    (if type_is cur TIdentifier && kind_is cur "User"
     then advance ;; ret (JStr (tok_value cur))
     else error "Expected parameter name") ;;
  cur <- getCurrent ;;
  defaultValue <-
    (if value_is cur ":=" then
       advance ;;
       e <- parseExpression (PRECEDENCE.ASSIGNMENT + 1) ;;
       ret (Some e)
     else ret None) ;;
  match isKeywordOnly, defaultValue with
  | true, None => error "Keyword-only parameters must have default values"
  | _, _ => ret (mkParam name defaultValue)
  end.

(** One pass of the [while] body of [parseFunctionParameters]; the loop
    variables are [params] and [inKeywordSection]. *)
Definition parseFunctionParameters_body (s : params node * bool)
  : M (flow * (params node * bool)) :=
  let '(ps, inKeywordSection) := s in
  cur <- getCurrent ;;
  if value_is cur ";" then advance ;; ret (Next, (ps, true))
  else
    prm <- parseFunctionParameter inKeywordSection ;;
    let ps :=
      if inKeywordSection : bool
      then mkParams (positional ps) (keyword ps ++ [prm])
             (conditionals ps) (metadata ps)
      else mkParams (positional ps ++ [prm]) (keyword ps)
             (conditionals ps) (metadata ps) in
    cur <- getCurrent ;;
    ps <-
      (if value_is cur "?" then
         advance ;;
         condition <- parseExpression (PRECEDENCE.CONDITION + 1) ;;
         ret (mkParams (positional ps) (keyword ps)
                (conditionals ps ++ [condition]) (metadata ps))
       else ret ps) ;;
    cur <- getCurrent ;;
    if value_is cur "," then
      advance ;; ret (Next, (ps, inKeywordSection))
    else if negb (value_is cur ")") && negb (value_is cur ";")
    then ret (Break, (ps, inKeywordSection))
    else ret (Next, (ps, inKeywordSection)).

(** [parseFunctionParameters()] *)
Definition parseFunctionParameters : M (params node) :=
  cur <- getCurrent ;;
  if value_is cur ")" then ret emptyParams
  else
    '(ps, _) <-
      while_ fuel (fun _ cur => notAt ")" cur)
        parseFunctionParameters_body (emptyParams, false) ;;
    ret ps.

(** [parseFunctionCallArgs()] *)
Definition parseFunctionCallArgs : M (callArgs node) :=
  cur <- getCurrent ;;
  if value_is cur ")" then ret (mkArgs [] [])
  else
    '(args, _) <-
      while_ fuel (fun _ cur => notAt ")" cur)
        (fun '(args, inKeywordSection) =>
           cur <- getCurrent ;;
           if value_is cur ";" then advance ;; ret (Next, (args, true))
           else
             args <-
               (if inKeywordSection : bool then
                  if type_is cur TIdentifier && kind_is cur "User" then
                    let keyName := tok_value cur in
                    advance ;;
                    cur <- getCurrent ;;
                    if value_is cur ":=" then
                      advance ;;
                      value <- parseExpression (PRECEDENCE.ASSIGNMENT + 1) ;;
                      ret (mkArgs (args_positional args)
                             (obj_set keyName value (args_keyword args)))
                    else
                      ret (mkArgs (args_positional args)
                             (obj_set keyName (UserIdentifier keyName)
                                (args_keyword args)))
                  else error "Expected identifier for keyword argument"
                else
                  e <- parseExpression 0 ;;
                  ret (mkArgs (args_positional args ++ [e])
                         (args_keyword args))) ;;
             cur <- getCurrent ;;
             if value_is cur "," then
               advance ;; ret (Next, (args, inKeywordSection))
             else if negb (value_is cur ")") && negb (value_is cur ";")
             then ret (Break, (args, inKeywordSection))
             else ret (Next, (args, inKeywordSection)))
        (mkArgs [] [], false) ;;
    ret args.

(** [parseGrouping()] *)
Definition parseGrouping : M node :=
  advance ;;
  cur <- getCurrent ;;
  if value_is cur ")" then advance ;; ret (Tuple [])
  else
    p <- getParser ;;
    let '(hasSemicolon, hasComma) :=
      scanGrouping (skipn (position p) (tokens p)) 0 false in
    result <-
      (if hasSemicolon : bool then
         ps <- parseFunctionParameters ;;
         ret (Grouping (ParameterList ps))
       else if hasComma : bool then
         elements <- parseTupleElements ;;
         ret (Tuple elements)
       else
         expr <- parseExpression 0 ;;
         ret (Grouping expr)) ;;
    cur <- getCurrent ;;
    if negb (value_is cur ")") then error "Expected closing parenthesis"
    else advance ;; ret result.

(** One pass of the [do ... while] body of [parseMatrixOrArray]. *)
Definition parseMatrixOrArray_body (s : arrayState) : M (flow * arrayState) :=
  cur <- getCurrent ;;
  if isSemicolonToken cur then
    (* leading separator: an empty row *)
    semicolonCount <- consumeSemicolonSequence ;;
    ret (Next,
         mkArrayState (arr_elements s) (hasMetadata s) (primaryElement s)
           (metadataMap s) (nonMetadataCount s) true
           (matrixStructure s ++ [mkEntry [] semicolonCount])
           (currentRow s))
  else
    element <- parseExpression 0 ;;
    s <-
      (match asBinary ":=" element with
       | Some (l, r) =>
           (if arr_hasSemicolons s
            then error "Cannot mix matrix/tensor syntax with metadata - use nested array syntax"
            else ret tt) ;;
           key <-
             (match l with
              | UserIdentifier n => ret n
              | SystemIdentifier n _ => ret n
              | StringNode v _ => ret v
              | _ => error "Metadata key must be an identifier or string"
              end) ;;
           ret (mkArrayState (arr_elements s) true (primaryElement s)
                  (obj_set key r (metadataMap s)) (nonMetadataCount s)
                  (arr_hasSemicolons s) (matrixStructure s) (currentRow s))
       | None =>
           let count := nonMetadataCount s + 1 in
           if hasMetadata s then
             error "Cannot mix array elements with metadata - use nested array syntax like [[1,2,3], key := value]"
           else
             ret (mkArrayState (arr_elements s ++ [element]) (hasMetadata s)
                    (if count =? 1 then Some element else primaryElement s)
                    (metadataMap s) count (arr_hasSemicolons s)
                    (matrixStructure s) (currentRow s ++ [element]))
       end) ;;
    cur <- getCurrent ;;
    if value_is cur "," then advance ;; ret (Next, s)
    else if isSemicolonToken cur then
      if hasMetadata s
      then error "Cannot mix matrix/tensor syntax with metadata"
      else
        semicolonCount <- consumeSemicolonSequence ;;
        ret (Next,
             mkArrayState (arr_elements s) (hasMetadata s)
               (primaryElement s) (metadataMap s) (nonMetadataCount s) true
               (matrixStructure s ++ [mkEntry (currentRow s) semicolonCount])
               [])
    else ret (Break, s).

(** The loop of [parseMatrixOrArray], from the initial loop variables. *)
Definition parseMatrixOrArray_loop : M arrayState :=
  cur <- getCurrent ;;
  if negb (value_is cur "]")
  then do_while fuel (fun _ cur => notAt "]" cur)
         parseMatrixOrArray_body arrayState0
  else ret arrayState0.

(** What [parseMatrixOrArray] does once its loop is over. *)
Definition parseMatrixOrArray_finish (s : arrayState) : M node :=
  let matrixStructure :=
    if negb (Nat.eqb (List.length (currentRow s)) 0) || arr_hasSemicolons s
    then matrixStructure s ++ [mkEntry (currentRow s) 0]
    else matrixStructure s in
  if hasMetadata s && (1 <? nonMetadataCount s) then
    error "Cannot mix array elements with metadata - use nested array syntax like [[1,2,3], key := value]"
  else if hasMetadata s then
    ret (WithMetadata
           (match primaryElement s with
            | Some e => e
            | None => Array []
            end)
           (metadataMap s))
  else if arr_hasSemicolons s then ret (buildMatrixTensor matrixStructure)
  else ret (Array (arr_elements s)).

(** [parseMatrixOrArray(startToken)] *)
Definition parseMatrixOrArray : M node :=
  s <- parseMatrixOrArray_loop ;;
  parseMatrixOrArray_finish s.

(** [parseArray()] *)
Definition parseArray : M node :=
  advance ;;
  result <- parseMatrixOrArray ;;
  cur <- getCurrent ;;
  if negb (value_is cur "]") then error "Expected closing bracket"
  else advance ;; ret result.

(** One pass of the [do ... while] body of [parseBraceContainer]. *)
Definition parseBraceContainer_body (s : braceState) : M (flow * braceState) :=
  element <- parseExpression 0 ;;
  let elements := brace_elements s ++ [element] in
  s <-
    (match element with
     | PatternMatchingFunction _ _ _ _ =>
         error "Pattern matching should use array syntax [ ] with sequential evaluation, not brace syntax { }. Use format: name :=> [ pattern1, pattern2, ... ]"
     | BinaryOperation op _ _ =>
         if String.eqb op ":=" then
           ret (mkBraceState elements true (hasPatternMatches s)
                  (hasEquations s) (brace_hasSemicolons s))
         else if isEquationOperator op then
           ret (mkBraceState elements (hasAssignments s)
                  (hasPatternMatches s) true (brace_hasSemicolons s))
         else
           ret (mkBraceState elements (hasAssignments s)
                  (hasPatternMatches s) (hasEquations s)
                  (brace_hasSemicolons s))
     | _ =>
         ret (mkBraceState elements (hasAssignments s)
                (hasPatternMatches s) (hasEquations s)
                (brace_hasSemicolons s))
     end) ;;
  cur <- getCurrent ;;
  if value_is cur "," then advance ;; ret (Next, s)
  else if value_is cur ";" then
    advance ;;
    ret (Next,
         mkBraceState (brace_elements s) (hasAssignments s)
           (hasPatternMatches s) (hasEquations s) true)
  else ret (Break, s).

Definition parseBraceContainer_loop : M braceState :=
  cur <- getCurrent ;;
  if negb (value_is cur "}")
  then do_while fuel (fun _ cur => notAt "}" cur)
         parseBraceContainer_body braceState0
  else ret braceState0.

Definition isAssignmentPair (element : node) : bool :=
  match element with
  | BinaryOperation op _ _ => String.eqb op ":="
  | _ => false
  end.

Definition isEquation (element : node) : bool :=
  match element with
  | BinaryOperation op _ _ => isEquationOperator op
  | _ => false
  end.

(** The classification of [parseBraceContainer], after the closing brace
    has been consumed. *)
Definition parseBraceContainer_classify (s : braceState) : M node :=
  let elements := brace_elements s in
  if hasEquations s then
    if negb (brace_hasSemicolons s) then
      error "System containers must contain only equations with equation operators separated by semicolons"
    else if hasAssignments s || hasPatternMatches s then
      error "Cannot mix equations with other assignment types"
    else if forallb isEquation elements then ret (System elements)
    else error "System containers must contain only equations with equation operators"
  else if hasAssignments s then
    if forallb isAssignmentPair elements then ret (MapNode elements)
    else error "Map containers must contain only key-value pairs with :="
  else ret (SetNode elements).

(** [parseBraceContainer()] *)
Definition parseBraceContainer : M node :=
  advance ;;
  s <- parseBraceContainer_loop ;;
  cur <- getCurrent ;;
  if negb (value_is cur "}") then error "Expected closing brace"
  else advance ;; parseBraceContainer_classify s.

(** [parseCodeBlock()] *)
Definition parseCodeBlock : M node :=
  advance ;;
  cur <- getCurrent ;;
  statements <-
    (if negb (value_is cur "}}") then
       do_while fuel (fun _ cur => notAt "}}" cur)
         (fun statements =>
            statement <- parseExpression 0 ;;
            let statements := statements ++ [statement] in
            cur <- getCurrent ;;
            if value_is cur ";" then
              advance ;;
              cur <- getCurrent ;;
              if value_is cur "}}" then ret (Break, statements)
              else ret (Next, statements)
            else if value_is cur "}}" then ret (Break, statements)
            else if type_is cur TEnd then error "Expected closing }}"
            else ret (Break, statements))
         []
     else ret []) ;;
  cur <- getCurrent ;;
  if negb (value_is cur "}}") then error "Expected closing }}"
  else advance ;; ret (CodeBlock statements).

(** [parseUnaryOperator()] *)
Definition parseUnaryOperator : M node :=
  operator <- getCurrent ;;
  advance ;;
  operand <- parseExpression PRECEDENCE.UNARY ;;
  ret (UnaryOperation (tok_value operator) operand).

(** [parseCalculusParentheses()] *)
Definition parseCalculusParentheses : M parenResult :=
  advance ;;
  r <-
    while_ fuel (fun _ cur => notAt ")" cur)
      (fun r =>
         expr <- parseExpression 0 ;;
         let r :=
           mkParenResult
             (if containsCalculusOperations expr then false
              else isEvaluation r)
             (content r ++ [expr]) in
         cur <- getCurrent ;;
         if value_is cur "," then advance ;; ret (Next, r)
         else ret (Break, r))
      (mkParenResult true []) ;;
  cur <- getCurrent ;;
  if negb (value_is cur ")") then error "Expected closing parenthesis"
  else advance ;; ret r.

(** The run of quote tokens that opens a derivative or an integral:
    [quotes.length]. *)
Definition collectQuotes : M nat :=
  while_ fuel (fun _ cur => value_is cur "'")
    (fun n => advance ;; ret (Next, S n)) O.

(** The optional [[v1, v2, ...]] after the quotes. *)
Definition parseBracketVariables : M (option (list string)) :=
  cur <- getCurrent ;;
  if value_is cur "[" then
    advance ;;
    variables <- parseVariableList fuel ;;
    cur <- getCurrent ;;
    if negb (value_is cur "]")
    then error "Expected closing bracket after variable list"
    else advance ;; ret (Some variables)
  else ret None.

(** The optional parenthesised list: [(evaluation, operations)]. *)
Definition parseEvaluationOrOperations
  : M (option (list node) * option (list node)) :=
  cur <- getCurrent ;;
  if value_is cur "(" then
    r <- parseCalculusParentheses ;;
    if isEvaluation r then ret (Some (content r), None)
    else ret (None, Some (content r))
  else ret (None, None).

(** [parseDerivative(left)] *)
Definition parseDerivative (left : node) : M node :=
  order <- collectQuotes ;;
  variables <- parseBracketVariables ;;
  '(evaluation, operations) <- parseEvaluationOrOperations ;;
  ret (Derivative left order variables evaluation operations).

(** [parseIntegral()] *)
Definition parseIntegral : M node :=
  order <- collectQuotes ;;
  cur <- getCurrent ;;
  func <-
    (if type_is cur TIdentifier then
       let func :=
         if kind_is cur "System"
         then SystemIdentifier (tok_value cur) (systemLookup (tok_value cur))
         else UserIdentifier (tok_value cur) in
       advance ;; ret func
     else error "Expected function name after integral operator") ;;
  variables <- parseBracketVariables ;;
  '(evaluation, operations) <- parseEvaluationOrOperations ;;
  ret (Integral func order variables evaluation operations).

(** [parsePrefix()] *)
Definition parsePrefix : M node :=
  tok <- getCurrent ;;
  match tok_type tok with
  | TNumber => advance ;; ret (Number (tok_value tok))
  | TString =>
      advance ;;
      if kind_is tok "backtick"
      then liftResult (parseEmbeddedLanguage (tok_value tok))
      else ret (StringNode (tok_value tok) (tok_kind tok))
  | TIdentifier =>
      advance ;;
      if kind_is tok "System"
      then ret (SystemIdentifier (tok_value tok)
                  (systemLookup (tok_value tok)))
      else ret (UserIdentifier (tok_value tok))
  | TPlaceHolder => advance ;; ret (PlaceHolder (tok_place tok))
  | TSymbol =>
      if value_is tok "(" then parseGrouping
      else if value_is tok "[" then parseArray
      else if value_is tok "{" then parseBraceContainer
      else if value_is tok "{{" then parseCodeBlock
      else if value_is tok "+" || value_is tok "-" then parseUnaryOperator
      else if value_is tok "'" then parseIntegral
      else if value_is tok "_" then advance ;; ret NULL
      else error ("Unexpected symbol: " ++ tok_value tok)%string
  | TSemicolonSequence | TEnd =>
      error ("Unexpected token: " ++ token_type_name (tok_type tok))%string
  end.

(** [rightPrec] of [parseInfix], as [parseExpression(rightPrec)] receives it:
    one more than the operator's precedence when it is left-associative; on
    an inherited member [rightPrec] is undefined, and [parseExpression] then
    takes its default [minPrec = 0]. *)
Definition rightPrecedence (symbolInfo : symbolEntry) : Z :=
  match symbolInfo with
  | Entry info =>
      match associativity info with
      | Some a =>
          if String.eqb a "left" then precedence info + 1
          else precedence info
      | None => precedence info
      end
  | Inherited => 0
  end.

(** [parseInfix(left, symbolInfo)] *)
Definition parseInfix (left : node) (symbolInfo : symbolEntry) : M node :=
  operator <- getCurrent ;;
  if value_is operator "(" && isIdentifierNode left then
    advance ;;
    args <- parseFunctionCallArgs ;;
    cur <- getCurrent ;;
    if negb (value_is cur ")")
    then error "Expected closing parenthesis in function call"
    else advance ;; ret (FunctionCall left args)
  else
    advance ;;
    let rightPrec := rightPrecedence symbolInfo in
    if value_is operator "["
       && typeIs symbolInfo "postfix" then
      right <- parseExpression 0 ;;
      cur <- getCurrent ;;
      if negb (value_is cur "]") then error "Expected closing bracket"
      else advance ;; ret (PropertyAccess left right)
    else if value_is operator ":->" then
      right <- parseExpression rightPrec ;;
      ret (lowerFunctionDefinition left right)
    else if value_is operator ":=>" then
      right <- parseExpression rightPrec ;;
      ret (lowerPatternMatching left right)
    else if value_is operator "->" then
      right <- parseExpression rightPrec ;;
      ret (lowerArrow left right)
    else if value_is operator "|>" then
      right <- parseExpression rightPrec ;;
      ret (Pipe left right)
    else if value_is operator "||>" then
      right <- parseExpression rightPrec ;;
      ret (ExplicitPipe left right)
    else if value_is operator "|>>" then
      right <- parseExpression rightPrec ;;
      ret (MapPipe left right)
    else if value_is operator "|>?" then
      right <- parseExpression rightPrec ;;
      ret (Filter left right)
    else if value_is operator "|>:" then
      right <- parseExpression rightPrec ;;
      ret (Reduce left right)
    else
      right <- parseExpression rightPrec ;;
      ret (BinaryOperation (tok_value operator) left right).

(** The expression terminators, which are never consumed. *)
Definition isTerminator (cur : token) : bool :=
  value_is cur ";" || value_is cur "," || value_is cur ")"
  || value_is cur "]" || value_is cur "}" || value_is cur "}}"
  || type_is cur TSemicolonSequence.

Definition isCommentToken (cur : token) : bool :=
  type_is cur TString && kind_is cur "comment".

(** The node kinds after which a quote is a postfix derivative. *)
Definition takesDerivative (left : node) : bool :=
  match left with
  | UserIdentifier _ | SystemIdentifier _ _ | FunctionCall _ _
  | PropertyAccess _ _ | Derivative _ _ _ _ _ | Integral _ _ _ _ _ => true
  | _ => false
  end.

(** The body of [parseExpression(minPrec)]; the recursive calls of the
    methods above go to [parseExpression] on less fuel. *)
Definition parseExpression_body (minPrec : Z) : M node :=
  left <- parsePrefix ;;
  while_ fuel (fun _ cur => negb (type_is cur TEnd))
    (fun left =>
       cur <- getCurrent ;;
       if isTerminator cur then ret (Break, left)
       else if isCommentToken cur then ret (Break, left)
       else if value_is cur "(" && isIdentifierNode left then
         left <- parseInfix left
                   (Entry (mkInfo PRECEDENCE.POSTFIX None "postfix")) ;;
         ret (Next, left)
       else if value_is cur "'" && takesDerivative left then
         left <- parseDerivative left ;;
         ret (Next, left)
       else
         let symbolInfo := getSymbolInfo cur in
         if precedenceBelow symbolInfo minPrec then ret (Break, left)
         else if typeIs symbolInfo "statement"
                 || typeIs symbolInfo "separator"
         then ret (Break, left)
         else
           left <- parseInfix left symbolInfo ;;
           ret (Next, left))
    left.

End Knot.

(** [parseExpression(minPrec)]: each level of method recursion uses one
    unit of fuel, and a loop of a method run at [S fuel'] may take up to
    [S fuel'] passes. *)
Fixpoint parseExpression (fuel : nat) (minPrec : Z) : M node :=
  match fuel with
  | O => fun _ => OutOfFuel
  | S fuel' => parseExpression_body (parseExpression fuel') fuel minPrec
  end.

(** [parseStatement()]; [None] is the [null] returned at the end of the
    input. *)
Definition parseStatement (fuel : nat) : M (option node) :=
  cur <- getCurrent ;;
  if type_is cur TEnd then ret None
  else if isCommentToken cur then
    advance ;; ret (Some (Comment (tok_value cur) (tok_kind cur)))
  else
    expr <- parseExpression fuel 0 ;;
    cur <- getCurrent ;;
    if value_is cur ";" then advance ;; ret (Some (Statement expr))
    else ret (Some expr).

(** [Parser.parse()] *)
Definition parseProgram (fuel : nat) : M (list node) :=
  while_ fuel (fun _ cur => negb (type_is cur TEnd))
    (fun statements =>
       cur <- getCurrent ;;
       if isCommentToken cur then
         advance ;;
         ret (Next, statements ++ [Comment (tok_value cur) (tok_kind cur)])
       else
         stmt <- parseStatement fuel ;;
         match stmt with
         | Some n => ret (Next, statements ++ [n])
         | None => ret (Next, statements)
         end)
    [].

(** The exported [parse(tokens, systemLookup)]. *)
Definition parse (fuel : nat) (ts : list token) : result (list node) :=
  match parseProgram fuel (newParser ts) with
  | Ok (statements, _) => Ok statements
  | Error e => Error e
  | OutOfFuel => OutOfFuel
  end.

End Methods.

(** ** Predicates over whole trees *)

Section Every.

(** [P] is asked of every node of a tree and [Q] of every parameter
    specification in it. *)
Variable P : node -> bool.
Variable Q : params node -> bool.

Definition jsv_every (f : node -> bool) (v : jsv node) : bool :=
  match v with
  | JNode n => f n
  | _ => true
  end.

Definition option_every (f : node -> bool) (o : option node) : bool :=
  match o with
  | Some n => f n
  | None => true
  end.

Definition param_every (f : node -> bool) (prm : param node) : bool :=
  jsv_every f (name prm) && option_every f (defaultValue prm).

Definition object_every (f : node -> bool) (o : list (string * node)) : bool :=
  forallb (fun kv => f (snd kv)) o.

Definition params_every (f : node -> bool) (ps : params node) : bool :=
  Q ps
  && forallb (param_every f) (positional ps)
  && forallb (param_every f) (keyword ps)
  && forallb f (conditionals ps)
  && object_every f (metadata ps).

Definition args_every (f : node -> bool) (args : callArgs node) : bool :=
  forallb f (args_positional args) && object_every f (args_keyword args).

Definition list_option_every (f : node -> bool) (o : option (list node))
  : bool :=
  match o with
  | Some l => forallb f l
  | None => true
  end.

Fixpoint every (n : node) : bool :=
  P n
  && match n with
     | Number _ | StringNode _ _ | UserIdentifier _ | SystemIdentifier _ _
     | PlaceHolder _ | NULL | EmbeddedLanguage _ _ _ | Comment _ _ => true
     | UnaryOperation _ e | Grouping e | Statement e => every e
     | BinaryOperation _ l r | Pipe l r | ExplicitPipe l r | MapPipe l r
     | Filter l r | Reduce l r | PropertyAccess l r => every l && every r
     | Tuple els | Array els | SetNode els | MapNode els | System els
     | CodeBlock els => forallb every els
     | Matrix rows => forallb (forallb every) rows
     | Tensor st _ => forallb (fun e => forallb every (row e)) st
     | WithMetadata e md => every e && object_every every md
     | FunctionCall f args => every f && args_every every args
     | FunctionDefinition f ps b =>
         every f && params_every every ps && every b
     | FunctionLambda ps b => params_every every ps && every b
     | PatternMatchingFunction f ps pats md =>
         every f && params_every every ps
         && forallb
              (fun pf => params_every every (pat_parameters pf)
                         && every (pat_body pf)) pats
         && object_every every md
     | ParameterList ps => params_every every ps
     | Derivative f _ _ ev ops | Integral f _ _ ev ops =>
         every f && list_option_every every ev && list_option_every every ops
     end.

End Every.

Definition isStatement (n : node) : bool :=
  match n with
  | Statement _ => true
  | _ => false
  end.

Definition hasDefault (prm : param node) : bool :=
  match defaultValue prm with
  | Some _ => true
  | None => false
  end.

(** No [Statement] node anywhere in the tree. *)
Definition noStatement : node -> bool :=
  every (fun n => negb (isStatement n)) (fun _ => true).

(** Every keyword entry of a parameter specification has a default. *)
Definition keywordDefaults (ps : params node) : bool :=
  forallb hasDefault (keyword ps).

(** Every parameter specification of the tree satisfies [keywordDefaults]. *)
Definition allKeywordDefaults : node -> bool :=
  every (fun _ => true) keywordDefaults.

(** ** Definitions used by the statements

    Invariants of the loops, the inputs of the examples, and the shapes that
    the claims speak of. *)

(** [post m Q]: whenever [m] returns a value, the value satisfies [Q]. *)
Definition post {A} (m : M A) (Q : A -> Prop) : Prop :=
  forall p a p', m p = Ok (a, p') -> Q a.

(** The invariant of the parameter loops, for a predicate [ok] on nodes. *)
Definition paramsInv (ok : node -> bool) (ps : params node) : Prop :=
  forallb (param_every ok) (positional ps) = true
  /\ forallb (param_every ok) (keyword ps) = true
  /\ forallb hasDefault (keyword ps) = true
  /\ forallb ok (conditionals ps) = true
  /\ object_every ok (metadata ps) = true.

Definition pattern_ok (Q : params node -> bool) (ok : node -> bool)
  (pf : patternFunc node) : bool :=
  params_every Q ok (pat_parameters pf) && ok (pat_body pf).

(** The invariant of the array loop, for a predicate [ok] on nodes. *)
Definition arrayInv (ok : node -> bool) (s : arrayState) : Prop :=
  forallb ok (arr_elements s) = true
  /\ option_every ok (primaryElement s) = true
  /\ object_every ok (metadataMap s) = true
  /\ forallb (fun e => forallb ok (row e)) (matrixStructure s) = true
  /\ forallb ok (currentRow s) = true.

(** ** Example inputs *)

(** The oracle of the repository's test-suite ([testSystemLookup]), without
    the [arity] and [value] fields, which the parser does not read. *)
Definition testSystemLookup (name : string) : systemInfo :=
  let function := mkSystemInfo "function" None None None in
  let constant := mkSystemInfo "constant" None None None in
  let operator p a t := mkSystemInfo "operator" (Some p) a (Some t) in
  if existsb (String.eqb name) ["SIN"; "COS"; "TAN"; "LOG"; "MAX"; "MIN"]
  then function
  else if existsb (String.eqb name) ["PI"; "E"] then constant
  else if String.eqb name "AND" then operator 40 (Some "left") "infix"
  else if String.eqb name "OR" then operator 30 (Some "left") "infix"
  else if String.eqb name "NOT" then operator 110 None "prefix"
  else if String.eqb name "IN" then operator 60 (Some "left") "infix"
  else if String.eqb name "UNION" then operator 50 (Some "left") "infix"
  else mkSystemInfo "identifier" None None None.

(** Tokens as the tokenizer hands them over. *)
Module Tok.
Definition sym (v : string) : token := mkToken TSymbol v "" 0 0.
Definition num (v : string) : token := mkToken TNumber v "" 0 0.
Definition ident (v : string) : token := mkToken TIdentifier v "User" 0 0.
Definition sys (v : string) : token := mkToken TIdentifier v "System" 0 0.
Definition str (v : string) : token := mkToken TString v "quote" 0 0.
Definition backtick (v : string) : token := mkToken TString v "backtick" 0 0.
Definition semicolons (n : Z) : token := mkToken TSemicolonSequence "" "" 0 n.
End Tok.
Import Tok.

(** What the top-level loop may emit: a comment, a [Statement] wrapping a
    statement-free expression, or a statement-free expression. *)
Definition topLevelShape (n : node) : Prop :=
  match n with
  | Statement e => noStatement e = true
  | _ => noStatement n = true
  end.

(** [(x; a := 0) -> x] *)
Definition keywordLambdaTokens : list token :=
  [sym "("; ident "x"; sym ";"; ident "a"; sym ":="; num "0"; sym ")"; sym "->";
   ident "x"].

Definition keywordLambdaParams : params node :=
  mkParams [mkParam (JStr "x") None] [mkParam (JStr "a") (Some (Number "0"))]
    [] [].

(** [{{ a := {{ 3 }} }};] *)
Definition nestedBlockTokens : list token :=
  [sym "{{"; ident "a"; sym ":="; sym "{{"; num "3"; sym "}}"; sym "}}"; sym ";"].

Definition nestedBlock : node :=
  CodeBlock [BinaryOperation ":=" (UserIdentifier "a") (CodeBlock [Number "3"])].

(** The names of the [UserIdentifier] elements of a tuple, in order. *)
Definition userIdentifierNames (elements : list node) : list string :=
  flat_map
    (fun element =>
       match element with
       | UserIdentifier n => [n]
       | _ => []
       end) elements.

Definition positionalOnly (names : list string) : params node :=
  mkParams (map (fun n => mkParam (JStr n) None) names) [] [] [].

(** The left operands for which the claim promises a [FunctionLambda]. *)
Definition claimedLambdaHead (left : node) : bool :=
  match left with
  | Grouping (ParameterList _) | Grouping (UserIdentifier _) => true
  | Grouping (BinaryOperation op _ _) => String.eqb op "?"
  | Tuple elements => forallb isUserIdentifier elements
  | _ => false
  end.

Definition isGroupingOrTuple (left : node) : bool :=
  match left with
  | Grouping _ | Tuple _ => true
  | _ => false
  end.

(** The entries of a pattern array that become patterns. *)
Definition isLambdaShaped (entry : node) : bool :=
  match entry with
  | FunctionLambda _ _ => true
  | BinaryOperation op _ _ => String.eqb op "->"
  | _ => false
  end.

(** [[1, 2 ;; 3 ; ]], read from the token after the opening bracket. *)
Definition tensorTokens : list token :=
  [sym "["; num "1"; sym ","; num "2"; semicolons 2; num "3"; sym ";"; sym "]"].

(** What the flags of [parseBraceContainer] record about the elements. *)
Definition braceInv (s : braceState) : Prop :=
  hasEquations s = existsb isEquation (brace_elements s)
  /\ hasAssignments s = existsb isAssignmentPair (brace_elements s)
  /\ hasPatternMatches s = false.

(** [{x :=: 3*x + 2; y :=: x}] *)
Definition systemTokens : list token :=
  [sym "{"; ident "x"; sym ":=:"; num "3"; sym "*"; ident "x"; sym "+"; num "2";
   sym ";"; ident "y"; sym ":=:"; ident "x"; sym "}"].

(** [elements] holds the non-metadata elements in order; the counter and
    [primaryElement] follow it. *)
Definition metadataInv (s : arrayState) : Prop :=
  nonMetadataCount s = Z.of_nat (List.length (arr_elements s))
  /\ primaryElement s = hd_error (arr_elements s).

(** The keys that a metadata element may have. *)
Definition isMetadataKey (l : node) : bool :=
  match l with
  | UserIdentifier _ | SystemIdentifier _ _ | StringNode _ _ => true
  | _ => false
  end.

Definition mixMatrixNested : string :=
  "Cannot mix matrix/tensor syntax with metadata - use nested array syntax".
Definition mixMatrix : string :=
  "Cannot mix matrix/tensor syntax with metadata".
Definition mixElements : string :=
  "Cannot mix array elements with metadata - use nested array syntax like [[1,2,3], key := value]".

(** [[1, 2, 3, name := "invalid"]] and [[name := "config", version := 2]],
    read from the token after the opening bracket. *)
Definition mixedTokens : list token :=
  [sym "["; num "1"; sym ","; num "2"; sym ","; num "3"; sym ",";
   ident "name"; sym ":="; str "invalid"; sym "]"].

Definition configTokens : list token :=
  [sym "["; ident "name"; sym ":="; str "config"; sym ",";
   ident "version"; sym ":="; num "2"; sym "]"].




(** *** The content of a bracket container, as the loop reads it *)

(** What follows an element: a comma, a row separator (a [;] or a run of
    them, with the number of semicolons), or neither. *)
Inductive separator :=
| Comma
| Rows (count : Z)
| NoSeparator.

(** What one pass of the loop reads: a row separator where an element is
    expected, or an element and what follows it. *)
Inductive bracketItem :=
| LeadingRows (count : Z)
| Element (element : node) (sep : separator).

(** Whether all of the content has been read, or the loop is to go on. *)
Inductive progress :=
| Complete
| Partial.

(** The number of semicolons of a row separator token. *)
Definition separatorCount (t : token) : Z :=
  if type_is t TSemicolonSequence then tok_count t else 1.

(** [bracketReads pe items p e q]: from the state [p], the tokens read as
    [items], one after the other, the elements being the expressions that
    [pe 0] returns; [q] is the state after them.  With [Complete], the
    content ends there: at an element with no separator after it, or with
    the closing bracket or the end of the input after a separator.  With
    [Partial], more is to be read at [q]. *)
Fixpoint bracketReads (pe : Z -> M node) (items : list bracketItem)
  (p : Parser) (e : progress) (q : Parser) {struct items} : Prop :=
  match items with
  | [] => e = Partial /\ q = p
  | item :: rest =>
      let next (p1 : Parser) : Prop :=
        if notAt "]" (current p1) then bracketReads pe rest p1 e q
        else rest = [] /\ e = Complete /\ q = p1 in
      match item with
      | LeadingRows count =>
          isSemicolonToken (current p) = true
          /\ count = separatorCount (current p)
          /\ next (advanceParser p)
      | Element element sep =>
          isSemicolonToken (current p) = false
          /\ match pe 0 p with
             | Ok (element', p1) =>
                 element' = element
                 /\ match sep with
                    | Comma =>
                        value_is (current p1) "," = true
                        /\ next (advanceParser p1)
                    | Rows count =>
                        value_is (current p1) "," = false
                        /\ isSemicolonToken (current p1) = true
                        /\ count = separatorCount (current p1)
                        /\ next (advanceParser p1)
                    | NoSeparator =>
                        value_is (current p1) "," = false
                        /\ isSemicolonToken (current p1) = false
                        /\ rest = [] /\ e = Complete /\ q = p1
                    end
             | _ => False
             end
      end
  end.

(** The content of a bracket container whose first token is the current one
    of [p]: nothing, when that is the closing bracket. *)
Definition bracketContent (pe : Z -> M node) (items : list bracketItem)
  (p : Parser) (e : progress) (q : Parser) : Prop :=
  if value_is (current p) "]" then items = [] /\ e = Complete /\ q = p
  else bracketReads pe items p e q.

(** [key := value] *)
Definition isMetadata (element : node) : bool :=
  match asBinary ":=" element with
  | Some _ => true
  | None => false
  end.

Definition isRows (sep : separator) : bool :=
  match sep with
  | Rows _ => true
  | _ => false
  end.

(** The item has a row separator. *)
Definition isRowsItem (item : bracketItem) : bool :=
  match item with
  | LeadingRows _ => true
  | Element _ sep => isRows sep
  end.

(** The item is a metadata element. *)
Definition isMetadataItem (item : bracketItem) : bool :=
  match item with
  | LeadingRows _ => false
  | Element element _ => isMetadata element
  end.

Definition hasRows (items : list bracketItem) : bool :=
  existsb isRowsItem items.

Definition hasMetadataItem (items : list bracketItem) : bool :=
  existsb isMetadataItem items.

(** The elements that are not metadata, in the order of the input. *)
Fixpoint elementsOf (items : list bracketItem) : list node :=
  match items with
  | [] => []
  | LeadingRows _ :: rest => elementsOf rest
  | Element element _ :: rest =>
      if isMetadata element then elementsOf rest
      else element :: elementsOf rest
  end.

(** The text of a metadata key. *)
Definition metadataKey (l : node) : option string :=
  match l with
  | UserIdentifier n => Some n
  | SystemIdentifier n _ => Some n
  | StringNode v _ => Some v
  | _ => None
  end.

(** The metadata elements, entered into a map one after the other. *)
Fixpoint metadataFrom (m : list (string * node)) (items : list bracketItem)
  : list (string * node) :=
  match items with
  | [] => m
  | LeadingRows _ :: rest => metadataFrom m rest
  | Element element _ :: rest =>
      match asBinary ":=" element with
      | Some (l, r) =>
          match metadataKey l with
          | Some key => metadataFrom (obj_set key r m) rest
          | None => metadataFrom m rest
          end
      | None => metadataFrom m rest
      end
  end.

(** The rows that a row separator has closed, each with the level of its
    separator, [row] being the elements of the row that is open at the
    start: a separator after an element closes the open row, a separator
    where an element is expected adds an empty row and leaves the open row
    open. *)
Fixpoint closedRows (row : list node) (items : list bracketItem)
  : list (structureEntry node) :=
  match items with
  | [] => []
  | LeadingRows count :: rest => mkEntry [] count :: closedRows row rest
  | Element element sep :: rest =>
      let row' := if isMetadata element then row else row ++ [element] in
      match sep with
      | Rows count => mkEntry row' count :: closedRows [] rest
      | _ => closedRows row' rest
      end
  end.

(** The row that is open at the end. *)
Fixpoint openRow (row : list node) (items : list bracketItem) : list node :=
  match items with
  | [] => row
  | LeadingRows _ :: rest => openRow row rest
  | Element element sep :: rest =>
      let row' := if isMetadata element then row else row ++ [element] in
      match sep with
      | Rows _ => openRow [] rest
      | _ => openRow row' rest
      end
  end.

(** The rows of the content: the closed ones, then the open one at level
    0. *)
Definition structureOf (items : list bracketItem)
  : list (structureEntry node) :=
  closedRows [] items ++ [mkEntry (openRow [] items) 0].

(** The items can be read without an error, [semi] and [meta] telling
    whether a row separator and a metadata element have been read before
    them: no metadata element comes after a row separator, a metadata key is
    an identifier or a string, no row separator follows a metadata element
    directly, and no other element comes after a metadata element. *)
Fixpoint readable (semi meta : bool) (items : list bracketItem) : bool :=
  match items with
  | [] => true
  | LeadingRows _ :: rest => readable true meta rest
  | Element element sep :: rest =>
      match asBinary ":=" element with
      | Some (l, _) =>
          negb semi && isMetadataKey l && negb (isRows sep)
          && readable semi true rest
      | None => negb meta && readable (semi || isRows sep) meta rest
      end
  end.

(** The loop variables of [parseMatrixOrArray] once the items have been
    read from the state [s]. *)
Definition bracketState (s : arrayState) (items : list bracketItem)
  : arrayState :=
  let elements := arr_elements s ++ elementsOf items in
  mkArrayState elements (hasMetadata s || hasMetadataItem items)
    (hd_error elements) (metadataFrom (metadataMap s) items)
    (Z.of_nat (List.length elements)) (arr_hasSemicolons s || hasRows items)
    (matrixStructure s ++ closedRows (currentRow s) items)
    (openRow (currentRow s) items).

(** [[1, 2;; 3;]] *)
Definition tensorItems : list bracketItem :=
  [Element (Number "1") Comma; Element (Number "2") (Rows 2);
   Element (Number "3") (Rows 1)].



(** [[1; k := 2]], [[k := 2; 1]] and [[a := 1, 2]], up to the element at
    which the error is met. *)
Definition rowThenMetadataTokens : list token :=
  [sym "["; num "1"; sym ";"; ident "k"; sym ":="; num "2"; sym "]"].

Definition metadataThenRowTokens : list token :=
  [sym "["; ident "k"; sym ":="; num "2"; sym ";"; num "1"; sym "]"].

Definition metadataThenElementTokens : list token :=
  [sym "["; ident "a"; sym ":="; num "1"; sym ","; num "2"; sym "]"].

Definition mixedItems : list bracketItem :=
  [Element (Number "1") Comma; Element (Number "2") Comma;
   Element (Number "3") Comma;
   Element (BinaryOperation ":=" (UserIdentifier "name")
              (StringNode "invalid" "quote")) NoSeparator].

Definition configItems : list bracketItem :=
  [Element (BinaryOperation ":=" (UserIdentifier "name")
              (StringNode "config" "quote")) Comma;
   Element (BinaryOperation ":=" (UserIdentifier "version") (Number "2"))
     NoSeparator].

(** *** The content of a brace container, as the loop reads it *)

(** What follows an element of a brace container: a [,], a [;], or
    neither. *)
Inductive braceSeparator :=
| BraceComma
| BraceSemicolon
| BraceEnd.

(** [braceReads pe items p e q]: from the state [p], the tokens read as the
    elements of [items], each an expression that [pe 0] returns, with the
    separator that follows it; [q] is the state after them, and [e] tells
    whether the content ends there or more is to be read. *)
Fixpoint braceReads (pe : Z -> M node) (items : list (node * braceSeparator))
  (p : Parser) (e : progress) (q : Parser) {struct items} : Prop :=
  match items with
  | [] => e = Partial /\ q = p
  | (element, sep) :: rest =>
      let next (p1 : Parser) : Prop :=
        if notAt "}" (current p1) then braceReads pe rest p1 e q
        else rest = [] /\ e = Complete /\ q = p1 in
      match pe 0 p with
      | Ok (element', p1) =>
          element' = element
          /\ match sep with
             | BraceComma =>
                 value_is (current p1) "," = true /\ next (advanceParser p1)
             | BraceSemicolon =>
                 value_is (current p1) "," = false
                 /\ value_is (current p1) ";" = true
                 /\ next (advanceParser p1)
             | BraceEnd =>
                 value_is (current p1) "," = false
                 /\ value_is (current p1) ";" = false
                 /\ rest = [] /\ e = Complete /\ q = p1
             end
      | _ => False
      end
  end.

(** The content of a brace container whose first token is the current one
    of [p]: nothing, when that is the closing brace. *)
Definition braceContent (pe : Z -> M node)
  (items : list (node * braceSeparator)) (p : Parser) (e : progress)
  (q : Parser) : Prop :=
  if value_is (current p) "}" then items = [] /\ e = Complete /\ q = p
  else braceReads pe items p e q.

Definition isPatternMatchingFunction (n : node) : bool :=
  match n with
  | PatternMatchingFunction _ _ _ _ => true
  | _ => false
  end.

(** The element is followed by a [;]. *)
Definition isSemicolonItem (item : node * braceSeparator) : bool :=
  match snd item with
  | BraceSemicolon => true
  | _ => false
  end.

(** The loop variables of [parseBraceContainer] once the items have been
    read from the state [s]. *)
Definition braceStateAfter (s : braceState)
  (items : list (node * braceSeparator)) : braceState :=
  mkBraceState (brace_elements s ++ map fst items)
    (hasAssignments s || existsb isAssignmentPair (map fst items))
    (hasPatternMatches s)
    (hasEquations s || existsb isEquation (map fst items))
    (brace_hasSemicolons s || existsb isSemicolonItem items).

(** [{x :=: 3*x + 2; y :=: x}] as it is read. *)
Definition systemItems : list (node * braceSeparator) :=
  [(BinaryOperation ":=:" (UserIdentifier "x")
      (BinaryOperation "+"
         (BinaryOperation "*" (Number "3") (UserIdentifier "x")) (Number "2")),
    BraceSemicolon);
   (BinaryOperation ":=:" (UserIdentifier "y") (UserIdentifier "x"),
    BraceEnd)].

(** [{x :=: 1, y :=: 2}] and [{x :=: 1; a := 2}]: no semicolon, and an
    equation with an assignment. *)
Definition commaSystemTokens : list token :=
  [sym "{"; ident "x"; sym ":=:"; num "1"; sym ",";
   ident "y"; sym ":=:"; num "2"; sym "}"].

Definition commaSystemItems : list (node * braceSeparator) :=
  [(BinaryOperation ":=:" (UserIdentifier "x") (Number "1"), BraceComma);
   (BinaryOperation ":=:" (UserIdentifier "y") (Number "2"), BraceEnd)].

Definition mixedSystemTokens : list token :=
  [sym "{"; ident "x"; sym ":=:"; num "1"; sym ";";
   ident "a"; sym ":="; num "2"; sym "}"].

Definition mixedSystemItems : list (node * braceSeparator) :=
  [(BinaryOperation ":=:" (UserIdentifier "x") (Number "1"), BraceSemicolon);
   (BinaryOperation ":=" (UserIdentifier "a") (Number "2"), BraceEnd)].

(** *** A parameter list, as [parseFunctionParameters] reads it *)

(** What follows a parameter: a comma; a [)] or a [;], which is left to the
    next pass; or another token, at which the loop ends. *)
Inductive paramEnd :=
| ParamComma
| ParamLast
| ParamBreak.

(** What one pass of the loop reads: the [;] that opens the keyword
    section, or a parameter name with its default and its condition, if
    any, and what follows. *)
Inductive paramItem :=
| KeywordMark
| Param (name : string) (default : option node) (condition : option node)
    (ending : paramEnd).

(** An optional clause: after the token [text], an expression read at the
    precedence [prec]. *)
Definition readOptional (pe : Z -> M node) (text : string) (prec : Z)
  (p : Parser) : option (option node * Parser) :=
  if value_is (current p) text then
    match pe prec (advanceParser p) with
    | Ok (e, p') => Some (Some e, p')
    | _ => None
    end
  else Some (None, p).

(** [paramReads pe items p e q]: from the state [p], the tokens read as
    [items], one after the other, [q] being the state after them.  With
    [Complete] the list ends there: the loop test fails at [q], or the last
    parameter was followed by a token that ends the loop.  With [Partial]
    the loop goes on at [q]. *)
Fixpoint paramReads (pe : Z -> M node) (items : list paramItem) (p : Parser)
  (e : progress) (q : Parser) {struct items} : Prop :=
  match items with
  | [] =>
      q = p
      /\ notAt ")" (current p)
         = match e with Partial => true | Complete => false end
  | item :: rest =>
      notAt ")" (current p) = true
      /\ match item with
         | KeywordMark =>
             value_is (current p) ";" = true
             /\ paramReads pe rest (advanceParser p) e q
         | Param name default condition ending =>
             value_is (current p) ";" = false
             /\ type_is (current p) TIdentifier && kind_is (current p) "User"
                = true
             /\ name = tok_value (current p)
             /\ match readOptional pe ":=" (PRECEDENCE.ASSIGNMENT + 1)
                        (advanceParser p) with
                | Some (default', p2) =>
                    default' = default
                    /\ match readOptional pe "?" (PRECEDENCE.CONDITION + 1) p2
                       with
                       | Some (condition', p3) =>
                           condition' = condition
                           /\ match ending with
                              | ParamComma =>
                                  value_is (current p3) "," = true
                                  /\ paramReads pe rest (advanceParser p3) e q
                              | ParamLast =>
                                  value_is (current p3) "," = false
                                  /\ value_is (current p3) ")"
                                     || value_is (current p3) ";" = true
                                  /\ paramReads pe rest p3 e q
                              | ParamBreak =>
                                  value_is (current p3) "," = false
                                  /\ value_is (current p3) ")"
                                     || value_is (current p3) ";" = false
                                  /\ rest = [] /\ e = Complete /\ q = p3
                              end
                       | None => False
                       end
                | None => False
                end
         end
  end.

Definition isKeywordMark (item : paramItem) : bool :=
  match item with
  | KeywordMark => true
  | Param _ _ _ _ => false
  end.

(** The items before the first [;], and those after it. *)
Fixpoint beforeMark (items : list paramItem) : list paramItem :=
  match items with
  | [] => []
  | KeywordMark :: _ => []
  | item :: rest => item :: beforeMark rest
  end.

Fixpoint afterMark (items : list paramItem) : list paramItem :=
  match items with
  | [] => []
  | KeywordMark :: rest => rest
  | _ :: rest => afterMark rest
  end.

(** The parameters among the items, and the conditions. *)
Fixpoint paramsIn (items : list paramItem) : list (param node) :=
  match items with
  | [] => []
  | KeywordMark :: rest => paramsIn rest
  | Param name default _ _ :: rest =>
      mkParam (JStr name) default :: paramsIn rest
  end.

Fixpoint conditionsIn (items : list paramItem) : list node :=
  match items with
  | [] => []
  | Param _ _ (Some condition) _ :: rest => condition :: conditionsIn rest
  | _ :: rest => conditionsIn rest
  end.

(** The parameter specification of a list: the parameters before the first
    [;] are positional, all of those after it are keyword-only. *)
Definition paramsOf (items : list paramItem) : params node :=
  mkParams (paramsIn (beforeMark items)) (paramsIn (afterMark items))
    (conditionsIn items) [].

(** Every parameter that comes after a [;] has a default; [kw] tells
    whether a [;] precedes the items. *)
Fixpoint defaultsGiven (kw : bool) (items : list paramItem) : bool :=
  match items with
  | [] => true
  | KeywordMark :: rest => defaultsGiven true rest
  | Param _ default _ _ :: rest =>
      (negb kw || match default with Some _ => true | None => false end)
      && defaultsGiven kw rest
  end.

(** The loop variables of [parseFunctionParameters] once the items have
    been read from the state [s]. *)
Definition paramsAfter (s : params node * bool) (items : list paramItem)
  : params node * bool :=
  let '(ps, kw) := s in
  (mkParams
     (positional ps ++ (if kw then [] else paramsIn (beforeMark items)))
     (keyword ps ++ paramsIn (if kw then items else afterMark items))
     (conditionals ps ++ conditionsIn items) (metadata ps),
   kw || existsb isKeywordMark items).

(** [(x; a := 0, b := 1)] and [(x; a := 0, b)], from the token after the
    opening parenthesis. *)
Definition keywordPairTokens : list token :=
  [sym "("; ident "x"; sym ";"; ident "a"; sym ":="; num "0"; sym ",";
   ident "b"; sym ":="; num "1"; sym ")"].

Definition keywordPairItems : list paramItem :=
  [Param "x" None None ParamLast; KeywordMark;
   Param "a" (Some (Number "0")) None ParamComma;
   Param "b" (Some (Number "1")) None ParamLast].

Definition bareKeywordTokens : list token :=
  [sym "("; ident "x"; sym ";"; ident "a"; sym ":="; num "0"; sym ",";
   ident "b"; sym ")"].

Definition bareKeywordItems : list paramItem :=
  [Param "x" None None ParamLast; KeywordMark;
   Param "a" (Some (Number "0")) None ParamComma].

(** [f(x; n) :-> x]: the head of a definition, with a bare name after the
    [;]. *)
Definition bareHeadTokens : list token :=
  [ident "f"; sym "("; ident "x"; sym ";"; ident "n"; sym ")"; sym ":->";
   ident "x"].

Definition bareHeadNode : node :=
  FunctionDefinition (UserIdentifier "f")
    (mkParams [mkParam (JStr "x") None]
       [mkParam (JStr "n") (Some (UserIdentifier "n"))] [] [])
    (UserIdentifier "x").

(** [patterns] holds one pattern for each entry of [entries] that is a
    [FunctionLambda] or a [BinaryOperation] with operator [->], in order,
    and nothing for the other entries. *)
Definition patternsOfEntries (patterns : list (patternFunc node))
  (entries : list node) : Prop :=
  map Some patterns = map patternOf (filter isLambdaShaped entries)
  /\ (forall entry, In entry entries -> isLambdaShaped entry = false ->
      patternOf entry = None)
  /\ List.length patterns = List.length (filter isLambdaShaped entries)
  /\ (List.length patterns <= List.length entries)%nat.

(** [:=> [(x) -> x, 5]] and [:=> [[(x) -> x, 5], n := 4]] *)
Definition patternArrayTokens : list token :=
  [sym ":=>"; sym "["; sym "("; ident "x"; sym ")"; sym "->";
   ident "x"; sym ","; num "5"; sym "]"].

Definition patternArray : node :=
  Array [FunctionLambda (positionalOnly ["x"]) (UserIdentifier "x");
         Number "5"].

Definition patternMetadataTokens : list token :=
  [sym ":=>"; sym "["; sym "["; sym "("; ident "x"; sym ")"; sym "->";
   ident "x"; sym ","; num "5"; sym "]"; sym ","; ident "n"; sym ":=";
   num "4"; sym "]"].

Definition patternMetadata : node :=
  WithMetadata patternArray [("n", Number "4")].

(** *** Definitions used by the further properties *)

(** Tokens behind the cursor: [position], and one more once the current
    token is an [End]. *)
Definition consumed (p : Parser) : nat :=
  (position p + if type_is (current p) TEnd then 1 else 0)%nat.

(** How a method may move the parser: the token vector stays, the cursor
    does not go back and stays within the vector, and the current token is
    the one it was, a token of the vector or the final [End]. *)
Definition cursorStep (p p' : Parser) : Prop :=
  tokens p' = tokens p
  /\ (position p <= position p')%nat
  /\ (consumed p <= consumed p')%nat
  /\ ((position p <= List.length (tokens p))%nat ->
      (position p' <= List.length (tokens p'))%nat)
  /\ (current p' = current p \/ current p' = EndToken
      \/ In (current p') (tokens p')).

Definition moves {A} (m : M A) : Prop :=
  forall p a p', m p = Ok (a, p') -> cursorStep p p'.

(** The tokens at which the loop of [parseExpression(minPrec)] stops. *)
Definition endsExpression (systemLookup : string -> systemInfo) (minPrec : Z)
  (cur : token) : Prop :=
  type_is cur TEnd = true
  \/ isTerminator cur = true
  \/ isCommentToken cur = true
  \/ precedenceBelow (getSymbolInfo systemLookup cur) minPrec = true
  \/ typeIs (getSymbolInfo systemLookup cur) "statement" = true
  \/ typeIs (getSymbolInfo systemLookup cur) "separator" = true.

(** The node of a comment token. *)
Definition commentNode (t : token) : node := Comment (tok_value t) (tok_kind t).

(** The elements of a bracket container, read row by row. *)
Definition containerElements (n : node) : list node :=
  match n with
  | Array elements => elements
  | Matrix rows => concat rows
  | Tensor structure _ => flat_map row structure
  | _ => []
  end.

(** The number of row separators of a content. *)
Definition rowSeparators (items : list bracketItem) : nat :=
  List.length (filter isRowsItem items).

(** What the parentheses after a derivative or an integral may give. *)
Definition evaluationOrOperations
  (evaluation operations : option (list node)) : Prop :=
  match evaluation, operations with
  | None, None => True
  | Some l, None => existsb containsCalculusOperations l = false
  | None, Some l => existsb containsCalculusOperations l = true
  | Some _, Some _ => False
  end.

(** The token that [advance] leaves once the input is exhausted: an [End]
    without a value. *)
Definition atEnd (t : token) : bool := type_is t TEnd && value_is t "".

(** What is left to read: the tokens from [position] on, and the current
    token unless it is the final [End]. *)
Definition remaining (p : Parser) : nat :=
  ((List.length (tokens p) - position p)
   + if atEnd (current p) then 0 else 1)%nat.

(** [wp m p Q]: from [p], [m] does not run out of fuel, and when it returns
    a value, [Q] holds of the value and the final state. *)
Definition wp {A} (m : M A) (p : Parser) (Q : A -> Parser -> Prop) : Prop :=
  match m p with
  | Ok (a, p') => Q a p'
  | Error _ => True
  | OutOfFuel => False
  end.

(** [refines m1 m2]: where [m1] does not run out of fuel, [m2] gives the
    same result. *)
Definition refines {A} (m1 m2 : M A) : Prop :=
  forall p, m1 p <> OutOfFuel -> m2 p = m1 p.

(** [a + 1] *)
Definition sumTokens : list token := [ident "a"; sym "+"; num "1"].

Definition sumNode : node :=
  BinaryOperation "+" (UserIdentifier "a") (Number "1").

(** [a + 1 ; b]: the expression ends at the semicolon. *)
Definition sumThenTokens : list token :=
  [ident "a"; sym "+"; num "1"; sym ";"; ident "b"].

(** The precedence of an operator of [SYMBOL_TABLE], and the precedence that
    [parseInfix] asks of its right operand; [0] for any other text. *)
Definition precOf (v : string) : Z :=
  match lookupSymbol v with
  | Some (Entry info) => precedence info
  | _ => 0
  end.

Definition rightPrecOf (v : string) : Z :=
  match lookupSymbol v with
  | Some (Entry info) => rightPrecedence (Entry info)
  | _ => 0
  end.

(** The operator that [parseInfix] built the node for, where the node keeps
    it or its kind tells it. *)
Definition headOperator (n : node) : option string :=
  match n with
  | BinaryOperation op _ _ => Some op
  | Pipe _ _ => Some "|>"
  | ExplicitPipe _ _ => Some "||>"
  | MapPipe _ _ => Some "|>>"
  | Filter _ _ => Some "|>?"
  | Reduce _ _ => Some "|>:"
  | FunctionLambda _ _ => Some "->"
  | FunctionDefinition _ _ _ => Some ":->"
  | PatternMatchingFunction _ _ _ _ => Some ":=>"
  | _ => None
  end.

(** The operator at the head of [n], if any, has precedence [minPrec] at
    least. *)
Definition bindsAtLeast (minPrec : Z) (n : node) : bool :=
  match headOperator n with
  | Some op => minPrec <=? precOf op
  | None => true
  end.

(** The right operand of [op] binds as tightly as [op] asks on its right. *)
Definition rightOperandOK (op : string) (r : node) : bool :=
  bindsAtLeast (rightPrecOf op) r.

(** [op] did not belong to its left operand: the operator at the head of
    the left operand asked more on its right than [op] has. *)
Definition leftOperandOK (op : string) (l : node) : bool :=
  match headOperator l with
  | Some op1 => precOf op <? rightPrecOf op1
  | None => true
  end.

(** Both conditions, at the node and down its left operands: the right
    operands are results of [parseExpression] of their own. *)
Fixpoint nestsByPrecedence (n : node) : bool :=
  match n with
  | BinaryOperation op l r =>
      leftOperandOK op l && rightOperandOK op r && nestsByPrecedence l
  | Pipe l r =>
      leftOperandOK "|>" l && rightOperandOK "|>" r && nestsByPrecedence l
  | ExplicitPipe l r =>
      leftOperandOK "||>" l && rightOperandOK "||>" r && nestsByPrecedence l
  | MapPipe l r =>
      leftOperandOK "|>>" l && rightOperandOK "|>>" r && nestsByPrecedence l
  | Filter l r =>
      leftOperandOK "|>?" l && rightOperandOK "|>?" r && nestsByPrecedence l
  | Reduce l r =>
      leftOperandOK "|>:" l && rightOperandOK "|>:" r && nestsByPrecedence l
  | FunctionLambda _ body => rightOperandOK "->" body
  | FunctionDefinition _ _ body => rightOperandOK ":->" body
  | _ => true
  end.

(** A token whose precedence is the one [SYMBOL_TABLE] gives to its text:
    every [Symbol] token is, unless its text names a member of
    [Object.prototype], for which there is no precedence; and every other
    token whose text is not an operator of the table, unless it is a system
    operator. *)
Definition tableToken (systemLookup : string -> systemInfo) (t : token)
  : bool :=
  match getSymbolInfo systemLookup t with
  | Entry info =>
      (precedence info =? precOf (tok_value t))
      && (rightPrecedence (Entry info) =? rightPrecOf (tok_value t))
  | Inherited => false
  end.

(** All tokens of the parser are such tokens. *)
Definition tableTokens (systemLookup : string -> systemInfo) (p : Parser)
  : Prop :=
  forallb (tableToken systemLookup) (tokens p) = true
  /\ tableToken systemLookup (current p) = true.

(** What the loop of [parseExpression] knows of [left] at the state [q]. *)
Definition spineInv (systemLookup : string -> systemInfo) (minPrec : Z)
  (left : node) (q : Parser) : Prop :=
  nestsByPrecedence left = true
  /\ bindsAtLeast minPrec left = true
  /\ tableTokens systemLookup q
  /\ match headOperator left with
     | Some op1 => endsExpression systemLookup (rightPrecOf op1) (current q)
     | None => True
     end.

(** [a - b * c - d]: the product is the right operand of the first
    difference, which is the left operand of the second. *)
Definition differenceTokens : list token :=
  [ident "a"; sym "-"; ident "b"; sym "*"; ident "c"; sym "-"; ident "d"].

Definition differenceNode : node :=
  BinaryOperation "-"
    (BinaryOperation "-" (UserIdentifier "a")
       (BinaryOperation "*" (UserIdentifier "b") (UserIdentifier "c")))
    (UserIdentifier "d").

(** [-a ^ b]: the sign takes [a] alone. *)
Definition signedPowerTokens : list token :=
  [sym "-"; ident "a"; sym "^"; ident "b"].

(** The texts that end an expression or that [parseInfix] lowers to a node
    kind of their own. *)
Definition reservedTexts : list string :=
  [";"; ","; ")"; "]"; "}"; "}}";
   ":->"; ":=>"; "->"; "|>"; "||>"; "|>>"; "|>?"; "|>:"].

(** The messages that the parser can raise, the two families of
    [parsePrefix] apart. *)
Definition parseErrors : list string :=
  [ "Expected closing parenthesis in function call";
    "Expected closing bracket";
    "Expected closing parenthesis";
    "Consecutive commas not allowed in tuples";
    "Cannot mix matrix/tensor syntax with metadata - use nested array syntax";
    "Metadata key must be an identifier or string";
    "Cannot mix array elements with metadata - use nested array syntax like [[1,2,3], key := value]";
    "Cannot mix matrix/tensor syntax with metadata";
    "Pattern matching should use array syntax [ ] with sequential evaluation, not brace syntax { }. Use format: name :=> [ pattern1, pattern2, ... ]";
    "Expected closing brace";
    "System containers must contain only equations with equation operators separated by semicolons";
    "Cannot mix equations with other assignment types";
    "Map containers must contain only key-value pairs with :=";
    "System containers must contain only equations with equation operators";
    "Expected closing }}";
    "Expected function name after integral operator";
    "Expected variable name in variable list";
    "Expected comma or closing bracket in variable list";
    "Expected parameter name";
    "Keyword-only parameters must have default values";
    "Expected identifier for keyword argument";
    "Unmatched closing parenthesis in embedded language header";
    "Unmatched opening parenthesis in embedded language header";
    "Invalid embedded language header format. Expected: LANGUAGE(CONTEXT):BODY";
    "Multiple parenthetical groups not allowed in embedded language header";
    "Unexpected token: SemicolonSequence";
    "Unexpected token: End" ].

Definition knownError (msg : string) : Prop :=
  In msg parseErrors
  \/ exists v, msg = ("Unexpected symbol: " ++ v)%string.

(** [errs m]: [m] raises known errors only. *)
Definition errs {A} (m : M A) : Prop :=
  forall p msg, m p = Error msg -> knownError msg.

(** [a +]: the operand is missing. *)
Definition danglingTokens : list token := [ident "a"; sym "+"].

(** ** Reasoning rules for the parser monad *)


Lemma bind_Ok {A B} (m : M A) (k : A -> M B) p b p' :
  bind m k p = Ok (b, p') ->
  exists a p1, m p = Ok (a, p1) /\ k a p1 = Ok (b, p').
Proof.
  unfold bind. destruct (m p) as [[a p1]| |]; try discriminate.
  intros H. exists a, p1. auto.
Qed.

Lemma post_ret {A} (a : A) (Q : A -> Prop) : Q a -> post (ret a) Q.
Proof. intros H p b p' E. inversion E; subst; exact H. Qed.

Lemma post_error {A} msg (Q : A -> Prop) : post (error msg) Q.
Proof. intros p b p' E. discriminate. Qed.

Lemma post_bind {A B} (m : M A) (k : A -> M B) (R : A -> Prop) (Q : B -> Prop) :
  post m R -> (forall a, R a -> post (k a) Q) -> post (bind m k) Q.
Proof.
  intros Hm Hk p b p' E.
  apply bind_Ok in E. destruct E as (a & p1 & E1 & E2).
  exact (Hk a (Hm _ _ _ E1) _ _ _ E2).
Qed.

Lemma post_bind_any {A B} (m : M A) (k : A -> M B) (Q : B -> Prop) :
  (forall a, post (k a) Q) -> post (bind m k) Q.
Proof.
  intros Hk. apply post_bind with (R := fun _ => True).
  - intros p a p' _. exact I.
  - intros a _. apply Hk.
Qed.

Lemma post_weaken {A} (m : M A) (R Q : A -> Prop) :
  post m R -> (forall a, R a -> Q a) -> post m Q.
Proof. intros Hm H p a p' E. apply H. exact (Hm _ _ _ E). Qed.

Lemma post_liftResult {A} (r : result A) (Q : A -> Prop) :
  (forall a, r = Ok a -> Q a) -> post (liftResult r) Q.
Proof.
  intros H p a p' E. unfold liftResult in E.
  destruct r; try discriminate. inversion E; subst. apply H. reflexivity.
Qed.

(** The invariant rule for [while]. *)
Lemma post_while {S} (I : S -> Prop) fuel cond (body : S -> M (flow * S)) :
  (forall s, I s -> post (body s) (fun r => I (snd r))) ->
  forall s, I s -> post (while_ fuel cond body s) I.
Proof.
  intros Hbody. induction fuel as [|fuel IH]; intros s Hs p a p' E.
  - discriminate.
  - simpl in E. destruct (cond s (current p)).
    + destruct (body s p) as [[[f s1] p1]| |] eqn:Eb; try discriminate.
      pose proof (Hbody s Hs _ _ _ Eb) as H1. simpl in H1.
      destruct f.
      * exact (IH s1 H1 _ _ _ E).
      * inversion E; subst. exact H1.
    + inversion E; subst. exact Hs.
Qed.

Lemma post_do_while {S} (I : S -> Prop) fuel cond (body : S -> M (flow * S)) :
  (forall s, I s -> post (body s) (fun r => I (snd r))) ->
  forall s, I s -> post (do_while fuel cond body s) I.
Proof.
  intros Hbody s Hs. unfold do_while.
  apply post_bind with (R := fun r => I (snd r)).
  - apply Hbody. exact Hs.
  - intros [f s1] H1. simpl in H1. destruct f.
    + apply post_while; assumption.
    + apply post_ret. exact H1.
Qed.

Lemma post_bind_ret {A B} (a : A) (k : A -> M B) (Q : B -> Prop) :
  post (k a) Q -> post (bind (ret a) k) Q.
Proof. intros H p b p' E. exact (H _ _ _ E). Qed.

Lemma post_bind_error {A B} msg (k : A -> M B) (Q : B -> Prop) :
  post (bind (error msg) k) Q.
Proof. intros p b p' E. discriminate. Qed.

Lemma post_bind_assoc {A B C} (m : M A) (f : A -> M B) (g : B -> M C)
  (Q : C -> Prop) :
  post (bind m (fun x => bind (f x) g)) Q -> post (bind (bind m f) g) Q.
Proof.
  intros H p c p' E. apply (H p c p').
  unfold bind in *. destruct (m p) as [[a p1]| |]; auto.
Qed.

(** One step through straight-line monadic code. *)
Ltac mstep :=
  lazymatch goal with
  | |- post (ret _) _ => apply post_ret
  | |- post (error _) _ => apply post_error
  | |- post (bind (ret _) _) _ => apply post_bind_ret
  | |- post (bind (error _) _) _ => apply post_bind_error
  | |- post (bind (bind _ _) _) _ => apply post_bind_assoc
  | |- post (bind getCurrent _) _ => apply post_bind_any; intros ?
  | |- post (bind getParser _) _ => apply post_bind_any; intros ?
  | |- post (bind advance _) _ => apply post_bind_any; intros ?
  | |- post (bind (if ?b then _ else _) _) _ => destruct b eqn:?
  | |- post (bind (match ?x with _ => _ end) _) _ => destruct x eqn:?
  | |- post (if ?b then _ else _) _ => destruct b eqn:?
  | |- post (match ?x with _ => _ end) _ => destruct x eqn:?
  end.

Ltac msteps := repeat (mstep; cbv beta).

(** Splits boolean conjunctions in the hypotheses and in the goal. *)
Ltac bsplit :=
  repeat match goal with
         | H : _ && _ = true |- _ => apply andb_true_iff in H; destruct H
         | H : forallb _ (_ ++ _) = true |- _ =>
             rewrite forallb_app in H
         | |- _ && _ = true => apply andb_true_iff; split
         | |- forallb _ (_ ++ _) = true => rewrite forallb_app
         end.

(** ** A tree invariant of the parser

    Whatever [parseExpression] returns contains no [Statement] node, and
    every parameter specification in it gives each keyword entry a default.
    The two facts are proved at once, for predicates [P] and [Q] that hold
    of every node other than a [Statement] and of every parameter
    specification whose keyword entries have defaults. *)

Section Invariant.
Variable systemLookup : string -> systemInfo.
Variable P : node -> bool.
Variable Q : params node -> bool.
Hypothesis HP : forall n, isStatement n = false -> P n = true.
Hypothesis HQ : forall ps, keywordDefaults ps = true -> Q ps = true.

Abbreviation ok := (every P Q).

Lemma every_intro n :
  isStatement n = false ->
  match n with
     | Number _ | StringNode _ _ | UserIdentifier _ | SystemIdentifier _ _
     | PlaceHolder _ | NULL | EmbeddedLanguage _ _ _ | Comment _ _ => true
     | UnaryOperation _ e | Grouping e | Statement e => ok e
     | BinaryOperation _ l r | Pipe l r | ExplicitPipe l r | MapPipe l r
     | Filter l r | Reduce l r | PropertyAccess l r => ok l && ok r
     | Tuple els | Array els | SetNode els | MapNode els | System els
     | CodeBlock els => forallb ok els
     | Matrix rows => forallb (forallb ok) rows
     | Tensor st _ => forallb (fun e => forallb ok (row e)) st
     | WithMetadata e md => ok e && object_every ok md
     | FunctionCall f args => ok f && args_every ok args
     | FunctionDefinition f ps b =>
         ok f && params_every Q ok ps && ok b
     | FunctionLambda ps b => params_every Q ok ps && ok b
     | PatternMatchingFunction f ps pats md =>
         ok f && params_every Q ok ps
         && forallb
              (fun pf => params_every Q ok (pat_parameters pf)
                         && ok (pat_body pf)) pats
         && object_every ok md
     | ParameterList ps => params_every Q ok ps
     | Derivative f _ _ ev ops | Integral f _ _ ev ops =>
         ok f && list_option_every ok ev && list_option_every ok ops
     end = true -> ok n = true.
Proof.
  intros Hs H. destruct n; simpl; rewrite (HP _ Hs); simpl; exact H.
Qed.

Ltac fin :=
  lazymatch goal with |- post _ _ => idtac | |- _ =>
  repeat (first [ assumption | reflexivity | discriminate
                | progress bsplit
                | progress unfold param_every, params_every, args_every, object_every in *
                | progress unfold hasDefault
                | progress cbn [every param_every params_every args_every object_every option_every jsv_every list_option_every forallb hasDefault keywordDefaults name defaultValue positional keyword conditionals metadata args_positional args_keyword fst snd emptyParams row separatorLevel pat_parameters pat_body arr_elements primaryElement metadataMap matrixStructure currentRow hasMetadata nonMetadataCount arr_hasSemicolons brace_elements content isEvaluation isStatement negb] in *
                | apply every_intro
                | split | intro ]); auto end.

Lemma asBinary_Some op n l r :
  asBinary op n = Some (l, r) -> n = BinaryOperation op l r.
Proof.
  destruct n; simpl; try discriminate.
  destruct (String.eqb operator op) eqn:E; try discriminate.
  apply String.eqb_eq in E. intros H. inversion H; subst. reflexivity.
Qed.

Lemma obj_replace_every key v o :
  ok v = true -> object_every ok o = true ->
  object_every ok (obj_replace key v o) = true.
Proof.
  intros Hv. induction o as [|[k w] o IH]; simpl; intros H.
  - reflexivity.
  - apply andb_true_iff in H. destruct H as [H1 H2].
    destruct (String.eqb k key); simpl.
    + rewrite Hv. exact H2.
    + rewrite H1. apply IH. exact H2.
Qed.

Lemma obj_add_every key v o :
  ok v = true -> object_every ok o = true ->
  object_every ok (obj_add key v o) = true.
Proof.
  intros Hv. induction o as [|[k w] o IH]; simpl; intros H.
  - rewrite Hv. reflexivity.
  - destruct (comesBefore key k); simpl.
    + rewrite Hv. exact H.
    + apply andb_true_iff in H. destruct H as [H1 H2].
      rewrite H1. apply IH. exact H2.
Qed.

Lemma obj_set_every key v o :
  ok v = true -> object_every ok o = true ->
  object_every ok (obj_set key v o) = true.
Proof.
  intros Hv H. unfold obj_set.
  destruct (String.eqb key "__proto__"); [exact H|].
  destruct (existsb _ o).
  - apply obj_replace_every; assumption.
  - apply obj_add_every; assumption.
Qed.

Lemma nameOf_every l :
  ok l = true -> jsv_every ok (js_or (node_name l) (node_value l)) = true.
Proof.
  intros H. destruct l; simpl; unfold js_or; simpl;
    try reflexivity; try (destruct (negb _); reflexivity); fin.
Qed.

Lemma paramsInv_every ps : paramsInv ok ps -> params_every Q ok ps = true.
Proof.
  intros (H1 & H2 & H3 & H4 & H5). unfold params_every.
  rewrite H1, H2, H4, H5, (HQ ps H3). reflexivity.
Qed.

Lemma paramsInv_empty : paramsInv ok emptyParams.
Proof. unfold paramsInv; fin. Qed.

Lemma parseParameterFromArg_every arg :
  ok arg = true ->
  param_every ok (fst (parseParameterFromArg arg)) = true
  /\ option_every ok (snd (parseParameterFromArg arg)) = true.
Proof.
  intros H. unfold parseParameterFromArg.
  destruct (asBinary ":=" arg) as [[l r]|] eqn:E1.
  - apply asBinary_Some in E1. subst arg.
    pose proof (nameOf_every l) as Hn.
    destruct (asBinary "?" r) as [[rl rr]|] eqn:E2.
    + apply asBinary_Some in E2. subst r. fin.
    + fin.
  - destruct (asBinary "?" arg) as [[l r]|] eqn:E2.
    + apply asBinary_Some in E2. subst arg.
      pose proof (nameOf_every l) as Hn. fin.
    + destruct (isUserIdentifier arg) eqn:E3; [|fin].
      pose proof (nameOf_every arg H) as Hn. fin.
Qed.

Lemma fold_left_inv {A B} (I : A -> Prop) (f : A -> B -> A) (G : B -> Prop) l :
  (forall a b, I a -> G b -> I (f a b)) ->
  Forall G l -> forall a, I a -> I (fold_left f l a).
Proof.
  intros Hf HG. induction HG; simpl; auto.
Qed.

Lemma forallb_Forall {A} (f : A -> bool) l :
  forallb f l = true -> Forall (fun x => f x = true) l.
Proof. intros H. apply Forall_forall. apply forallb_forall. exact H. Qed.

Lemma convertArgsToParams_every args :
  args_every ok args = true -> paramsInv ok (convertArgsToParams args).
Proof.
  unfold args_every, convertArgsToParams. intros H.
  apply andb_true_iff in H. destruct H as [H1 H2].
  apply fold_left_inv with (I := paramsInv ok) (G := fun kv => ok (snd kv) = true).
  - intros ps [key value] Hps Hv. simpl in Hv.
    destruct Hps as (I1 & I2 & I3 & I4 & I5).
    destruct (asBinary "?" value) as [[l r]|] eqn:E.
    + apply asBinary_Some in E. subst value. unfold paramsInv. fin.
    + unfold paramsInv. fin.
  - apply forallb_Forall. exact H2.
  - apply fold_left_inv with (I := paramsInv ok) (G := fun a => ok a = true).
    + intros ps arg Hps Ha.
      destruct (parseParameterFromArg_every arg Ha) as [Hp Hc].
      destruct (parseParameterFromArg arg) as [prm [c|]];
        destruct Hps as (I1 & I2 & I3 & I4 & I5); unfold paramsInv; fin.
    + apply forallb_Forall. exact H1.
    + apply paramsInv_empty.
Qed.

Lemma lowerFunctionDefinition_every left right :
  ok left = true -> ok right = true ->
  ok (lowerFunctionDefinition left right) = true.
Proof.
  intros Hl Hr. unfold lowerFunctionDefinition.
  assert (He : params_every Q ok emptyParams = true)
    by (apply paramsInv_every, paramsInv_empty).
  destruct left; try solve [fin].
  assert (Hc : params_every Q ok (convertArgsToParams arguments) = true).
  { apply paramsInv_every, convertArgsToParams_every. fin. }
  fin.
Qed.

Lemma lowerArrow_every left right :
  ok left = true -> ok right = true -> ok (lowerArrow left right) = true.
Proof.
  intros Hl Hr. unfold lowerArrow.
  assert (He : params_every Q ok emptyParams = true)
    by (apply paramsInv_every, paramsInv_empty).
  destruct left; try solve [fin].
  - (* Grouping *)
    assert (Hg : forall ps,
               paramsInv ok ps -> ok (FunctionLambda ps right) = true).
    { intros ps Hps. apply every_intro; [reflexivity|].
      apply andb_true_iff. split; [|exact Hr].
      apply paramsInv_every. exact Hps. }
    destruct left; try solve [apply Hg; unfold paramsInv; fin].
    + destruct (asBinary "?" (BinaryOperation operator left1 left2))
        as [[l r]|] eqn:E.
      * apply asBinary_Some in E. inversion E; subst.
        apply Hg. unfold paramsInv.
        assert (Hn : ok l = true) by fin.
        apply nameOf_every in Hn. fin.
      * apply Hg. apply paramsInv_empty.
    + fin.
  - (* Tuple *)
    apply every_intro; [reflexivity|]. apply andb_true_iff. split; [|exact Hr].
    apply paramsInv_every. unfold paramsInv. cbn [positional keyword conditionals metadata].
    repeat split; try reflexivity.
    clear. induction elements as [|e els IH]; simpl; auto.
    destruct e; simpl; auto.
Qed.

Lemma patternOf_every pattern pf :
  ok pattern = true -> patternOf pattern = Some pf -> pattern_ok Q ok pf = true.
Proof.
  intros H. unfold patternOf, pattern_ok.
  assert (Hg : forall ps b, paramsInv ok ps -> ok b = true ->
               params_every Q ok (pat_parameters (mkPattern ps b))
               && ok (pat_body (mkPattern ps b)) = true).
  { intros ps b Hps Hb. simpl. rewrite Hb, (paramsInv_every ps Hps).
    reflexivity. }
  destruct pattern; try discriminate.
  - (* BinaryOperation *)
    destruct (asBinary "->" (BinaryOperation operator pattern1 pattern2))
      as [[l r]|] eqn:E; try discriminate.
    apply asBinary_Some in E. inversion E; subst.
    intros Hpf. inversion Hpf; subst. clear Hpf E.
    assert (Hl : ok l = true) by fin.
    assert (Hr : ok r = true) by fin.
    destruct l; try solve [apply Hg; [apply paramsInv_empty | exact Hr]].
    destruct (asBinary "?" l) as [[pl pr]|] eqn:E2.
    + apply asBinary_Some in E2. subst l. apply Hg; [|exact Hr].
      assert (Hn : ok pl = true) by fin.
      apply nameOf_every in Hn. unfold paramsInv. fin.
    + destruct l; try solve [apply Hg; [apply paramsInv_empty | exact Hr]].
      apply Hg; [|exact Hr]. unfold paramsInv, js_or. simpl.
      destruct (negb _); fin.
  - (* FunctionLambda *)
    intros Hpf. inversion Hpf; subst. fin.
Qed.

Lemma lowerPatterns_every raw :
  forallb ok raw = true -> forallb (pattern_ok Q ok) (lowerPatterns raw) = true.
Proof.
  unfold lowerPatterns. induction raw as [|n raw IH]; simpl; intros H.
  - reflexivity.
  - apply andb_true_iff in H. destruct H as [H1 H2].
    rewrite forallb_app, (IH H2), andb_true_r.
    destruct (patternOf n) as [pf|] eqn:E; simpl; auto.
    rewrite (patternOf_every n pf H1 E). reflexivity.
Qed.

Lemma rawPatternsOf_every right :
  ok right = true ->
  forallb ok (fst (rawPatternsOf right)) = true
  /\ object_every ok (snd (rawPatternsOf right)) = true.
Proof.
  intros H. unfold rawPatternsOf.
  destruct right; try solve [fin].
  destruct right; try solve [fin].
  destruct elements as [|e els]; try solve [fin].
  destruct e; fin.
Qed.

Lemma lowerPatternMatching_every left right :
  ok left = true -> ok right = true ->
  ok (lowerPatternMatching left right) = true.
Proof.
  intros Hl Hr. unfold lowerPatternMatching.
  destruct (rawPatternsOf_every right Hr) as [H1 H2].
  destruct (rawPatternsOf right) as [raw meta]. simpl in H1, H2.
  pose proof (lowerPatterns_every raw H1) as H3.
  assert (He : params_every Q ok emptyParams = true)
    by (apply paramsInv_every, paramsInv_empty).
  assert (Hg : forall f ps, ok f = true -> params_every Q ok ps = true ->
               ok (PatternMatchingFunction f ps (lowerPatterns raw) meta) = true).
  { intros f ps Hf Hps. apply every_intro; [reflexivity|].
    rewrite Hf, Hps. simpl. unfold pattern_ok in H3. rewrite H3. exact H2. }
  destruct left; try solve [apply Hg; assumption].
  apply Hg; [fin|]. apply paramsInv_every, convertArgsToParams_every. fin.
Qed.

Lemma buildMatrixTensor_every st :
  forallb (fun e => forallb ok (row e)) st = true ->
  ok (buildMatrixTensor st) = true.
Proof.
  intros H. unfold buildMatrixTensor.
  destruct (jsnum_is _ 1); apply every_intro; try reflexivity; [|exact H].
  clear -H. induction st as [|e st IH]; simpl in *; auto.
  apply andb_true_iff in H. destruct H as [H1 H2].
  rewrite H1. auto.
Qed.

Lemma parseEmbeddedLanguage_every content n :
  parseEmbeddedLanguage content = Ok n -> ok n = true.
Proof.
  unfold parseEmbeddedLanguage.
  destruct (_ || _).
  - intros H. inversion H; subst. fin.
  - destruct (splitHeader content) as [header body].
    destruct (parseHeader header) as [[l c]| |]; try discriminate.
    intros H. inversion H; subst. fin.
Qed.

Section Step.
Variable pe : Z -> M node.
Variable fuel : nat.
Hypothesis Hpe : forall mp, post (pe mp) (fun n => ok n = true).

Ltac call H := eapply post_bind; [ apply H | cbv beta; intros ? ? ].


Lemma parseTupleElements_every :
  post (parseTupleElements pe fuel) (fun els => forallb ok els = true).
Proof.
  unfold parseTupleElements, parseTupleElement.
  call Hpe.
  apply post_while.
  - intros s Hs. msteps; fin.
    call Hpe. msteps. fin.
  - fin.
Qed.

Lemma parseFunctionParameter_every b :
  post (parseFunctionParameter pe b)
    (fun prm => param_every ok prm = true /\ (b = true -> hasDefault prm = true)).
Proof.
  unfold parseFunctionParameter.
  msteps.
  - call Hpe. msteps; fin.
  - fin.
Qed.

Lemma parseFunctionParameters_body_every s :
  paramsInv ok (fst s) ->
  post (parseFunctionParameters_body pe s) (fun r => paramsInv ok (fst (snd r))).
Proof.
  destruct s as [ps kw]. intros (H1 & H2 & H3 & H4 & H5).
  unfold parseFunctionParameters_body. msteps.
  - unfold paramsInv; fin.
  - call (parseFunctionParameter_every kw). destruct H.
    destruct kw; msteps.
    all: try (call Hpe; msteps).
    all: unfold paramsInv; fin.
Qed.

Lemma parseFunctionParameters_every :
  post (parseFunctionParameters pe fuel) (fun ps => params_every Q ok ps = true).
Proof.
  unfold parseFunctionParameters. msteps.
  - apply paramsInv_every. unfold paramsInv; fin.
  - eapply post_bind.
    + apply post_while with (I := fun s => paramsInv ok (fst s)).
      * intros s Hs. apply parseFunctionParameters_body_every; exact Hs.
      * unfold paramsInv; fin.
    + cbv beta. intros [ps kw] H. msteps. apply paramsInv_every. exact H.
Qed.

Lemma parseFunctionCallArgs_every :
  post (parseFunctionCallArgs pe fuel) (fun args => args_every ok args = true).
Proof.
  unfold parseFunctionCallArgs. msteps; [fin|].
  eapply post_bind.
  - apply post_while with (I := fun s => args_every ok (fst s) = true).
    + intros [args kw] Hs. simpl in Hs. msteps; try solve [fin].
      all: try (call Hpe; msteps).
      all: unfold args_every in *;
        cbn [snd fst args_positional args_keyword] in *; bsplit; auto;
        try (apply obj_set_every; auto); fin.
    + fin.
  - cbv beta. intros [args kw] H. msteps. exact H.
Qed.

Lemma parseGrouping_every :
  post (parseGrouping pe fuel) (fun n => ok n = true).
Proof.
  unfold parseGrouping. msteps; try solve [fin].
  - call parseFunctionParameters_every. msteps; fin.
  - call parseTupleElements_every. msteps; fin.
  - call Hpe. msteps; fin.
Qed.

Lemma parseMatrixOrArray_body_every s :
  arrayInv ok s ->
  post (parseMatrixOrArray_body pe s) (fun r => arrayInv ok (snd r)).
Proof.
  intros (H1 & H2 & H3 & H4 & H5). unfold parseMatrixOrArray_body.
  msteps.
  - apply post_bind_any; intros c. msteps. unfold arrayInv. fin.
  - call Hpe.
    destruct (asBinary ":=" a0) as [[l r]|] eqn:E.
    + apply asBinary_Some in E. subst a0.
      assert (Hr : ok r = true) by fin.
      msteps; try (apply post_bind_any; intros c; msteps);
        unfold arrayInv; cbn [snd arr_elements primaryElement metadataMap
          matrixStructure currentRow hasMetadata];
        repeat split; auto; try (apply obj_set_every; auto); fin.
    + msteps; try (apply post_bind_any; intros c; msteps);
        unfold arrayInv; cbn [snd arr_elements primaryElement metadataMap
          matrixStructure currentRow hasMetadata];
        repeat split; auto; try (destruct (_ =? 1)); fin.
Qed.

Lemma parseMatrixOrArray_every :
  post (parseMatrixOrArray pe fuel) (fun n => ok n = true).
Proof.
  unfold parseMatrixOrArray.
  eapply post_bind with (R := arrayInv ok).
  - unfold parseMatrixOrArray_loop. msteps.
    + apply post_do_while.
      * apply parseMatrixOrArray_body_every.
      * unfold arrayInv; fin.
    + unfold arrayInv; fin.
  - intros s (H1 & H2 & H3 & H4 & H5). unfold parseMatrixOrArray_finish.
    msteps.
    + destruct (primaryElement s); fin.
    + apply buildMatrixTensor_every.
      destruct (_ || _); fin.
    + fin.
Qed.

Lemma parseArray_every : post (parseArray pe fuel) (fun n => ok n = true).
Proof.
  unfold parseArray. msteps. call parseMatrixOrArray_every. msteps; fin.
Qed.

Lemma parseBraceContainer_every :
  post (parseBraceContainer pe fuel) (fun n => ok n = true).
Proof.
  unfold parseBraceContainer. msteps.
  eapply post_bind with (R := fun s => forallb ok (brace_elements s) = true).
  - unfold parseBraceContainer_loop. msteps; [|fin].
    apply post_do_while; [|fin].
    intros s Hs. unfold parseBraceContainer_body.
    call Hpe. msteps; cbn [snd brace_elements]; fin.
  - intros s Hs. msteps. unfold parseBraceContainer_classify. msteps; fin.
Qed.

Lemma parseCodeBlock_every :
  post (parseCodeBlock pe fuel) (fun n => ok n = true).
Proof.
  unfold parseCodeBlock. msteps.
  - eapply post_bind with (R := fun sts => forallb ok sts = true).
    + apply post_do_while; [|fin].
      intros s Hs. call Hpe. msteps; fin.
    + intros sts Hs. msteps; fin.
  - fin.
Qed.

Lemma parseUnaryOperator_every :
  post (parseUnaryOperator pe) (fun n => ok n = true).
Proof. unfold parseUnaryOperator. msteps. call Hpe. msteps; fin. Qed.

Lemma parseCalculusParentheses_every :
  post (parseCalculusParentheses pe fuel)
    (fun r => forallb ok (content r) = true).
Proof.
  unfold parseCalculusParentheses. msteps.
  eapply post_bind with (R := fun r => forallb ok (content r) = true).
  - apply post_while; [|fin].
    intros s Hs. call Hpe. msteps; cbn [snd content]; fin.
  - intros r Hr. msteps. exact Hr.
Qed.

Lemma parseEvaluationOrOperations_every :
  post (parseEvaluationOrOperations pe fuel)
    (fun r => list_option_every ok (fst r) = true
              /\ list_option_every ok (snd r) = true).
Proof.
  unfold parseEvaluationOrOperations. msteps; [|fin].
  call parseCalculusParentheses_every. msteps; fin.
Qed.

Lemma parseDerivative_every left :
  ok left = true -> post (parseDerivative pe fuel left) (fun n => ok n = true).
Proof.
  intros Hl. unfold parseDerivative.
  apply post_bind_any; intros order.
  apply post_bind_any; intros variables.
  call parseEvaluationOrOperations_every. destruct H. msteps. fin.
Qed.

Lemma parseIntegral_every :
  post (parseIntegral systemLookup pe fuel) (fun n => ok n = true).
Proof.
  unfold parseIntegral.
  apply post_bind_any; intros order. msteps.
  all: apply post_bind_any; intros variables.
  all: call parseEvaluationOrOperations_every; destruct H; msteps.
  all: try destruct (kind_is _ "System"); fin.
Qed.

Lemma parsePrefix_every :
  post (parsePrefix systemLookup pe fuel) (fun n => ok n = true).
Proof.
  unfold parsePrefix. msteps; try solve [fin].
  - apply post_liftResult. apply parseEmbeddedLanguage_every.
  - apply parseGrouping_every.
  - apply parseArray_every.
  - apply parseBraceContainer_every.
  - apply parseCodeBlock_every.
  - apply parseUnaryOperator_every.
  - apply parseIntegral_every.
Qed.

Lemma parseInfix_every left info :
  ok left = true -> post (parseInfix pe fuel left info) (fun n => ok n = true).
Proof.
  intros Hl. unfold parseInfix. msteps.
  - call parseFunctionCallArgs_every. msteps; fin.
  - call Hpe. msteps; fin.
  - call Hpe. msteps. apply lowerFunctionDefinition_every; assumption.
  - call Hpe. msteps. apply lowerPatternMatching_every; assumption.
  - call Hpe. msteps. apply lowerArrow_every; assumption.
  - call Hpe. msteps; fin.
  - call Hpe. msteps; fin.
  - call Hpe. msteps; fin.
  - call Hpe. msteps; fin.
  - call Hpe. msteps; fin.
  - call Hpe. msteps; fin.
Qed.

Lemma parseExpression_body_every minPrec :
  post (parseExpression_body systemLookup pe fuel minPrec)
    (fun n => ok n = true).
Proof.
  unfold parseExpression_body. call parsePrefix_every.
  apply post_while; [|assumption].
  intros left Hl. msteps; try solve [fin].
  - call (parseInfix_every left). exact Hl. msteps; fin.
  - call (parseDerivative_every left). exact Hl. msteps; fin.
  - call (parseInfix_every left). exact Hl. msteps; fin.
Qed.
End Step.

Lemma parseExpression_every fuel :
  forall minPrec,
    post (parseExpression systemLookup fuel minPrec) (fun n => ok n = true).
Proof.
  induction fuel as [|fuel IH]; intros minPrec.
  - intros p a p' E. discriminate.
  - simpl. apply parseExpression_body_every. exact IH.
Qed.
End Invariant.

(** ** Keyword-only parameters and statement framing *)

Section Claims.
Variable systemLookup : string -> systemInfo.

Lemma parseFunctionParameter_hasDefault pe b :
  post (parseFunctionParameter pe b) (fun prm => b = true -> hasDefault prm = true).
Proof.
  unfold parseFunctionParameter.
  msteps; try (apply post_bind_any; intros e; msteps);
    solve [ reflexivity | intros; discriminate | auto ].
Qed.

Lemma parseFunctionParameters_body_keywordDefaults pe s :
  keywordDefaults (fst s) = true ->
  post (parseFunctionParameters_body pe s)
    (fun r => keywordDefaults (fst (snd r)) = true).
Proof.
  destruct s as [ps kw]. unfold keywordDefaults. simpl. intros H.
  unfold parseFunctionParameters_body. msteps; [exact H|].
  eapply post_bind; [apply (parseFunctionParameter_hasDefault pe kw)|].
  cbv beta. intros prm Hprm.
  destruct kw; msteps; try (apply post_bind_any; intros c; msteps);
    simpl; rewrite ?forallb_app; simpl; rewrite ?H, ?Hprm; auto.
Qed.

Lemma parseFunctionParameters_keywordDefaults pe fuel :
  post (parseFunctionParameters pe fuel) (fun ps => keywordDefaults ps = true).
Proof.
  unfold parseFunctionParameters. msteps; [reflexivity|].
  eapply post_bind.
  - apply post_while with (I := fun s => keywordDefaults (fst s) = true).
    + intros s Hs. apply parseFunctionParameters_body_keywordDefaults. exact Hs.
    + reflexivity.
  - cbv beta. intros [ps kw] H. msteps. exact H.
Qed.

Lemma parseExpression_noStatement fuel minPrec :
  post (parseExpression systemLookup fuel minPrec) (fun n => noStatement n = true).
Proof.
  apply (parseExpression_every systemLookup
           (fun n => negb (isStatement n)) (fun _ => true)).
  - intros n H. rewrite H. reflexivity.
  - reflexivity.
Qed.

Lemma noStatement_not_Statement n : noStatement n = true -> isStatement n = false.
Proof.
  unfold noStatement. destruct n; simpl; auto; discriminate.
Qed.

Lemma parseStatement_topLevel fuel :
  post (parseStatement systemLookup fuel)
    (fun o => match o with Some n => topLevelShape n | None => True end).
Proof.
  unfold parseStatement. msteps; try exact I; try reflexivity.
  eapply post_bind; [apply parseExpression_noStatement|].
  cbv beta. intros e He. msteps.
  - exact He.
  - unfold topLevelShape. pose proof (noStatement_not_Statement e He).
    destruct e; try exact He. discriminate.
Qed.

Lemma parseProgram_topLevel fuel :
  post (parseProgram systemLookup fuel) (Forall topLevelShape).
Proof.
  unfold parseProgram. apply post_while; [|constructor].
  intros statements Hs. msteps.
  - simpl. apply Forall_app. split; [exact Hs|].
    constructor; [reflexivity|constructor].
  - eapply post_bind; [apply parseStatement_topLevel|].
    cbv beta. intros [n|] Hn; msteps; simpl; auto.
    apply Forall_app. split; [exact Hs|]. constructor; [exact Hn|constructor].
Qed.

(** C10: no tree returned by [parseExpression] contains a [Statement]; the
    nodes of a successful [parse] are a [Statement] around such a tree, or
    such a tree (a [Comment] among them); in particular the statements of a
    [CodeBlock] are bare expressions. *)
Theorem no_Statement_below_top_level :
  (forall fuel minPrec p n p',
      parseExpression systemLookup fuel minPrec p = Ok (n, p') ->
      noStatement n = true)
  /\ (forall fuel ts statements,
         parse systemLookup fuel ts = Ok statements ->
         Forall topLevelShape statements)
  /\ (forall statements,
         noStatement (CodeBlock statements) = true ->
         Forall (fun n => isStatement n = false /\ noStatement n = true)
           statements).
Proof.
  repeat split.
  - intros fuel minPrec p n p' H.
    exact (parseExpression_noStatement fuel minPrec _ _ _ H).
  - intros fuel ts statements H. unfold parse in H.
    destruct (parseProgram systemLookup fuel (newParser ts))
      as [[sts p']| |] eqn:E; try discriminate.
    inversion H; subst. exact (parseProgram_topLevel fuel _ _ _ E).
  - intros statements H. unfold noStatement in H. simpl in H.
    apply Forall_forall. intros n Hn.
    assert (Hn' : noStatement n = true).
    { unfold noStatement. revert Hn. apply forallb_forall. exact H. }
    split; [apply noStatement_not_Statement|]; exact Hn'.
Qed.
End Claims.

(** ** Parameter lists *)

Lemma paramsAfter_nil s : paramsAfter s [] = s.
Proof.
  destruct s as [[pos kws conds md] kw]. unfold paramsAfter. simpl.
  destruct kw; simpl; rewrite !app_nil_r; reflexivity.
Qed.

Lemma paramsAfter_cons s item rest :
  paramsAfter s (item :: rest) = paramsAfter (paramsAfter s [item]) rest.
Proof.
  destruct s as [ps kw]. unfold paramsAfter.
  destruct item as [|name default condition ending].
  - cbn [existsb isKeywordMark beforeMark afterMark paramsIn conditionsIn
           positional keyword conditionals metadata orb].
    rewrite orb_true_r. cbn [orb]. destruct kw; cbn [paramsIn];
      rewrite !app_nil_r; reflexivity.
  - cbn [existsb isKeywordMark beforeMark afterMark paramsIn conditionsIn
           positional keyword conditionals metadata orb].
    rewrite !orb_false_r.
    destruct kw, condition; cbn [paramsIn conditionsIn app];
      rewrite <- ?app_assoc, ?app_nil_r; reflexivity.
Qed.

(** An optional clause in the monad. *)
Lemma readOptional_default pe p default p2 :
  readOptional pe ":=" (PRECEDENCE.ASSIGNMENT + 1) p = Some (default, p2) ->
  (if value_is (current p) ":=" then
     advance ;;
     e <- pe (PRECEDENCE.ASSIGNMENT + 1) ;;
     ret (Some e)
   else ret None) p = Ok (default, p2).
Proof.
  unfold readOptional, bind, advance, ret.
  destruct (value_is (current p) ":=").
  - destruct (pe _ _) as [[e p']| |]; intros H; inversion H; reflexivity.
  - intros H; inversion H; reflexivity.
Qed.

Lemma param_pass pe ps kw p name default condition ending p2 p3 :
  value_is (current p) ";" = false ->
  type_is (current p) TIdentifier && kind_is (current p) "User" = true ->
  name = tok_value (current p) ->
  readOptional pe ":=" (PRECEDENCE.ASSIGNMENT + 1) (advanceParser p)
  = Some (default, p2) ->
  readOptional pe "?" (PRECEDENCE.CONDITION + 1) p2 = Some (condition, p3) ->
  defaultsGiven kw [Param name default condition ending] = true ->
  parseFunctionParameters_body pe (ps, kw) p
  = if value_is (current p3) ","
    then Ok ((Next, paramsAfter (ps, kw)
                      [Param name default condition ending]),
             advanceParser p3)
    else if negb (value_is (current p3) ")")
            && negb (value_is (current p3) ";")
         then Ok ((Break, paramsAfter (ps, kw)
                            [Param name default condition ending]), p3)
         else Ok ((Next, paramsAfter (ps, kw)
                           [Param name default condition ending]), p3).
Proof.
  intros Hsemi Hid -> Hd Hc Hg.
  unfold parseFunctionParameters_body.
  unfold bind at 1. unfold getCurrent at 1. rewrite Hsemi.
  unfold bind at 1. unfold parseFunctionParameter.
  unfold bind at 1. unfold getCurrent at 1. rewrite Hid.
  unfold bind at 1. unfold bind at 1. unfold advance at 1. unfold ret at 1.
  unfold bind at 1. unfold getCurrent at 1.
  unfold bind at 1. rewrite (readOptional_default pe _ _ _ Hd).
  cbn [defaultsGiven] in Hg. rewrite andb_true_r in Hg.
  assert (Hk : match kw, default with
               | true, None =>
                   error "Keyword-only parameters must have default values"
               | _, _ => ret (mkParam (JStr (tok_value (current p))) default)
               end p2
               = Ok (mkParam (JStr (tok_value (current p))) default, p2)).
  { destruct kw, default; try discriminate; reflexivity. }
  rewrite Hk. clear Hk.
  unfold bind at 1. unfold getCurrent at 1.
  unfold readOptional in Hc. unfold bind at 1.
  destruct (value_is (current p2) "?").
  - unfold bind at 1. unfold advance at 1. unfold bind at 1.
    destruct (pe _ _) as [[c p']| |]; try discriminate.
    inversion Hc; subst. unfold ret at 1.
    unfold bind, getCurrent, advance, ret, paramsAfter.
    cbn [existsb isKeywordMark orb beforeMark afterMark paramsIn conditionsIn].
    rewrite !orb_false_r.
    destruct kw; cbn [positional keyword conditionals metadata paramsIn];
      rewrite ?app_nil_r;
      destruct (value_is (current p3) ","); try reflexivity;
      destruct (negb _ && negb _); reflexivity.
  - inversion Hc; subst. unfold ret at 1.
    unfold bind, getCurrent, advance, ret, paramsAfter.
    cbn [existsb isKeywordMark orb beforeMark afterMark paramsIn conditionsIn].
    rewrite !orb_false_r.
    destruct kw; cbn [positional keyword conditionals metadata paramsIn];
      rewrite ?app_nil_r;
      destruct (value_is (current p3) ","); try reflexivity;
      destruct (negb _ && negb _); reflexivity.
Qed.

Lemma mark_pass pe ps kw p :
  value_is (current p) ";" = true ->
  parseFunctionParameters_body pe (ps, kw) p
  = Ok ((Next, paramsAfter (ps, kw) [KeywordMark]), advanceParser p).
Proof.
  intros H. unfold parseFunctionParameters_body, bind, getCurrent, advance, ret.
  rewrite H. unfold paramsAfter.
  cbn [existsb isKeywordMark orb beforeMark afterMark paramsIn conditionsIn].
  rewrite orb_true_r.
  destruct ps as [pos kws conds md], kw; cbn; rewrite !app_nil_r; reflexivity.
Qed.

(** A bare name in the keyword section. *)
Lemma bare_keyword_pass pe ps p :
  value_is (current p) ";" = false ->
  type_is (current p) TIdentifier && kind_is (current p) "User" = true ->
  value_is (current (advanceParser p)) ":=" = false ->
  parseFunctionParameters_body pe (ps, true) p
  = Error "Keyword-only parameters must have default values".
Proof.
  intros H1 H2 H3.
  unfold parseFunctionParameters_body, parseFunctionParameter, bind,
    getCurrent, advance, ret.
  rewrite H1, H2. simpl. rewrite H3. reflexivity.
Qed.

(** The loop reads the items. *)
Lemma param_run pe items :
  forall s p e q,
    defaultsGiven (snd s) items = true ->
    paramReads pe items p e q ->
    match e with
    | Partial =>
        forall k,
          while_ (List.length items + k) (fun _ cur => notAt ")" cur)
            (parseFunctionParameters_body pe) s p
          = while_ k (fun _ cur => notAt ")" cur)
              (parseFunctionParameters_body pe) (paramsAfter s items) q
    | Complete =>
        forall fuel,
          (List.length items < fuel)%nat ->
          while_ fuel (fun _ cur => notAt ")" cur)
            (parseFunctionParameters_body pe) s p
          = Ok (paramsAfter s items, q)
    end.
Proof.
  induction items as [|item rest IH]; intros s p e q Hg H.
  - destruct H as [-> Hn]. rewrite paramsAfter_nil. destruct e.
    + intros fuel Hf. destruct fuel as [|fuel]; [simpl in Hf; lia|].
      cbn [while_]. rewrite Hn. reflexivity.
    + intros k. reflexivity.
  - rewrite (paramsAfter_cons s item rest).
    cbn [paramReads] in H. destruct H as [Hn H].
    destruct s as [ps kw]. cbn [snd] in Hg.
    assert (Hstep :
              forall fl s1 p1,
                parseFunctionParameters_body pe (ps, kw) p
                = Ok ((fl, s1), p1) ->
                match fl with
                | Next =>
                    defaultsGiven (snd s1) rest = true
                    /\ paramReads pe rest p1 e q
                | Break => rest = [] /\ e = Complete /\ q = p1
                end ->
                s1 = paramsAfter (ps, kw) [item] ->
                match e with
                | Partial =>
                    forall k,
                      while_ (List.length (item :: rest) + k)
                        (fun _ cur => notAt ")" cur)
                        (parseFunctionParameters_body pe) (ps, kw) p
                      = while_ k (fun _ cur => notAt ")" cur)
                          (parseFunctionParameters_body pe)
                          (paramsAfter s1 rest) q
                | Complete =>
                    forall fuel,
                      (List.length (item :: rest) < fuel)%nat ->
                      while_ fuel (fun _ cur => notAt ")" cur)
                        (parseFunctionParameters_body pe) (ps, kw) p
                      = Ok (paramsAfter s1 rest, q)
                end).
    { intros fl s1 p1 Hb Hrest _. destruct fl.
      - destruct Hrest as [Hg1 Hr1].
        specialize (IH s1 p1 e q Hg1 Hr1). destruct e.
        + intros fuel Hf. destruct fuel as [|fuel]; [simpl in Hf; lia|].
          cbn [while_]. rewrite Hn, Hb. apply IH. simpl in Hf. lia.
        + intros k. cbn [List.length Nat.add while_]. rewrite Hn, Hb.
          apply IH.
      - destruct Hrest as (-> & -> & ->). intros fuel Hf.
        destruct fuel as [|fuel]; [simpl in Hf; lia|].
        cbn [while_]. rewrite Hn, Hb, paramsAfter_nil. reflexivity. }
    destruct item as [|name default condition ending].
    + destruct H as [Hsemi H].
      refine (Hstep Next _ _ (mark_pass pe ps kw p Hsemi) _ eq_refl).
      split; [|exact H]. unfold paramsAfter. cbn [snd existsb isKeywordMark].
      rewrite orb_true_r. exact Hg.
    + destruct H as (Hsemi & Hid & Hname & H).
      destruct (readOptional pe ":=" _ _) as [[default' p2]|] eqn:Hd;
        [|contradiction].
      destruct H as (-> & H).
      destruct (readOptional pe "?" _ p2) as [[condition' p3]|] eqn:Hc;
        [|contradiction].
      destruct H as (-> & H).
      assert (Hg0 : defaultsGiven kw [Param name default condition ending]
                    = true).
      { cbn [defaultsGiven] in Hg |- *. apply andb_true_iff in Hg.
        destruct Hg as [Hg _]. rewrite Hg. reflexivity. }
      assert (Hg1 : defaultsGiven
                      (snd (paramsAfter (ps, kw)
                              [Param name default condition ending]))
                      rest = true).
      { unfold paramsAfter. cbn [snd existsb isKeywordMark].
        rewrite !orb_false_r. cbn [defaultsGiven] in Hg.
        apply andb_true_iff in Hg. exact (proj2 Hg). }
      pose proof (param_pass pe ps kw p name default condition ending p2 p3
                    Hsemi Hid Hname Hd Hc Hg0) as Hb.
      destruct ending.
      * destruct H as [Hv H]. rewrite Hv in Hb.
        exact (Hstep Next _ _ Hb (conj Hg1 H) eq_refl).
      * destruct H as (Hv & Hcl & H). rewrite Hv in Hb.
        apply orb_true_iff in Hcl.
        assert (Hneg : negb (value_is (current p3) ")")
                       && negb (value_is (current p3) ";") = false).
        { destruct Hcl as [-> | ->]; [reflexivity|apply andb_false_r]. }
        rewrite Hneg in Hb.
        exact (Hstep Next _ _ Hb (conj Hg1 H) eq_refl).
      * destruct H as (Hv & Hcl & H). rewrite Hv in Hb.
        apply orb_false_iff in Hcl. destruct Hcl as [C1 C2].
        rewrite C1, C2 in Hb. cbn [negb andb] in Hb.
        exact (Hstep Break _ _ Hb H eq_refl).
Qed.

Lemma paramReads_goes_on pe items :
  forall p q,
    paramReads pe items p Partial q -> notAt ")" (current q) = true.
Proof.
  induction items as [|item rest IH]; intros p q H.
  - destruct H as [-> H]. exact H.
  - cbn [paramReads] in H. destruct H as [_ H].
    destruct item as [|name default condition ending].
    + destruct H as [_ H]. exact (IH _ _ H).
    + destruct H as (_ & _ & _ & H).
      destruct (readOptional pe ":=" _ _) as [[default' p2]|];
        [|contradiction].
      destruct H as (_ & H).
      destruct (readOptional pe "?" _ p2) as [[condition' p3]|];
        [|contradiction].
      destruct H as (_ & H).
      destruct ending.
      * destruct H as [_ H]. exact (IH _ _ H).
      * destruct H as (_ & _ & H). exact (IH _ _ H).
      * destruct H as (_ & _ & _ & H & _). discriminate.
Qed.

Lemma paramReads_starts pe items p e q :
  paramReads pe items p e q -> items <> [] -> value_is (current p) ")" = false.
Proof.
  intros H Hne. destruct items as [|item rest]; [contradiction|].
  cbn [paramReads] in H. destruct H as [H _]. unfold notAt in H.
  destruct (value_is (current p) ")"); [discriminate|reflexivity].
Qed.

(** [parseFunctionParameters] on a list that is read to its end. *)
Lemma parseFunctionParameters_reads pe fuel items p q :
  paramReads pe items p Complete q ->
  defaultsGiven false items = true ->
  (List.length items < fuel)%nat ->
  parseFunctionParameters pe fuel p = Ok (paramsOf items, q).
Proof.
  intros H Hg Hf. unfold parseFunctionParameters.
  unfold bind at 1. unfold getCurrent at 1.
  destruct (value_is (current p) ")") eqn:Hc.
  - destruct items as [|item rest].
    + destruct H as [-> _]. reflexivity.
    + cbn [paramReads] in H. destruct H as [H _]. unfold notAt in H.
      rewrite Hc in H. discriminate.
  - unfold bind.
    rewrite (param_run pe items (emptyParams, false) p Complete q Hg H fuel Hf).
    reflexivity.
Qed.

(** A bare name after the [;] of a list of which a part has been read. *)
Lemma parseFunctionParameters_bare pe fuel items p q :
  paramReads pe items p Partial q ->
  defaultsGiven false items = true ->
  (List.length items < fuel)%nat ->
  existsb isKeywordMark items = true ->
  value_is (current q) ";" = false ->
  type_is (current q) TIdentifier && kind_is (current q) "User" = true ->
  value_is (current (advanceParser q)) ":=" = false ->
  parseFunctionParameters pe fuel p
  = Error "Keyword-only parameters must have default values".
Proof.
  intros H Hg Hf Hmark H1 H2 H3. unfold parseFunctionParameters.
  unfold bind at 1. unfold getCurrent at 1.
  assert (Hne : items <> []) by (intros ->; discriminate).
  rewrite (paramReads_starts pe items p Partial q H Hne).
  pose proof (param_run pe items (emptyParams, false) p Partial q Hg H
                (fuel - List.length items)%nat) as E.
  replace (List.length items + (fuel - List.length items))%nat with fuel
    in E by lia.
  unfold bind. rewrite E.
  destruct (fuel - List.length items)%nat as [|k] eqn:Ek; [lia|].
  cbn [while_]. rewrite (paramReads_goes_on pe items p q H).
  unfold paramsAfter. rewrite Hmark. cbn [orb].
  rewrite (bare_keyword_pass pe _ q H1 H2 H3). reflexivity.
Qed.

(** C7, as amended: in a parameter list that [parseFunctionParameters]
    reads, the parameters after the first [;] are keyword-only, all of
    them: a name there that is not followed by [:=] makes parsing fail with
    the error about keyword-only parameters, and a list in which each of
    them has a default gives the parameters before the [;] as positional
    and those after it as keyword entries.  So every keyword entry of a
    parameter list that was parsed has a default, and so has every keyword
    entry of every parameter specification in a tree that
    [parseExpression] returns. *)
Theorem keyword_only_parameters_have_defaults :
  forall systemLookup,
    (forall pe fuel p items q,
        paramReads pe items p Partial q ->
        defaultsGiven false items = true ->
        (List.length items < fuel)%nat ->
        existsb isKeywordMark items = true ->
        value_is (current q) ";" = false ->
        type_is (current q) TIdentifier && kind_is (current q) "User" = true ->
        value_is (current (advanceParser q)) ":=" = false ->
        parseFunctionParameters pe fuel p
        = Error "Keyword-only parameters must have default values")
    /\ (forall pe fuel p items q,
           paramReads pe items p Complete q ->
           defaultsGiven false items = true ->
           (List.length items < fuel)%nat ->
           parseFunctionParameters pe fuel p = Ok (paramsOf items, q))
    /\ (forall pe fuel p ps p',
           parseFunctionParameters pe fuel p = Ok (ps, p') ->
           keywordDefaults ps = true)
    /\ (forall fuel minPrec p n p',
           parseExpression systemLookup fuel minPrec p = Ok (n, p') ->
           allKeywordDefaults n = true).
Proof.
  intros systemLookup. split; [|split; [|split]].
  - intros pe fuel p items q. apply parseFunctionParameters_bare.
  - intros pe fuel p items q. apply parseFunctionParameters_reads.
  - intros pe fuel p ps p' H.
    exact (parseFunctionParameters_keywordDefaults pe fuel _ _ _ H).
  - intros fuel minPrec p n p' H.
    refine (parseExpression_every systemLookup (fun _ => true) keywordDefaults
              _ _ fuel minPrec _ _ _ H); auto.
Qed.

(** C7 as stated fails: the head of a definition is a parameter list too,
    and there the name [n] after the [;] has no [:= default], yet parsing
    succeeds; [n] gets itself as its default. *)
Lemma keyword_only_parameters_have_defaults_counterexample :
  nth_error bareHeadTokens 4 = Some (ident "n")
  /\ nth_error bareHeadTokens 5 = Some (sym ")")
  /\ parse testSystemLookup 6 bareHeadTokens = Ok [bareHeadNode].
Proof. repeat split. Qed.

Lemma keyword_only_parameters_have_defaults_witness :
  let pe := parseExpression testSystemLookup 5 in
  parseFunctionParameters pe 5 (advanceParser (newParser bareKeywordTokens))
  = Error "Keyword-only parameters must have default values"
  /\ parseFunctionParameters pe 5 (advanceParser (newParser keywordPairTokens))
     = Ok (paramsOf keywordPairItems, mkParser keywordPairTokens 11 (sym ")"))
  /\ keywordDefaults (paramsOf keywordPairItems) = true
  /\ parseExpression testSystemLookup 5 0 (newParser keywordLambdaTokens)
     = Ok (FunctionLambda keywordLambdaParams (UserIdentifier "x"),
           mkParser keywordLambdaTokens 9 EndToken)
  /\ allKeywordDefaults (FunctionLambda keywordLambdaParams (UserIdentifier "x"))
     = true.
Proof.
  cbv zeta.
  destruct (keyword_only_parameters_have_defaults testSystemLookup)
    as (H1 & H2 & H3 & H4).
  assert (R1 : paramReads (parseExpression testSystemLookup 5)
                 bareKeywordItems
                 (advanceParser (newParser bareKeywordTokens)) Partial
                 (mkParser bareKeywordTokens 8 (ident "b"))).
  { vm_compute. repeat split. }
  assert (R2 : paramReads (parseExpression testSystemLookup 5)
                 keywordPairItems
                 (advanceParser (newParser keywordPairTokens)) Complete
                 (mkParser keywordPairTokens 11 (sym ")"))).
  { vm_compute. repeat split. }
  split; [|split; [|split; [|split]]].
  - exact (H1 (parseExpression testSystemLookup 5) 5%nat _ bareKeywordItems _
             R1 eq_refl (le_S _ _ (le_n 4)) eq_refl eq_refl eq_refl eq_refl).
  - exact (H2 (parseExpression testSystemLookup 5) 5%nat _ keywordPairItems _
             R2 eq_refl (le_n 5)).
  - exact (H3 (parseExpression testSystemLookup 5) 5%nat _ _ _
             (H2 (parseExpression testSystemLookup 5) 5%nat _ keywordPairItems
                _ R2 eq_refl (le_n 5))).
  - reflexivity.
  - exact (H4 5%nat 0 (newParser keywordLambdaTokens)
             (FunctionLambda keywordLambdaParams (UserIdentifier "x"))
             (mkParser keywordLambdaTokens 9 EndToken) eq_refl).
Defined.
Lemma no_Statement_below_top_level_witness :
  parseExpression testSystemLookup 6 0 (newParser nestedBlockTokens)
  = Ok (nestedBlock, mkParser nestedBlockTokens 8 (sym ";"))
  /\ noStatement nestedBlock = true
  /\ parse testSystemLookup 6 nestedBlockTokens = Ok [Statement nestedBlock]
  /\ Forall topLevelShape [Statement nestedBlock]
  /\ Forall (fun n => isStatement n = false /\ noStatement n = true)
       [BinaryOperation ":=" (UserIdentifier "a") (CodeBlock [Number "3"])].
Proof.
  destruct (no_Statement_below_top_level testSystemLookup) as (H1 & H2 & H3).
  assert (E : noStatement nestedBlock = true).
  { exact (H1 6%nat 0 (newParser nestedBlockTokens) nestedBlock
             (mkParser nestedBlockTokens 8 (sym ";")) eq_refl). }
  split; [reflexivity|]. split; [exact E|]. split; [reflexivity|].
  split.
  - exact (H2 6%nat nestedBlockTokens [Statement nestedBlock] eq_refl).
  - exact (H3 _ E).
Defined.

(** ** Arrow lowering *)

(** [parseInfix] at an operator that none of the earlier branches takes:
    the operator is consumed and the right operand parsed at [rightPrec]. *)
Lemma parseInfix_arrow pe fuel left info p right p' :
  value_is (current p) "->" = true ->
  pe (rightPrecedence info) (advanceParser p) = Ok (right, p') ->
  parseInfix pe fuel left info p = Ok (lowerArrow left right, p').
Proof.
  intros Hop Hr. unfold parseInfix, bind, getCurrent, advance, ret.
  unfold value_is in *. apply String.eqb_eq in Hop. rewrite Hop. simpl.
  rewrite Hr. reflexivity.
Qed.

Lemma parseInfix_patternMatching pe fuel left info p right p' :
  value_is (current p) ":=>" = true ->
  pe (rightPrecedence info) (advanceParser p) = Ok (right, p') ->
  parseInfix pe fuel left info p = Ok (lowerPatternMatching left right, p').
Proof.
  intros Hop Hr. unfold parseInfix, bind, getCurrent, advance, ret.
  unfold value_is in *. apply String.eqb_eq in Hop. rewrite Hop. simpl.
  rewrite Hr. reflexivity.
Qed.

Lemma flat_map_names elements :
  flat_map
    (fun element =>
       match element with
       | UserIdentifier n => [mkParam (JStr n) (@None node)]
       | _ => []
       end) elements
  = map (fun n => mkParam (JStr n) None) (userIdentifierNames elements).
Proof.
  induction elements as [|e els IH]; simpl; auto.
  rewrite map_app, IH. destruct e; reflexivity.
Qed.

(** C1, as amended: at [->], every [Grouping] and every [Tuple] on the left
    gives a [FunctionLambda] whose body is the right operand; any other left
    operand gives the plain [BinaryOperation]. *)
Theorem arrow_lowering :
  forall pe fuel left info p right p',
    value_is (current p) "->" = true ->
    pe (rightPrecedence info) (advanceParser p) = Ok (right, p') ->
    exists n,
      parseInfix pe fuel left info p = Ok (n, p')
      /\ (forall ps, left = Grouping (ParameterList ps) ->
          n = FunctionLambda ps right)
      /\ (forall x, left = Grouping (UserIdentifier x) ->
          n = FunctionLambda (positionalOnly [x]) right)
      /\ (forall l c, left = Grouping (BinaryOperation "?" l c) ->
          n = FunctionLambda
                (mkParams [mkParam (js_or (node_name l) (node_value l)) None]
                   [] [c] [])
                right)
      /\ (forall e, left = Grouping e -> claimedLambdaHead left = false ->
          n = FunctionLambda emptyParams right)
      /\ (forall elements, left = Tuple elements ->
          n = FunctionLambda (positionalOnly (userIdentifierNames elements))
                right)
      /\ (isGroupingOrTuple left = false ->
          n = BinaryOperation "->" left right).
Proof.
  intros pe fuel left info p right p' Hop Hr.
  exists (lowerArrow left right).
  split; [apply parseInfix_arrow; assumption|].
  repeat split.
  - intros ps ->. reflexivity.
  - intros x ->. reflexivity.
  - intros l c ->. reflexivity.
  - intros e -> H. simpl in H. unfold lowerArrow.
    destruct e; try reflexivity; try discriminate.
    simpl. rewrite H. reflexivity.
  - intros elements ->. unfold lowerArrow, positionalOnly.
    rewrite flat_map_names. reflexivity.
  - intros H. destruct left; try reflexivity; discriminate.
Qed.

(** C1 as stated fails: [(1) -> 2] has a left operand of none of the four
    listed shapes, and is lowered to a [FunctionLambda] all the same. *)
Lemma arrow_lowering_counterexample :
  let left := Grouping (Number "1") in
  let p := newParser [sym "->"; num "2"] in
  claimedLambdaHead left = false
  /\ parseInfix (parseExpression testSystemLookup 3) 3 left
       (infixR PRECEDENCE.ARROW) p
     = Ok (FunctionLambda emptyParams (Number "2"), advanceParser (advanceParser p))
  /\ parse testSystemLookup 5 [sym "("; num "1"; sym ")"; sym "->"; num "2"]
     = Ok [FunctionLambda emptyParams (Number "2")]
  /\ FunctionLambda emptyParams (Number "2")
     <> BinaryOperation "->" left (Number "2").
Proof.
  cbv zeta. repeat split; try reflexivity. discriminate.
Qed.

Lemma arrow_lowering_witness :
  let p := newParser [sym "->"; ident "x"] in
  let left := Tuple [UserIdentifier "a"; Number "1"; UserIdentifier "b"] in
  value_is (current p) "->" = true
  /\ parseExpression testSystemLookup 3 (rightPrecedence (infixR PRECEDENCE.ARROW))
       (advanceParser p)
     = Ok (UserIdentifier "x", advanceParser (advanceParser p))
  /\ exists n,
      parseInfix (parseExpression testSystemLookup 3) 3 left
        (infixR PRECEDENCE.ARROW) p
      = Ok (n, advanceParser (advanceParser p))
      /\ n = FunctionLambda (positionalOnly ["a"; "b"]) (UserIdentifier "x").
Proof.
  cbv zeta. split; [reflexivity|]. split; [reflexivity|].
  destruct (arrow_lowering (parseExpression testSystemLookup 3) 3
              (Tuple [UserIdentifier "a"; Number "1"; UserIdentifier "b"])
              (infixR PRECEDENCE.ARROW)
              (newParser [sym "->"; ident "x"]) (UserIdentifier "x")
              (advanceParser (advanceParser (newParser [sym "->"; ident "x"])))
              eq_refl eq_refl)
    as (n & H1 & _ & _ & _ & _ & H5 & _).
  exists n. split; [exact H1|]. exact (H5 _ eq_refl).
Defined.

(** ** Pattern lowering *)

Lemma patternOf_skips entry : isLambdaShaped entry = false -> patternOf entry = None.
Proof.
  destruct entry; simpl; try reflexivity; try discriminate.
  intros ->. reflexivity.
Qed.

Lemma patternOf_lambda entry :
  isLambdaShaped entry = true -> exists pf, patternOf entry = Some pf.
Proof.
  destruct entry; simpl; try discriminate.
  - intros ->. eexists; reflexivity.
  - intros _. eexists; reflexivity.
Qed.

Lemma lowerPatterns_filter raw :
  map Some (lowerPatterns raw) = map patternOf (filter isLambdaShaped raw).
Proof.
  unfold lowerPatterns. induction raw as [|e raw IH]; simpl; auto.
  rewrite map_app, IH.
  destruct (isLambdaShaped e) eqn:E.
  - destruct (patternOf_lambda e E) as [pf Hpf]. simpl. rewrite Hpf. reflexivity.
  - rewrite (patternOf_skips e E). reflexivity.
Qed.

Lemma lowerPatterns_entries entries :
  patternsOfEntries (lowerPatterns entries) entries.
Proof.
  pose proof (lowerPatterns_filter entries) as Hf.
  assert (Hlen : List.length (lowerPatterns entries)
                 = List.length (filter isLambdaShaped entries)).
  { rewrite <- (length_map Some), Hf, length_map. reflexivity. }
  unfold patternsOfEntries. repeat split.
  - exact Hf.
  - intros entry _ Hs. apply patternOf_skips. exact Hs.
  - exact Hlen.
  - rewrite Hlen. apply filter_length_le.
Qed.

(** C9: at [:=>], the pattern array is the right operand when that is an
    [Array]; the primary array of the right operand, or the array that is
    its first entry, when the right operand is an array with metadata; and
    the right operand alone otherwise.  The patterns of the
    [PatternMatchingFunction] are those of the entries of this array that
    are a [FunctionLambda] or a [BinaryOperation] with operator [->], in
    order; any other entry gives no pattern and no error, so there may be
    fewer patterns than entries. *)
Theorem pattern_entries_silently_skipped :
  forall pe fuel left info p right p',
    value_is (current p) ":=>" = true ->
    pe (rightPrecedence info) (advanceParser p) = Ok (right, p') ->
    exists name ps patterns meta,
      parseInfix pe fuel left info p
      = Ok (PatternMatchingFunction name ps patterns meta, p')
      /\ (forall entries,
             right = Array entries ->
             patternsOfEntries patterns entries /\ meta = [])
      /\ (forall inner rest m,
             right = WithMetadata (Array (Array inner :: rest)) m ->
             patternsOfEntries patterns inner /\ meta = m)
      /\ (forall entries m,
             right = WithMetadata (Array entries) m ->
             (forall inner rest, entries <> Array inner :: rest) ->
             patternsOfEntries patterns entries /\ meta = m)
      /\ ((forall entries, right <> Array entries) ->
          (forall entries m, right <> WithMetadata (Array entries) m) ->
          patternsOfEntries patterns [right] /\ meta = []).
Proof.
  intros pe fuel left info p right p' Hop Hr.
  pose proof (parseInfix_patternMatching pe fuel left info p right p' Hop Hr)
    as H.
  unfold lowerPatternMatching in H.
  destruct (match left with
            | FunctionCall f args => (f, convertArgsToParams args)
            | _ => (left, emptyParams)
            end) as [name ps].
  destruct (rawPatternsOf right) as [raw meta] eqn:E.
  exists name, ps, (lowerPatterns raw), meta.
  split; [exact H|]. split; [|split; [|split]].
  - intros entries ->. simpl in E. inversion E; subst.
    split; [apply lowerPatterns_entries|reflexivity].
  - intros inner rest m ->. simpl in E. inversion E; subst.
    split; [apply lowerPatterns_entries|reflexivity].
  - intros entries m -> Hne. simpl in E.
    destruct entries as [|first rest].
    + inversion E; subst. split; [apply lowerPatterns_entries|reflexivity].
    + destruct first; try (inversion E; subst;
                           split; [apply lowerPatterns_entries|reflexivity]).
      exfalso. exact (Hne _ _ eq_refl).
  - intros Hna Hnw. unfold rawPatternsOf in E.
    destruct right; try (inversion E; subst;
                         split; [apply lowerPatterns_entries|reflexivity]).
    + exfalso. exact (Hna _ eq_refl).
    + destruct right; try (inversion E; subst;
                           split; [apply lowerPatterns_entries|reflexivity]).
      exfalso. exact (Hnw _ _ eq_refl).
Qed.

Lemma pattern_entries_silently_skipped_witness :
  let pe := parseExpression testSystemLookup 7 in
  (exists name ps patterns,
      parseInfix pe 7 (UserIdentifier "g") (infixR PRECEDENCE.ASSIGNMENT)
        (newParser patternArrayTokens)
      = Ok (PatternMatchingFunction name ps patterns [],
            mkParser patternArrayTokens 10 EndToken)
      /\ List.length patterns = 1%nat)
  /\ (exists name ps patterns,
         parseInfix pe 7 (UserIdentifier "g") (infixR PRECEDENCE.ASSIGNMENT)
           (newParser patternMetadataTokens)
         = Ok (PatternMatchingFunction name ps patterns [("n", Number "4")],
               mkParser patternMetadataTokens 16 EndToken)
         /\ List.length patterns = 1%nat).
Proof.
  cbv zeta. split.
  - destruct (pattern_entries_silently_skipped
                (parseExpression testSystemLookup 7) 7 (UserIdentifier "g")
                (infixR PRECEDENCE.ASSIGNMENT)
                (newParser patternArrayTokens) patternArray
                (mkParser patternArrayTokens 10 EndToken)
                eq_refl eq_refl)
      as (name & ps & patterns & meta & H & Harray & _).
    destruct (Harray _ eq_refl) as ((_ & _ & Hlen & _) & ->).
    exists name, ps, patterns. split; [exact H|exact Hlen].
  - destruct (pattern_entries_silently_skipped
                (parseExpression testSystemLookup 7) 7 (UserIdentifier "g")
                (infixR PRECEDENCE.ASSIGNMENT)
                (newParser patternMetadataTokens) patternMetadata
                (mkParser patternMetadataTokens 16 EndToken)
                eq_refl eq_refl)
      as (name & ps & patterns & meta & H & _ & _ & Hmeta & _).
    assert (Hne : forall inner rest,
               [FunctionLambda (positionalOnly ["x"]) (UserIdentifier "x");
                Number "5"] <> Array inner :: rest)
      by (intros inner rest E; discriminate).
    destruct (Hmeta _ _ eq_refl Hne) as ((_ & _ & Hlen & _) & ->).
    exists name, ps, patterns. split; [exact H|exact Hlen].
Defined.
(** ** Parentheses *)

(** C2: after [(], the content is to be classified by the separators at
    depth zero within the pair, separators inside an inner bracket pair not
    counting.  This fails on the code.  The look-ahead of [parseGrouping]
    starts at [this.position], one token after the current one, so an
    opening parenthesis that comes first inside the pair is not counted: in
    [((a, b))] the inner comma is taken for a comma of the outer pair, and
    the result is a one-element [Tuple] where a [Grouping] is due.  Square
    brackets are not counted at all: [([1, 2])] is a [Tuple] as well. *)
Theorem grouping_lookahead_skips_first_token :
  let ts := [sym "("; sym "("; ident "a"; sym ","; ident "b"; sym ")"; sym ")"] in
  let p := advanceParser (newParser ts) in
  current p = sym "("
  /\ scanGrouping (skipn (position p) (tokens p)) 0 false = (false, true)
  /\ parse testSystemLookup 6 ts
     = Ok [Tuple [Tuple [UserIdentifier "a"; UserIdentifier "b"]]]
  /\ parse testSystemLookup 6
       [sym "("; sym "["; num "1"; sym ","; num "2"; sym "]"; sym ")"]
     = Ok [Tuple [Array [Number "1"; Number "2"]]].
Proof. cbv zeta. repeat split; reflexivity. Qed.

(** ** Square brackets *)




Lemma metadataInv_bracketState s items :
  metadataInv (bracketState s items).
Proof. split; reflexivity. Qed.

Lemma bracketState_nil s : metadataInv s -> bracketState s [] = s.
Proof.
  intros [H1 H2]. destruct s; simpl in *. unfold bracketState; simpl.
  rewrite !app_nil_r, !orb_false_r, <- H1, <- H2. reflexivity.
Qed.

Lemma elementsOf_cons item rest :
  elementsOf (item :: rest) = elementsOf [item] ++ elementsOf rest.
Proof.
  destruct item as [c|e sep]; simpl; [reflexivity|].
  destruct (isMetadata e); reflexivity.
Qed.

Lemma metadataFrom_cons m item rest :
  metadataFrom m (item :: rest) = metadataFrom (metadataFrom m [item]) rest.
Proof.
  destruct item as [c|e sep]; simpl; [reflexivity|].
  destruct (asBinary ":=" e) as [[l r]|]; [|reflexivity].
  destruct (metadataKey l); reflexivity.
Qed.

Lemma closedRows_cons row item rest :
  closedRows row (item :: rest)
  = closedRows row [item] ++ closedRows (openRow row [item]) rest.
Proof.
  destruct item as [c|e sep]; simpl; [reflexivity|].
  destruct sep; reflexivity.
Qed.

Lemma openRow_cons row item rest :
  openRow row (item :: rest) = openRow (openRow row [item]) rest.
Proof.
  destruct item as [c|e sep]; simpl; [reflexivity|].
  destruct sep; reflexivity.
Qed.

Lemma bracketState_cons s item rest :
  bracketState s (item :: rest) = bracketState (bracketState s [item]) rest.
Proof.
  unfold bracketState. cbn [arr_elements hasMetadata metadataMap
    arr_hasSemicolons matrixStructure currentRow].
  rewrite (elementsOf_cons item rest), (metadataFrom_cons _ item rest),
    (closedRows_cons _ item rest), (openRow_cons _ item rest).
  unfold hasRows, hasMetadataItem. cbn [existsb].
  rewrite !orb_false_r, !app_assoc, !orb_assoc. reflexivity.
Qed.

Lemma readable_cons semi meta item rest :
  readable semi meta (item :: rest) = true ->
  readable semi meta [item] = true
  /\ readable (semi || isRowsItem item) (meta || isMetadataItem item) rest
     = true.
Proof.
  destruct item as [c|e sep]; simpl.
  - rewrite orb_true_r, orb_false_r. auto.
  - unfold isMetadata. destruct (asBinary ":=" e) as [[l r]|].
    + intros H. apply andb_true_iff in H. destruct H as [H H4].
      rewrite H. apply andb_true_iff in H. destruct H as [H H3].
      apply negb_true_iff in H3. rewrite H3, orb_false_r, orb_true_r.
      auto.
    + intros H. apply andb_true_iff in H. destruct H as [H1 H2].
      rewrite H1, orb_false_r. auto.
Qed.

Lemma hd_error_snoc {A} (l : list A) x :
  hd_error (l ++ [x]) = match l with [] => Some x | y :: _ => Some y end.
Proof. destruct l; reflexivity. Qed.

(** *** One pass of the loop *)

Lemma consumeSemicolonSequence_count p :
  isSemicolonToken (current p) = true ->
  consumeSemicolonSequence p = Ok (separatorCount (current p), advanceParser p).
Proof.
  intros H. unfold consumeSemicolonSequence, separatorCount, bind, getCurrent,
    advance, ret.
  destruct (type_is (current p) TSemicolonSequence) eqn:E; [reflexivity|].
  unfold isSemicolonToken in H. rewrite E, orb_false_r in H. rewrite H.
  reflexivity.
Qed.

Lemma body_leading pe s p :
  metadataInv s ->
  isSemicolonToken (current p) = true ->
  parseMatrixOrArray_body pe s p
  = Ok ((Next, bracketState s [LeadingRows (separatorCount (current p))]),
        advanceParser p).
Proof.
  intros [H1 H2] H. unfold parseMatrixOrArray_body.
  unfold bind at 1. unfold getCurrent at 1. rewrite H.
  unfold bind. rewrite (consumeSemicolonSequence_count _ H). unfold ret.
  unfold bracketState. simpl.
  rewrite !app_nil_r, !orb_false_r, !orb_true_r, <- H1, <- H2. reflexivity.
Qed.

(** The loop variables after an element, before the separator is looked
    at. *)
Lemma body_element_state s element :
  metadataInv s ->
  readable (arr_hasSemicolons s) (hasMetadata s) [Element element Comma] = true ->
  forall sep,
    isRows sep = false ->
    match asBinary ":=" element with
    | Some (l, r) =>
        arr_hasSemicolons s = false
        /\ exists key,
            metadataKey l = Some key
            /\ bracketState s [Element element sep]
               = mkArrayState (arr_elements s) true (primaryElement s)
                   (obj_set key r (metadataMap s)) (nonMetadataCount s)
                   (arr_hasSemicolons s) (matrixStructure s) (currentRow s)
    | None =>
        hasMetadata s = false
        /\ bracketState s [Element element sep]
           = mkArrayState (arr_elements s ++ [element]) (hasMetadata s)
               (if nonMetadataCount s + 1 =? 1 then Some element
                else primaryElement s)
               (metadataMap s) (nonMetadataCount s + 1) (arr_hasSemicolons s)
               (matrixStructure s) (currentRow s ++ [element])
    end.
Proof.
  intros [H1 H2] Hr sep Hsep. simpl in Hr. unfold bracketState. simpl.
  unfold isMetadata. destruct (asBinary ":=" element) as [[l r]|].
  - rewrite !andb_true_r in Hr. apply andb_true_iff in Hr.
    destruct Hr as [Hs Hk]. apply negb_true_iff in Hs. split; [exact Hs|].
    destruct l; try discriminate; simpl; eexists; (split; [reflexivity|]);
      destruct sep; try discriminate;
      rewrite !app_nil_r, !orb_true_r, !orb_false_r, <- H1, <- H2;
      reflexivity.
  - apply andb_true_iff in Hr. destruct Hr as [Hm _].
    apply negb_true_iff in Hm. split; [exact Hm|].
    rewrite H1, H2, hd_error_snoc, length_app, Hm. simpl.
    replace (Z.of_nat (List.length (arr_elements s)) + 1)
      with (Z.of_nat (List.length (arr_elements s) + 1)) by lia.
    destruct sep; try discriminate; rewrite !app_nil_r, !orb_false_r;
      (destruct (arr_elements s); [reflexivity|]);
      simpl List.length;
      (destruct (Z.of_nat (S (List.length l) + 1) =? 1) eqn:E;
       [apply Z.eqb_eq in E; lia|reflexivity]).
Qed.

Lemma body_element pe s p element p1 sep :
  metadataInv s ->
  readable (arr_hasSemicolons s) (hasMetadata s) [Element element sep] = true ->
  isSemicolonToken (current p) = false ->
  pe 0 p = Ok (element, p1) ->
  match sep with
  | Comma =>
      value_is (current p1) "," = true ->
      parseMatrixOrArray_body pe s p
      = Ok ((Next, bracketState s [Element element sep]), advanceParser p1)
  | Rows count =>
      value_is (current p1) "," = false ->
      isSemicolonToken (current p1) = true ->
      count = separatorCount (current p1) ->
      parseMatrixOrArray_body pe s p
      = Ok ((Next, bracketState s [Element element sep]), advanceParser p1)
  | NoSeparator =>
      value_is (current p1) "," = false ->
      isSemicolonToken (current p1) = false ->
      parseMatrixOrArray_body pe s p
      = Ok ((Break, bracketState s [Element element sep]), p1)
  end.
Proof.
  intros Hc Hr Hcur Hpe.
  assert (Hr' : readable (arr_hasSemicolons s) (hasMetadata s)
                  [Element element Comma] = true).
  { simpl in Hr |- *. destruct (asBinary ":=" element) as [[l r]|].
    - rewrite !andb_true_r in Hr. apply andb_true_iff in Hr.
      destruct Hr as [Hr _]. rewrite Hr. reflexivity.
    - apply andb_true_iff in Hr. destruct Hr as [Hr _]. rewrite Hr.
      reflexivity. }
  assert (Hstate : forall sep', isRows sep' = false ->
             exists s1,
               bracketState s [Element element sep'] = s1
               /\ hasMetadata s1 = isMetadata element
               /\ (match asBinary ":=" element with
                    | Some (l, r) =>
                        (if arr_hasSemicolons s
                         then error mixMatrixNested
                         else ret tt) ;;
                        key <-
                          (match l with
                           | UserIdentifier n => ret n
                           | SystemIdentifier n _ => ret n
                           | StringNode v _ => ret v
                           | _ => error "Metadata key must be an identifier or string"
                           end) ;;
                        ret (mkArrayState (arr_elements s) true
                               (primaryElement s)
                               (obj_set key r (metadataMap s))
                               (nonMetadataCount s) (arr_hasSemicolons s)
                               (matrixStructure s) (currentRow s))
                    | None =>
                        if hasMetadata s then error mixElements
                        else
                          ret (mkArrayState (arr_elements s ++ [element])
                                 (hasMetadata s)
                                 (if nonMetadataCount s + 1 =? 1
                                  then Some element else primaryElement s)
                                 (metadataMap s) (nonMetadataCount s + 1)
                                 (arr_hasSemicolons s) (matrixStructure s)
                                 (currentRow s ++ [element]))
                    end) p1 = Ok (s1, p1)).
  { intros sep' Hsep'.
    pose proof (body_element_state s element Hc Hr' sep' Hsep') as Hs.
    unfold isMetadata.
    destruct (asBinary ":=" element) as [[l r]|].
    - destruct Hs as (Hsemi & key & Hk & ->). rewrite Hsemi.
      eexists. split; [reflexivity|]. split; [reflexivity|].
      destruct l; try discriminate; inversion Hk; subst; reflexivity.
    - destruct Hs as (Hm & ->). rewrite Hm.
      eexists. split; [reflexivity|]. split; reflexivity. }
  assert (Hbody : forall k : arrayState -> M (flow * arrayState),
             parseMatrixOrArray_body pe s p
             = bind (match asBinary ":=" element with
                     | Some (l, r) =>
                         (if arr_hasSemicolons s
                          then error mixMatrixNested
                          else ret tt) ;;
                         key <-
                           (match l with
                            | UserIdentifier n => ret n
                            | SystemIdentifier n _ => ret n
                            | StringNode v _ => ret v
                            | _ => error "Metadata key must be an identifier or string"
                            end) ;;
                         ret (mkArrayState (arr_elements s) true
                                (primaryElement s)
                                (obj_set key r (metadataMap s))
                                (nonMetadataCount s) (arr_hasSemicolons s)
                                (matrixStructure s) (currentRow s))
                     | None =>
                         if hasMetadata s then error mixElements
                         else
                           ret (mkArrayState (arr_elements s ++ [element])
                                  (hasMetadata s)
                                  (if nonMetadataCount s + 1 =? 1
                                   then Some element else primaryElement s)
                                  (metadataMap s) (nonMetadataCount s + 1)
                                  (arr_hasSemicolons s) (matrixStructure s)
                                  (currentRow s ++ [element]))
                     end)
                 (fun s =>
                    cur <- getCurrent ;;
                    if value_is cur "," then advance ;; ret (Next, s)
                    else if isSemicolonToken cur then
                      if hasMetadata s then error mixMatrix
                      else
                        semicolonCount <- consumeSemicolonSequence ;;
                        ret (Next,
                             mkArrayState (arr_elements s) (hasMetadata s)
                               (primaryElement s) (metadataMap s)
                               (nonMetadataCount s) true
                               (matrixStructure s
                                ++ [mkEntry (currentRow s) semicolonCount])
                               [])
                    else ret (Break, s)) p1).
  { intros _. unfold parseMatrixOrArray_body.
    unfold bind at 1. unfold getCurrent at 1. rewrite Hcur.
    unfold bind at 1. rewrite Hpe. reflexivity. }
  specialize (Hbody (fun s => ret (Next, s))).
  rewrite Hbody. clear Hbody.
  destruct sep as [|count|].
  - intros Hcomma. destruct (Hstate Comma eq_refl) as (s1 & -> & _ & Es).
    unfold bind at 1. rewrite Es.
    unfold bind, getCurrent, advance, ret. rewrite Hcomma. reflexivity.
  - intros Hcomma Hsemi ->.
    destruct (Hstate Comma eq_refl) as (s1 & Hs1 & Hm1 & Es).
    unfold bind at 1. rewrite Es.
    unfold bind at 1. unfold getCurrent at 1. rewrite Hcomma, Hsemi, Hm1.
    simpl in Hr. unfold isMetadata.
    destruct (asBinary ":=" element) as [[l r]|] eqn:Ea.
    { rewrite andb_false_r in Hr. discriminate. }
    unfold bind. rewrite (consumeSemicolonSequence_count _ Hsemi). unfold ret.
    assert (Hm : hasMetadata s = false)
      by (destruct (hasMetadata s); [discriminate|reflexivity]).
    subst s1. unfold bracketState. simpl. unfold isMetadata. rewrite Ea.
    rewrite !app_nil_r, !orb_false_r, !orb_true_r, Hm. reflexivity.
  - intros Hcomma Hsemi.
    destruct (Hstate NoSeparator eq_refl) as (s1 & -> & _ & Es).
    unfold bind at 1. rewrite Es.
    unfold bind, getCurrent, advance, ret. rewrite Hcomma, Hsemi.
    reflexivity.
Qed.

(** The errors that an element can meet. *)
Lemma body_element_errors pe s p element p1 :
  isSemicolonToken (current p) = false ->
  pe 0 p = Ok (element, p1) ->
  (forall l r,
      asBinary ":=" element = Some (l, r) ->
      arr_hasSemicolons s = true ->
      parseMatrixOrArray_body pe s p = Error mixMatrixNested)
  /\ (forall l r,
         asBinary ":=" element = Some (l, r) ->
         arr_hasSemicolons s = false ->
         isMetadataKey l = true ->
         value_is (current p1) "," = false ->
         isSemicolonToken (current p1) = true ->
         parseMatrixOrArray_body pe s p = Error mixMatrix)
  /\ (asBinary ":=" element = None ->
      hasMetadata s = true ->
      parseMatrixOrArray_body pe s p = Error mixElements).
Proof.
  intros Hcur He.
  unfold parseMatrixOrArray_body, bind, getCurrent. rewrite Hcur, He.
  repeat split.
  - intros l r Hb Hs. rewrite Hb, Hs. reflexivity.
  - intros l r Hb Hs Hk Hc Hsemi. rewrite Hb, Hs. unfold ret, error.
    destruct l; try discriminate; simpl; rewrite Hc, Hsemi; reflexivity.
  - intros Hb Hm. rewrite Hb, Hm. reflexivity.
Qed.

(** One pass reads one item. *)
Lemma body_item pe item rest s p e q :
  metadataInv s ->
  readable (arr_hasSemicolons s) (hasMetadata s) [item] = true ->
  bracketReads pe (item :: rest) p e q ->
  (exists p1,
      parseMatrixOrArray_body pe s p
      = Ok ((Next, bracketState s [item]), p1)
      /\ if notAt "]" (current p1) then bracketReads pe rest p1 e q
         else rest = [] /\ e = Complete /\ q = p1)
  \/ (parseMatrixOrArray_body pe s p = Ok ((Break, bracketState s [item]), q)
      /\ rest = [] /\ e = Complete).
Proof.
  intros Hc Hr H. destruct item as [count|element sep].
  - cbn [bracketReads] in H. destruct H as (H1 & -> & H3).
    left. exists (advanceParser p). split; [|exact H3].
    exact (body_leading pe s p Hc H1).
  - cbn [bracketReads] in H. destruct H as (H1 & H).
    destruct (pe 0 p) as [[element' p1]| |] eqn:Hpe; try contradiction.
    destruct H as (-> & H).
    pose proof (body_element pe s p element p1 sep Hc Hr H1 Hpe) as Hb.
    destruct sep as [|count|].
    + destruct H as (H2 & H3). left. exists (advanceParser p1).
      split; [exact (Hb H2)|exact H3].
    + destruct H as (H2 & H3 & H4 & H5). left. exists (advanceParser p1).
      split; [exact (Hb H2 H3 H4)|exact H5].
    + destruct H as (H2 & H3 & -> & -> & ->). right.
      split; [exact (Hb H2 H3)|auto].
Qed.

Lemma while_do_while {S} fuel cond (body : S -> M (flow * S)) s p :
  cond s (current p) = true ->
  while_ (Datatypes.S fuel) cond body s p = do_while fuel cond body s p.
Proof.
  intros H. cbn [while_]. rewrite H. unfold do_while, bind.
  destruct (body s p) as [[[[|] s1] p1]| |]; reflexivity.
Qed.

(** The loop reads the items. *)
Lemma bracket_run pe items :
  forall s p e q,
    metadataInv s ->
    readable (arr_hasSemicolons s) (hasMetadata s) items = true ->
    bracketReads pe items p e q ->
    match e with
    | Partial =>
        forall k,
          do_while (List.length items + k) (fun _ cur => notAt "]" cur)
            (parseMatrixOrArray_body pe) s p
          = do_while k (fun _ cur => notAt "]" cur)
              (parseMatrixOrArray_body pe) (bracketState s items) q
    | Complete =>
        forall fuel,
          (List.length items <= fuel)%nat ->
          do_while fuel (fun _ cur => notAt "]" cur)
            (parseMatrixOrArray_body pe) s p
          = Ok (bracketState s items, q)
    end.
Proof.
  induction items as [|item rest IH]; intros s p e q Hc Hr H.
  - destruct H as [-> ->]. intros k. rewrite (bracketState_nil _ Hc).
    reflexivity.
  - destruct (readable_cons _ _ _ _ Hr) as [Hr1 Hr2].
    rewrite (bracketState_cons s item rest).
    assert (Hc1 := metadataInv_bracketState s [item]).
    assert (Hr3 : readable (arr_hasSemicolons (bracketState s [item]))
                    (hasMetadata (bracketState s [item])) rest = true).
    { unfold bracketState, hasRows, hasMetadataItem. cbn [arr_hasSemicolons hasMetadata existsb].
      rewrite !orb_false_r. exact Hr2. }
    destruct (body_item pe item rest s p e q Hc Hr1 H)
      as [(p1 & Hb & Hnext)|(Hb & -> & ->)].
    + destruct (notAt "]" (current p1)) eqn:Hn.
      * specialize (IH _ _ _ _ Hc1 Hr3 Hnext). destruct e.
        -- intros fuel Hf. destruct fuel as [|fuel]; [simpl in Hf; lia|].
           unfold do_while at 1. unfold bind. rewrite Hb.
           rewrite (while_do_while fuel (fun _ cur => notAt "]" cur)
                      (parseMatrixOrArray_body pe) _ _ Hn).
           apply IH. simpl in Hf. lia.
        -- intros k. cbn [List.length Nat.add].
           unfold do_while at 1. unfold bind. rewrite Hb.
           rewrite (while_do_while _ (fun _ cur => notAt "]" cur)
                      (parseMatrixOrArray_body pe) _ _ Hn).
           apply IH.
      * destruct Hnext as (-> & -> & ->). intros fuel Hf.
        destruct fuel as [|fuel]; [simpl in Hf; lia|].
        unfold do_while, bind. rewrite Hb. cbn [while_]. rewrite Hn.
        rewrite (bracketState_nil _ Hc1). reflexivity.
    + intros fuel Hf. unfold do_while, bind. rewrite Hb.
      rewrite (bracketState_nil _ Hc1). reflexivity.
Qed.

Lemma metadataInv_arrayState0 : metadataInv arrayState0.
Proof. split; reflexivity. Qed.

(** The loop of [parseMatrixOrArray] on a content that is read to its
    end. *)
Lemma parseMatrixOrArray_loop_reads pe fuel items p q :
  bracketContent pe items p Complete q ->
  readable false false items = true ->
  (List.length items <= fuel)%nat ->
  parseMatrixOrArray_loop pe fuel p = Ok (bracketState arrayState0 items, q).
Proof.
  intros H Hr Hf. unfold parseMatrixOrArray_loop, bind, getCurrent.
  unfold bracketContent in H.
  destruct (value_is (current p) "]"); simpl.
  - destruct H as (-> & _ & ->). reflexivity.
  - exact (bracket_run pe items arrayState0 p Complete q
             metadataInv_arrayState0 Hr H fuel Hf).
Qed.

(** The loop on a content of which a part has been read: the next pass
    decides. *)
Lemma parseMatrixOrArray_loop_partial pe fuel items p q :
  bracketContent pe items p Partial q ->
  readable false false items = true ->
  (List.length items <= fuel)%nat ->
  forall msg,
    parseMatrixOrArray_body pe (bracketState arrayState0 items) q = Error msg ->
    parseMatrixOrArray pe fuel p = Error msg.
Proof.
  intros H Hr Hf msg Hb.
  unfold parseMatrixOrArray, bind at 1, parseMatrixOrArray_loop, bind at 1, getCurrent.
  unfold bracketContent in H.
  destruct (value_is (current p) "]"); simpl.
  - destruct H as (_ & H & _). discriminate.
  - pose proof (bracket_run pe items arrayState0 p Partial q
                  metadataInv_arrayState0 Hr H
                  (fuel - List.length items)%nat) as E.
    replace (List.length items + (fuel - List.length items))%nat with fuel
      in E by lia.
    rewrite E. unfold do_while, bind. rewrite Hb. reflexivity.
Qed.

Lemma body_key_error pe s p element p1 l r :
  isSemicolonToken (current p) = false ->
  pe 0 p = Ok (element, p1) ->
  asBinary ":=" element = Some (l, r) ->
  arr_hasSemicolons s = false ->
  isMetadataKey l = false ->
  parseMatrixOrArray_body pe s p
  = Error "Metadata key must be an identifier or string".
Proof.
  intros Hcur He Hb Hs Hk.
  unfold parseMatrixOrArray_body, bind, getCurrent. rewrite Hcur, He, Hb, Hs.
  destruct l; try discriminate; reflexivity.
Qed.

(** Every pass that ends well has read an item. *)
Lemma body_reads pe s p fl s1 p1 :
  metadataInv s ->
  parseMatrixOrArray_body pe s p = Ok ((fl, s1), p1) ->
  exists item,
    readable (arr_hasSemicolons s) (hasMetadata s) [item] = true
    /\ s1 = bracketState s [item]
    /\ match fl with
       | Next =>
           forall rest e q,
             (if notAt "]" (current p1) then bracketReads pe rest p1 e q
              else rest = [] /\ e = Complete /\ q = p1) ->
             bracketReads pe (item :: rest) p e q
       | Break => bracketReads pe [item] p Complete p1
       end.
Proof.
  intros Hc H. destruct (isSemicolonToken (current p)) eqn:Hcur.
  - rewrite (body_leading pe s p Hc Hcur) in H. inversion H; subst.
    exists (LeadingRows (separatorCount (current p))).
    split; [reflexivity|]. split; [reflexivity|].
    intros rest e q Hn. cbn [bracketReads]. auto.
  - destruct (pe 0 p) as [[element p2]| |] eqn:Hpe.
    2,3: unfold parseMatrixOrArray_body in H; unfold bind at 1 in H;
      unfold getCurrent at 1 in H; rewrite Hcur in H; unfold bind at 1 in H;
      rewrite Hpe in H; discriminate.
    pose (sep := if value_is (current p2) "," then Comma
                 else if isSemicolonToken (current p2)
                      then Rows (separatorCount (current p2))
                      else NoSeparator).
    assert (Hr : readable (arr_hasSemicolons s) (hasMetadata s)
                   [Element element sep] = true).
    { simpl. destruct (asBinary ":=" element) as [[l r]|] eqn:Ea.
      - destruct (arr_hasSemicolons s) eqn:Hs.
        { rewrite (proj1 (body_element_errors pe s p element p2 Hcur Hpe)
                     l r Ea Hs) in H. discriminate. }
        destruct (isMetadataKey l) eqn:Hk.
        2:{ rewrite (body_key_error pe s p element p2 l r Hcur Hpe Ea Hs Hk)
              in H. discriminate. }
        simpl. rewrite andb_true_r. unfold sep.
        destruct (value_is (current p2) ",") eqn:Hv; [reflexivity|].
        destruct (isSemicolonToken (current p2)) eqn:Hsm; [|reflexivity].
        rewrite (proj1 (proj2 (body_element_errors pe s p element p2 Hcur Hpe))
                   l r Ea Hs Hk Hv Hsm) in H. discriminate.
      - destruct (hasMetadata s) eqn:Hm; [|reflexivity].
        rewrite (proj2 (proj2 (body_element_errors pe s p element p2 Hcur Hpe))
                   Ea Hm) in H. discriminate. }
    exists (Element element sep). split; [exact Hr|].
    pose proof (body_element pe s p element p2 sep Hc Hr Hcur Hpe) as Hb.
    unfold sep in Hb |- *.
    destruct (value_is (current p2) ",") eqn:Hv.
    { rewrite (Hb eq_refl) in H. inversion H; subst.
      split; [reflexivity|]. intros rest e q Hn. cbn [bracketReads].
      rewrite Hpe. auto. }
    destruct (isSemicolonToken (current p2)) eqn:Hsm.
    { rewrite (Hb eq_refl eq_refl eq_refl) in H. inversion H; subst.
      split; [reflexivity|]. intros rest e q Hn. cbn [bracketReads].
      rewrite Hpe. auto 6. }
    rewrite (Hb eq_refl eq_refl) in H. inversion H; subst.
    split; [reflexivity|]. cbn [bracketReads]. rewrite Hpe. auto 8.
Qed.

Lemma readable_cons_intro semi meta item rest :
  readable semi meta [item] = true ->
  readable (semi || isRowsItem item) (meta || isMetadataItem item) rest = true ->
  readable semi meta (item :: rest) = true.
Proof.
  destruct item as [c|e sep]; simpl.
  - rewrite orb_true_r, orb_false_r. auto.
  - unfold isMetadata. destruct (asBinary ":=" e) as [[l r]|].
    + intros H H2. rewrite andb_true_r in H. rewrite H.
      apply andb_true_iff in H. destruct H as [H H3].
      apply negb_true_iff in H3. rewrite H3, orb_false_r, orb_true_r in H2.
      exact H2.
    + intros H H2. rewrite andb_true_r in H. rewrite H.
      rewrite orb_false_r in H2. exact H2.
Qed.

Lemma bracketState_flags s item :
  arr_hasSemicolons (bracketState s [item])
  = (arr_hasSemicolons s || isRowsItem item)
  /\ hasMetadata (bracketState s [item])
     = (hasMetadata s || isMetadataItem item).
Proof.
  unfold bracketState, hasRows, hasMetadataItem. simpl.
  rewrite !orb_false_r. auto.
Qed.

(** Every run of the loop that ends well has read items. *)
Lemma while_reads pe fuel :
  forall s p s' q,
    metadataInv s ->
    while_ fuel (fun _ cur => notAt "]" cur) (parseMatrixOrArray_body pe) s p
    = Ok (s', q) ->
    exists rest,
      (if notAt "]" (current p) then bracketReads pe rest p Complete q
       else rest = [] /\ Complete = Complete /\ q = p)
      /\ readable (arr_hasSemicolons s) (hasMetadata s) rest = true
      /\ s' = bracketState s rest.
Proof.
  induction fuel as [|fuel IH]; intros s p s' q Hc H; [discriminate|].
  cbn [while_] in H. destruct (notAt "]" (current p)) eqn:Hn.
  - destruct (parseMatrixOrArray_body pe s p) as [[[fl s1] p1]| |] eqn:Hb;
      try discriminate.
    destruct (body_reads pe s p fl s1 p1 Hc Hb) as (item & Hr & -> & Hitem).
    destruct (bracketState_flags s item) as [F1 F2].
    destruct fl.
    + destruct (IH _ _ _ _ (metadataInv_bracketState s [item]) H)
        as (rest & Hrest & Hr2 & ->).
      exists (item :: rest). split; [exact (Hitem rest Complete q Hrest)|].
      split; [|symmetry; apply bracketState_cons].
      apply readable_cons_intro; [exact Hr|]. rewrite <- F1, <- F2. exact Hr2.
    + inversion H; subst. exists [item]. split; [exact Hitem|].
      split; [exact Hr|reflexivity].
  - inversion H; subst. exists []. split; [auto|]. split; [reflexivity|].
    symmetry. apply bracketState_nil. exact Hc.
Qed.

Lemma parseMatrixOrArray_loop_complete pe fuel p s q :
  parseMatrixOrArray_loop pe fuel p = Ok (s, q) ->
  exists items,
    bracketContent pe items p Complete q
    /\ readable false false items = true
    /\ s = bracketState arrayState0 items.
Proof.
  intros H. unfold parseMatrixOrArray_loop in H.
  unfold bind at 1 in H. unfold getCurrent at 1 in H.
  unfold bracketContent.
  destruct (value_is (current p) "]"); simpl in H.
  - inversion H; subst. exists []. auto.
  - unfold do_while in H. apply bind_Ok in H.
    destruct H as ([fl s1] & p1 & Hb & H).
    destruct (body_reads pe arrayState0 p fl s1 p1
                metadataInv_arrayState0 Hb) as (item & Hr & -> & Hitem).
    destruct (bracketState_flags arrayState0 item) as [F1 F2].
    destruct fl.
    + destruct (while_reads pe fuel _ _ _ _
                  (metadataInv_bracketState arrayState0 [item]) H)
        as (rest & Hrest & Hr2 & ->).
      exists (item :: rest). split; [exact (Hitem rest Complete q Hrest)|].
      split; [|symmetry; apply bracketState_cons].
      apply readable_cons_intro; [exact Hr|].
      change (readable (arr_hasSemicolons arrayState0 || isRowsItem item)
                (hasMetadata arrayState0 || isMetadataItem item) rest = true).
      rewrite <- F1, <- F2. exact Hr2.
    + inversion H; subst. exists [item]. split; [exact Hitem|].
      split; [exact Hr|reflexivity].
Qed.

Lemma readable_no_metadata items :
  forall semi, hasMetadataItem items = false -> readable semi false items = true.
Proof.
  induction items as [|[count|element sep] items IH]; intros semi H.
  - reflexivity.
  - simpl. apply IH. exact H.
  - unfold hasMetadataItem in H. simpl in H. apply orb_false_iff in H.
    destruct H as [H1 H2]. simpl. unfold isMetadata in H1.
    destruct (asBinary ":=" element) as [[l r]|]; [discriminate|].
    simpl. apply IH. exact H2.
Qed.

(** [parseMatrixOrArray] on a content that is read to its end. *)
Lemma parseMatrixOrArray_reads pe fuel items p q :
  bracketContent pe items p Complete q ->
  readable false false items = true ->
  (List.length items <= fuel)%nat ->
  parseMatrixOrArray pe fuel p
  = parseMatrixOrArray_finish (bracketState arrayState0 items) q.
Proof.
  intros H Hr Hf. unfold parseMatrixOrArray, bind.
  rewrite (parseMatrixOrArray_loop_reads pe fuel items p q H Hr Hf).
  reflexivity.
Qed.





(** ** Curly braces *)

Lemma isEquation_not_assignment op :
  isEquationOperator op = true -> String.eqb op ":=" = false.
Proof.
  unfold isEquationOperator. destruct (String.eqb op ":=") eqn:E; auto.
  apply String.eqb_eq in E. subst op. discriminate.
Qed.

Lemma parseBraceContainer_body_inv pe s :
  braceInv s -> post (parseBraceContainer_body pe s) (fun r => braceInv (snd r)).
Proof.
  intros (H1 & H2 & H3). unfold parseBraceContainer_body.
  apply post_bind_any; intros element.
  assert (Hnew : forall he ha,
             he = existsb isEquation (brace_elements s ++ [element]) ->
             ha = existsb isAssignmentPair (brace_elements s ++ [element]) ->
             post
               (s0 <- ret (mkBraceState (brace_elements s ++ [element]) ha
                             (hasPatternMatches s) he (brace_hasSemicolons s)) ;;
                cur <- getCurrent ;;
                if value_is cur "," then advance ;; ret (Next, s0)
                else if value_is cur ";" then
                  advance ;;
                  ret (Next,
                       mkBraceState (brace_elements s0) (hasAssignments s0)
                         (hasPatternMatches s0) (hasEquations s0) true)
                else ret (Break, s0))
               (fun r => braceInv (snd r))).
  { intros he ha -> ->. msteps; unfold braceInv; simpl; auto. }
  assert (Hother : isEquation element = false ->
                   isAssignmentPair element = false ->
                   hasEquations s = existsb isEquation (brace_elements s ++ [element])
                   /\ hasAssignments s
                      = existsb isAssignmentPair (brace_elements s ++ [element])).
  { intros E1 E2. rewrite !existsb_app. simpl.
    rewrite E1, E2, !orb_false_r. auto. }
  destruct element;
    try (destruct Hother as [Ha Hb]; [reflexivity|reflexivity|];
         apply Hnew; assumption).
  - (* BinaryOperation *)
    destruct (String.eqb operator ":=") eqn:E1.
    + apply Hnew.
      * rewrite existsb_app. simpl. rewrite H1.
        replace (isEquationOperator operator) with false; [rewrite !orb_false_r; auto|].
        apply String.eqb_eq in E1. subst. reflexivity.
      * rewrite existsb_app. simpl. rewrite E1, orb_true_r. reflexivity.
    + destruct (isEquationOperator operator) eqn:E2.
      * apply Hnew.
        -- rewrite existsb_app. simpl. rewrite E2, orb_true_r. reflexivity.
        -- rewrite existsb_app. simpl. rewrite E1, !orb_false_r. exact H2.
      * destruct Hother as [Ha Hb]; [exact E2|exact E1|]. apply Hnew; assumption.
  - (* PatternMatchingFunction *)
    msteps.
Qed.

Lemma parseBraceContainer_loop_inv pe fuel :
  post (parseBraceContainer_loop pe fuel) braceInv.
Proof.
  unfold parseBraceContainer_loop. msteps.
  - apply post_do_while.
    + apply parseBraceContainer_body_inv.
    + repeat split.
  - repeat split.
Qed.

Lemma parseBraceContainer_unfold pe fuel p s p1 :
  parseBraceContainer_loop pe fuel (advanceParser p) = Ok (s, p1) ->
  parseBraceContainer pe fuel p
  = if negb (value_is (current p1) "}") then Error "Expected closing brace"
    else parseBraceContainer_classify s (advanceParser p1).
Proof.
  intros H. unfold parseBraceContainer, bind, advance, getCurrent.
  rewrite H. destruct (negb _); reflexivity.
Qed.

Lemma braceStateAfter_nil s : braceStateAfter s [] = s.
Proof.
  destruct s. unfold braceStateAfter. simpl.
  rewrite app_nil_r, !orb_false_r. reflexivity.
Qed.

Lemma braceStateAfter_cons s item rest :
  braceStateAfter s (item :: rest)
  = braceStateAfter (braceStateAfter s [item]) rest.
Proof.
  unfold braceStateAfter. simpl.
  rewrite !orb_false_r, !orb_assoc, <- app_assoc. reflexivity.
Qed.

(** The flags after an element. *)
Lemma brace_element_state s element :
  isPatternMatchingFunction element = false ->
  forall p,
    (match element with
     | PatternMatchingFunction _ _ _ _ =>
         error "Pattern matching should use array syntax [ ] with sequential evaluation, not brace syntax { }. Use format: name :=> [ pattern1, pattern2, ... ]"
     | BinaryOperation op _ _ =>
         if String.eqb op ":=" then
           ret (mkBraceState (brace_elements s ++ [element]) true
                  (hasPatternMatches s) (hasEquations s)
                  (brace_hasSemicolons s))
         else if isEquationOperator op then
           ret (mkBraceState (brace_elements s ++ [element])
                  (hasAssignments s) (hasPatternMatches s) true
                  (brace_hasSemicolons s))
         else
           ret (mkBraceState (brace_elements s ++ [element])
                  (hasAssignments s) (hasPatternMatches s) (hasEquations s)
                  (brace_hasSemicolons s))
     | _ =>
         ret (mkBraceState (brace_elements s ++ [element]) (hasAssignments s)
                (hasPatternMatches s) (hasEquations s)
                (brace_hasSemicolons s))
     end) p
    = Ok (mkBraceState (brace_elements s ++ [element])
            (hasAssignments s || isAssignmentPair element)
            (hasPatternMatches s)
            (hasEquations s || isEquation element)
            (brace_hasSemicolons s), p).
Proof.
  intros Hpm p.
  destruct element; try discriminate; simpl; rewrite ?orb_false_r;
    try reflexivity.
  destruct (String.eqb operator ":=") eqn:E1.
  - apply String.eqb_eq in E1. subst operator. simpl.
    rewrite ?orb_true_r, ?orb_false_r. reflexivity.
  - destruct (isEquationOperator operator);
      rewrite ?orb_true_r, ?orb_false_r; reflexivity.
Qed.

Lemma brace_body pe s p element p1 :
  pe 0 p = Ok (element, p1) ->
  isPatternMatchingFunction element = false ->
  parseBraceContainer_body pe s p
  = if value_is (current p1) ","
    then Ok ((Next, braceStateAfter s [(element, BraceComma)]),
             advanceParser p1)
    else if value_is (current p1) ";"
         then Ok ((Next, braceStateAfter s [(element, BraceSemicolon)]),
                  advanceParser p1)
         else Ok ((Break, braceStateAfter s [(element, BraceEnd)]), p1).
Proof.
  intros Hpe Hpm. unfold parseBraceContainer_body.
  unfold bind at 1. rewrite Hpe. unfold bind at 1.
  rewrite (brace_element_state s element Hpm p1).
  unfold bind, getCurrent, advance, ret, braceStateAfter. simpl.
  rewrite !orb_false_r, ?orb_true_r.
  destruct (value_is (current p1) ","); [reflexivity|].
  destruct (value_is (current p1) ";"); reflexivity.
Qed.

Lemma brace_body_pattern pe s p element p1 :
  pe 0 p = Ok (element, p1) ->
  isPatternMatchingFunction element = true ->
  exists message, parseBraceContainer_body pe s p = Error message.
Proof.
  intros Hpe Hpm. unfold parseBraceContainer_body.
  unfold bind at 1. rewrite Hpe.
  destruct element; try discriminate. eexists. reflexivity.
Qed.

(** One pass reads one item. *)
Lemma brace_body_item pe element sep rest s p e q :
  isPatternMatchingFunction element = false ->
  braceReads pe ((element, sep) :: rest) p e q ->
  (exists p1,
      parseBraceContainer_body pe s p
      = Ok ((Next, braceStateAfter s [(element, sep)]), p1)
      /\ if notAt "}" (current p1) then braceReads pe rest p1 e q
         else rest = [] /\ e = Complete /\ q = p1)
  \/ (parseBraceContainer_body pe s p
      = Ok ((Break, braceStateAfter s [(element, sep)]), q)
      /\ rest = [] /\ e = Complete).
Proof.
  intros Hpm H. cbn [braceReads] in H.
  destruct (pe 0 p) as [[element' p1]| |] eqn:Hpe; try contradiction.
  destruct H as (-> & H).
  rewrite (brace_body pe s p element p1 Hpe Hpm).
  destruct sep.
  - destruct H as (H1 & H2). rewrite H1. left. eauto.
  - destruct H as (H1 & H2 & H3). rewrite H1, H2. left. eauto.
  - destruct H as (H1 & H2 & -> & -> & ->). rewrite H1, H2. right. auto.
Qed.

(** The loop reads the items. *)
Lemma brace_run pe items :
  forall s p e q,
    forallb (fun item => negb (isPatternMatchingFunction (fst item))) items
    = true ->
    braceReads pe items p e q ->
    match e with
    | Partial =>
        forall k,
          do_while (List.length items + k) (fun _ cur => notAt "}" cur)
            (parseBraceContainer_body pe) s p
          = do_while k (fun _ cur => notAt "}" cur)
              (parseBraceContainer_body pe) (braceStateAfter s items) q
    | Complete =>
        forall fuel,
          (List.length items <= fuel)%nat ->
          do_while fuel (fun _ cur => notAt "}" cur)
            (parseBraceContainer_body pe) s p
          = Ok (braceStateAfter s items, q)
    end.
Proof.
  induction items as [|[element sep] rest IH]; intros s p e q Hpm H.
  - destruct H as [-> ->]. intros k. rewrite braceStateAfter_nil.
    reflexivity.
  - cbn [forallb fst] in Hpm. apply andb_true_iff in Hpm.
    destruct Hpm as [Hpm1 Hpm2]. apply negb_true_iff in Hpm1.
    rewrite (braceStateAfter_cons s (element, sep) rest).
    destruct (brace_body_item pe element sep rest s p e q Hpm1 H)
      as [(p1 & Hb & Hnext)|(Hb & -> & ->)].
    + destruct (notAt "}" (current p1)) eqn:Hn.
      * specialize (IH (braceStateAfter s [(element, sep)]) _ _ _ Hpm2 Hnext).
        destruct e.
        -- intros fuel Hf. destruct fuel as [|fuel]; [simpl in Hf; lia|].
           unfold do_while at 1. unfold bind. rewrite Hb.
           rewrite (while_do_while fuel (fun _ cur => notAt "}" cur)
                      (parseBraceContainer_body pe) _ _ Hn).
           apply IH. simpl in Hf. lia.
        -- intros k. cbn [List.length Nat.add].
           unfold do_while at 1. unfold bind. rewrite Hb.
           rewrite (while_do_while _ (fun _ cur => notAt "}" cur)
                      (parseBraceContainer_body pe) _ _ Hn).
           apply IH.
      * destruct Hnext as (-> & -> & ->). intros fuel Hf.
        destruct fuel as [|fuel]; [simpl in Hf; lia|].
        unfold do_while, bind. rewrite Hb. cbn [while_]. rewrite Hn.
        rewrite braceStateAfter_nil. reflexivity.
    + intros fuel Hf. unfold do_while, bind. rewrite Hb.
      rewrite braceStateAfter_nil. reflexivity.
Qed.

Lemma parseBraceContainer_loop_reads pe fuel items p q :
  braceContent pe items p Complete q ->
  forallb (fun item => negb (isPatternMatchingFunction (fst item))) items
  = true ->
  (List.length items <= fuel)%nat ->
  parseBraceContainer_loop pe fuel p = Ok (braceStateAfter braceState0 items, q).
Proof.
  intros H Hpm Hf. unfold parseBraceContainer_loop, bind, getCurrent.
  unfold braceContent in H.
  destruct (value_is (current p) "}"); simpl.
  - destruct H as (-> & _ & ->). reflexivity.
  - exact (brace_run pe items braceState0 p Complete q Hpm H fuel Hf).
Qed.

(** Every pass that ends well has read an item. *)
Lemma brace_body_reads pe s p fl s1 p1 :
  parseBraceContainer_body pe s p = Ok ((fl, s1), p1) ->
  exists item,
    isPatternMatchingFunction (fst item) = false
    /\ s1 = braceStateAfter s [item]
    /\ match fl with
       | Next =>
           forall rest e q,
             (if notAt "}" (current p1) then braceReads pe rest p1 e q
              else rest = [] /\ e = Complete /\ q = p1) ->
             braceReads pe (item :: rest) p e q
       | Break => braceReads pe [item] p Complete p1
       end.
Proof.
  intros H. destruct (pe 0 p) as [[element p2]| |] eqn:Hpe.
  2,3: unfold parseBraceContainer_body in H; unfold bind at 1 in H;
    rewrite Hpe in H; discriminate.
  destruct (isPatternMatchingFunction element) eqn:Hpm.
  { destruct (brace_body_pattern pe s p element p2 Hpe Hpm) as [msg E].
    rewrite E in H. discriminate. }
  rewrite (brace_body pe s p element p2 Hpe Hpm) in H.
  destruct (value_is (current p2) ",") eqn:Hv.
  { inversion H; subst. exists (element, BraceComma).
    split; [exact Hpm|]. split; [reflexivity|].
    intros rest e q Hn. cbn [braceReads]. rewrite Hpe. auto. }
  destruct (value_is (current p2) ";") eqn:Hs.
  { inversion H; subst. exists (element, BraceSemicolon).
    split; [exact Hpm|]. split; [reflexivity|].
    intros rest e q Hn. cbn [braceReads]. rewrite Hpe. auto. }
  inversion H; subst. exists (element, BraceEnd).
  split; [exact Hpm|]. split; [reflexivity|].
  cbn [braceReads]. rewrite Hpe. auto 8.
Qed.

Lemma brace_while_reads pe fuel :
  forall s p s' q,
    while_ fuel (fun _ cur => notAt "}" cur) (parseBraceContainer_body pe) s p
    = Ok (s', q) ->
    exists rest,
      (if notAt "}" (current p) then braceReads pe rest p Complete q
       else rest = [] /\ Complete = Complete /\ q = p)
      /\ s' = braceStateAfter s rest.
Proof.
  induction fuel as [|fuel IH]; intros s p s' q H; [discriminate|].
  cbn [while_] in H. destruct (notAt "}" (current p)) eqn:Hn.
  - destruct (parseBraceContainer_body pe s p) as [[[fl s1] p1]| |] eqn:Hb;
      try discriminate.
    destruct (brace_body_reads pe s p fl s1 p1 Hb) as (item & _ & -> & Hitem).
    destruct fl.
    + destruct (IH _ _ _ _ H) as (rest & Hrest & ->).
      exists (item :: rest). split; [exact (Hitem rest Complete q Hrest)|].
      symmetry. apply braceStateAfter_cons.
    + inversion H; subst. exists [item]. split; [exact Hitem|reflexivity].
  - inversion H; subst. exists []. split; [auto|].
    symmetry. apply braceStateAfter_nil.
Qed.

Lemma parseBraceContainer_loop_complete pe fuel p s q :
  parseBraceContainer_loop pe fuel p = Ok (s, q) ->
  exists items,
    braceContent pe items p Complete q
    /\ s = braceStateAfter braceState0 items.
Proof.
  intros H. unfold parseBraceContainer_loop in H.
  unfold bind at 1 in H. unfold getCurrent at 1 in H.
  unfold braceContent.
  destruct (value_is (current p) "}"); simpl in H.
  - inversion H; subst. exists []. auto.
  - unfold do_while in H. apply bind_Ok in H.
    destruct H as ([fl s1] & p1 & Hb & H).
    destruct (brace_body_reads pe braceState0 p fl s1 p1 Hb)
      as (item & _ & -> & Hitem).
    destruct fl.
    + destruct (brace_while_reads pe fuel _ _ _ _ H) as (rest & Hrest & ->).
      exists (item :: rest). split; [exact (Hitem rest Complete q Hrest)|].
      symmetry. apply braceStateAfter_cons.
    + inversion H; subst. exists [item]. split; [exact Hitem|reflexivity].
Qed.

Lemma forallb_equation_no_assignment elements :
  forallb isEquation elements = true ->
  existsb isAssignmentPair elements = false.
Proof.
  induction elements as [|e l IH]; simpl; auto.
  intros Hall. apply andb_true_iff in Hall. destruct Hall as [H1 H2].
  rewrite (IH H2), orb_false_r.
  destruct e; simpl in *; try discriminate.
  apply isEquation_not_assignment. exact H1.
Qed.

Lemma forallb_equation_no_pattern items :
  forallb isEquation (map fst items) = true ->
  forallb (fun item : node * braceSeparator =>
             negb (isPatternMatchingFunction (fst item))) items = true.
Proof.
  induction items as [|[e sep] l IH]; simpl; auto.
  intros Hall. apply andb_true_iff in Hall. destruct Hall as [H1 H2].
  rewrite (IH H2), andb_true_r. destruct e; try discriminate; reflexivity.
Qed.

(** The classification of a content with an equation. *)
Lemma classify_system items q :
  existsb isEquation (map fst items) = true ->
  parseBraceContainer_classify (braceStateAfter braceState0 items) q
  = if existsb isSemicolonItem items
    then if existsb isAssignmentPair (map fst items)
         then Error "Cannot mix equations with other assignment types"
         else if forallb isEquation (map fst items)
              then Ok (System (map fst items), q)
              else Error "System containers must contain only equations with equation operators"
    else Error "System containers must contain only equations with equation operators separated by semicolons".
Proof.
  intros Heq. unfold parseBraceContainer_classify, braceStateAfter.
  cbn [hasEquations hasAssignments hasPatternMatches brace_hasSemicolons
         brace_elements braceState0 orb app].
  rewrite Heq, orb_false_r.
  destruct (existsb isSemicolonItem items); [|reflexivity]. cbn [negb].
  destruct (existsb isAssignmentPair (map fst items)); [reflexivity|].
  destruct (forallb isEquation (map fst items)); reflexivity.
Qed.

(** C4, as amended: a brace container with an equation among its elements
    is accepted only if a [;] was read as the separator after one of its
    elements (be it the last) and every element is an equation; it is then
    the [System] of exactly the elements read, in their order.  Without
    such a [;] parsing fails, and so it does with an element that is not an
    equation, an assignment with [:=] say. *)
Theorem system_container :
  (forall pe fuel p items q,
      braceContent pe items (advanceParser p) Complete q ->
      (List.length items <= fuel)%nat ->
      forallb (fun item => negb (isPatternMatchingFunction (fst item))) items
      = true ->
      existsb isEquation (map fst items) = true ->
      value_is (current q) "}" = true ->
      let elements := map fst items in
      (existsb isSemicolonItem items = true ->
       forallb isEquation elements = true ->
       parseBraceContainer pe fuel p
       = Ok (System elements, advanceParser q))
      /\ (existsb isSemicolonItem items = false ->
          parseBraceContainer pe fuel p
          = Error "System containers must contain only equations with equation operators separated by semicolons")
      /\ (existsb isSemicolonItem items = true ->
          existsb isAssignmentPair elements = true ->
          parseBraceContainer pe fuel p
          = Error "Cannot mix equations with other assignment types")
      /\ (existsb isSemicolonItem items = true ->
          existsb isAssignmentPair elements = false ->
          forallb isEquation elements = false ->
          parseBraceContainer pe fuel p
          = Error "System containers must contain only equations with equation operators"))
  /\ (forall pe fuel p n p',
         parseBraceContainer pe fuel p = Ok (n, p') ->
         exists items q,
           braceContent pe items (advanceParser p) Complete q
           /\ value_is (current q) "}" = true
           /\ p' = advanceParser q
           /\ (existsb isEquation (map fst items) = true ->
               existsb isSemicolonItem items = true
               /\ forallb isEquation (map fst items) = true
               /\ n = System (map fst items))).
Proof.
  split.
  - intros pe fuel p items q Hread Hf Hpm Heq Hc elements.
    rewrite (parseBraceContainer_unfold pe fuel p _ q
               (parseBraceContainer_loop_reads pe fuel items _ q Hread Hpm Hf)).
    rewrite Hc. cbn [negb]. rewrite (classify_system items _ Heq).
    fold elements. split; [|split; [|split]].
    + intros Hs Hall.
      rewrite Hs, (forallb_equation_no_assignment _ Hall), Hall. reflexivity.
    + intros Hs. rewrite Hs. reflexivity.
    + intros Hs Ha. rewrite Hs, Ha. reflexivity.
    + intros Hs Ha Hall. rewrite Hs, Ha, Hall. reflexivity.
  - intros pe fuel p n p' H.
    assert (H' := H). unfold parseBraceContainer in H'.
    apply bind_Ok in H'. destruct H' as (u & p0 & Ea & H').
    inversion Ea; subst p0. clear Ea.
    apply bind_Ok in H'. destruct H' as (s & q & Hloop & _).
    destruct (parseBraceContainer_loop_complete pe fuel _ s q Hloop)
      as (items & Hread & ->).
    rewrite (parseBraceContainer_unfold pe fuel p _ q Hloop) in H.
    destruct (value_is (current q) "}") eqn:Hc; [|discriminate].
    cbn [negb] in H.
    assert (Hq : p' = advanceParser q).
    { unfold parseBraceContainer_classify, ret, error in H.
      repeat match type of H with
             | (if ?b then _ else _) _ = _ => destruct b
             | (if ?b then _ else _) = _ => destruct b
             end; try discriminate; inversion H; reflexivity. }
    exists items, q. split; [exact Hread|]. split; [exact Hc|].
    split; [exact Hq|]. intros Heq.
    rewrite (classify_system items _ Heq) in H.
    destruct (existsb isSemicolonItem items); [|discriminate].
    destruct (existsb isAssignmentPair (map fst items)); [discriminate|].
    destruct (forallb isEquation (map fst items)); [|discriminate].
    inversion H. auto.
Qed.

(** C4 as stated fails: the two equations below are separated by a comma,
    and the one semicolon that the check asks for comes after the last. *)
Lemma system_container_counterexample :
  let ts := [sym "{"; ident "x"; sym ":=:"; num "1"; sym ",";
             ident "y"; sym ":=:"; num "2"; sym ";"; sym "}"] in
  nth_error ts 4 = Some (sym ",")
  /\ parse testSystemLookup 5 ts
     = Ok [System [BinaryOperation ":=:" (UserIdentifier "x") (Number "1");
                   BinaryOperation ":=:" (UserIdentifier "y") (Number "2")]].
Proof. cbv zeta. split; reflexivity. Qed.

Lemma system_container_witness :
  let pe := parseExpression testSystemLookup 5 in
  braceContent pe systemItems (advanceParser (newParser systemTokens)) Complete
    (mkParser systemTokens 13 (sym "}"))
  /\ parseBraceContainer pe 5 (newParser systemTokens)
     = Ok (System (map fst systemItems),
           advanceParser (mkParser systemTokens 13 (sym "}")))
  /\ parseBraceContainer pe 5 (newParser commaSystemTokens)
     = Error "System containers must contain only equations with equation operators separated by semicolons"
  /\ parseBraceContainer pe 5 (newParser mixedSystemTokens)
     = Error "Cannot mix equations with other assignment types".
Proof.
  cbv zeta.
  assert (R1 : braceContent (parseExpression testSystemLookup 5) systemItems
                 (advanceParser (newParser systemTokens)) Complete
                 (mkParser systemTokens 13 (sym "}"))).
  { vm_compute. repeat split. }
  assert (R2 : braceContent (parseExpression testSystemLookup 5)
                 commaSystemItems
                 (advanceParser (newParser commaSystemTokens)) Complete
                 (mkParser commaSystemTokens 9 (sym "}"))).
  { vm_compute. repeat split. }
  assert (R3 : braceContent (parseExpression testSystemLookup 5)
                 mixedSystemItems
                 (advanceParser (newParser mixedSystemTokens)) Complete
                 (mkParser mixedSystemTokens 9 (sym "}"))).
  { vm_compute. repeat split. }
  split; [exact R1|]. split; [|split].
  - exact (proj1 (proj1 system_container
                    (parseExpression testSystemLookup 5) 5%nat
                    (newParser systemTokens) systemItems
                    (mkParser systemTokens 13 (sym "}")) R1
                    (le_S _ _ (le_S _ _ (le_S _ _ (le_n 2))))
                    eq_refl eq_refl eq_refl) eq_refl eq_refl).
  - exact (proj1 (proj2 (proj1 system_container
                    (parseExpression testSystemLookup 5) 5%nat
                    (newParser commaSystemTokens) commaSystemItems
                    (mkParser commaSystemTokens 9 (sym "}")) R2
                    (le_S _ _ (le_S _ _ (le_S _ _ (le_n 2))))
                    eq_refl eq_refl eq_refl)) eq_refl).
  - exact (proj1 (proj2 (proj2 (proj1 system_container
                    (parseExpression testSystemLookup 5) 5%nat
                    (newParser mixedSystemTokens) mixedSystemItems
                    (mkParser mixedSystemTokens 9 (sym "}")) R3
                    (le_S _ _ (le_S _ _ (le_S _ _ (le_n 2))))
                    eq_refl eq_refl eq_refl))) eq_refl eq_refl).
Defined.
(** ** Metadata in square brackets *)

(** C5, as amended: a metadata element after a row separator, and a row
    separator right after a metadata element, are errors; so is an element
    that is not metadata after a metadata element, and metadata together
    with more than one such element.  When the content has metadata and is
    read to its end with at most one other element, the result is
    [WithMetadata] with that element as primary, or with an empty [Array]
    when there is none, and with the metadata elements as its map.  Every
    bracket container that is parsed has a content that is read without one
    of these errors. *)
Theorem metadata_container :
  (forall pe fuel p items q element q1,
      bracketContent pe items p Partial q ->
      readable false false items = true ->
      (List.length items <= fuel)%nat ->
      isSemicolonToken (current q) = false ->
      pe 0 q = Ok (element, q1) ->
      (forall l r,
          asBinary ":=" element = Some (l, r) ->
          hasRows items = true ->
          parseMatrixOrArray pe fuel p = Error mixMatrixNested)
      /\ (forall l r,
             asBinary ":=" element = Some (l, r) ->
             hasRows items = false ->
             isMetadataKey l = true ->
             value_is (current q1) "," = false ->
             isSemicolonToken (current q1) = true ->
             parseMatrixOrArray pe fuel p = Error mixMatrix)
      /\ (asBinary ":=" element = None ->
          hasMetadataItem items = true ->
          parseMatrixOrArray pe fuel p = Error mixElements))
  /\ (forall pe fuel p items q,
         bracketContent pe items p Complete q ->
         readable false false items = true ->
         (List.length items <= fuel)%nat ->
         hasMetadataItem items = true ->
         ((1 < List.length (elementsOf items))%nat ->
          parseMatrixOrArray pe fuel p = Error mixElements)
         /\ ((List.length (elementsOf items) <= 1)%nat ->
             parseMatrixOrArray pe fuel p
             = Ok (WithMetadata (hd (Array []) (elementsOf items))
                     (metadataFrom [] items), q)))
  /\ (forall pe fuel p n q,
         parseMatrixOrArray pe fuel p = Ok (n, q) ->
         exists items,
           bracketContent pe items p Complete q
           /\ readable false false items = true
           /\ (hasMetadataItem items = true ->
               (List.length (elementsOf items) <= 1)%nat
               /\ n = WithMetadata (hd (Array []) (elementsOf items))
                        (metadataFrom [] items))).
Proof.
  split; [|split].
  - intros pe fuel p items q element q1 Hread Hr Hf Hcur He.
    destruct (body_element_errors pe (bracketState arrayState0 items) q
                element q1 Hcur He) as (E1 & E2 & E3).
    unfold bracketState in E1, E2, E3.
    cbn [arr_hasSemicolons hasMetadata arrayState0 orb] in E1, E2, E3.
    fold (bracketState arrayState0 items) in E1, E2, E3.
    split; [|split].
    + intros l r Hb Hrows.
      exact (parseMatrixOrArray_loop_partial pe fuel items p q Hread Hr Hf _
               (E1 l r Hb Hrows)).
    + intros l r Hb Hrows Hk Hc Hsemi.
      exact (parseMatrixOrArray_loop_partial pe fuel items p q Hread Hr Hf _
               (E2 l r Hb Hrows Hk Hc Hsemi)).
    + intros Hb Hm.
      exact (parseMatrixOrArray_loop_partial pe fuel items p q Hread Hr Hf _
               (E3 Hb Hm)).
  - intros pe fuel p items q Hread Hr Hf Hmeta.
    rewrite (parseMatrixOrArray_reads pe fuel items p q Hread Hr Hf).
    unfold parseMatrixOrArray_finish, bracketState.
    cbn [hasMetadata nonMetadataCount primaryElement metadataMap arr_elements
           arrayState0 orb andb app].
    rewrite Hmeta. split.
    + intros Hlen. destruct (1 <? _) eqn:E; [reflexivity|].
      apply Z.ltb_ge in E. lia.
    + intros Hlen. destruct (1 <? _) eqn:E; [apply Z.ltb_lt in E; lia|].
      destruct (elementsOf items); reflexivity.
  - intros pe fuel p n q H. unfold parseMatrixOrArray in H.
    apply bind_Ok in H. destruct H as (s & p1 & Hloop & H).
    destruct (parseMatrixOrArray_loop_complete pe fuel p s p1 Hloop)
      as (items & Hread & Hr & ->).
    unfold parseMatrixOrArray_finish, bracketState in H.
    cbn [hasMetadata nonMetadataCount primaryElement metadataMap arr_elements
           arr_hasSemicolons arrayState0 orb andb app] in H.
    assert (Hq : q = p1).
    { unfold ret in H.
      destruct (hasMetadataItem items && _); [discriminate|].
      destruct (hasMetadataItem items); [inversion H; reflexivity|].
      destruct (hasRows items); inversion H; reflexivity. }
    subst p1. exists items. split; [exact Hread|]. split; [exact Hr|].
    intros Hmeta. rewrite Hmeta in H. cbn [andb] in H.
    destruct (1 <? _) eqn:E; [discriminate|]. apply Z.ltb_ge in E.
    split; [lia|]. unfold ret in H. inversion H; subst.
    destruct (elementsOf items); reflexivity.
Qed.

(** C5 as stated fails: one metadata element and one other element, yet no
    [WithMetadata] is built, because the other element comes second. *)
Lemma metadata_container_counterexample :
  parse testSystemLookup 5
    [sym "["; ident "a"; sym ":="; num "1"; sym ","; num "2"; sym "]"]
  = Error mixElements
  /\ parse testSystemLookup 5
       [sym "["; num "2"; sym ","; ident "a"; sym ":="; num "1"; sym "]"]
     = Ok [WithMetadata (Number "2") [("a", Number "1")]].
Proof. split; reflexivity. Qed.

Lemma metadata_container_witness :
  let pe := parseExpression testSystemLookup 5 in
  parseMatrixOrArray pe 5 (advanceParser (newParser rowThenMetadataTokens))
  = Error mixMatrixNested
  /\ parseMatrixOrArray pe 5 (advanceParser (newParser metadataThenRowTokens))
     = Error mixMatrix
  /\ parseMatrixOrArray pe 5
       (advanceParser (newParser metadataThenElementTokens))
     = Error mixElements
  /\ parseMatrixOrArray pe 5 (advanceParser (newParser mixedTokens))
     = Error mixElements
  /\ parseMatrixOrArray pe 5 (advanceParser (newParser configTokens))
     = Ok (WithMetadata (Array [])
             [("name", StringNode "config" "quote"); ("version", Number "2")],
           mkParser configTokens 9 (sym "]")).
Proof.
  cbv zeta.
  destruct metadata_container as (Hnext & Hend & _).
  pose (k2 := BinaryOperation ":=" (UserIdentifier "k") (Number "2")).
  assert (R1 : bracketContent (parseExpression testSystemLookup 5)
                 [Element (Number "1") (Rows 1)]
                 (advanceParser (newParser rowThenMetadataTokens)) Partial
                 (mkParser rowThenMetadataTokens 4 (ident "k"))).
  { vm_compute. repeat split. }
  assert (R2 : bracketContent (parseExpression testSystemLookup 5) []
                 (advanceParser (newParser metadataThenRowTokens)) Partial
                 (advanceParser (newParser metadataThenRowTokens))).
  { vm_compute. repeat split. }
  assert (R3 : bracketContent (parseExpression testSystemLookup 5)
                 [Element (BinaryOperation ":=" (UserIdentifier "a")
                             (Number "1")) Comma]
                 (advanceParser (newParser metadataThenElementTokens)) Partial
                 (mkParser metadataThenElementTokens 6 (num "2"))).
  { vm_compute. repeat split. }
  assert (R4 : bracketContent (parseExpression testSystemLookup 5) mixedItems
                 (advanceParser (newParser mixedTokens)) Complete
                 (mkParser mixedTokens 11 (sym "]"))).
  { vm_compute. repeat split. }
  assert (R5 : bracketContent (parseExpression testSystemLookup 5) configItems
                 (advanceParser (newParser configTokens)) Complete
                 (mkParser configTokens 9 (sym "]"))).
  { vm_compute. repeat split. }
  split; [|split; [|split; [|split]]].
  - exact (proj1 (Hnext (parseExpression testSystemLookup 5) 5%nat _
                    [Element (Number "1") (Rows 1)] _ k2
                    (mkParser rowThenMetadataTokens 7 (sym "]"))
                    R1 eq_refl (le_S _ _ (le_S _ _ (le_S _ _ (le_S _ _ (le_n 1)))))
                    eq_refl eq_refl)
             (UserIdentifier "k") (Number "2") eq_refl eq_refl).
  - exact (proj1 (proj2 (Hnext (parseExpression testSystemLookup 5) 5%nat _
                    [] _ k2
                    (mkParser metadataThenRowTokens 5 (sym ";"))
                    R2 eq_refl (Nat.le_0_l 5) eq_refl eq_refl))
             (UserIdentifier "k") (Number "2") eq_refl eq_refl eq_refl eq_refl
             eq_refl).
  - exact (proj2 (proj2 (Hnext (parseExpression testSystemLookup 5) 5%nat _
                    [Element (BinaryOperation ":=" (UserIdentifier "a")
                                (Number "1")) Comma] _ (Number "2")
                    (mkParser metadataThenElementTokens 7 (sym "]"))
                    R3 eq_refl (le_S _ _ (le_S _ _ (le_S _ _ (le_S _ _ (le_n 1)))))
                    eq_refl eq_refl))
             eq_refl eq_refl).
  - refine (proj1 (Hend (parseExpression testSystemLookup 5) 5%nat _
                     mixedItems _ R4 eq_refl (le_S _ _ (le_n 4)) eq_refl) _).
    simpl. lia.
  - refine (proj2 (Hend (parseExpression testSystemLookup 5) 5%nat _
                     configItems _ R5 eq_refl
                     (le_S _ _ (le_S _ _ (le_S _ _ (le_n 2)))) eq_refl) _).
    simpl. lia.
Defined.
(** ** Embedded-language headers *)



Lemma drop_all s : JsString.drop (String.length s) s = "".
Proof. induction s; simpl; auto. Qed.

Lemma sliceFrom_length s : JsString.sliceFrom s (JsString.length s) = "".
Proof.
  unfold JsString.sliceFrom, JsString.clampIndex, JsString.length.
  destruct (Z.of_nat (String.length s) <? 0) eqn:E; [apply Z.ltb_lt in E; lia|].
  rewrite Z.min_id, Nat2Z.id. apply drop_all.
Qed.

Lemma sliceFrom_drop s k :
  0 <= k <= JsString.length s ->
  JsString.sliceFrom s k = JsString.drop (Z.to_nat k) s.
Proof.
  intros H. unfold JsString.sliceFrom, JsString.clampIndex.
  destruct (k <? 0) eqn:E; [apply Z.ltb_lt in E; lia|].
  rewrite Z.min_l by lia. reflexivity.
Qed.







Lemma slice_take_drop s a b :
  0 <= a <= b -> b <= JsString.length s ->
  JsString.slice s a b
  = JsString.take (Z.to_nat (b - a)) (JsString.drop (Z.to_nat a) s).
Proof.
  intros H1 H2. unfold JsString.slice, JsString.clampIndex.
  destruct (a <? 0) eqn:Ea; [apply Z.ltb_lt in Ea; lia|].
  destruct (b <? 0) eqn:Eb; [apply Z.ltb_lt in Eb; lia|].
  rewrite !Z.min_l by lia. reflexivity.
Qed.





(** C8, as amended: a second parenthetical group is rejected, but by the
    check that the matching parenthesis ends the header; the check for
    several groups is never reached with a group left to find. *)
Theorem second_group_is_invalid_format :
  (forall header,
      let headerParenStart := JsString.indexOf "("%char header in
      let parenEnd := findParenEnd header headerParenStart in
      headerParenStart <> -1 ->
      parenEnd <> -1 ->
      JsString.includes "("%char (JsString.sliceFrom header (parenEnd + 1))
      = true ->
      parseHeader header
      = Error "Invalid embedded language header format. Expected: LANGUAGE(CONTEXT):BODY")
  /\ (forall header,
         parseHeader header
         <> Error "Multiple parenthetical groups not allowed in embedded language header")
  /\ (forall content,
         parseEmbeddedLanguage content
         <> Error "Multiple parenthetical groups not allowed in embedded language header").
Proof.
  assert (Hnever : forall header,
             parseHeader header
             <> Error "Multiple parenthetical groups not allowed in embedded language header").
  { intros header. unfold parseHeader.
    destruct (_ && _); [discriminate|].
    destruct (negb (JsString.indexOf "("%char header =? -1)); [|discriminate].
    destruct (findParenEnd header (JsString.indexOf "("%char header) =? -1);
      [discriminate|].
    destruct (findParenEnd header (JsString.indexOf "("%char header)
              =? JsString.length header - 1) eqn:E; simpl; [|discriminate].
    apply Z.eqb_eq in E. rewrite E.
    replace (JsString.length header - 1 + 1) with (JsString.length header)
      by lia.
    rewrite sliceFrom_length. simpl. discriminate. }
  split; [|split; [exact Hnever|]].
  - intros header headerParenStart parenEnd H1 H2 H3.
    unfold parseHeader. fold headerParenStart. fold parenEnd.
    destruct (headerParenStart =? -1) eqn:E1; [apply Z.eqb_eq in E1; lia|].
    rewrite andb_false_r. simpl.
    destruct (parenEnd =? -1) eqn:E2; [apply Z.eqb_eq in E2; lia|].
    destruct (parenEnd =? JsString.length header - 1) eqn:E3; [|reflexivity].
    apply Z.eqb_eq in E3. rewrite E3 in H3.
    replace (JsString.length header - 1 + 1) with (JsString.length header)
      in H3 by lia.
    rewrite sliceFrom_length in H3. discriminate.
  - intros content. unfold parseEmbeddedLanguage.
    destruct (_ || _); [discriminate|].
    destruct (splitHeader content) as [header body].
    pose proof (Hnever header) as H.
    destruct (parseHeader header) as [[l c]| |]; try discriminate.
    intros E. apply H. inversion E. reflexivity.
Qed.

(** C8 as stated fails on the input of the test "malformed parentheses
    throws error": the header has a second group, and the error is the one
    about the header format. *)
Lemma second_group_counterexample :
  let content := "Function(a, b)(extra): body" in
  let header := "Function(a, b)(extra)" in
  fst (splitHeader content) = header
  /\ findParenEnd header (JsString.indexOf "("%char header) = 13
  /\ JsString.includes "("%char (JsString.sliceFrom header 14) = true
  /\ parseEmbeddedLanguage content
     = Error "Invalid embedded language header format. Expected: LANGUAGE(CONTEXT):BODY"
  /\ parseEmbeddedLanguage content
     <> Error "Multiple parenthetical groups not allowed in embedded language header".
Proof. cbv zeta. repeat split; try reflexivity. discriminate. Qed.

Lemma second_group_is_invalid_format_witness :
  let header := "Function(a, b)(extra)" in
  JsString.indexOf "("%char header <> -1
  /\ findParenEnd header (JsString.indexOf "("%char header) <> -1
  /\ JsString.includes "("%char
       (JsString.sliceFrom header
          (findParenEnd header (JsString.indexOf "("%char header) + 1))
     = true
  /\ parseHeader header
     = Error "Invalid embedded language header format. Expected: LANGUAGE(CONTEXT):BODY".
Proof.
  cbv zeta.
  assert (H1 : JsString.indexOf "("%char "Function(a, b)(extra)" <> -1)
    by (intros E; discriminate E).
  assert (H2 : findParenEnd "Function(a, b)(extra)"
                 (JsString.indexOf "("%char "Function(a, b)(extra)") <> -1)
    by (intros E; discriminate E).
  split; [exact H1|]. split; [exact H2|]. split; [reflexivity|].
  exact (proj1 second_group_is_invalid_format "Function(a, b)(extra)"
           H1 H2 eq_refl).
Defined.

(** ** The model on inputs of the test-suite *)

Example test_function_definition :
  parse testSystemLookup 12
    [ident "f"; sym "("; ident "x"; sym ")"; sym ":->"; ident "x"; sym "+"; num "1";
     sym ";"]
  = Ok [Statement
          (FunctionDefinition (UserIdentifier "f")
             (mkParams [mkParam (JStr "x") None] [] [] [])
             (BinaryOperation "+" (UserIdentifier "x") (Number "1")))].
Proof. reflexivity. Qed.

Example test_pattern_matching :
  parse testSystemLookup 12
    [ident "g"; sym ":=>"; sym "["; sym "("; ident "x"; sym "?"; ident "x"; sym "<";
     num "0"; sym ")"; sym "->"; sym "-"; ident "x"; sym ","; sym "("; ident "x";
     sym ")"; sym "->"; ident "x"; sym "]"; sym ";"]
  = Ok [Statement
          (PatternMatchingFunction (UserIdentifier "g") emptyParams
             [mkPattern
                (mkParams [mkParam (JStr "x") None] [] 
                   [BinaryOperation "<" (UserIdentifier "x") (Number "0")] [])
                (UnaryOperation "-" (UserIdentifier "x"));
              mkPattern (mkParams [mkParam (JStr "x") None] [] [] [])
                (UserIdentifier "x")]
             [])].
Proof. reflexivity. Qed.

Example test_tensor :
  parse testSystemLookup 12
    [sym "["; num "1"; sym ","; num "2"; sym ";"; num "3"; sym ","; num "4";
     semicolons 2; num "5"; sym ","; num "6"; sym ";"; num "7"; sym ",";
     num "8"; sym "]"; sym ";"]
  = Ok [Statement
          (Tensor
             [mkEntry [Number "1"; Number "2"] 1;
              mkEntry [Number "3"; Number "4"] 2;
              mkEntry [Number "5"; Number "6"] 1;
              mkEntry [Number "7"; Number "8"] 0]
             (Int 3))].
Proof. reflexivity. Qed.

Example test_matrix_starting_with_empty_row :
  parse testSystemLookup 12
    [sym "["; sym ";"; num "1"; sym ","; num "2"; sym "]"; sym ";"]
  = Ok [Statement (Matrix [[]; [Number "1"; Number "2"]])].
Proof. reflexivity. Qed.

Example test_single_row_matrix :
  parse testSystemLookup 12
    [sym "["; num "1"; sym ","; num "2"; sym ","; num "3"; sym ";"; sym "]";
     sym ";"]
  = Ok [Statement (Matrix [[Number "1"; Number "2"; Number "3"]; []])].
Proof. reflexivity. Qed.

Example test_tensor_with_only_separators :
  parse testSystemLookup 12 [sym "["; semicolons 2; sym "]"; sym ";"]
  = Ok [Statement (Tensor [mkEntry [] 2; mkEntry [] 0] (Int 3))].
Proof. reflexivity. Qed.

Example test_explicit_pipe :
  parse testSystemLookup 12
    [sym "("; num "3"; sym ","; num "4"; sym ")"; sym "||>"; ident "f"; sym "(";
     mkToken TPlaceHolder "" "" 2 0; sym ",";
     mkToken TPlaceHolder "" "" 1 0; sym ")"; sym ";"]
  = Ok [Statement
          (ExplicitPipe (Tuple [Number "3"; Number "4"])
             (FunctionCall (UserIdentifier "f")
                (mkArgs [PlaceHolder 2; PlaceHolder 1] [])))].
Proof. reflexivity. Qed.

Example test_empty_tuple_and_trailing_comma :
  parse testSystemLookup 12 [sym "("; sym ")"; sym ";"] = Ok [Statement (Tuple [])]
  /\ parse testSystemLookup 12 [sym "("; num "3"; sym ","; sym ")"; sym ";"]
     = Ok [Statement (Tuple [Number "3"])]
  /\ parse testSystemLookup 12 [sym "("; num "3"; sym ")"; sym ";"]
     = Ok [Statement (Grouping (Number "3"))]
  /\ parse testSystemLookup 12
       [sym "("; num "3"; sym ","; sym ","; num "2"; sym ")"; sym ";"]
     = Error "Consecutive commas not allowed in tuples".
Proof. repeat split; reflexivity. Qed.

Example test_brace_containers :
  parse testSystemLookup 12
    [sym "{"; num "3"; sym ","; num "5"; sym ","; num "6"; sym "}"; sym ";"]
  = Ok [Statement (SetNode [Number "3"; Number "5"; Number "6"])]
  /\ parse testSystemLookup 12
       [sym "{"; ident "a"; sym ":="; num "4"; sym ","; ident "b"; sym ":=";
        num "5"; sym "}"; sym ";"]
     = Ok [Statement
             (MapNode [BinaryOperation ":=" (UserIdentifier "a") (Number "4");
                       BinaryOperation ":=" (UserIdentifier "b") (Number "5")])]
  /\ parse testSystemLookup 12
       [sym "{"; ident "x"; sym ":=:"; num "3"; sym ","; ident "a"; sym ":=";
        num "2"; sym "}"; sym ";"]
     = Error "System containers must contain only equations with equation operators separated by semicolons".
Proof. repeat split; reflexivity. Qed.

Example test_unmatched_header_parentheses :
  parseEmbeddedLanguage "Malformed(: broken"
  = Error "Unmatched opening parenthesis in embedded language header"
  /\ parseEmbeddedLanguage "Missing): body"
     = Error "Unmatched closing parenthesis in embedded language header"
  /\ parseEmbeddedLanguage ":starts with colon"
     = Ok (EmbeddedLanguage (Some "RiX-String") None "starts with colon")
  /\ parseEmbeddedLanguage "Matrix(size(3, 4)): data"
     = Ok (EmbeddedLanguage (Some "Matrix") (Some "size(3, 4)") " data").
Proof. repeat split; reflexivity. Qed.

Example test_nested_tuple :
  parse testSystemLookup 12
    [sym "("; sym "("; num "1"; sym ","; num "2"; sym ")"; sym ",";
     sym "("; num "3"; sym ","; num "4"; sym ")"; sym ")"; sym ";"]
  = Ok [Statement
          (Tuple [Tuple [Number "1"; Number "2"];
                  Tuple [Number "3"; Number "4"]])].
Proof. reflexivity. Qed.

Example test_function_definition_with_condition :
  parse testSystemLookup 12
    [ident "h"; sym "("; ident "x"; sym ","; ident "y"; sym ";"; ident "n";
     sym ":="; num "2"; sym "?"; ident "x"; sym "^"; num "2"; sym "+";
     ident "y"; sym "^"; num "2"; sym "="; num "1"; sym ")"; sym ":->";
     sys "COS"; sym "("; ident "x"; sym ";"; ident "n"; sym ")"; sym "*";
     sys "SIN"; sym "("; ident "y"; sym ";"; ident "n"; sym ")"; sym ";"]
  = Ok [Statement
          (FunctionDefinition (UserIdentifier "h")
             (mkParams
                [mkParam (JStr "x") None; mkParam (JStr "y") None]
                [mkParam (JStr "n") (Some (Number "2"))]
                [BinaryOperation "="
                   (BinaryOperation "+"
                      (BinaryOperation "^" (UserIdentifier "x") (Number "2"))
                      (BinaryOperation "^" (UserIdentifier "y") (Number "2")))
                   (Number "1")]
                [])
             (BinaryOperation "*"
                (FunctionCall
                   (SystemIdentifier "COS" (testSystemLookup "COS"))
                   (mkArgs [UserIdentifier "x"] [("n", UserIdentifier "n")]))
                (FunctionCall
                   (SystemIdentifier "SIN" (testSystemLookup "SIN"))
                   (mkArgs [UserIdentifier "y"] [("n", UserIdentifier "n")]))))].
Proof. reflexivity. Qed.

Example test_pattern_matching_with_metadata :
  parse testSystemLookup 12
    [ident "g"; sym ":=>"; sym "["; sym "["; sym "("; ident "x"; sym "?";
     ident "x"; sym "<"; num "0"; sym ")"; sym "->"; sym "-"; ident "x";
     sym "+"; ident "n"; sym ","; sym "("; ident "x"; sym ")"; sym "->";
     ident "x"; sym "-"; ident "n"; sym "]"; sym ","; ident "n"; sym ":=";
     num "4"; sym "]"; sym ";"]
  = Ok [Statement
          (PatternMatchingFunction (UserIdentifier "g") emptyParams
             [mkPattern
                (mkParams [mkParam (JStr "x") None] []
                   [BinaryOperation "<" (UserIdentifier "x") (Number "0")] [])
                (BinaryOperation "+" (UnaryOperation "-" (UserIdentifier "x"))
                   (UserIdentifier "n"));
              mkPattern (mkParams [mkParam (JStr "x") None] [] [] [])
                (BinaryOperation "-" (UserIdentifier "x") (UserIdentifier "n"))]
             [("n", Number "4")])].
Proof. reflexivity. Qed.

(** A [Symbol] token named like a member of [Object.prototype] is found in
    the table, without a precedence: the loop of [parseExpression] never
    stops before it, whatever [minPrec] is. *)
Example inherited_member_as_operator :
  parse testSystemLookup 8
    [num "1"; sym "+"; num "2"; sym "toString"; num "3"]
  = Ok [BinaryOperation "+" (Number "1")
          (BinaryOperation "toString" (Number "2") (Number "3"))]
  /\ parse testSystemLookup 8 [sym "-"; num "2"; sym "toString"; num "3"]
     = Ok [UnaryOperation "-"
             (BinaryOperation "toString" (Number "2") (Number "3"))].
Proof. split; reflexivity. Qed.

(** The metadata of a container is an object: the keys that are array
    indices come first, a key that is set again keeps its place, and
    [__proto__] makes no entry. *)
Example metadata_keys_of_an_object :
  parse testSystemLookup 8
    [sym "["; num "1"; sym ","; ident "b"; sym ":="; num "1"; sym ",";
     str "2"; sym ":="; ident "x"; sym ","; str "1"; sym ":="; ident "y";
     sym ","; str "__proto__"; sym ":="; ident "z"; sym ",";
     ident "b"; sym ":="; num "7"; sym "]"]
  = Ok [WithMetadata (Number "1")
          [("1", UserIdentifier "y"); ("2", UserIdentifier "x");
           ("b", Number "7")]].
Proof. reflexivity. Qed.

(** [maxDimension] is computed in doubles: from 2^53 on the sum is
    rounded. *)
Example dimension_in_doubles :
  parse testSystemLookup 8
    [sym "["; num "1"; semicolons (2 ^ 53); num "2"; sym "]"]
  = Ok [Tensor [mkEntry [Number "1"] (2 ^ 53); mkEntry [Number "2"] 0]
          (Int (2 ^ 53))]
  /\ jsnum_succ (Int (2 ^ 53 + 2)) = Int (2 ^ 53 + 4).
Proof. split; reflexivity. Qed.

(** * Further properties of the parser *)

(** ** The cursor *)

Lemma cursorStep_refl p : cursorStep p p.
Proof. unfold cursorStep. auto 6. Qed.

Lemma cursorStep_trans p q r : cursorStep p q -> cursorStep q r -> cursorStep p r.
Proof.
  unfold cursorStep.
  intros (A1 & A2 & A3 & A4 & A5) (B1 & B2 & B3 & B4 & B5).
  split; [congruence|]. split; [lia|]. split; [lia|].
  split; [intros H; apply B4, A4, H|].
  destruct B5 as [B5|[B5|B5]]; auto.
  rewrite B5. destruct A5 as [A5|[A5|A5]]; auto.
  right. right. rewrite B1. exact A5.
Qed.

Lemma cursorStep_advance p : cursorStep p (advanceParser p).
Proof.
  unfold cursorStep, advanceParser, consumed.
  destruct (nth_error (tokens p) (position p)) as [t|] eqn:E; simpl.
  - assert (position p < List.length (tokens p))%nat
      by (apply nth_error_Some; congruence).
    split; [reflexivity|]. split; [lia|].
    split; [destruct (type_is (current p) TEnd), (type_is t TEnd); lia|].
    split; [lia|].
    right. right. exact (nth_error_In _ _ E).
  - split; [reflexivity|]. split; [lia|].
    split; [destruct (type_is (current p) TEnd); lia|].
    split; [lia|]. right. left. reflexivity.
Qed.

Lemma moves_ret {A} (a : A) : moves (ret a).
Proof. intros p b p' E. inversion E; subst. apply cursorStep_refl. Qed.

Lemma moves_error {A} msg : moves (@error A msg).
Proof. intros p b p' E. discriminate. Qed.

Lemma moves_getCurrent : moves getCurrent.
Proof. intros p b p' E. inversion E; subst. apply cursorStep_refl. Qed.

Lemma moves_getParser : moves getParser.
Proof. intros p b p' E. inversion E; subst. apply cursorStep_refl. Qed.

Lemma moves_advance : moves advance.
Proof. intros p b p' E. inversion E; subst. apply cursorStep_advance. Qed.

Lemma moves_liftResult {A} (r : result A) : moves (liftResult r).
Proof.
  intros p b p' E. unfold liftResult in E. destruct r; try discriminate.
  inversion E; subst. apply cursorStep_refl.
Qed.

Lemma moves_bind {A B} (m : M A) (k : A -> M B) :
  moves m -> (forall a, moves (k a)) -> moves (bind m k).
Proof.
  intros Hm Hk p b p' E. apply bind_Ok in E.
  destruct E as (a & p1 & E1 & E2).
  exact (cursorStep_trans _ _ _ (Hm _ _ _ E1) (Hk a _ _ _ E2)).
Qed.

Lemma moves_while {S} fuel cond (body : S -> M (flow * S)) :
  (forall s, moves (body s)) -> forall s, moves (while_ fuel cond body s).
Proof.
  intros Hb. induction fuel as [|fuel IH]; intros s p a p' E.
  - discriminate.
  - simpl in E. destruct (cond s (current p)).
    + destruct (body s p) as [[[f s1] p1]| |] eqn:Eb; try discriminate.
      pose proof (Hb _ _ _ _ Eb) as H1. destruct f.
      * exact (cursorStep_trans _ _ _ H1 (IH _ _ _ _ E)).
      * inversion E; subst. exact H1.
    + inversion E; subst. apply cursorStep_refl.
Qed.

Lemma moves_do_while {S} fuel cond (body : S -> M (flow * S)) :
  (forall s, moves (body s)) -> forall s, moves (do_while fuel cond body s).
Proof.
  intros Hb s. unfold do_while. apply moves_bind; [apply Hb|].
  intros [f s1]. destruct f; [apply moves_while; exact Hb|apply moves_ret].
Qed.

(** Runs through a method, given the lemmas [lems] for the methods it
    calls. *)
Ltac moves_with lems :=
  repeat first
    [ apply moves_ret | apply moves_error | apply moves_advance
    | apply moves_getCurrent | apply moves_getParser | apply moves_liftResult
    | lems
    | apply moves_bind; [|intros ?]
    | apply moves_while; intros ?
    | apply moves_do_while; intros ?
    | progress cbv beta
    | match goal with
      | |- moves (if ?b then _ else _) => destruct b
      | |- moves (match ?x with _ => _ end) => destruct x
      end ].

Lemma consumeSemicolonSequence_moves : moves consumeSemicolonSequence.
Proof. unfold consumeSemicolonSequence. moves_with fail. Qed.

Lemma parseVariableList_moves fuel : moves (parseVariableList fuel).
Proof. unfold parseVariableList. moves_with fail. Qed.

Section CursorStep.
Variable systemLookup : string -> systemInfo.
Variable pe : Z -> M node.
Variable fuel : nat.
Hypothesis Hpe : forall minPrec, moves (pe minPrec).

Lemma parseTupleElements_moves : moves (parseTupleElements pe fuel).
Proof. unfold parseTupleElements, parseTupleElement. moves_with ltac:(apply Hpe). Qed.

Lemma parseFunctionParameter_moves b : moves (parseFunctionParameter pe b).
Proof. unfold parseFunctionParameter. moves_with ltac:(apply Hpe). Qed.

Lemma parseFunctionParameters_moves : moves (parseFunctionParameters pe fuel).
Proof.
  unfold parseFunctionParameters, parseFunctionParameters_body.
  moves_with ltac:(first [apply Hpe | apply parseFunctionParameter_moves]).
Qed.

Lemma parseFunctionCallArgs_moves : moves (parseFunctionCallArgs pe fuel).
Proof. unfold parseFunctionCallArgs. moves_with ltac:(apply Hpe). Qed.

Lemma parseGrouping_moves : moves (parseGrouping pe fuel).
Proof.
  unfold parseGrouping.
  moves_with ltac:(first [apply Hpe | apply parseFunctionParameters_moves
                         | apply parseTupleElements_moves]).
Qed.

Lemma parseMatrixOrArray_moves : moves (parseMatrixOrArray pe fuel).
Proof.
  unfold parseMatrixOrArray, parseMatrixOrArray_loop, parseMatrixOrArray_body,
    parseMatrixOrArray_finish.
  moves_with ltac:(first [apply Hpe | apply consumeSemicolonSequence_moves]).
Qed.

Lemma parseArray_moves : moves (parseArray pe fuel).
Proof. unfold parseArray. moves_with ltac:(apply parseMatrixOrArray_moves). Qed.

Lemma parseBraceContainer_moves : moves (parseBraceContainer pe fuel).
Proof.
  unfold parseBraceContainer, parseBraceContainer_loop,
    parseBraceContainer_body, parseBraceContainer_classify.
  moves_with ltac:(apply Hpe).
Qed.

Lemma parseCodeBlock_moves : moves (parseCodeBlock pe fuel).
Proof. unfold parseCodeBlock. moves_with ltac:(apply Hpe). Qed.

Lemma parseUnaryOperator_moves : moves (parseUnaryOperator pe).
Proof. unfold parseUnaryOperator. moves_with ltac:(apply Hpe). Qed.

Lemma parseCalculusParentheses_moves : moves (parseCalculusParentheses pe fuel).
Proof. unfold parseCalculusParentheses. moves_with ltac:(apply Hpe). Qed.

Lemma collectQuotes_moves : moves (collectQuotes fuel).
Proof. unfold collectQuotes. moves_with fail. Qed.

Lemma parseBracketVariables_moves : moves (parseBracketVariables fuel).
Proof.
  unfold parseBracketVariables. moves_with ltac:(apply parseVariableList_moves).
Qed.

Lemma parseEvaluationOrOperations_moves :
  moves (parseEvaluationOrOperations pe fuel).
Proof.
  unfold parseEvaluationOrOperations.
  moves_with ltac:(apply parseCalculusParentheses_moves).
Qed.

Lemma parseDerivative_moves left : moves (parseDerivative pe fuel left).
Proof.
  unfold parseDerivative.
  moves_with ltac:(first [apply collectQuotes_moves
                         | apply parseBracketVariables_moves
                         | apply parseEvaluationOrOperations_moves]).
Qed.

Lemma parseIntegral_moves : moves (parseIntegral systemLookup pe fuel).
Proof.
  unfold parseIntegral.
  moves_with ltac:(first [apply collectQuotes_moves
                         | apply parseBracketVariables_moves
                         | apply parseEvaluationOrOperations_moves]).
Qed.

Lemma parsePrefix_moves : moves (parsePrefix systemLookup pe fuel).
Proof.
  unfold parsePrefix.
  moves_with ltac:(first [apply parseGrouping_moves | apply parseArray_moves
                         | apply parseBraceContainer_moves
                         | apply parseCodeBlock_moves
                         | apply parseUnaryOperator_moves
                         | apply parseIntegral_moves]).
Qed.

Lemma parseInfix_moves left info : moves (parseInfix pe fuel left info).
Proof.
  unfold parseInfix.
  moves_with ltac:(first [apply Hpe | apply parseFunctionCallArgs_moves]).
Qed.

Lemma parseExpression_body_moves minPrec :
  moves (parseExpression_body systemLookup pe fuel minPrec).
Proof.
  unfold parseExpression_body.
  moves_with ltac:(first [apply parsePrefix_moves | apply parseInfix_moves
                         | apply parseDerivative_moves]).
Qed.
End CursorStep.

Lemma parseExpression_moves systemLookup fuel :
  forall minPrec, moves (parseExpression systemLookup fuel minPrec).
Proof.
  induction fuel as [|fuel IH]; intros minPrec.
  - intros p a p' E. discriminate.
  - simpl. apply parseExpression_body_moves. exact IH.
Qed.

Lemma parseProgram_moves systemLookup fuel : moves (parseProgram systemLookup fuel).
Proof.
  unfold parseProgram, parseStatement.
  moves_with ltac:(apply parseExpression_moves).
Qed.

(** [position] stays within the token vector from the start. *)
Lemma newParser_position ts :
  (position (newParser ts) <= List.length (tokens (newParser ts)))%nat
  /\ tokens (newParser ts) = ts.
Proof.
  unfold newParser, advanceParser. simpl.
  destruct ts as [|t ts]; simpl; split; auto; lia.
Qed.

(** X1: no method rewrites the token vector or moves the cursor back, and
    the cursor stays within the vector: so it is for [parseExpression], and
    at the end of [parse] the cursor is at most at the length of the
    input. *)
Theorem cursor_only_moves_forward :
  forall systemLookup fuel,
    (forall minPrec p n p',
        parseExpression systemLookup fuel minPrec p = Ok (n, p') ->
        tokens p' = tokens p
        /\ (position p <= position p')%nat
        /\ ((position p <= List.length (tokens p))%nat ->
            (position p' <= List.length (tokens p))%nat))
    /\ (forall ts statements p',
           parseProgram systemLookup fuel (newParser ts) = Ok (statements, p') ->
           tokens p' = ts /\ (position p' <= List.length ts)%nat).
Proof.
  intros systemLookup fuel. split.
  - intros minPrec p n p' H.
    destruct (parseExpression_moves systemLookup fuel minPrec _ _ _ H)
      as (H1 & H2 & _ & H4 & _).
    rewrite H1 in H4. auto.
  - intros ts statements p' H.
    destruct (parseProgram_moves systemLookup fuel _ _ _ H)
      as (H1 & _ & _ & H4 & _).
    destruct (newParser_position ts) as [N1 N2].
    rewrite H1, N2 in *. split; [reflexivity|]. apply H4. exact N1.
Qed.

Lemma consumed_advance p :
  type_is (current p) TEnd = false ->
  (consumed p < consumed (advanceParser p))%nat.
Proof.
  intros H. unfold consumed, advanceParser. rewrite H.
  destruct (nth_error (tokens p) (position p)) as [t|]; simpl.
  - destruct (type_is t TEnd); lia.
  - lia.
Qed.

(** A method that starts by consuming the current token makes progress. *)
Lemma advance_first {A} (k : unit -> M A) p a p' :
  (forall u, moves (k u)) ->
  type_is (current p) TEnd = false ->
  bind advance k p = Ok (a, p') ->
  (consumed p < consumed p')%nat.
Proof.
  intros Hk Hend E. unfold bind, advance in E.
  pose proof (consumed_advance p Hend).
  destruct (Hk tt _ _ _ E) as (_ & _ & H3 & _). lia.
Qed.

Lemma collectQuotes_progress fuel p n p' :
  value_is (current p) "'" = true ->
  type_is (current p) TEnd = false ->
  collectQuotes fuel p = Ok (n, p') ->
  (consumed p < consumed p')%nat.
Proof.
  intros Hq Hend E. unfold collectQuotes in E.
  destruct fuel as [|fuel]; [discriminate|].
  simpl in E. rewrite Hq in E.
  unfold bind, advance, ret in E.
  assert (Hm : moves (while_ fuel (fun (_ : nat) cur => value_is cur "'")
                        (fun n0 : nat => advance ;; ret (Next, S n0)) 1%nat)).
  { apply moves_while. intros s. moves_with fail. }
  pose proof (consumed_advance p Hend).
  destruct (Hm _ _ _ E) as (_ & _ & H3 & _). unfold bind, advance, ret in H3.
  lia.
Qed.

Section Progress.
Variable systemLookup : string -> systemInfo.
Variable pe : Z -> M node.
Variable fuel : nat.
Hypothesis Hpe : forall minPrec, moves (pe minPrec).

Lemma parsePrefix_progress p n p' :
  parsePrefix systemLookup pe fuel p = Ok (n, p') ->
  type_is (current p) TEnd = false /\ (consumed p < consumed p')%nat.
Proof.
  intros E. unfold parsePrefix in E.
  unfold bind at 1 in E. unfold getCurrent at 1 in E.
  assert (Hend : tok_type (current p) <> TEnd ->
                 type_is (current p) TEnd = false).
  { unfold type_is. destruct (tok_type (current p)); simpl; congruence. }
  destruct (tok_type (current p)) eqn:Et;
    try (specialize (Hend ltac:(discriminate)));
    try discriminate.
  - split; [exact Hend|].
    refine (advance_first _ _ _ _ _ Hend E). intros u. moves_with fail.
  - split; [exact Hend|].
    refine (advance_first _ _ _ _ _ Hend E). intros u. moves_with fail.
  - split; [exact Hend|].
    refine (advance_first _ _ _ _ _ Hend E). intros u. moves_with fail.
  - (* Symbol *)
    split; [exact Hend|].
    destruct (value_is (current p) "(").
    { unfold parseGrouping in E.
      refine (advance_first _ _ _ _ _ Hend E). intros u.
      moves_with ltac:(first [apply Hpe | apply parseFunctionParameters_moves
                             | apply parseTupleElements_moves]). }
    destruct (value_is (current p) "[").
    { unfold parseArray in E.
      refine (advance_first _ _ _ _ _ Hend E). intros u.
      moves_with ltac:(apply parseMatrixOrArray_moves; exact Hpe). }
    destruct (value_is (current p) "{").
    { unfold parseBraceContainer in E.
      refine (advance_first _ _ _ _ _ Hend E). intros u.
      unfold parseBraceContainer_loop, parseBraceContainer_body,
        parseBraceContainer_classify.
      moves_with ltac:(apply Hpe). }
    destruct (value_is (current p) "{{").
    { unfold parseCodeBlock in E.
      refine (advance_first _ _ _ _ _ Hend E). intros u.
      moves_with ltac:(apply Hpe). }
    destruct (value_is (current p) "+" || value_is (current p) "-").
    { unfold parseUnaryOperator in E.
      unfold bind at 1 in E. unfold getCurrent at 1 in E.
      refine (advance_first _ _ _ _ _ Hend E). intros u.
      moves_with ltac:(apply Hpe). }
    destruct (value_is (current p) "'") eqn:Eq.
    { unfold parseIntegral in E. apply bind_Ok in E.
      destruct E as (order & p1 & E1 & E2).
      pose proof (collectQuotes_progress _ _ _ _ Eq Hend E1).
      assert (Hrest : cursorStep p1 p').
      { match type of E2 with
        | ?m p1 = _ => assert (Hm : moves m)
        end.
        { moves_with ltac:(first [apply parseBracketVariables_moves
                                 | apply parseEvaluationOrOperations_moves;
                                   exact Hpe]). }
        exact (Hm _ _ _ E2). }
      destruct Hrest as (_ & _ & H3 & _). lia. }
    destruct (value_is (current p) "_"); [|discriminate].
    refine (advance_first _ _ _ _ _ Hend E). intros u. moves_with fail.
  - split; [exact Hend|].
    refine (advance_first _ _ _ _ _ Hend E). intros u. moves_with fail.
Qed.
End Progress.

(** X2: a successful [parseExpression] starts at a token that is not an
    [End] and consumes at least one token. *)
Theorem parseExpression_consumes :
  forall systemLookup fuel minPrec p n p',
    parseExpression systemLookup fuel minPrec p = Ok (n, p') ->
    type_is (current p) TEnd = false /\ (consumed p < consumed p')%nat.
Proof.
  intros systemLookup fuel minPrec p n p' H.
  destruct fuel as [|fuel]; [discriminate|].
  simpl in H. unfold parseExpression_body in H. apply bind_Ok in H.
  destruct H as (left & p1 & E1 & E2).
  destruct (parsePrefix_progress systemLookup _ (S fuel)
              (parseExpression_moves systemLookup fuel) _ _ _ E1) as [H1 H2].
  split; [exact H1|].
  assert (Hm : cursorStep p1 p').
  { match type of E2 with
    | ?m p1 = _ => assert (Hw : moves m)
    end.
    { moves_with ltac:(first
        [ apply parseInfix_moves; apply parseExpression_moves
        | apply parseDerivative_moves; apply parseExpression_moves ]). }
    exact (Hw _ _ _ E2). }
  destruct Hm as (_ & _ & H3 & _). lia.
Qed.

(** ** Where an expression ends *)

(** A [while] loop ends on its test or on a [break]. *)
Lemma while_exit {S} fuel cond (body : S -> M (flow * S)) :
  forall s p s' p',
    while_ fuel cond body s p = Ok (s', p') ->
    (cond s' (current p') = false)
    \/ exists s0 p0, cond s0 (current p0) = true
                     /\ body s0 p0 = Ok ((Break, s'), p').
Proof.
  induction fuel as [|fuel IH]; intros s p s' p' E.
  - discriminate.
  - simpl in E. destruct (cond s (current p)) eqn:Ec.
    + destruct (body s p) as [[[f s1] p1]| |] eqn:Eb; try discriminate.
      destruct f.
      * exact (IH _ _ _ _ E).
      * inversion E; subst. right. exists s, p. auto.
    + inversion E; subst. left. exact Ec.
Qed.

Lemma bind_Next_not_Break {A S} (m : M A) (f : A -> S) p s' p' :
  bind m (fun a => ret (Next, f a)) p <> Ok ((Break, s'), p').
Proof.
  intros E. apply bind_Ok in E. destruct E as (a & p1 & _ & E).
  inversion E.
Qed.

Lemma parseExpression_body_stops systemLookup pe fuel minPrec p n p' :
  parseExpression_body systemLookup pe fuel minPrec p = Ok (n, p') ->
  endsExpression systemLookup minPrec (current p').
Proof.
  intros H. unfold parseExpression_body in H. apply bind_Ok in H.
  destruct H as (left & p1 & _ & E).
  apply while_exit in E. unfold endsExpression.
  destruct E as [E|(left0 & p0 & _ & E)].
  - left. destruct (type_is (current p') TEnd); [reflexivity|discriminate].
  - unfold bind at 1 in E. unfold getCurrent at 1 in E.
    destruct (isTerminator (current p0)) eqn:E1.
    { inversion E; subst. auto. }
    destruct (isCommentToken (current p0)) eqn:E2.
    { inversion E; subst. auto. }
    destruct (value_is (current p0) "(" && isIdentifierNode left0).
    { exfalso. exact (bind_Next_not_Break _ _ _ _ _ E). }
    destruct (value_is (current p0) "'" && takesDerivative left0).
    { exfalso. exact (bind_Next_not_Break _ _ _ _ _ E). }
    cbv zeta in E.
    destruct (precedenceBelow (getSymbolInfo systemLookup (current p0)) minPrec)
      eqn:E3.
    { inversion E; subst. auto. }
    destruct (typeIs (getSymbolInfo systemLookup (current p0)) "statement")
      eqn:E4.
    { inversion E; subst. auto 6. }
    destruct (typeIs (getSymbolInfo systemLookup (current p0)) "separator")
      eqn:E5.
    { inversion E; subst. auto 7. }
    exfalso. exact (bind_Next_not_Break _ _ _ _ _ E).
Qed.

(** X3: when [parseExpression(minPrec)] returns, the current token is an
    [End], a terminator, a comment, a token whose precedence is a number
    below [minPrec], or a statement or separator symbol: no operator that binds
    at least as tightly as [minPrec] is left unread. *)
Theorem parseExpression_stops :
  forall systemLookup fuel minPrec p n p',
    parseExpression systemLookup fuel minPrec p = Ok (n, p') ->
    endsExpression systemLookup minPrec (current p').
Proof.
  intros systemLookup fuel minPrec p n p' H.
  destruct fuel as [|fuel]; [discriminate|].
  exact (parseExpression_body_stops _ _ _ _ _ _ _ H).
Qed.

(** ** Top level *)

Lemma skipn_cons_nth {A} (l : list A) n x r :
  skipn n l = x :: r -> nth_error l n = Some x /\ skipn (S n) l = r.
Proof.
  revert l. induction n as [|n IH]; intros l H.
  - destruct l; inversion H; subst. auto.
  - destruct l as [|y l]; [discriminate|]. simpl in H.
    destruct (IH _ H) as [H1 H2]. split; [exact H1|].
    simpl. destruct l; [destruct n; discriminate|exact H2].
Qed.

Lemma skipn_nil_nth {A} (l : list A) n : skipn n l = [] -> nth_error l n = None.
Proof.
  revert l. induction n as [|n IH]; intros l H.
  - destruct l; [reflexivity|discriminate].
  - destruct l as [|y l]; [reflexivity|]. simpl in *. apply IH. exact H.
Qed.

Lemma isCommentToken_not_End t : isCommentToken t = true -> type_is t TEnd = false.
Proof.
  unfold isCommentToken, type_is. destruct (tok_type t); simpl; congruence.
Qed.

Lemma parseProgram_comments systemLookup :
  forall rest fuel c p acc,
    Forall (fun t => isCommentToken t = true) (c :: rest) ->
    current p = c ->
    skipn (position p) (tokens p) = rest ->
    (List.length rest < fuel)%nat ->
    exists p',
      while_ (S fuel) (fun (_ : list node) cur => negb (type_is cur TEnd))
        (fun statements =>
           cur <- getCurrent ;;
           if isCommentToken cur then
             advance ;;
             ret (Next, statements ++ [Comment (tok_value cur) (tok_kind cur)])
           else
             stmt <- parseStatement systemLookup (S fuel) ;;
             match stmt with
             | Some n => ret (Next, statements ++ [n])
             | None => ret (Next, statements)
             end) acc p
      = Ok (acc ++ map commentNode (c :: rest), p').
Proof.
  intros rest fuel. generalize (S fuel) at 2 as sfuel.
  revert rest. induction fuel as [|fuel IH]; intros rest sfuel c p acc Hall Hc Hs Hf.
  - lia.
  - inversion Hall as [|? ? Hcom Hrest]; subst.
    pose proof (isCommentToken_not_End _ Hcom) as Hend.
    cbn [while_]. rewrite Hend. cbn [negb].
    unfold bind at 1. unfold getCurrent at 1. rewrite Hcom.
    unfold bind, advance, ret.
    destruct (skipn (position p) (tokens p)) as [|c' rest'] eqn:Es.
    + (* last comment *)
      assert (Ea : advanceParser p
                   = mkParser (tokens p) (position p) EndToken).
      { unfold advanceParser. rewrite (skipn_nil_nth _ _ Es). reflexivity. }
      rewrite Ea. destruct fuel as [|fuel]; simpl; eexists; reflexivity.
    + destruct (skipn_cons_nth _ _ _ _ Es) as [N1 N2].
      assert (Ea : advanceParser p
                   = mkParser (tokens p) (S (position p)) c').
      { unfold advanceParser. rewrite N1. reflexivity. }
      rewrite Ea.
      destruct (IH rest' sfuel c' (mkParser (tokens p) (S (position p)) c')
                  (acc ++ [Comment (tok_value (current p))
                             (tok_kind (current p))]) Hrest eq_refl N2)
        as [p' Hp']; [simpl in Hf; lia|].
      exists p'. cbv beta iota. fold (@while_ (list node)).
      etransitivity; [exact Hp'|]. rewrite <- app_assoc. reflexivity.
Qed.

(** X4: a program that consists of comment tokens only is the list of the
    corresponding [Comment] nodes, none of them wrapped in a [Statement];
    the empty program is the empty list. *)
Theorem parse_comments_only :
  forall systemLookup fuel ts,
    Forall (fun t => isCommentToken t = true) ts ->
    (List.length ts <= fuel)%nat ->
    parse systemLookup (S fuel) ts = Ok (map commentNode ts).
Proof.
  intros systemLookup fuel ts Hall Hf. unfold parse, parseProgram.
  destruct ts as [|c rest].
  - reflexivity.
  - destruct (parseProgram_comments systemLookup rest fuel c
                (newParser (c :: rest)) [] Hall eq_refl eq_refl)
      as [p' Hp']; [simpl in Hf; lia|].
    rewrite Hp'. reflexivity.
Qed.

Lemma parse_comments_only_witness :
  let ts := [mkToken TString " first" "comment" 0 0;
             mkToken TString " second" "comment" 0 0] in
  Forall (fun t => isCommentToken t = true) ts
  /\ parse testSystemLookup 3 ts
     = Ok [Comment " first" "comment"; Comment " second" "comment"].
Proof.
  cbv zeta.
  assert (H : Forall (fun t => isCommentToken t = true)
                [mkToken TString " first" "comment" 0 0;
                 mkToken TString " second" "comment" 0 0])
    by (repeat constructor).
  split; [exact H|].
  exact (parse_comments_only testSystemLookup 2 _ H (le_n 2)).
Defined.

(** ** Call arguments and parameters *)

Lemma obj_replace_keys {A} key (v : A) o :
  map fst (obj_replace key v o) = map fst o.
Proof.
  induction o as [|[k w] o IH]; simpl; [reflexivity|].
  destruct (String.eqb k key); simpl; [reflexivity|]. rewrite IH. reflexivity.
Qed.

Lemma obj_add_keys {A} key (v : A) o :
  forall k, In k (map fst (obj_add key v o)) -> k = key \/ In k (map fst o).
Proof.
  induction o as [|[k0 w] o IH]; simpl; intros k H.
  - destruct H as [<-|[]]. auto.
  - destruct (comesBefore key k0); simpl in H.
    + destruct H as [<-|H]; auto.
    + destruct H as [<-|H]; auto. destruct (IH k H); auto.
Qed.

Lemma obj_add_NoDup {A} key (v : A) o :
  ~ In key (map fst o) -> NoDup (map fst o) -> NoDup (map fst (obj_add key v o)).
Proof.
  induction o as [|[k0 w] o IH]; simpl; intros Hn H.
  - repeat constructor. intros [].
  - destruct (comesBefore key k0); simpl.
    + constructor; [exact Hn|exact H].
    + inversion H as [|? ? H1 H2]; subst. constructor.
      * intros Hin. apply obj_add_keys in Hin. destruct Hin as [->|Hin].
        -- apply Hn. left. reflexivity.
        -- exact (H1 Hin).
      * apply IH; [|exact H2]. intros Hin. apply Hn. right. exact Hin.
Qed.

Lemma obj_set_NoDup {A} key (v : A) o :
  NoDup (map fst o) -> NoDup (map fst (obj_set key v o)).
Proof.
  intros H. unfold obj_set.
  destruct (String.eqb key "__proto__"); [exact H|].
  destruct (existsb (fun e => String.eqb (fst e) key) o) eqn:E.
  - rewrite obj_replace_keys. exact H.
  - apply obj_add_NoDup; [|exact H].
    intros Hin. apply in_map_iff in Hin. destruct Hin as ([k w] & Hk & Hin).
    simpl in Hk. subst k.
    assert (existsb (fun e => String.eqb (fst e) key) o = true).
    { apply existsb_exists. exists (key, w). split; [exact Hin|].
      apply String.eqb_refl. }
    congruence.
Qed.

(** X5: the keyword arguments of a call have pairwise distinct names: a
    name that is given twice makes one entry. *)
Theorem call_keywords_are_distinct :
  forall pe fuel p args p',
    parseFunctionCallArgs pe fuel p = Ok (args, p') ->
    NoDup (map fst (args_keyword args)).
Proof.
  intros pe fuel.
  change (post (parseFunctionCallArgs pe fuel)
            (fun args => NoDup (map fst (args_keyword args)))).
  unfold parseFunctionCallArgs. msteps; [constructor|].
  eapply post_bind.
  - apply post_while
      with (I := fun s : callArgs node * bool =>
                   NoDup (map fst (args_keyword (fst s)))).
    + intros [args kw] Hs. simpl in Hs. msteps; simpl; auto.
      all: try (apply post_bind_any; intros e; msteps); simpl; auto.
      all: apply obj_set_NoDup; exact Hs.
    + constructor.
  - cbv beta. intros [args kw] H. msteps. exact H.
Qed.

Lemma call_keywords_are_distinct_witness :
  let ts := [ident "n"; sym ":="; num "1"; sym ","; ident "m"; sym ",";
             ident "n"; sym ":="; num "2"; sym ")"] in
  let p := mkParser (sym ";" :: ts) 1 (sym ";") in
  let args := mkArgs [] [("n", Number "2"); ("m", UserIdentifier "m")] in
  parseFunctionCallArgs (parseExpression testSystemLookup 4) 6 p
  = Ok (args, mkParser (sym ";" :: ts) 11 (sym ")"))
  /\ NoDup (map fst (args_keyword args)).
Proof.
  cbv zeta. split; [reflexivity|].
  exact (call_keywords_are_distinct (parseExpression testSystemLookup 4) 6
           (mkParser
              [sym ";"; ident "n"; sym ":="; num "1"; sym ","; ident "m";
               sym ","; ident "n"; sym ":="; num "2"; sym ")"] 1 (sym ";"))
           (mkArgs [] [("n", Number "2"); ("m", UserIdentifier "m")])
           (mkParser
              [sym ";"; ident "n"; sym ":="; num "1"; sym ","; ident "m";
               sym ","; ident "n"; sym ":="; num "2"; sym ")"] 11 (sym ")"))
           eq_refl).
Defined.

(** X6: [convertArgsToParams] turns each positional argument into one
    positional parameter and each keyword argument into one keyword
    parameter of the same name, in order, every keyword parameter with a
    default; it adds at most one condition per argument. *)
Theorem convertArgsToParams_shape :
  forall args,
    let ps := convertArgsToParams args in
    map fst (map parseParameterFromArg (args_positional args)) = positional ps
    /\ map name (keyword ps)
       = map (fun kv => JStr (fst kv)) (args_keyword args)
    /\ keywordDefaults ps = true
    /\ (List.length (conditionals ps)
        <= List.length (args_positional args)
           + List.length (args_keyword args))%nat
    /\ metadata ps = [].
Proof.
  intros args. cbv zeta. unfold convertArgsToParams.
  set (f1 := fun (ps : params node) (arg : node) =>
               let '(prm, condition) := parseParameterFromArg arg in
               mkParams (positional ps ++ [prm]) (keyword ps)
                 match condition with
                 | Some c => conditionals ps ++ [c]
                 | None => conditionals ps
                 end (metadata ps)).
  set (f2 := fun (ps : params node) (entry : string * node) =>
               let '(key, value) := entry in
               match asBinary "?" value with
               | Some (l, r) =>
                   mkParams (positional ps)
                     (keyword ps ++ [mkParam (JStr key) (Some l)])
                     (conditionals ps ++ [r]) (metadata ps)
               | None =>
                   mkParams (positional ps)
                     (keyword ps ++ [mkParam (JStr key) (Some value)])
                     (conditionals ps) (metadata ps)
               end).
  assert (H1 : forall l ps,
             let r := fold_left f1 l ps in
             positional r = positional ps ++ map fst (map parseParameterFromArg l)
             /\ keyword r = keyword ps
             /\ (List.length (conditionals r)
                 <= List.length (conditionals ps) + List.length l)%nat
             /\ metadata r = metadata ps).
  { induction l as [|a l IH]; intros ps; cbv zeta; simpl.
    - rewrite app_nil_r. repeat split; lia.
    - destruct (IH (f1 ps a)) as (A & B & C & D).
      rewrite A, B, D. clear IH. unfold f1 in *.
      destruct (parseParameterFromArg a) as [prm [c|]]; simpl in *;
        rewrite <- app_assoc; repeat split; auto;
        rewrite ?length_app in C; simpl in C; lia. }
  assert (H2 : forall l ps,
             let r := fold_left f2 l ps in
             positional r = positional ps
             /\ map name (keyword r)
                = map name (keyword ps) ++ map (fun kv => JStr (fst kv)) l
             /\ (keywordDefaults ps = true -> keywordDefaults r = true)
             /\ (List.length (conditionals r)
                 <= List.length (conditionals ps) + List.length l)%nat
             /\ metadata r = metadata ps).
  { induction l as [|[key value] l IH]; intros ps; cbv zeta.
    - simpl. rewrite app_nil_r. repeat split; auto; lia.
    - cbn [fold_left map List.length].
      destruct (IH (f2 ps (key, value))) as (A & B & C & D & F).
      rewrite A, B, F. clear IH. unfold f2 in *. unfold keywordDefaults in *.
      destruct (asBinary "?" value) as [[l0 r0]|]; simpl in *;
        rewrite map_app, <- app_assoc; simpl;
        (split; [reflexivity|]); (split; [reflexivity|]);
        (split; [intros Hd; apply C; rewrite forallb_app, Hd; reflexivity|]);
        (split; [|reflexivity]);
        rewrite ?length_app in D; simpl in D; lia. }
  destruct (H1 (args_positional args) emptyParams) as (A1 & B1 & C1 & D1).
  destruct (H2 (args_keyword args) (fold_left f1 (args_positional args) emptyParams))
    as (A2 & B2 & C2 & D2 & F2).
  rewrite A2, A1, B2, B1, F2, D1. simpl in *.
  repeat split; auto.
  - apply C2. unfold keywordDefaults. rewrite B1. reflexivity.
  - lia.
Qed.

(** ** Containers keep their elements *)

Lemma closedRows_elements items :
  forall open,
    flat_map row (closedRows open items) ++ openRow open items
    = open ++ elementsOf items.
Proof.
  induction items as [|[count|element sep] items IH]; intros open.
  - simpl. rewrite app_nil_r. reflexivity.
  - simpl. apply IH.
  - cbn [closedRows openRow elementsOf].
    destruct sep as [|count|]; cbn [flat_map row];
      rewrite <- ?app_assoc, IH; destruct (isMetadata element);
      rewrite <- ?app_assoc; reflexivity.
Qed.

Lemma closedRows_length items :
  forall open, List.length (closedRows open items) = rowSeparators items.
Proof.
  unfold rowSeparators.
  induction items as [|[count|element sep] items IH]; intros open.
  - reflexivity.
  - simpl. rewrite IH. reflexivity.
  - cbn [closedRows filter isRowsItem].
    destruct sep; cbn [isRows List.length]; rewrite IH; reflexivity.
Qed.

Lemma flat_map_row_concat (st : list (structureEntry node)) :
  concat (map row st) = flat_map row st.
Proof. induction st; simpl; congruence. Qed.

Lemma structureOf_elements items :
  flat_map row (structureOf items) = elementsOf items.
Proof.
  unfold structureOf. rewrite flat_map_app. simpl. rewrite app_nil_r.
  exact (closedRows_elements items []).
Qed.

Lemma structureOf_length items :
  List.length (structureOf items) = S (rowSeparators items).
Proof.
  unfold structureOf. rewrite length_app, closedRows_length. simpl. lia.
Qed.

Lemma buildMatrixTensor_elements st :
  containerElements (buildMatrixTensor st) = flat_map row st.
Proof.
  unfold buildMatrixTensor. destruct (jsnum_is _ 1); simpl;
    [apply flat_map_row_concat|reflexivity].
Qed.

Lemma finish_plain items q :
  hasMetadataItem items = false ->
  parseMatrixOrArray_finish (bracketState arrayState0 items) q
  = Ok (if hasRows items then buildMatrixTensor (structureOf items)
        else Array (elementsOf items), q).
Proof.
  intros Hmeta. unfold parseMatrixOrArray_finish, bracketState.
  cbn [hasMetadata arr_hasSemicolons currentRow matrixStructure arr_elements
         arrayState0 orb andb app].
  rewrite Hmeta. cbn [andb]. destruct (hasRows items).
  - rewrite orb_true_r. reflexivity.
  - reflexivity.
Qed.

(** X7: a bracket container without metadata loses and reorders nothing:
    when its content is read to the end, the result is an [Array], a
    [Matrix] or a [Tensor] whose elements, read row by row, are the elements
    of the content in their order; it is the [Array] of them when no row
    separator was read, and it has one row more than there were row
    separators otherwise.  Every bracket container that is parsed has such a
    content. *)
Theorem bracket_container_keeps_elements :
  (forall pe fuel p items q,
      bracketContent pe items p Complete q ->
      (List.length items <= fuel)%nat ->
      hasMetadataItem items = false ->
      exists n,
        parseMatrixOrArray pe fuel p = Ok (n, q)
        /\ containerElements n = elementsOf items
        /\ (hasRows items = false -> n = Array (elementsOf items))
        /\ (hasRows items = true ->
            (exists rows, n = Matrix rows
                          /\ List.length rows = S (rowSeparators items))
            \/ (exists structure d, n = Tensor structure d
                  /\ List.length structure = S (rowSeparators items))))
  /\ (forall pe fuel p n q,
         parseMatrixOrArray pe fuel p = Ok (n, q) ->
         exists items,
           bracketContent pe items p Complete q
           /\ (hasMetadataItem items = false ->
               containerElements n = elementsOf items)).
Proof.
  split.
  - intros pe fuel p items q Hread Hf Hmeta.
    rewrite (parseMatrixOrArray_reads pe fuel items p q Hread
               (readable_no_metadata items false Hmeta) Hf).
    rewrite (finish_plain items q Hmeta).
    eexists. split; [reflexivity|].
    destruct (hasRows items) eqn:Hrows.
    + split; [rewrite buildMatrixTensor_elements; apply structureOf_elements|].
      split; [discriminate|]. intros _.
      unfold buildMatrixTensor. destruct (jsnum_is _ 1).
      * left. eexists. split; [reflexivity|].
        rewrite length_map. apply structureOf_length.
      * right. eexists _, _. split; [reflexivity|apply structureOf_length].
    + split; [reflexivity|]. split; [reflexivity|discriminate].
  - intros pe fuel p n q H. unfold parseMatrixOrArray in H.
    apply bind_Ok in H. destruct H as (s & p1 & Hloop & H).
    destruct (parseMatrixOrArray_loop_complete pe fuel p s p1 Hloop)
      as (items & Hread & _ & ->).
    destruct (hasMetadataItem items) eqn:Hmeta.
    + assert (Hq : q = p1).
      { unfold parseMatrixOrArray_finish, ret, error in H.
        destruct (_ && _); [discriminate|].
        destruct (hasMetadata _); [inversion H; reflexivity|].
        destruct (arr_hasSemicolons _); inversion H; reflexivity. }
      subst p1. exists items. split; [exact Hread|intros; congruence].
    + rewrite (finish_plain items p1 Hmeta) in H. inversion H; subst.
      exists items. split; [exact Hread|]. intros _.
      destruct (hasRows items).
      * rewrite buildMatrixTensor_elements. apply structureOf_elements.
      * reflexivity.
Qed.

Lemma bracket_container_keeps_elements_witness :
  let pe := parseExpression testSystemLookup 4 in
  let p := advanceParser (newParser tensorTokens) in
  let q := mkParser tensorTokens 8 (sym "]") in
  bracketContent pe tensorItems p Complete q
  /\ exists n,
      parseMatrixOrArray pe 4 p = Ok (n, q)
      /\ containerElements n = [Number "1"; Number "2"; Number "3"].
Proof.
  cbv zeta.
  assert (Hread : bracketContent (parseExpression testSystemLookup 4)
                    tensorItems (advanceParser (newParser tensorTokens))
                    Complete (mkParser tensorTokens 8 (sym "]"))).
  { vm_compute. repeat split. }
  split; [exact Hread|].
  destruct (proj1 bracket_container_keeps_elements
              (parseExpression testSystemLookup 4) 4%nat
              (advanceParser (newParser tensorTokens)) tensorItems
              (mkParser tensorTokens 8 (sym "]")) Hread
              (le_S _ _ (le_n 3)) eq_refl)
    as (n & H1 & H2 & _).
  exists n. split; [exact H1|exact H2].
Defined.

(** ** The three kinds of brace container *)

Lemma existsb_false_forallb {A} (f : A -> bool) l :
  existsb f l = false -> forallb (fun x => negb (f x)) l = true.
Proof.
  induction l as [|x l IH]; simpl; auto.
  intros H. apply orb_false_iff in H. destruct H as [H1 H2].
  rewrite H1, (IH H2). reflexivity.
Qed.

Lemma parseBraceContainer_loop_noPattern pe fuel :
  post (parseBraceContainer_loop pe fuel)
    (fun s => forallb (fun e => negb (isPatternMatchingFunction e))
                (brace_elements s) = true).
Proof.
  unfold parseBraceContainer_loop. msteps; [|reflexivity].
  apply post_do_while; [|reflexivity].
  intros s Hs. unfold parseBraceContainer_body.
  apply post_bind_any; intros element.
  msteps; simpl; rewrite forallb_app, Hs; reflexivity.
Qed.

(** X8: a brace container is a [System] of equations only, a non-empty
    [Map] of [:=] pairs only, or a [Set] in which no element is a [:=] pair
    or an equation; it never holds a [PatternMatchingFunction]. *)
Theorem brace_container_kinds :
  forall pe fuel p n p',
    parseBraceContainer pe fuel p = Ok (n, p') ->
    exists elements,
      forallb (fun e => negb (isPatternMatchingFunction e)) elements = true
      /\ ((n = System elements /\ forallb isEquation elements = true
        /\ elements <> [])
       \/ (n = MapNode elements /\ forallb isAssignmentPair elements = true
           /\ elements <> [])
       \/ (n = SetNode elements
           /\ forallb (fun e => negb (isAssignmentPair e)) elements = true
           /\ forallb (fun e => negb (isEquation e)) elements = true)).
Proof.
  intros pe fuel p n p' H.
  unfold parseBraceContainer in H.
  apply bind_Ok in H. destruct H as (u & p0 & _ & H).
  apply bind_Ok in H. destruct H as (s & p1 & Hloop & H).
  destruct (parseBraceContainer_loop_inv pe fuel _ _ _ Hloop) as (I1 & I2 & I3).
  apply bind_Ok in H. destruct H as (cur & p2 & _ & H).
  destruct (negb (value_is cur "}")); [discriminate|].
  apply bind_Ok in H. destruct H as (u' & p3 & _ & H).
  unfold parseBraceContainer_classify in H.
  exists (brace_elements s).
  split; [exact (parseBraceContainer_loop_noPattern pe fuel _ _ _ Hloop)|].
  assert (Hne : forall f, existsb f (brace_elements s) = true ->
                          brace_elements s <> []).
  { intros f Hf E. rewrite E in Hf. discriminate. }
  rewrite I1, I2, I3 in H.
  destruct (existsb isEquation (brace_elements s)) eqn:E1.
  - destruct (negb (brace_hasSemicolons s)); [discriminate|].
    destruct (existsb isAssignmentPair (brace_elements s) || false);
      [discriminate|].
    destruct (forallb isEquation (brace_elements s)) eqn:E3; [|discriminate].
    inversion H; subst. left. repeat split. exact (Hne _ E1).
  - destruct (existsb isAssignmentPair (brace_elements s)) eqn:E2.
    + destruct (forallb isAssignmentPair (brace_elements s)) eqn:E3;
        [|discriminate].
      inversion H; subst. right. left. repeat split. exact (Hne _ E2).
    + inversion H; subst. right. right.
      split; [reflexivity|].
      split; apply existsb_false_forallb; assumption.
Qed.

Lemma brace_container_kinds_witness :
  let ts := [sym "{"; ident "a"; sym ":="; num "4"; sym "}"] in
  let n := MapNode [BinaryOperation ":=" (UserIdentifier "a") (Number "4")] in
  parseBraceContainer (parseExpression testSystemLookup 4) 4 (newParser ts)
  = Ok (n, mkParser ts 5 EndToken)
  /\ exists elements,
      forallb (fun e => negb (isPatternMatchingFunction e)) elements = true
      /\ ((n = System elements /\ forallb isEquation elements = true
        /\ elements <> [])
       \/ (n = MapNode elements /\ forallb isAssignmentPair elements = true
           /\ elements <> [])
       \/ (n = SetNode elements
           /\ forallb (fun e => negb (isAssignmentPair e)) elements = true
           /\ forallb (fun e => negb (isEquation e)) elements = true)).
Proof.
  cbv zeta. split; [reflexivity|].
  exact (brace_container_kinds (parseExpression testSystemLookup 4) 4
           (newParser [sym "{"; ident "a"; sym ":="; num "4"; sym "}"])
           (MapNode [BinaryOperation ":=" (UserIdentifier "a") (Number "4")])
           (mkParser [sym "{"; ident "a"; sym ":="; num "4"; sym "}"] 5 EndToken)
           eq_refl).
Defined.

(** ** Calculus forms *)

Lemma parseCalculusParentheses_classifies pe fuel :
  post (parseCalculusParentheses pe fuel)
    (fun r => isEvaluation r
              = negb (existsb containsCalculusOperations (content r))).
Proof.
  unfold parseCalculusParentheses. msteps.
  eapply post_bind
    with (R := fun r => isEvaluation r
                        = negb (existsb containsCalculusOperations (content r))).
  - apply post_while; [|reflexivity].
    intros s Hs. apply post_bind_any; intros expr.
    assert (H : (if containsCalculusOperations expr then false
                 else isEvaluation s)
                = negb (existsb containsCalculusOperations
                          (content s ++ [expr]))).
    { rewrite existsb_app. simpl. rewrite orb_false_r, Hs.
      destruct (containsCalculusOperations expr);
        [rewrite orb_true_r|rewrite orb_false_r]; reflexivity. }
    msteps; simpl; exact H.
  - intros r Hr. msteps. exact Hr.
Qed.

Lemma parseEvaluationOrOperations_exclusive pe fuel :
  post (parseEvaluationOrOperations pe fuel)
    (fun r => evaluationOrOperations (fst r) (snd r)).
Proof.
  unfold parseEvaluationOrOperations. msteps; [|exact I].
  eapply post_bind; [apply parseCalculusParentheses_classifies|].
  cbv beta. intros r Hr. msteps; simpl.
  - symmetry in Hr. apply negb_true_iff in Hr. exact Hr.
  - symmetry in Hr. apply negb_false_iff in Hr. exact Hr.
Qed.

Lemma collectQuotes_counts fuel p n p' :
  value_is (current p) "'" = true ->
  collectQuotes fuel p = Ok (n, p') -> (1 <= n)%nat.
Proof.
  intros Hq E. unfold collectQuotes in E.
  destruct fuel as [|fuel]; [discriminate|].
  cbn [while_] in E. rewrite Hq in E.
  change ((advance ;; ret (Next, 1%nat)) p) with (Ok ((Next, 1%nat), advanceParser p)) in E.
  cbv beta iota in E.
  refine (post_while (fun n => (1 <= n)%nat) fuel _ _ _ 1%nat (le_n 1) _ _ _ E).
  intros s Hs. msteps. simpl. lia.
Qed.

(** X9: the node of a postfix derivative carries the operand it was given,
    an order of at least one when it starts at a quote, and never both an
    evaluation list and an operations list: the parenthesised list is an
    operations list exactly when one of its entries contains a calculus
    operation. *)
Theorem derivative_shape :
  forall pe fuel left p n p',
    parseDerivative pe fuel left p = Ok (n, p') ->
    exists order variables evaluation operations,
      n = Derivative left order variables evaluation operations
      /\ evaluationOrOperations evaluation operations
      /\ (value_is (current p) "'" = true -> (1 <= order)%nat).
Proof.
  intros pe fuel left p n p' H. unfold parseDerivative in H.
  apply bind_Ok in H. destruct H as (order & p1 & Hq & H).
  apply bind_Ok in H. destruct H as (variables & p2 & _ & H).
  apply bind_Ok in H. destruct H as ([ev ops] & p3 & He & H).
  inversion H; subst.
  exists order, variables, ev, ops. split; [reflexivity|]. split.
  - exact (parseEvaluationOrOperations_exclusive pe fuel _ _ _ He).
  - intros Hcur. exact (collectQuotes_counts _ _ _ _ Hcur Hq).
Qed.

Lemma derivative_shape_witness :
  let ts := [sym "'"; sym "'"; sym "("; ident "x"; sym ")"] in
  let n := Derivative (UserIdentifier "f") 2 None
             (Some [UserIdentifier "x"]) None in
  parseDerivative (parseExpression testSystemLookup 4) 4 (UserIdentifier "f")
    (newParser ts)
  = Ok (n, mkParser ts 5 EndToken)
  /\ value_is (current (newParser ts)) "'" = true
  /\ exists order variables evaluation operations,
      n = Derivative (UserIdentifier "f") order variables evaluation operations
      /\ evaluationOrOperations evaluation operations
      /\ (1 <= order)%nat.
Proof.
  cbv zeta. split; [reflexivity|]. split; [reflexivity|].
  destruct (derivative_shape (parseExpression testSystemLookup 4) 4
              (UserIdentifier "f")
              (newParser [sym "'"; sym "'"; sym "("; ident "x"; sym ")"])
              (Derivative (UserIdentifier "f") 2 None
                 (Some [UserIdentifier "x"]) None)
              (mkParser [sym "'"; sym "'"; sym "("; ident "x"; sym ")"] 5
                 EndToken)
              eq_refl)
    as (order & variables & ev & ops & H1 & H2 & H3).
  exists order, variables, ev, ops.
  split; [exact H1|]. split; [exact H2|]. exact (H3 eq_refl).
Defined.

(** ** Variable lists *)

Lemma bind_not_Error {A B} (m : M A) (k : A -> M B) msg p :
  m p <> Error msg ->
  (forall a p1, m p = Ok (a, p1) -> k a p1 <> Error msg) ->
  bind m k p <> Error msg.
Proof.
  intros Hm Hk. unfold bind. destruct (m p) as [[a p1]| |].
  - apply Hk. reflexivity.
  - intros H. apply Hm. inversion H. reflexivity.
  - discriminate.
Qed.

Lemma while_not_Error {S} cond (body : S -> M (flow * S)) msg :
  (forall s p, body s p <> Error msg) ->
  forall fuel s p, while_ fuel cond body s p <> Error msg.
Proof.
  intros Hbody. induction fuel as [|fuel IH]; intros s p; [discriminate|].
  cbn [while_]. destruct (cond s (current p)); [|discriminate].
  pose proof (Hbody s p) as Hb.
  destruct (body s p) as [[[f s1] p1]| |].
  - destruct f; [apply IH|discriminate].
  - intros H. apply Hb. inversion H. reflexivity.
  - discriminate.
Qed.

Lemma do_while_not_Error {S} cond (body : S -> M (flow * S)) msg :
  (forall s p, body s p <> Error msg) ->
  forall fuel s p, do_while fuel cond body s p <> Error msg.
Proof.
  intros Hbody fuel s p. unfold do_while.
  apply bind_not_Error; [apply Hbody|].
  intros [f s1] p1 _. destruct f; [|discriminate].
  apply while_not_Error. exact Hbody.
Qed.

Lemma parseVariableList_body_break s p s' p' :
  (cur <- getCurrent ;;
   variables <-
     (if type_is cur TIdentifier
      then advance ;; ret (s ++ [tok_value cur])
      else error "Expected variable name in variable list") ;;
   cur0 <- getCurrent ;;
   if value_is cur0 "," then advance ;; ret (Next, variables)
   else if value_is cur0 "]" then ret (Break, variables)
   else error "Expected comma or closing bracket in variable list")%parser
    p = Ok ((Break, s'), p') ->
  value_is (current p') "]" = true.
Proof.
  intros H.
  unfold bind at 1 in H. unfold getCurrent at 1 in H.
  apply bind_Ok in H. destruct H as (vs & q1 & _ & H).
  unfold bind at 1 in H. unfold getCurrent at 1 in H.
  destruct (value_is (current q1) ","); [inversion H|].
  destruct (value_is (current q1) "]") eqn:E2; [|discriminate].
  inversion H; subst. exact E2.
Qed.

Lemma parseVariableList_ends_at_bracket fuel p variables p' :
  parseVariableList fuel p = Ok (variables, p') ->
  value_is (current p') "]" = true.
Proof.
  intros H. unfold parseVariableList in H.
  unfold bind at 1 in H. unfold getCurrent at 1 in H.
  destruct (value_is (current p) "]") eqn:E; simpl in H.
  - inversion H; subst. exact E.
  - unfold do_while in H. apply bind_Ok in H.
    destruct H as ([f s1] & p1 & Hb & H). destruct f.
    + apply while_exit in H. destruct H as [H|(s0 & p0 & _ & H)].
      * discriminate.
      * exact (parseVariableList_body_break _ _ _ _ H).
    + inversion H; subst. exact (parseVariableList_body_break _ _ _ _ Hb).
Qed.

Lemma parseVariableList_errors fuel p :
  parseVariableList fuel p
  <> Error "Expected closing bracket after variable list".
Proof.
  unfold parseVariableList.
  unfold bind at 1. unfold getCurrent at 1.
  destruct (negb (value_is (current p) "]")); [|discriminate].
  apply do_while_not_Error. intros s q.
  unfold bind, getCurrent, advance, ret, error.
  destruct (type_is (current q) TIdentifier); [|discriminate].
  destruct (value_is (current (advanceParser q)) ","); [discriminate|].
  destruct (value_is (current (advanceParser q)) "]"); discriminate.
Qed.

(** X10: [parseVariableList] returns only with the cursor on the closing
    bracket, so the check made after it never fails: the bracketed variable
    list of a derivative or an integral never raises the error about a
    missing closing bracket. *)
Theorem variable_list_closing_bracket :
  forall fuel p,
    (forall variables p',
        parseVariableList fuel p = Ok (variables, p') ->
        value_is (current p') "]" = true)
    /\ parseBracketVariables fuel p
       <> Error "Expected closing bracket after variable list".
Proof.
  intros fuel p. split.
  - intros variables p'. apply parseVariableList_ends_at_bracket.
  - unfold parseBracketVariables.
    unfold bind at 1. unfold getCurrent at 1.
    destruct (value_is (current p) "["); [|discriminate].
    unfold bind at 1. unfold advance at 1.
    apply bind_not_Error; [apply parseVariableList_errors|].
    intros variables p1 E.
    pose proof (parseVariableList_ends_at_bracket _ _ _ _ E) as Hc.
    unfold bind, getCurrent. rewrite Hc. discriminate.
Qed.

(** X11: the node of an integral has a plain identifier as its function,
    an order of at least one when it starts at a quote, and never both an
    evaluation list and an operations list. *)
Theorem integral_shape :
  forall systemLookup pe fuel p n p',
    parseIntegral systemLookup pe fuel p = Ok (n, p') ->
    exists func order variables evaluation operations,
      n = Integral func order variables evaluation operations
      /\ isIdentifierNode func = true
      /\ evaluationOrOperations evaluation operations
      /\ (value_is (current p) "'" = true -> (1 <= order)%nat).
Proof.
  intros systemLookup pe fuel p n p' H. unfold parseIntegral in H.
  apply bind_Ok in H. destruct H as (order & p1 & Hq & H).
  unfold bind at 1 in H. unfold getCurrent at 1 in H.
  apply bind_Ok in H. destruct H as (func & p2 & Hf & H).
  apply bind_Ok in H. destruct H as (variables & p3 & _ & H).
  apply bind_Ok in H. destruct H as ([ev ops] & p4 & He & H).
  inversion H; subst.
  exists func, order, variables, ev, ops. split; [reflexivity|].
  split; [|split].
  - destruct (type_is (current p1) TIdentifier); [|discriminate].
    destruct (kind_is (current p1) "System");
      inversion Hf; subst; reflexivity.
  - exact (parseEvaluationOrOperations_exclusive pe fuel _ _ _ He).
  - intros Hcur. exact (collectQuotes_counts _ _ _ _ Hcur Hq).
Qed.

Lemma integral_shape_witness :
  let ts := [sym "'"; ident "f"; sym "["; ident "x"; sym "]"] in
  let n := Integral (UserIdentifier "f") 1 (Some ["x"]) None None in
  parseIntegral testSystemLookup (parseExpression testSystemLookup 4) 4
    (newParser ts)
  = Ok (n, mkParser ts 5 EndToken)
  /\ exists func order variables evaluation operations,
      n = Integral func order variables evaluation operations
      /\ isIdentifierNode func = true
      /\ evaluationOrOperations evaluation operations
      /\ (1 <= order)%nat.
Proof.
  cbv zeta. split; [reflexivity|].
  destruct (integral_shape testSystemLookup
              (parseExpression testSystemLookup 4) 4
              (newParser [sym "'"; ident "f"; sym "["; ident "x"; sym "]"])
              (Integral (UserIdentifier "f") 1 (Some ["x"]) None None)
              (mkParser [sym "'"; ident "f"; sym "["; ident "x"; sym "]"] 5
                 EndToken)
              eq_refl)
    as (func & order & variables & ev & ops & H1 & H2 & H3 & H4).
  exists func, order, variables, ev, ops.
  split; [exact H1|]. split; [exact H2|]. split; [exact H3|].
  exact (H4 eq_refl).
Defined.

(** ** Parenthesised forms *)

Lemma parseTupleElements_nonempty pe fuel :
  post (parseTupleElements pe fuel) (fun elements => elements <> []).
Proof.
  unfold parseTupleElements, parseTupleElement.
  apply post_bind_any; intros firstElement.
  apply (post_while (fun elements : list node => elements <> [])).
  2: { intros E; discriminate E. }
  intros s Hs. msteps; simpl; try exact Hs.
  apply post_bind_any; intros element. apply post_ret. simpl.
  destruct s; discriminate.
Qed.

(** X12: what stands between parentheses is a [Grouping] or a [Tuple], and
    the tuple is empty exactly for [()]: each other tuple has an element. *)
Theorem grouping_or_tuple :
  forall pe fuel p n p',
    parseGrouping pe fuel p = Ok (n, p') ->
    (exists e, n = Grouping e)
    \/ (exists elements,
           n = Tuple elements
           /\ (elements = []
               <-> value_is (current (advanceParser p)) ")" = true)).
Proof.
  intros pe fuel p n p' H. unfold parseGrouping in H.
  unfold bind at 1 in H. unfold advance at 1 in H.
  unfold bind at 1 in H. unfold getCurrent at 1 in H.
  destruct (value_is (current (advanceParser p)) ")") eqn:Ec.
  - inversion H; subst. right. exists []. tauto.
  - unfold bind at 1 in H. unfold getParser at 1 in H.
    destruct (scanGrouping _ _ _) as [hasSemicolon hasComma].
    apply bind_Ok in H. destruct H as (result & p1 & Hr & H).
    assert (Hn : n = result).
    { unfold bind at 1 in H. unfold getCurrent at 1 in H.
      destruct (negb (value_is (current p1) ")")); [discriminate|].
      inversion H; reflexivity. }
    subst result. destruct hasSemicolon.
    + apply bind_Ok in Hr. destruct Hr as (ps & p2 & _ & Hr).
      inversion Hr; subst. left. eauto.
    + destruct hasComma.
      * apply bind_Ok in Hr. destruct Hr as (elements & p2 & He & Hr).
        inversion Hr; subst. right. exists elements.
        split; [reflexivity|].
        pose proof (parseTupleElements_nonempty pe fuel _ _ _ He) as Hne.
        split; [contradiction|discriminate].
      * apply bind_Ok in Hr. destruct Hr as (e & p2 & _ & Hr).
        inversion Hr; subst. left. eauto.
Qed.

Lemma grouping_or_tuple_witness :
  let ts := [sym "("; ident "a"; sym ","; sym ")"] in
  parseGrouping (parseExpression testSystemLookup 4) 4 (newParser ts)
  = Ok (Tuple [UserIdentifier "a"], mkParser ts 4 EndToken)
  /\ ((exists e, Tuple [UserIdentifier "a"] = Grouping e)
      \/ (exists elements,
             Tuple [UserIdentifier "a"] = Tuple elements
             /\ (elements = []
                 <-> value_is (current (advanceParser (newParser ts))) ")"
                     = true))).
Proof.
  cbv zeta. split; [reflexivity|].
  exact (grouping_or_tuple (parseExpression testSystemLookup 4) 4
           (newParser [sym "("; ident "a"; sym ","; sym ")"])
           (Tuple [UserIdentifier "a"])
           (mkParser [sym "("; ident "a"; sym ","; sym ")"] 4 EndToken)
           eq_refl).
Defined.

(** ** Termination *)

Lemma advance_le q : (remaining (advanceParser q) <= remaining q)%nat.
Proof.
  unfold remaining, advanceParser.
  destruct (nth_error (tokens q) (position q)) as [t|] eqn:E; simpl.
  - assert (position q < List.length (tokens q))%nat
      by (apply nth_error_Some; congruence).
    destruct (atEnd t), (atEnd (current q)); lia.
  - apply nth_error_None in E. destruct (atEnd (current q)); lia.
Qed.

Lemma advance_lt q :
  atEnd (current q) = false -> (remaining (advanceParser q) < remaining q)%nat.
Proof.
  intros H. unfold remaining, advanceParser. rewrite H.
  destruct (nth_error (tokens q) (position q)) as [t|] eqn:E; simpl.
  - assert (position q < List.length (tokens q))%nat
      by (apply nth_error_Some; congruence).
    destruct (atEnd t); lia.
  - apply nth_error_None in E. lia.
Qed.

Lemma newParser_remaining ts : (remaining (newParser ts) <= List.length ts)%nat.
Proof.
  unfold newParser, advanceParser, remaining. simpl.
  destruct ts as [|t ts]; simpl.
  - lia.
  - destruct (atEnd t); lia.
Qed.

(** *** Tokens that are not the final [End] *)

Lemma value_is_notEnd t v :
  value_is t v = true -> String.eqb v "" = false -> atEnd t = false.
Proof.
  unfold atEnd, value_is. intros H Hv. apply String.eqb_eq in H.
  rewrite H, Hv. apply andb_false_r.
Qed.

Lemma type_is_notEnd t :
  type_is t TEnd = false -> atEnd t = false.
Proof. unfold atEnd. intros H. rewrite H. reflexivity. Qed.

Lemma tok_type_notEnd t ty :
  tok_type t = ty -> token_type_eqb ty TEnd = false -> atEnd t = false.
Proof. unfold atEnd, type_is. intros H Hty. rewrite H, Hty. reflexivity. Qed.

Lemma type_is_other_notEnd t ty :
  type_is t ty = true -> token_type_eqb ty TEnd = false -> atEnd t = false.
Proof.
  unfold type_is. intros H Hty. apply type_is_notEnd. unfold type_is.
  destruct (tok_type t), ty; simpl in *; congruence.
Qed.

Lemma negb_type_is_notEnd t :
  negb (type_is t TEnd) = true -> atEnd t = false.
Proof. intros H. apply type_is_notEnd. apply negb_true_iff. exact H. Qed.

Lemma notAt_notEnd close t : notAt close t = true -> atEnd t = false.
Proof.
  unfold notAt. intros H. apply andb_true_iff in H.
  apply negb_type_is_notEnd, H.
Qed.

Lemma isSemicolonToken_notEnd t : isSemicolonToken t = true -> atEnd t = false.
Proof.
  unfold isSemicolonToken. intros H. apply orb_true_iff in H.
  destruct H as [H|H].
  - exact (value_is_notEnd _ _ H eq_refl).
  - exact (type_is_other_notEnd _ _ H eq_refl).
Qed.

Lemma isCommentToken_notEnd t : isCommentToken t = true -> atEnd t = false.
Proof.
  unfold isCommentToken. intros H. apply andb_true_iff in H.
  exact (type_is_other_notEnd _ _ (proj1 H) eq_refl).
Qed.

Lemma and_left_notEnd t ty b :
  type_is t ty && b = true -> token_type_eqb ty TEnd = false ->
  atEnd t = false.
Proof.
  intros H. apply andb_true_iff in H. apply type_is_other_notEnd, H.
Qed.

Lemma and_value_notEnd t v b :
  value_is t v && b = true -> String.eqb v "" = false -> atEnd t = false.
Proof.
  intros H. apply andb_true_iff in H. apply value_is_notEnd, H.
Qed.

Lemma or_value_notEnd t v w :
  value_is t v || value_is t w = true ->
  String.eqb v "" = false -> String.eqb w "" = false -> atEnd t = false.
Proof.
  intros H Hv Hw. apply orb_true_iff in H. destruct H as [H|H].
  - exact (value_is_notEnd _ _ H Hv).
  - exact (value_is_notEnd _ _ H Hw).
Qed.

Ltac not_atEnd :=
  first
    [ assumption
    | eapply value_is_notEnd; [eassumption|reflexivity]
    | eapply type_is_notEnd; eassumption
    | eapply negb_type_is_notEnd; eassumption
    | eapply notAt_notEnd; eassumption
    | eapply tok_type_notEnd; [eassumption|reflexivity]
    | eapply type_is_other_notEnd; [eassumption|reflexivity]
    | eapply isSemicolonToken_notEnd; eassumption
    | eapply isCommentToken_notEnd; eassumption
    | eapply and_left_notEnd; [eassumption|reflexivity]
    | eapply and_value_notEnd; [eassumption|reflexivity]
    | eapply or_value_notEnd; [eassumption|reflexivity|reflexivity] ].

(** *** Rules *)

Lemma wp_ret {A} (a : A) p (Q : A -> Parser -> Prop) : Q a p -> wp (ret a) p Q.
Proof. intros H. exact H. Qed.

Lemma wp_error {A} msg p (Q : A -> Parser -> Prop) : wp (error msg) p Q.
Proof. exact I. Qed.

Lemma wp_bind {A B} (m : M A) (k : A -> M B) p (Q : B -> Parser -> Prop) :
  wp m p (fun a p1 => wp (k a) p1 Q) -> wp (bind m k) p Q.
Proof.
  unfold wp, bind. destruct (m p) as [[a p1]| |]; auto.
Qed.

Lemma wp_conseq {A} (m : M A) p (Q Q' : A -> Parser -> Prop) :
  wp m p Q -> (forall a p', Q a p' -> Q' a p') -> wp m p Q'.
Proof.
  unfold wp. destruct (m p) as [[a p1]| |]; auto.
Qed.

Lemma wp_call {A B} (m : M A) (k : A -> M B) p (R : A -> Parser -> Prop)
  (Q : B -> Parser -> Prop) :
  wp m p R -> (forall a p1, R a p1 -> wp (k a) p1 Q) -> wp (bind m k) p Q.
Proof.
  intros Hm Hk. apply wp_bind. exact (wp_conseq _ _ _ _ Hm Hk).
Qed.

Lemma wp_getCurrent {B} (k : token -> M B) p (Q : B -> Parser -> Prop) :
  wp (k (current p)) p Q -> wp (bind getCurrent k) p Q.
Proof. intros H. exact H. Qed.

Lemma wp_getParser {B} (k : Parser -> M B) p (Q : B -> Parser -> Prop) :
  wp (k p) p Q -> wp (bind getParser k) p Q.
Proof. intros H. exact H. Qed.

Lemma wp_advance {B} (k : unit -> M B) p (Q : B -> Parser -> Prop) :
  wp (k tt) (advanceParser p) Q -> wp (bind advance k) p Q.
Proof. intros H. exact H. Qed.

Lemma wp_liftResult {A} (r : result A) p (Q : A -> Parser -> Prop) :
  r <> OutOfFuel -> (forall a, r = Ok a -> Q a p) -> wp (liftResult r) p Q.
Proof.
  unfold wp, liftResult. destruct r; intros H1 H2; auto.
Qed.

Lemma wp_while {S} (I : S -> Parser -> Prop) cond (body : S -> M (flow * S)) :
  (forall s p, I s p -> cond s (current p) = true ->
     wp (body s) p
       (fun r p' => I (snd r) p'
                    /\ (fst r = Next -> (remaining p' < remaining p)%nat))) ->
  forall fuel s p,
    I s p -> (remaining p < fuel)%nat -> wp (while_ fuel cond body s) p I.
Proof.
  intros Hbody. induction fuel as [|fuel IH]; intros s p Hs Hf; [lia|].
  unfold wp. cbn [while_]. destruct (cond s (current p)) eqn:Ec.
  - pose proof (Hbody s p Hs Ec) as Hb. unfold wp in Hb.
    destruct (body s p) as [[[f s1] p1]| |]; auto.
    cbn [fst snd] in Hb. destruct Hb as [H1 H2]. destruct f.
    + apply IH; [exact H1|]. specialize (H2 eq_refl). lia.
    + exact H1.
  - exact Hs.
Qed.

Lemma wp_do_while {S} (I : S -> Parser -> Prop) cond
  (body : S -> M (flow * S)) :
  (forall s p, I s p ->
     wp (body s) p
       (fun r p' => I (snd r) p'
                    /\ (fst r = Next -> (remaining p' < remaining p)%nat))) ->
  forall fuel s p,
    I s p -> (remaining p <= fuel)%nat -> wp (do_while fuel cond body s) p I.
Proof.
  intros Hbody fuel s p Hs Hf. unfold do_while. apply wp_bind.
  eapply wp_conseq; [exact (Hbody s p Hs)|].
  intros [f s1] p1 [H1 H2]. cbn [fst snd] in *. destruct f.
  - apply wp_while; [|exact H1|specialize (H2 eq_refl); lia].
    intros s0 p0 H0 _. exact (Hbody s0 p0 H0).
  - apply wp_ret. exact H1.
Qed.

(** One step through a method body; [advance] leaves what is known of the
    new state among the hypotheses. *)
Ltac wp_advance_facts p :=
  first
    [ assert (remaining (advanceParser p) < remaining p)%nat
        by (apply advance_lt; not_atEnd)
    | pose proof (advance_le p) ].

Ltac wp_step :=
  lazymatch goal with
  | |- wp (ret _) _ _ => apply wp_ret
  | |- wp (error _) _ _ => apply wp_error
  | |- wp (bind getCurrent _) _ _ => apply wp_getCurrent; cbv beta
  | |- wp (bind getParser _) _ _ => apply wp_getParser; cbv beta
  | |- wp (bind advance _) ?p _ =>
      apply wp_advance; wp_advance_facts p; cbv beta
  | |- wp (bind (bind _ _) _) _ _ => apply wp_bind
  | |- wp (bind (ret _) _) _ _ => apply wp_bind
  | |- wp (bind (error _) _) _ _ => apply wp_bind
  | |- wp (bind (if ?b then _ else _) _) _ _ => destruct b eqn:?
  | |- wp (bind (match ?x with _ => _ end) _) _ _ => destruct x eqn:?
  | |- wp (if ?b then _ else _) _ _ => destruct b eqn:?
  | |- wp (match ?x with _ => _ end) _ _ => destruct x eqn:?
  end.

Ltac wp_fin := cbn [fst snd] in *; try solve [intuition (try discriminate; lia)].

Ltac wp_go := repeat wp_step; wp_fin.

Lemma consumeSemicolonSequence_wp p :
  wp consumeSemicolonSequence p
    (fun _ p' => (remaining p' <= remaining p)%nat
                 /\ (isSemicolonToken (current p) = true ->
                     (remaining p' < remaining p)%nat)).
Proof.
  unfold consumeSemicolonSequence. wp_go.
  unfold isSemicolonToken. rewrite Heqb, Heqb0. cbn [orb].
  split; [lia|discriminate].
Qed.

Lemma collectQuotes_wp fuel p :
  (remaining p < fuel)%nat ->
  wp (collectQuotes fuel) p
    (fun _ p' => (remaining p' <= remaining p)%nat
                 /\ (value_is (current p) "'" = true ->
                     (remaining p' < remaining p)%nat)).
Proof.
  intros Hf. unfold collectQuotes.
  destruct fuel as [|fuel]; [lia|].
  unfold wp. cbn [while_]. destruct (value_is (current p) "'") eqn:Eq.
  - change ((advance ;; ret (Next, 1%nat)) p)
      with (Ok ((Next, 1%nat), advanceParser p)).
    cbv beta iota.
    assert (Hlt : (remaining (advanceParser p) < remaining p)%nat)
      by (apply advance_lt; not_atEnd).
    assert (Hw : wp (while_ fuel (fun (_ : nat) cur => value_is cur "'")
                       (fun n => advance ;; ret (Next, S n)) 1%nat)
                   (advanceParser p)
                   (fun _ q => (remaining q < remaining p)%nat)).
    { apply (wp_while (fun (_ : nat) q => (remaining q < remaining p)%nat));
        [|exact Hlt|lia].
      intros s q Hq Hc. wp_go. }
    unfold wp in Hw.
    destruct (while_ _ _ _ _ _) as [[a p1]| |]; auto. split; [lia|auto].
  - split; [lia|discriminate].
Qed.

Lemma parseVariableList_wp fuel p :
  (remaining p <= fuel)%nat ->
  wp (parseVariableList fuel) p
    (fun _ p' => (remaining p' <= remaining p)%nat).
Proof.
  intros Hf. unfold parseVariableList. wp_go.
  eapply wp_conseq.
  - apply (wp_do_while (fun _ q => (remaining q <= remaining p)%nat));
      [|lia|exact Hf].
    intros s q Hq. wp_go.
  - auto.
Qed.

Lemma parseBracketVariables_wp fuel p :
  (remaining p <= fuel)%nat ->
  wp (parseBracketVariables fuel) p
    (fun _ p' => (remaining p' <= remaining p)%nat).
Proof.
  intros Hf. unfold parseBracketVariables. wp_go.
  eapply wp_call; [apply parseVariableList_wp; lia|].
  intros vs p1 H1. cbv beta in *. wp_go.
Qed.

Section Termination.

Variable systemLookup : string -> systemInfo.
Variable pe : Z -> M node.
Variable fuel' : nat.

Hypothesis Hpe :
  forall minPrec p,
    (remaining p < fuel')%nat ->
    wp (pe minPrec) p (fun _ p' => (remaining p' < remaining p)%nat).

(** A call of [parseExpression] in the middle of a method. *)
Ltac wp_pe :=
  lazymatch goal with
  | |- wp (bind (pe _) _) _ _ =>
      eapply wp_call; [apply Hpe; lia|]; intros ? ? ?; cbv beta in *
  end.

Ltac wp_run := repeat first [wp_step | wp_pe]; wp_fin.

Lemma parseTupleElements_wp p :
  (remaining p < fuel')%nat ->
  wp (parseTupleElements pe (S fuel')) p
    (fun _ p' => (remaining p' < remaining p)%nat).
Proof.
  intros Hf. unfold parseTupleElements, parseTupleElement. wp_pe.
  apply (wp_while (fun _ q => (remaining q < remaining p)%nat)); [|lia|lia].
  intros s q Hq Hc. wp_run.
Qed.

Lemma parseFunctionParameter_wp b p :
  (remaining p <= fuel')%nat ->
  wp (parseFunctionParameter pe b) p
    (fun _ p' => (remaining p' < remaining p)%nat).
Proof.
  intros Hf. unfold parseFunctionParameter. wp_run.
Qed.

Lemma parseFunctionParameters_wp p :
  (remaining p <= fuel')%nat ->
  wp (parseFunctionParameters pe (S fuel')) p
    (fun _ p' => (remaining p' <= remaining p)%nat).
Proof.
  intros Hf. unfold parseFunctionParameters. wp_run.
  eapply wp_call.
  - apply (wp_while (fun _ q => (remaining q <= remaining p)%nat));
      [|lia|lia].
    intros [ps b] q Hq Hc. unfold parseFunctionParameters_body. wp_run.
    eapply wp_call; [apply parseFunctionParameter_wp; lia|].
    intros prm q1 H1. cbv beta in *. wp_run.
  - intros [ps b] q Hq. wp_run.
Qed.

Lemma parseFunctionCallArgs_wp p :
  (remaining p < fuel')%nat ->
  wp (parseFunctionCallArgs pe (S fuel')) p
    (fun _ p' => (remaining p' <= remaining p)%nat).
Proof.
  intros Hf. unfold parseFunctionCallArgs. wp_run.
  eapply wp_call.
  - apply (wp_while (fun _ q => (remaining q <= remaining p)%nat));
      [|lia|lia].
    intros [args b] q Hq Hc. wp_run.
  - intros [args b] q Hq. wp_run.
Qed.

Lemma parseGrouping_wp p :
  (remaining p <= fuel')%nat -> atEnd (current p) = false ->
  wp (parseGrouping pe (S fuel')) p
    (fun _ p' => (remaining p' < remaining p)%nat).
Proof.
  intros Hf Hend. unfold parseGrouping. wp_run.
  destruct (scanGrouping _ _ _) as [hasSemicolon hasComma].
  wp_run.
  - eapply wp_call; [apply parseFunctionParameters_wp; lia|].
    intros ps q Hq. cbv beta in *. wp_run.
  - eapply wp_call; [apply parseTupleElements_wp; lia|].
    intros ps q Hq. cbv beta in *. wp_run.
Qed.

Lemma parseMatrixOrArray_wp p :
  (remaining p < fuel')%nat ->
  wp (parseMatrixOrArray pe (S fuel')) p
    (fun _ p' => (remaining p' <= remaining p)%nat).
Proof.
  intros Hf. unfold parseMatrixOrArray, parseMatrixOrArray_loop.
  apply wp_bind. wp_run.
  - eapply wp_conseq.
    + apply (wp_do_while (fun _ q => (remaining q <= remaining p)%nat));
        [|lia|lia].
      intros s q Hq. unfold parseMatrixOrArray_body.
      repeat first
        [ wp_step | wp_pe
        | eapply wp_call; [apply consumeSemicolonSequence_wp|];
          intros ? ? [? ?]; cbv beta in * ];
      wp_fin.
    + intros s q Hq. cbv beta in *. unfold parseMatrixOrArray_finish. wp_run.
  - unfold parseMatrixOrArray_finish. wp_run.
Qed.

Lemma parseArray_wp p :
  (remaining p <= fuel')%nat -> atEnd (current p) = false ->
  wp (parseArray pe (S fuel')) p
    (fun _ p' => (remaining p' < remaining p)%nat).
Proof.
  intros Hf Hend. unfold parseArray. wp_run.
  eapply wp_call; [apply parseMatrixOrArray_wp; lia|].
  intros n q Hq. cbv beta in *. wp_run.
Qed.

Lemma parseBraceContainer_wp p :
  (remaining p <= fuel')%nat -> atEnd (current p) = false ->
  wp (parseBraceContainer pe (S fuel')) p
    (fun _ p' => (remaining p' < remaining p)%nat).
Proof.
  intros Hf Hend. unfold parseBraceContainer, parseBraceContainer_loop.
  wp_run.
  - eapply wp_conseq.
    + apply (wp_do_while
               (fun _ q => (remaining q < remaining p)%nat));
        [|lia|lia].
      intros s q Hq. unfold parseBraceContainer_body. wp_run.
    + intros s q Hq. cbv beta in *. unfold parseBraceContainer_classify.
      wp_run.
  - unfold parseBraceContainer_classify. wp_run.
Qed.

Lemma parseCodeBlock_wp p :
  (remaining p <= fuel')%nat -> atEnd (current p) = false ->
  wp (parseCodeBlock pe (S fuel')) p
    (fun _ p' => (remaining p' < remaining p)%nat).
Proof.
  intros Hf Hend. unfold parseCodeBlock. wp_run.
  eapply wp_call.
  - apply (wp_do_while
             (fun _ q => (remaining q < remaining p)%nat));
      [|lia|lia].
    intros s q Hq. wp_run.
  - intros s q Hq. cbv beta in *. wp_run.
Qed.

Lemma parseUnaryOperator_wp p :
  (remaining p <= fuel')%nat -> atEnd (current p) = false ->
  wp (parseUnaryOperator pe) p
    (fun _ p' => (remaining p' < remaining p)%nat).
Proof.
  intros Hf Hend. unfold parseUnaryOperator. wp_run.
Qed.

Lemma parseCalculusParentheses_wp p :
  (remaining p <= fuel')%nat -> atEnd (current p) = false ->
  wp (parseCalculusParentheses pe (S fuel')) p
    (fun _ p' => (remaining p' < remaining p)%nat).
Proof.
  intros Hf Hend. unfold parseCalculusParentheses. wp_run.
  eapply wp_call.
  - apply (wp_while (fun _ q => (remaining q < remaining p)%nat));
      [|lia|lia].
    intros s q Hq Hc. wp_run.
  - intros s q Hq. cbv beta in *. wp_run.
Qed.

Lemma parseEvaluationOrOperations_wp p :
  (remaining p <= fuel')%nat ->
  wp (parseEvaluationOrOperations pe (S fuel')) p
    (fun _ p' => (remaining p' <= remaining p)%nat).
Proof.
  intros Hf. unfold parseEvaluationOrOperations. wp_run.
  eapply wp_call;
    [apply parseCalculusParentheses_wp; [lia|not_atEnd]|].
  intros r q Hq. cbv beta in *. wp_run.
Qed.

Lemma parseDerivative_wp left p :
  (remaining p <= fuel')%nat -> value_is (current p) "'" = true ->
  wp (parseDerivative pe (S fuel') left) p
    (fun _ p' => (remaining p' < remaining p)%nat).
Proof.
  intros Hf Hq. unfold parseDerivative.
  eapply wp_call; [apply collectQuotes_wp; lia|].
  intros order p1 [H1 H2]. specialize (H2 Hq).
  eapply wp_call; [apply parseBracketVariables_wp; lia|].
  intros variables p2 H3. cbv beta in *.
  eapply wp_call; [apply parseEvaluationOrOperations_wp; lia|].
  intros [ev ops] p3 H4. cbv beta in *. wp_run.
Qed.

Lemma parseIntegral_wp p :
  (remaining p <= fuel')%nat -> value_is (current p) "'" = true ->
  wp (parseIntegral systemLookup pe (S fuel')) p
    (fun _ p' => (remaining p' < remaining p)%nat).
Proof.
  intros Hf Hq. unfold parseIntegral.
  eapply wp_call; [apply collectQuotes_wp; lia|].
  intros order p1 [H1 H2]. specialize (H2 Hq). wp_run.
  eapply wp_call; [apply parseBracketVariables_wp; lia|].
  intros variables p2 H3. cbv beta in *.
  eapply wp_call; [apply parseEvaluationOrOperations_wp; lia|].
  intros [ev ops] p3 H4. cbv beta in *. wp_run.
Qed.

Lemma parsePrefix_wp p :
  (remaining p <= fuel')%nat ->
  wp (parsePrefix systemLookup pe (S fuel')) p
    (fun _ p' => (remaining p' < remaining p)%nat).
Proof.
  intros Hf. unfold parsePrefix. wp_step.
  destruct (tok_type (current p)) eqn:Et; try solve [wp_run].
  - wp_run. apply wp_liftResult.
    + unfold parseEmbeddedLanguage.
      destruct (_ || _); [discriminate|].
      destruct (splitHeader _) as [header body].
      unfold parseHeader.
      repeat match goal with
             | |- context [if ?b then _ else _] => destruct b
             end; discriminate.
    + intros a _. lia.
  - assert (Hend : atEnd (current p) = false) by not_atEnd.
    wp_run.
    + apply parseGrouping_wp; assumption.
    + apply parseArray_wp; assumption.
    + apply parseBraceContainer_wp; assumption.
    + apply parseCodeBlock_wp; assumption.
    + apply parseUnaryOperator_wp; assumption.
    + apply parseIntegral_wp; assumption.
Qed.

Lemma parseInfix_wp left info p :
  (remaining p <= fuel')%nat -> atEnd (current p) = false ->
  wp (parseInfix pe (S fuel') left info) p
    (fun _ p' => (remaining p' < remaining p)%nat).
Proof.
  intros Hf Hend. unfold parseInfix. wp_run.
  eapply wp_call; [apply parseFunctionCallArgs_wp; lia|].
  intros args q Hq. cbv beta in *. wp_run.
Qed.

Lemma parseExpression_body_wp minPrec p :
  (remaining p <= fuel')%nat ->
  wp (parseExpression_body systemLookup pe (S fuel') minPrec) p
    (fun _ p' => (remaining p' < remaining p)%nat).
Proof.
  intros Hf. unfold parseExpression_body.
  eapply wp_call; [apply parsePrefix_wp; exact Hf|].
  intros left p1 H1. cbv beta in *.
  apply (wp_while (fun _ q => (remaining q < remaining p)%nat)); [|lia|lia].
  intros s q Hq Hc. wp_run.
  - eapply wp_call; [apply parseInfix_wp; [lia|not_atEnd]|].
    intros n q1 H2. cbv beta in *. wp_run.
  - eapply wp_call; [apply parseDerivative_wp; [lia|]|].
    + apply andb_true_iff in Heqb2. apply Heqb2.
    + intros n q1 H2. cbv beta in *. wp_run.
  - eapply wp_call; [apply parseInfix_wp; [lia|not_atEnd]|].
    intros n q1 H2. cbv beta in *. wp_run.
Qed.

End Termination.

Lemma parseExpression_wp systemLookup fuel :
  forall minPrec p,
    (remaining p < fuel)%nat ->
    wp (parseExpression systemLookup fuel minPrec) p
      (fun _ p' => (remaining p' < remaining p)%nat).
Proof.
  induction fuel as [|fuel IH]; intros minPrec p Hf; [lia|].
  cbn [parseExpression]. apply parseExpression_body_wp; [exact IH|lia].
Qed.

Lemma parseProgram_wp systemLookup fuel p :
  (remaining p < fuel)%nat ->
  wp (parseProgram systemLookup fuel) p (fun _ _ => True).
Proof.
  intros Hf. unfold parseProgram.
  eapply wp_conseq.
  - apply (wp_while (fun _ q => (remaining q <= remaining p)%nat));
      [|lia|lia].
    intros s q Hq Hc. wp_go. unfold parseStatement. wp_go.
    eapply wp_call; [apply parseExpression_wp; lia|].
    intros n q1 H1. cbv beta in *. wp_go.
  - auto.
Qed.

(** ** More fuel changes nothing *)

Lemma refines_refl {A} (m : M A) : refines m m.
Proof. intros p _. reflexivity. Qed.

Lemma refines_bind {A B} (m1 m2 : M A) (k1 k2 : A -> M B) :
  refines m1 m2 -> (forall a, refines (k1 a) (k2 a)) ->
  refines (bind m1 k1) (bind m2 k2).
Proof.
  intros Hm Hk p H. unfold bind in *.
  rewrite (Hm p); [|intros E; rewrite E in H; congruence].
  destruct (m1 p) as [[a p1]| |]; try reflexivity.
  apply Hk. exact H.
Qed.

Lemma refines_while {S} fuel1 cond (body1 body2 : S -> M (flow * S)) :
  (forall s, refines (body1 s) (body2 s)) ->
  forall fuel2 s, (fuel1 <= fuel2)%nat ->
    refines (while_ fuel1 cond body1 s) (while_ fuel2 cond body2 s).
Proof.
  intros Hb. induction fuel1 as [|fuel1 IH]; intros fuel2 s Hle p H.
  - exfalso. apply H. reflexivity.
  - destruct fuel2 as [|fuel2]; [lia|].
    cbn [while_] in *. destruct (cond s (current p)); [|reflexivity].
    rewrite (Hb s p); [|intros E; rewrite E in H; congruence].
    destruct (body1 s p) as [[[f s1] p1]| |]; try reflexivity.
    destruct f; [|reflexivity].
    apply IH; [lia|exact H].
Qed.

Lemma refines_do_while {S} fuel1 cond (body1 body2 : S -> M (flow * S)) :
  (forall s, refines (body1 s) (body2 s)) ->
  forall fuel2 s, (fuel1 <= fuel2)%nat ->
    refines (do_while fuel1 cond body1 s) (do_while fuel2 cond body2 s).
Proof.
  intros Hb fuel2 s Hle. unfold do_while.
  apply refines_bind; [apply Hb|].
  intros [f s1]. destruct f; [|apply refines_refl].
  apply refines_while; assumption.
Qed.

(** Runs through a method, given the lemmas [lems] for the methods it
    calls. *)
Ltac refines_with lems :=
  repeat first
    [ apply refines_refl
    | lems
    | apply refines_bind; [|intros ?]
    | apply refines_while; [intros ?|lia]
    | apply refines_do_while; [intros ?|lia]
    | progress cbv beta
    | match goal with
      | |- refines (if ?b then _ else _) _ => destruct b
      | |- refines (match ?x with _ => _ end) _ => destruct x
      end ].

Lemma collectQuotes_refines fuel1 fuel2 :
  (fuel1 <= fuel2)%nat -> refines (collectQuotes fuel1) (collectQuotes fuel2).
Proof. intros Hle. unfold collectQuotes. refines_with fail. Qed.

Lemma parseVariableList_refines fuel1 fuel2 :
  (fuel1 <= fuel2)%nat ->
  refines (parseVariableList fuel1) (parseVariableList fuel2).
Proof. intros Hle. unfold parseVariableList. refines_with fail. Qed.

Lemma parseBracketVariables_refines fuel1 fuel2 :
  (fuel1 <= fuel2)%nat ->
  refines (parseBracketVariables fuel1) (parseBracketVariables fuel2).
Proof.
  intros Hle. unfold parseBracketVariables.
  refines_with ltac:(apply parseVariableList_refines; exact Hle).
Qed.

Section MoreFuel.

Variable systemLookup : string -> systemInfo.
Variables pe1 pe2 : Z -> M node.
Variables fuel1 fuel2 : nat.

Hypothesis Hpe : forall minPrec, refines (pe1 minPrec) (pe2 minPrec).
Hypothesis Hle : (fuel1 <= fuel2)%nat.

Ltac refines_run lems :=
  refines_with ltac:(first [apply Hpe | lems]).

Lemma parseTupleElements_refines :
  refines (parseTupleElements pe1 fuel1) (parseTupleElements pe2 fuel2).
Proof. unfold parseTupleElements, parseTupleElement. refines_run fail. Qed.

Lemma parseFunctionParameters_refines :
  refines (parseFunctionParameters pe1 fuel1)
    (parseFunctionParameters pe2 fuel2).
Proof.
  unfold parseFunctionParameters, parseFunctionParameters_body,
    parseFunctionParameter.
  refines_run fail.
Qed.

Lemma parseFunctionCallArgs_refines :
  refines (parseFunctionCallArgs pe1 fuel1) (parseFunctionCallArgs pe2 fuel2).
Proof. unfold parseFunctionCallArgs. refines_run fail. Qed.

Lemma parseGrouping_refines :
  refines (parseGrouping pe1 fuel1) (parseGrouping pe2 fuel2).
Proof.
  unfold parseGrouping.
  refines_run ltac:(first [ apply parseFunctionParameters_refines
                          | apply parseTupleElements_refines ]).
Qed.

Lemma parseArray_refines :
  refines (parseArray pe1 fuel1) (parseArray pe2 fuel2).
Proof.
  unfold parseArray, parseMatrixOrArray, parseMatrixOrArray_loop,
    parseMatrixOrArray_body.
  refines_run fail.
Qed.

Lemma parseBraceContainer_refines :
  refines (parseBraceContainer pe1 fuel1) (parseBraceContainer pe2 fuel2).
Proof.
  unfold parseBraceContainer, parseBraceContainer_loop,
    parseBraceContainer_body.
  refines_run fail.
Qed.

Lemma parseCodeBlock_refines :
  refines (parseCodeBlock pe1 fuel1) (parseCodeBlock pe2 fuel2).
Proof. unfold parseCodeBlock. refines_run fail. Qed.

Lemma parseUnaryOperator_refines :
  refines (parseUnaryOperator pe1) (parseUnaryOperator pe2).
Proof. unfold parseUnaryOperator. refines_run fail. Qed.

Lemma parseEvaluationOrOperations_refines :
  refines (parseEvaluationOrOperations pe1 fuel1)
    (parseEvaluationOrOperations pe2 fuel2).
Proof.
  unfold parseEvaluationOrOperations, parseCalculusParentheses.
  refines_run fail.
Qed.

Lemma parseDerivative_refines left :
  refines (parseDerivative pe1 fuel1 left) (parseDerivative pe2 fuel2 left).
Proof.
  unfold parseDerivative.
  refines_run ltac:(first [ apply collectQuotes_refines; exact Hle
                          | apply parseBracketVariables_refines; exact Hle
                          | apply parseEvaluationOrOperations_refines ]).
Qed.

Lemma parseIntegral_refines :
  refines (parseIntegral systemLookup pe1 fuel1)
    (parseIntegral systemLookup pe2 fuel2).
Proof.
  unfold parseIntegral.
  refines_run ltac:(first [ apply collectQuotes_refines; exact Hle
                          | apply parseBracketVariables_refines; exact Hle
                          | apply parseEvaluationOrOperations_refines ]).
Qed.

Lemma parsePrefix_refines :
  refines (parsePrefix systemLookup pe1 fuel1)
    (parsePrefix systemLookup pe2 fuel2).
Proof.
  unfold parsePrefix.
  refines_run ltac:(first [ apply parseGrouping_refines
                          | apply parseArray_refines
                          | apply parseBraceContainer_refines
                          | apply parseCodeBlock_refines
                          | apply parseUnaryOperator_refines
                          | apply parseIntegral_refines ]).
Qed.

Lemma parseInfix_refines left info :
  refines (parseInfix pe1 fuel1 left info) (parseInfix pe2 fuel2 left info).
Proof.
  unfold parseInfix.
  refines_run ltac:(apply parseFunctionCallArgs_refines).
Qed.

Lemma parseExpression_body_refines minPrec :
  refines (parseExpression_body systemLookup pe1 fuel1 minPrec)
    (parseExpression_body systemLookup pe2 fuel2 minPrec).
Proof.
  unfold parseExpression_body.
  refines_run ltac:(first [ apply parsePrefix_refines
                          | apply parseInfix_refines
                          | apply parseDerivative_refines ]).
Qed.

End MoreFuel.

Lemma parseExpression_refines systemLookup fuel1 :
  forall fuel2 minPrec, (fuel1 <= fuel2)%nat ->
    refines (parseExpression systemLookup fuel1 minPrec)
      (parseExpression systemLookup fuel2 minPrec).
Proof.
  induction fuel1 as [|fuel1 IH]; intros fuel2 minPrec Hle.
  - intros p H. exfalso. apply H. reflexivity.
  - destruct fuel2 as [|fuel2]; [lia|]. cbn [parseExpression].
    apply parseExpression_body_refines; [|exact Hle].
    intros minPrec'. apply IH. lia.
Qed.

Lemma parseProgram_refines systemLookup fuel1 fuel2 :
  (fuel1 <= fuel2)%nat ->
  refines (parseProgram systemLookup fuel1) (parseProgram systemLookup fuel2).
Proof.
  intros Hle. unfold parseProgram, parseStatement.
  refines_with ltac:(apply parseExpression_refines; exact Hle).
Qed.

(** X13: the parser is total, and its result is that of the token list alone:
    with more fuel than there are tokens, [parse] returns a tree or throws,
    and more fuel gives the same result. *)
Theorem parse_total :
  forall systemLookup ts fuel,
    (List.length ts < fuel)%nat ->
    parse systemLookup fuel ts <> OutOfFuel
    /\ forall fuel', (fuel <= fuel')%nat ->
         parse systemLookup fuel' ts = parse systemLookup fuel ts.
Proof.
  intros systemLookup ts fuel Hf.
  pose proof (newParser_remaining ts) as Hn.
  pose proof (parseProgram_wp systemLookup fuel (newParser ts) ltac:(lia))
    as H.
  unfold wp in H.
  assert (Hne : parseProgram systemLookup fuel (newParser ts) <> OutOfFuel).
  { intros E. rewrite E in H. exact H. }
  split.
  - unfold parse.
    destruct (parseProgram systemLookup fuel (newParser ts)) as [[a p']| |];
      [discriminate|discriminate|contradiction].
  - intros fuel' Hle. unfold parse.
    rewrite (parseProgram_refines systemLookup fuel fuel' Hle _ Hne).
    reflexivity.
Qed.

(** ** Embedded-language strings: the two header forms *)

Lemma indexOf_from_spec c s : forall i,
  0 <= i ->
  (JsString.indexOf_from c s i = -1 /\ JsString.indexOf_from c s 0 = -1)
  \/ (0 <= JsString.indexOf_from c s 0
      /\ JsString.indexOf_from c s i = i + JsString.indexOf_from c s 0).
Proof.
  induction s as [|d s IH]; intros i Hi; simpl.
  - left. auto.
  - destruct (Ascii.eqb d c).
    + right. lia.
    + destruct (IH (i + 1) ltac:(lia)) as [[A B]|[A B]];
        destruct (IH 1 ltac:(lia)) as [[C D]|[C D]];
        change (0 + 1) with 1; lia.
Qed.

Lemma includes_cons c d s :
  JsString.includes c (String d s) = Ascii.eqb d c || JsString.includes c s.
Proof.
  unfold JsString.includes, JsString.indexOf.
  cbn [JsString.indexOf_from].
  destruct (Ascii.eqb d c); [reflexivity|].
  change (0 + 1) with 1. cbn [orb].
  destruct (indexOf_from_spec c s 1 ltac:(lia)) as [[A B]|[A B]].
  - rewrite A, B. reflexivity.
  - rewrite B.
    destruct (1 + JsString.indexOf_from c s 0 =? -1) eqn:E1;
      [apply Z.eqb_eq in E1; lia|].
    destruct (JsString.indexOf_from c s 0 =? -1) eqn:E2;
      [apply Z.eqb_eq in E2; lia|].
    reflexivity.
Qed.

Lemma includes_cons_false c d s :
  JsString.includes c (String d s) = false ->
  Ascii.eqb d c = false /\ JsString.includes c s = false.
Proof. rewrite includes_cons. apply orb_false_iff. Qed.

Lemma length_cons d s : JsString.length (String d s) = 1 + JsString.length s.
Proof. unfold JsString.length. simpl String.length. lia. Qed.

Lemma length_nonneg s : 0 <= JsString.length s.
Proof. unfold JsString.length. lia. Qed.

Lemma length_app a b :
  JsString.length (a ++ b)%string = JsString.length a + JsString.length b.
Proof.
  induction a as [|d a IH]; cbn [String.append].
  - unfold JsString.length. cbn [String.length]. lia.
  - rewrite !length_cons, IH. lia.
Qed.

Lemma indexOf_from_app c a b : forall i,
  JsString.includes c a = false ->
  JsString.indexOf_from c (a ++ b)%string i
  = JsString.indexOf_from c b (i + JsString.length a).
Proof.
  induction a as [|d a IH]; intros i H;
    cbn [String.append JsString.indexOf_from].
  - f_equal. unfold JsString.length. cbn [String.length]. lia.
  - apply includes_cons_false in H. destruct H as [H1 H2].
    rewrite H1, (IH _ H2), length_cons. f_equal. lia.
Qed.

Lemma indexOf_app c a b :
  JsString.includes c a = false ->
  JsString.indexOf c (a ++ String c b)%string = JsString.length a.
Proof.
  intros H. unfold JsString.indexOf. rewrite (indexOf_from_app _ _ _ _ H).
  cbn [JsString.indexOf_from]. rewrite Ascii.eqb_refl. lia.
Qed.

Lemma includes_app_found c a b :
  JsString.includes c (a ++ String c b)%string = true.
Proof.
  induction a as [|d a IH]; simpl.
  - rewrite includes_cons, Ascii.eqb_refl. reflexivity.
  - rewrite includes_cons, IH. apply orb_true_r.
Qed.

Lemma includes_app c a b :
  JsString.includes c a = false -> JsString.includes c b = false ->
  JsString.includes c (a ++ b)%string = false.
Proof.
  induction a as [|d a IH]; simpl; intros Ha Hb.
  - exact Hb.
  - apply includes_cons_false in Ha. destruct Ha as [H1 H2].
    rewrite includes_cons, H1, (IH H2 Hb). reflexivity.
Qed.

Lemma indexOf_lacks c s :
  JsString.includes c s = false -> JsString.indexOf c s = -1.
Proof.
  unfold JsString.includes. intros H. apply negb_false_iff in H.
  apply Z.eqb_eq in H. exact H.
Qed.

Lemma lastIndexOf_from_lacks c s : forall i found,
  JsString.includes c s = false ->
  JsString.lastIndexOf_from c s i found = found.
Proof.
  induction s as [|d s IH]; intros i found H;
    cbn [JsString.lastIndexOf_from].
  - reflexivity.
  - apply includes_cons_false in H. destruct H as [H1 H2].
    rewrite H1. apply IH. exact H2.
Qed.

Lemma lastIndexOf_from_last c a : forall i found,
  JsString.lastIndexOf_from c (a ++ String c "")%string i found
  = match JsString.lastIndexOf_from c a i found with
    | _ => i + JsString.length a
    end.
Proof.
  induction a as [|d a IH]; intros i found;
    cbn [String.append JsString.lastIndexOf_from].
  - rewrite Ascii.eqb_refl. unfold JsString.length. cbn [String.length]. lia.
  - rewrite IH, length_cons. lia.
Qed.

Lemma drop_app a b :
  JsString.drop (String.length a) (a ++ b)%string = b.
Proof. induction a as [|d a IH]; simpl; auto. Qed.

Lemma take_app a b :
  JsString.take (String.length a) (a ++ b)%string = a.
Proof.
  induction a as [|d a IH]; simpl.
  - destruct b; reflexivity.
  - rewrite IH. reflexivity.
Qed.

Lemma sliceFrom_app a b :
  JsString.sliceFrom (a ++ b)%string (JsString.length a) = b.
Proof.
  rewrite sliceFrom_drop.
  - unfold JsString.length. rewrite Nat2Z.id. apply drop_app.
  - rewrite length_app. pose proof (length_nonneg a).
    pose proof (length_nonneg b). lia.
Qed.

Lemma slice_app a b :
  JsString.slice (a ++ b)%string 0 (JsString.length a) = a.
Proof.
  rewrite slice_take_drop.
  - simpl JsString.drop. rewrite Z.sub_0_r. unfold JsString.length.
    rewrite Nat2Z.id. apply take_app.
  - pose proof (length_nonneg a). lia.
  - rewrite length_app. pose proof (length_nonneg b). lia.
Qed.

Lemma app_assoc_string a b c :
  ((a ++ b) ++ c)%string = (a ++ (b ++ c))%string.
Proof. induction a as [|d a IH]; simpl; [reflexivity|]. rewrite IH. reflexivity. Qed.

Lemma slice_middle a b c :
  JsString.slice (a ++ b ++ c)%string (JsString.length a)
    (JsString.length a + JsString.length b) = b.
Proof.
  pose proof (length_nonneg a). pose proof (length_nonneg b).
  pose proof (length_nonneg c).
  rewrite slice_take_drop; [| lia | rewrite !length_app; lia].
  replace (JsString.length a + JsString.length b - JsString.length a)
    with (JsString.length b) by lia.
  unfold JsString.length. rewrite !Nat2Z.id, drop_app. apply take_app.
Qed.

(** *** White space at the ends *)

Lemma trimStart_app a c b :
  JsString.isWhiteSpace c = false ->
  JsString.trimStart (a ++ String c b)%string
  = (JsString.trimStart a ++ String c b)%string.
Proof.
  intros Hc. induction a as [|d a IH]; simpl.
  - rewrite Hc. reflexivity.
  - destruct (JsString.isWhiteSpace d); [exact IH|reflexivity].
Qed.

Lemma trimEnd_app a c :
  JsString.isWhiteSpace c = false ->
  JsString.trimEnd (a ++ String c "")%string = (a ++ String c "")%string.
Proof.
  intros Hc. induction a as [|d a IH]; simpl.
  - rewrite Hc. reflexivity.
  - rewrite IH. destruct a; reflexivity.
Qed.

Lemma trimStart_idempotent s :
  JsString.trimStart (JsString.trimStart s) = JsString.trimStart s.
Proof.
  induction s as [|d s IH]; simpl; [reflexivity|].
  destruct (JsString.isWhiteSpace d) eqn:E; [exact IH|].
  simpl. rewrite E. reflexivity.
Qed.

Lemma includes_trimStart c s :
  JsString.includes c s = false ->
  JsString.includes c (JsString.trimStart s) = false.
Proof.
  induction s as [|d s IH]; simpl; intros H; [exact H|].
  destruct (JsString.isWhiteSpace d); [|exact H].
  apply includes_cons_false in H. apply IH, H.
Qed.

Lemma includes_trimEnd c s :
  JsString.includes c s = false ->
  JsString.includes c (JsString.trimEnd s) = false.
Proof.
  induction s as [|d s IH]; simpl; intros H; [exact H|].
  apply includes_cons_false in H. destruct H as [H1 H2].
  specialize (IH H2).
  destruct (JsString.trimEnd s) as [|e r].
  - destruct (JsString.isWhiteSpace d); [reflexivity|].
    rewrite includes_cons, H1. reflexivity.
  - rewrite includes_cons, H1, IH. reflexivity.
Qed.

Lemma includes_trim c s :
  JsString.includes c s = false ->
  JsString.includes c (JsString.trim s) = false.
Proof.
  intros H. unfold JsString.trim. apply includes_trimEnd, includes_trimStart, H.
Qed.

Lemma startsWith_lacks c a b :
  JsString.includes c a = false ->
  (a = "" -> JsString.startsWith c b = false) ->
  JsString.startsWith c (a ++ b)%string = false.
Proof.
  intros Ha Hb. destruct a as [|d a]; simpl.
  - apply Hb. reflexivity.
  - apply includes_cons_false in Ha. apply Ha.
Qed.

(** *** The closing parenthesis of a group without inner parentheses *)

Lemma matchParen_app a b : forall i parenCount,
  JsString.includes "("%char a = false ->
  JsString.includes ")"%char a = false ->
  matchParen (a ++ b)%string i parenCount
  = matchParen b (i + JsString.length a) parenCount.
Proof.
  induction a as [|d a IH]; intros i n H1 H2;
    cbn [String.append matchParen].
  - f_equal. unfold JsString.length. cbn [String.length]. lia.
  - apply includes_cons_false in H1. destruct H1 as [A1 A2].
    apply includes_cons_false in H2. destruct H2 as [B1 B2].
    rewrite A1, B1, (IH _ _ A2 B2), length_cons. f_equal. lia.
Qed.

Lemma findParenEnd_group a ctx rest :
  JsString.includes "("%char ctx = false ->
  JsString.includes ")"%char ctx = false ->
  findParenEnd (a ++ String "(" (ctx ++ String ")" rest))%string
    (JsString.length a)
  = JsString.length a + 1 + JsString.length ctx.
Proof.
  intros H1 H2. unfold findParenEnd. rewrite sliceFrom_app.
  cbn [matchParen]. rewrite Ascii.eqb_refl.
  rewrite (matchParen_app _ _ _ _ H1 H2). cbn [matchParen].
  replace (Ascii.eqb ")" "(") with false by reflexivity.
  rewrite Ascii.eqb_refl. reflexivity.
Qed.

Lemma length_group a ctx :
  JsString.length (a ++ String "(" (ctx ++ String ")" ""))%string
  = JsString.length a + 1 + JsString.length ctx + 1.
Proof.
  rewrite length_app, length_cons, length_app, length_cons.
  change (JsString.length "") with 0. lia.
Qed.

Lemma length_snoc a c :
  JsString.length (a ++ String c "")%string = JsString.length a + 1.
Proof.
  rewrite length_app, length_cons. change (JsString.length "") with 0. lia.
Qed.

Lemma headerColonIndex_plain content :
  JsString.indexOf "("%char content = -1 ->
  headerColonIndex content = JsString.indexOf ":"%char content.
Proof. intros H. unfold headerColonIndex. rewrite H. reflexivity. Qed.

Lemma headerColonIndex_group content parenStart parenEnd colonAfterParens :
  JsString.indexOf "("%char content = parenStart -> parenStart <> -1 ->
  findParenEnd content parenStart = parenEnd -> parenEnd <> -1 ->
  JsString.indexOf ":"%char (JsString.sliceFrom content (parenEnd + 1))
  = colonAfterParens ->
  colonAfterParens <> -1 -> 0 <= parenEnd + 1 + colonAfterParens ->
  headerColonIndex content = parenEnd + 1 + colonAfterParens.
Proof.
  intros H1 N1 H2 N2 H3 N3 Hpos. unfold headerColonIndex. cbv zeta.
  rewrite H1, H2, H3.
  apply Z.eqb_neq in N1, N2, N3. rewrite N1, N2, N3. cbn [negb].
  destruct (parenEnd + 1 + colonAfterParens =? -1) eqn:E;
    [apply Z.eqb_eq in E; lia|reflexivity].
Qed.

(** X14: a backtick string [LANG:BODY], where [LANG] is not empty and has no
    colon and no parenthesis and [BODY] has no opening parenthesis, is the
    embedded-language node of the trimmed [LANG], without context, and of
    [BODY] as it stands. *)
Theorem embedded_plain_header :
  forall lang body,
    lang <> "" ->
    JsString.includes ":"%char lang = false ->
    JsString.includes "("%char lang = false ->
    JsString.includes ")"%char lang = false ->
    JsString.includes "("%char body = false ->
    parseEmbeddedLanguage (lang ++ String ":" body)%string
    = Ok (EmbeddedLanguage (nonEmpty (JsString.trim lang)) None body).
Proof.
  intros lang body Hne Hcolon Hopen Hclose Hbody.
  pose proof (length_nonneg lang) as Hlen.
  assert (Hidx : JsString.indexOf ":"%char (lang ++ String ":" body)%string
                 = JsString.length lang) by (apply indexOf_app; exact Hcolon).
  assert (Hparen : JsString.indexOf "("%char (lang ++ String ":" body)%string
                   = -1).
  { apply indexOf_lacks, includes_app; [exact Hopen|].
    rewrite includes_cons, Hbody. reflexivity. }
  unfold parseEmbeddedLanguage.
  rewrite startsWith_lacks; [|exact Hcolon|intros E; contradiction].
  rewrite Hidx.
  destruct (JsString.length lang =? -1) eqn:E; [apply Z.eqb_eq in E; lia|].
  cbn [orb]. unfold splitHeader.
  rewrite (headerColonIndex_plain _ Hparen), Hidx.
  rewrite slice_app.
  replace (lang ++ String ":" body)%string
    with ((lang ++ String ":" "") ++ body)%string
    by (rewrite app_assoc_string; reflexivity).
  replace (JsString.length lang + 1)
    with (JsString.length (lang ++ String ":" "")%string)
    by (rewrite length_snoc; lia).
  rewrite sliceFrom_app.
  unfold parseHeader.
  rewrite (indexOf_lacks _ _ (includes_trim _ _ Hopen)).
  unfold JsString.lastIndexOf.
  rewrite (lastIndexOf_from_lacks _ _ 0 (-1) (includes_trim _ _ Hclose)).
  reflexivity.
Qed.

Lemma embedded_plain_header_witness :
  parseEmbeddedLanguage "sql: SELECT 1"
  = Ok (EmbeddedLanguage (Some "sql") None " SELECT 1").
Proof.
  exact (embedded_plain_header "sql" " SELECT 1"
           ltac:(discriminate) eq_refl eq_refl eq_refl eq_refl).
Defined.

(** X15: a backtick string [LANG(CONTEXT):BODY], where [LANG] has no colon and
    no parenthesis and [CONTEXT] has no parenthesis, is the embedded-language
    node of the trimmed [LANG], the trimmed [CONTEXT] and [BODY] as it
    stands, whatever [BODY] holds. *)
Theorem embedded_header_with_context :
  forall lang context body,
    JsString.includes ":"%char lang = false ->
    JsString.includes "("%char lang = false ->
    JsString.includes ")"%char lang = false ->
    JsString.includes "("%char context = false ->
    JsString.includes ")"%char context = false ->
    parseEmbeddedLanguage
      (lang ++ String "(" (context ++ String ")" (String ":" body)))%string
    = Ok (EmbeddedLanguage (nonEmpty (JsString.trim lang))
            (Some (JsString.trim context)) body).
Proof.
  intros lang ctx body Hcolon Hopen Hclose Hcopen Hcclose.
  pose proof (length_nonneg lang) as Hlen.
  pose proof (length_nonneg ctx) as Hclen.
  set (content := (lang ++ String "(" (ctx ++ String ")" (String ":" body)))%string).
  assert (Hstart : JsString.startsWith ":"%char content = false).
  { apply startsWith_lacks; [exact Hcolon|]. reflexivity. }
  assert (Hhas : (JsString.indexOf ":"%char content =? -1) = false).
  { assert (H : JsString.includes ":"%char content = true).
    { unfold content.
      replace (lang ++ String "(" (ctx ++ String ")" (String ":" body)))%string
        with ((lang ++ String "(" (ctx ++ String ")" "")) ++ String ":" body)%string.
      - apply includes_app_found.
      - rewrite app_assoc_string. cbn [String.append].
        rewrite app_assoc_string. reflexivity. }
    unfold JsString.includes in H. apply negb_true_iff in H. exact H. }
  assert (Hparen : JsString.indexOf "("%char content = JsString.length lang)
    by (apply indexOf_app; exact Hopen).
  assert (Hend : findParenEnd content (JsString.length lang)
                 = JsString.length lang + 1 + JsString.length ctx)
    by (apply findParenEnd_group; assumption).
  assert (Hhead : (lang ++ String "(" (ctx ++ String ")" ""))%string
                  = ((lang ++ String "(" ctx) ++ String ")" "")%string).
  { rewrite app_assoc_string. reflexivity. }
  assert (Hcut : content
                 = ((lang ++ String "(" (ctx ++ String ")" ""))
                    ++ String ":" body)%string).
  { unfold content. rewrite app_assoc_string. cbn [String.append].
    rewrite app_assoc_string. reflexivity. }
  assert (Hheadlen : JsString.length (lang ++ String "(" (ctx ++ String ")" ""))%string
                     = JsString.length lang + 1 + JsString.length ctx + 1).
  { apply length_group. }
  unfold parseEmbeddedLanguage. rewrite Hstart, Hhas. cbn [orb].
  assert (Hafter : JsString.sliceFrom content
                     (JsString.length lang + 1 + JsString.length ctx + 1)
                   = String ":" body).
  { rewrite Hcut, <- Hheadlen. apply sliceFrom_app. }
  assert (Hci : headerColonIndex content
                = JsString.length lang + 1 + JsString.length ctx + 1 + 0).
  { apply (headerColonIndex_group content (JsString.length lang));
      try assumption; try lia.
    rewrite Hafter. unfold JsString.indexOf. cbn [JsString.indexOf_from].
    rewrite Ascii.eqb_refl. reflexivity. }
  rewrite Z.add_0_r in Hci.
  unfold splitHeader. rewrite Hci.
  assert (Hheader : JsString.slice content 0
                      (JsString.length lang + 1 + JsString.length ctx + 1)
                    = (lang ++ String "(" (ctx ++ String ")" ""))%string).
  { rewrite Hcut, <- Hheadlen. apply slice_app. }
  assert (Hbody : JsString.sliceFrom content
                    (JsString.length lang + 1 + JsString.length ctx + 1 + 1)
                  = body).
  { replace content
      with (((lang ++ String "(" (ctx ++ String ")" "")) ++ String ":" "")
            ++ body)%string
      by (rewrite Hcut, (app_assoc_string _ (String ":" "") body);
          reflexivity).
    replace (JsString.length lang + 1 + JsString.length ctx + 1 + 1)
      with (JsString.length
              ((lang ++ String "(" (ctx ++ String ")" "")) ++ String ":" "")%string)
      by (rewrite length_snoc, Hheadlen; lia).
    apply sliceFrom_app. }
  rewrite Hheader, Hbody.
  (* the header, trimmed *)
  set (lang' := JsString.trimStart lang).
  assert (Htrim : JsString.trim (lang ++ String "(" (ctx ++ String ")" ""))%string
                  = (lang' ++ String "(" (ctx ++ String ")" ""))%string).
  { unfold JsString.trim. rewrite trimStart_app by reflexivity. fold lang'.
    replace (lang' ++ String "(" (ctx ++ String ")" ""))%string
      with ((lang' ++ String "(" ctx) ++ String ")" "")%string
      by (rewrite app_assoc_string; reflexivity).
    apply trimEnd_app. reflexivity. }
  rewrite Htrim.
  pose proof (length_nonneg lang') as Hlen'.
  assert (Hopen' : JsString.includes "("%char lang' = false)
    by (apply includes_trimStart; exact Hopen).
  unfold parseHeader.
  rewrite (indexOf_app _ _ _ Hopen').
  replace (lang' ++ String "(" (ctx ++ String ")" ""))%string
    with ((lang' ++ String "(" ctx) ++ String ")" "")%string at 1
    by (rewrite app_assoc_string; reflexivity).
  unfold JsString.lastIndexOf. rewrite lastIndexOf_from_last.
  pose proof (length_nonneg (lang' ++ String "(" ctx)%string) as Hl2.
  destruct (0 + JsString.length (lang' ++ String "(" ctx)%string =? -1) eqn:E4;
    [apply Z.eqb_eq in E4; lia|].
  destruct (JsString.length lang' =? -1) eqn:E5; [apply Z.eqb_eq in E5; lia|].
  cbn [negb andb].
  rewrite (findParenEnd_group lang' ctx "" Hcopen Hcclose).
  destruct (JsString.length lang' + 1 + JsString.length ctx =? -1) eqn:E6;
    [apply Z.eqb_eq in E6; lia|].
  assert (Hlen2 : JsString.length (lang' ++ String "(" (ctx ++ String ")" ""))%string
                  = JsString.length lang' + 1 + JsString.length ctx + 1).
  { apply length_group. }
  rewrite Hlen2.
  replace (JsString.length lang' + 1 + JsString.length ctx + 1 - 1)
    with (JsString.length lang' + 1 + JsString.length ctx) by lia.
  rewrite Z.eqb_refl. cbn [negb].
  rewrite <- Hlen2 at 1. rewrite sliceFrom_length.
  change (JsString.includes "(" "") with false. cbv iota.
  rewrite slice_app.
  replace (lang' ++ String "(" (ctx ++ String ")" ""))%string
    with ((lang' ++ String "(" "") ++ ctx ++ String ")" "")%string
    by (rewrite app_assoc_string; reflexivity).
  replace (JsString.length lang' + 1)
    with (JsString.length (lang' ++ String "(" "")%string)
    by (rewrite length_snoc; lia).
  rewrite slice_middle.
  unfold JsString.trim at 1. unfold lang'. rewrite trimStart_idempotent.
  reflexivity.
Qed.

Lemma embedded_header_with_context_witness :
  parseEmbeddedLanguage "P(x):x^2 + 1"
  = Ok (EmbeddedLanguage (Some "P") (Some "x") "x^2 + 1").
Proof.
  exact (embedded_header_with_context "P" "x" "x^2 + 1"
           eq_refl eq_refl eq_refl eq_refl eq_refl).
Defined.

Lemma cursor_only_moves_forward_witness :
  parseProgram testSystemLookup 5 (newParser sumTokens)
  = Ok ([sumNode], mkParser sumTokens 3 EndToken)
  /\ tokens (mkParser sumTokens 3 EndToken) = sumTokens
  /\ (position (mkParser sumTokens 3 EndToken) <= List.length sumTokens)%nat.
Proof.
  split; [reflexivity|].
  exact (proj2 (cursor_only_moves_forward testSystemLookup 5)
           sumTokens [sumNode] (mkParser sumTokens 3 EndToken) eq_refl).
Defined.

Lemma parseExpression_consumes_witness :
  parseExpression testSystemLookup 5 0 (newParser sumTokens)
  = Ok (sumNode, mkParser sumTokens 3 EndToken)
  /\ type_is (current (newParser sumTokens)) TEnd = false
  /\ (consumed (newParser sumTokens)
      < consumed (mkParser sumTokens 3 EndToken))%nat.
Proof.
  split; [reflexivity|].
  exact (parseExpression_consumes testSystemLookup 5 0 (newParser sumTokens)
           sumNode (mkParser sumTokens 3 EndToken) eq_refl).
Defined.

Lemma parseExpression_stops_witness :
  parseExpression testSystemLookup 5 0 (newParser sumThenTokens)
  = Ok (sumNode, mkParser sumThenTokens 4 (sym ";"))
  /\ endsExpression testSystemLookup 0
       (current (mkParser sumThenTokens 4 (sym ";"))).
Proof.
  split; [reflexivity|].
  exact (parseExpression_stops testSystemLookup 5 0 (newParser sumThenTokens)
           sumNode (mkParser sumThenTokens 4 (sym ";")) eq_refl).
Defined.

Lemma parse_total_witness :
  (List.length sumTokens < 4)%nat
  /\ parse testSystemLookup 4 sumTokens <> OutOfFuel
  /\ parse testSystemLookup 9 sumTokens = parse testSystemLookup 4 sumTokens.
Proof.
  assert (H : (List.length sumTokens < 4)%nat) by (simpl; lia).
  split; [exact H|].
  destruct (parse_total testSystemLookup sumTokens 4 H) as [H1 H2].
  split; [exact H1|]. apply H2. lia.
Defined.

(** ** Operators nest by precedence and associativity *)

Lemma tableTokens_step systemLookup p q :
  tableTokens systemLookup p -> cursorStep p q -> tableTokens systemLookup q.
Proof.
  intros [H1 H2] (S1 & _ & _ & _ & S5). split.
  - rewrite S1. exact H1.
  - destruct S5 as [S5|[S5|S5]].
    + rewrite S5. exact H2.
    + rewrite S5. reflexivity.
    + rewrite S1 in S5. rewrite forallb_forall in H1. apply H1, S5.
Qed.

Lemma headOperator_None_nests n :
  headOperator n = None -> nestsByPrecedence n = true.
Proof. destruct n; simpl; intros H; try discriminate; reflexivity. Qed.

Lemma headOperator_None_binds minPrec n :
  headOperator n = None -> bindsAtLeast minPrec n = true.
Proof. unfold bindsAtLeast. intros H. rewrite H. reflexivity. Qed.

(** A state-aware invariant rule for [while]. *)
Lemma while_inv {S} (I : S -> Parser -> Prop) fuel cond
  (body : S -> M (flow * S)) :
  (forall s p r p', I s p -> cond s (current p) = true ->
     body s p = Ok (r, p') -> I (snd r) p') ->
  forall s p s' p',
    I s p -> while_ fuel cond body s p = Ok (s', p') -> I s' p'.
Proof.
  intros Hbody. induction fuel as [|fuel IH]; intros s p s' p' Hs E.
  - discriminate.
  - cbn [while_] in E. destruct (cond s (current p)) eqn:Ec.
    + destruct (body s p) as [[[f s1] p1]| |] eqn:Eb; try discriminate.
      pose proof (Hbody _ _ _ _ Hs Ec Eb) as H1. cbn [snd] in H1.
      destruct f.
      * exact (IH _ _ _ _ H1 E).
      * inversion E; subst. exact H1.
    + inversion E; subst. exact Hs.
Qed.

(** *** What [parsePrefix] returns is not an operator application *)

Ltac head_skip :=
  repeat first [ mstep; cbv beta | apply post_bind_any; intros ? ];
  try reflexivity.

Lemma buildMatrixTensor_head st : headOperator (buildMatrixTensor st) = None.
Proof. unfold buildMatrixTensor. destruct (jsnum_is _ 1); reflexivity. Qed.

Lemma parseEmbeddedLanguage_head content n :
  parseEmbeddedLanguage content = Ok n -> headOperator n = None.
Proof.
  unfold parseEmbeddedLanguage. destruct (_ || _).
  - intros H. inversion H; subst. reflexivity.
  - destruct (splitHeader content) as [header body].
    destruct (parseHeader header) as [[l c]| |]; try discriminate.
    intros H. inversion H; subst. reflexivity.
Qed.

Lemma parsePrefix_head systemLookup pe fuel :
  post (parsePrefix systemLookup pe fuel) (fun n => headOperator n = None).
Proof.
  unfold parsePrefix. mstep. cbv beta. mstep.
  - head_skip.
  - head_skip. apply post_liftResult. intros n H.
    exact (parseEmbeddedLanguage_head _ _ H).
  - head_skip.
  - mstep.
    { unfold parseGrouping. head_skip. }
    mstep.
    { unfold parseArray, parseMatrixOrArray, parseMatrixOrArray_finish.
      head_skip. apply buildMatrixTensor_head. }
    mstep.
    { unfold parseBraceContainer, parseBraceContainer_classify. head_skip. }
    mstep.
    { unfold parseCodeBlock. head_skip. }
    mstep.
    { unfold parseUnaryOperator. head_skip. }
    mstep.
    { unfold parseIntegral. head_skip. }
    head_skip.
  - head_skip.
  - head_skip.
  - head_skip.
Qed.

(** *** The nodes that [parseInfix] builds *)

Lemma nests_binary op l r :
  nestsByPrecedence (BinaryOperation op l r)
  = leftOperandOK op l && rightOperandOK op r && nestsByPrecedence l.
Proof. reflexivity. Qed.

Lemma lowerArrow_nests left right :
  nestsByPrecedence left = true ->
  leftOperandOK "->" left = true ->
  rightOperandOK "->" right = true ->
  nestsByPrecedence (lowerArrow left right) = true
  /\ headOperator (lowerArrow left right) = Some "->".
Proof.
  intros H1 H2 H3. unfold lowerArrow.
  destruct left;
    try (rewrite nests_binary, H1, H2, H3; split; reflexivity);
    try (split; [exact H3|reflexivity]).
  match goal with
  | |- context [match ?e with _ => _ end] => destruct e
  end;
    split; solve [exact H3|reflexivity].
Qed.

Lemma lowerFunctionDefinition_nests left right :
  rightOperandOK ":->" right = true ->
  nestsByPrecedence (lowerFunctionDefinition left right) = true
  /\ headOperator (lowerFunctionDefinition left right) = Some ":->".
Proof.
  intros H. unfold lowerFunctionDefinition.
  destruct left; cbn [nestsByPrecedence headOperator]; split;
    solve [exact H|reflexivity].
Qed.

Lemma lowerPatternMatching_nests left right :
  nestsByPrecedence (lowerPatternMatching left right) = true
  /\ headOperator (lowerPatternMatching left right) = Some ":=>".
Proof.
  unfold lowerPatternMatching.
  destruct (match left with FunctionCall f args => _ | _ => _ end)
    as [funcName parameters].
  destruct (rawPatternsOf right) as [rawPatterns globalMetadata].
  split; reflexivity.
Qed.

Section Spine.

Variable systemLookup : string -> systemInfo.
Variable pe : Z -> M node.
Variable fuel : nat.

Hypothesis Hmoves : forall minPrec, moves (pe minPrec).
Hypothesis Hpe :
  forall minPrec p n p',
    tableTokens systemLookup p -> pe minPrec p = Ok (n, p') ->
    bindsAtLeast minPrec n = true
    /\ endsExpression systemLookup minPrec (current p').

(** The right operand of an operator, parsed after the operator token. *)
Ltac right_operand E Hq Hinfo r Hb He :=
  let q2 := fresh "q2" in
  let Er := fresh "Er" in
  apply bind_Ok in E; destruct E as (r & q2 & Er & E);
  inversion E; subst; clear E;
  destruct (Hpe _ _ _ _
              (tableTokens_step _ _ _ Hq (cursorStep_advance _)) Er)
    as [Hb He];
  rewrite Hinfo in Hb, He.

Lemma parseInfix_nests left info q n q1 :
  tableTokens systemLookup q ->
  nestsByPrecedence left = true ->
  leftOperandOK (tok_value (current q)) left = true ->
  rightPrecedence info = rightPrecOf (tok_value (current q)) ->
  parseInfix pe fuel left info q = Ok (n, q1) ->
  nestsByPrecedence n = true
  /\ (headOperator n = None
      \/ (headOperator n = Some (tok_value (current q))
          /\ endsExpression systemLookup (rightPrecOf (tok_value (current q)))
               (current q1))).
Proof.
  intros Hq Hn Hl Hinfo E. unfold parseInfix in E.
  unfold bind at 1 in E. unfold getCurrent at 1 in E.
  assert (Hnone : forall (m : M node) p0,
             post m (fun n => headOperator n = None) ->
             m p0 = Ok (n, q1) ->
             nestsByPrecedence n = true
             /\ (headOperator n = None
                 \/ (headOperator n = Some (tok_value (current q))
                     /\ endsExpression systemLookup
                          (rightPrecOf (tok_value (current q)))
                          (current q1)))).
  { intros m p0 Hm Em. pose proof (Hm _ _ _ Em) as Hh.
    split; [exact (headOperator_None_nests _ Hh)|left; exact Hh]. }
  destruct (value_is (current q) "(" && isIdentifierNode left).
  { refine (Hnone _ _ _ E). head_skip. }
  unfold bind at 1 in E. unfold advance at 1 in E. cbv zeta in E.
  destruct (value_is (current q) "[" && typeIs info "postfix").
  { refine (Hnone _ _ _ E). head_skip. }
  destruct (value_is (current q) ":->") eqn:V1.
  { apply String.eqb_eq in V1. right_operand E Hq Hinfo r Hb He.
    rewrite V1 in *.
    destruct (lowerFunctionDefinition_nests left r Hb) as [A B].
    split; [exact A|right; split; [exact B|exact He]]. }
  destruct (value_is (current q) ":=>") eqn:V2.
  { apply String.eqb_eq in V2. right_operand E Hq Hinfo r Hb He.
    rewrite V2 in *.
    destruct (lowerPatternMatching_nests left r) as [A B].
    split; [exact A|right; split; [exact B|exact He]]. }
  destruct (value_is (current q) "->") eqn:V3.
  { apply String.eqb_eq in V3. right_operand E Hq Hinfo r Hb He.
    rewrite V3 in *.
    destruct (lowerArrow_nests left r Hn Hl Hb) as [A B].
    split; [exact A|right; split; [exact B|exact He]]. }
  destruct (value_is (current q) "|>") eqn:V4.
  { apply String.eqb_eq in V4. right_operand E Hq Hinfo r Hb He.
    rewrite V4 in *. cbn [nestsByPrecedence headOperator].
    unfold rightOperandOK. rewrite Hl, Hb, Hn. auto. }
  destruct (value_is (current q) "||>") eqn:V5.
  { apply String.eqb_eq in V5. right_operand E Hq Hinfo r Hb He.
    rewrite V5 in *. cbn [nestsByPrecedence headOperator].
    unfold rightOperandOK. rewrite Hl, Hb, Hn. auto. }
  destruct (value_is (current q) "|>>") eqn:V6.
  { apply String.eqb_eq in V6. right_operand E Hq Hinfo r Hb He.
    rewrite V6 in *. cbn [nestsByPrecedence headOperator].
    unfold rightOperandOK. rewrite Hl, Hb, Hn. auto. }
  destruct (value_is (current q) "|>?") eqn:V7.
  { apply String.eqb_eq in V7. right_operand E Hq Hinfo r Hb He.
    rewrite V7 in *. cbn [nestsByPrecedence headOperator].
    unfold rightOperandOK. rewrite Hl, Hb, Hn. auto. }
  destruct (value_is (current q) "|>:") eqn:V8.
  { apply String.eqb_eq in V8. right_operand E Hq Hinfo r Hb He.
    rewrite V8 in *. cbn [nestsByPrecedence headOperator].
    unfold rightOperandOK. rewrite Hl, Hb, Hn. auto. }
  right_operand E Hq Hinfo r Hb He.
  rewrite nests_binary. unfold rightOperandOK. rewrite Hl, Hb, Hn.
  cbn [headOperator]. auto.
Qed.

Lemma parseInfix_call_head left info q n q1 :
  value_is (current q) "(" && isIdentifierNode left = true ->
  parseInfix pe fuel left info q = Ok (n, q1) ->
  headOperator n = None.
Proof.
  intros Hc E. unfold parseInfix in E.
  unfold bind at 1 in E. unfold getCurrent at 1 in E. rewrite Hc in E.
  revert E.
  match goal with
  | |- ?m q = _ -> _ =>
      assert (Hm : post m (fun n => headOperator n = None)) by head_skip
  end.
  apply Hm.
Qed.

Lemma parseDerivative_head left :
  post (parseDerivative pe fuel left) (fun n => headOperator n = None).
Proof. unfold parseDerivative. head_skip. Qed.

Lemma tableToken_precedence t :
  tableToken systemLookup t = true ->
  exists info,
    getSymbolInfo systemLookup t = Entry info
    /\ precedence info = precOf (tok_value t)
    /\ rightPrecedence (Entry info) = rightPrecOf (tok_value t).
Proof.
  unfold tableToken. intros H.
  destruct (getSymbolInfo systemLookup t) as [info|]; [|discriminate].
  apply andb_true_iff in H.
  destruct H as [H1 H2]. apply Z.eqb_eq in H1, H2. eauto.
Qed.

Lemma spineInv_head_None minPrec n q :
  headOperator n = None -> tableTokens systemLookup q ->
  spineInv systemLookup minPrec n q.
Proof.
  intros Hh Hq. unfold spineInv. rewrite Hh.
  split; [exact (headOperator_None_nests _ Hh)|].
  split; [exact (headOperator_None_binds _ _ Hh)|]. auto.
Qed.

Lemma parseExpression_body_nests minPrec p n p' :
  tableTokens systemLookup p ->
  parseExpression_body systemLookup pe fuel minPrec p = Ok (n, p') ->
  nestsByPrecedence n = true
  /\ bindsAtLeast minPrec n = true
  /\ endsExpression systemLookup minPrec (current p').
Proof.
  intros Hp E.
  pose proof (parseExpression_body_stops _ _ _ _ _ _ _ E) as Hends.
  unfold parseExpression_body in E. apply bind_Ok in E.
  destruct E as (left0 & p1 & E1 & E2).
  pose proof (parsePrefix_head systemLookup pe fuel _ _ _ E1) as Hh.
  pose proof (parsePrefix_moves systemLookup pe fuel Hmoves _ _ _ E1) as Hs.
  assert (Hinv : spineInv systemLookup minPrec n p').
  { refine (while_inv (spineInv systemLookup minPrec) _ _ _ _ _ _ _ _ _ E2).
    2: { exact (spineInv_head_None _ _ _ Hh (tableTokens_step _ _ _ Hp Hs)). }
    intros s q r q' (I1 & I2 & I3 & I4) Hc Eb.
    unfold bind at 1 in Eb. unfold getCurrent at 1 in Eb.
    destruct (isTerminator (current q)) eqn:T1.
    { inversion Eb; subst. cbn [snd]. unfold spineInv. auto. }
    destruct (isCommentToken (current q)) eqn:T2.
    { inversion Eb; subst. cbn [snd]. unfold spineInv. auto. }
    destruct (value_is (current q) "(" && isIdentifierNode s) eqn:T3.
    { apply bind_Ok in Eb. destruct Eb as (l' & q2 & Ei & Eb).
      inversion Eb; subst. cbn [snd].
      apply spineInv_head_None.
      - exact (parseInfix_call_head _ _ _ _ _ T3 Ei).
      - exact (tableTokens_step _ _ _ I3
                 (parseInfix_moves pe fuel Hmoves _ _ _ _ _ Ei)). }
    destruct (value_is (current q) "'" && takesDerivative s) eqn:T4.
    { apply bind_Ok in Eb. destruct Eb as (l' & q2 & Ei & Eb).
      inversion Eb; subst. cbn [snd].
      apply spineInv_head_None.
      - exact (parseDerivative_head _ _ _ _ Ei).
      - exact (tableTokens_step _ _ _ I3
                 (parseDerivative_moves pe fuel Hmoves _ _ _ _ Ei)). }
    cbv zeta in Eb.
    destruct (tableToken_precedence _ (proj2 I3))
      as (info & Hinfo & Hprec & Hright).
    assert (I4' : match headOperator s with
                  | Some op1 =>
                      type_is (current q) TEnd = true
                      \/ isTerminator (current q) = true
                      \/ isCommentToken (current q) = true
                      \/ precedenceBelow (Entry info) (rightPrecOf op1) = true
                      \/ typeIs (Entry info) "statement" = true
                      \/ typeIs (Entry info) "separator" = true
                  | None => True
                  end).
    { rewrite <- Hinfo. exact I4. }
    rewrite Hinfo in Eb. cbn [precedenceBelow typeIs] in Eb, I4'.
    destruct (precedence info <? minPrec) eqn:T5.
    { inversion Eb; subst. cbn [snd]. unfold spineInv. auto. }
    destruct (String.eqb (info_type info) "statement"
              || String.eqb (info_type info) "separator") eqn:T6.
    { inversion Eb; subst. cbn [snd]. unfold spineInv. auto. }
    apply bind_Ok in Eb. destruct Eb as (l' & q2 & Ei & Eb).
    inversion Eb; subst. cbn [snd].
    assert (Hl : leftOperandOK (tok_value (current q)) s = true).
    { unfold leftOperandOK. destruct (headOperator s) as [op1|]; [|reflexivity].
      apply Z.ltb_lt. rewrite <- Hprec.
      apply orb_false_iff in T6. destruct T6 as [T6 T7].
      destruct I4' as [A|[A|[A|[A|[A|A]]]]].
      - rewrite A in Hc. discriminate.
      - congruence.
      - congruence.
      - apply Z.ltb_lt. exact A.
      - rewrite A in T6. discriminate.
      - rewrite A in T7. discriminate. }
    destruct (parseInfix_nests _ _ _ _ _ I3 I1 Hl Hright Ei) as [N1 N2].
    pose proof (tableTokens_step _ _ _ I3
                  (parseInfix_moves pe fuel Hmoves _ _ _ _ _ Ei)) as Hq2.
    destruct N2 as [N2|[N2 N3]].
    - exact (spineInv_head_None _ _ _ N2 Hq2).
    - unfold spineInv, bindsAtLeast. rewrite N2.
      split; [exact N1|]. split; [|split; [exact Hq2|exact N3]].
      apply Z.leb_le. apply Z.ltb_ge in T5. lia. }
  destruct Hinv as (I1 & I2 & _ & _). auto.
Qed.

End Spine.

Lemma parseExpression_nests systemLookup fuel :
  forall minPrec p n p',
    tableTokens systemLookup p ->
    parseExpression systemLookup fuel minPrec p = Ok (n, p') ->
    nestsByPrecedence n = true
    /\ bindsAtLeast minPrec n = true
    /\ endsExpression systemLookup minPrec (current p').
Proof.
  induction fuel as [|fuel IH]; intros minPrec p n p' Hp E; [discriminate|].
  cbn [parseExpression] in E.
  refine (parseExpression_body_nests systemLookup _ _
            (parseExpression_moves systemLookup fuel) _ _ _ _ _ Hp E).
  intros mp q m q' Hq Eq. destruct (IH _ _ _ _ Hq Eq) as (_ & A & B). auto.
Qed.

(** X16: operators nest by precedence and associativity.  If the precedence
    of every token is the one that [SYMBOL_TABLE] gives to its text (so that
    no [Symbol] token is named like a member of [Object.prototype]), the
    tree of [parseExpression(minPrec)] has at its head, if an operator at
    all, one of precedence [minPrec] at least; at the head and down the
    left operands, the operator at the head of a right operand has the
    precedence that the operator above asks on its right at least (one
    more than its own when it associates to the left), and the operator at
    the head of a left operand asked more on its right than the operator
    above has. *)
Theorem operators_nest_by_precedence :
  forall systemLookup fuel minPrec p n p',
    forallb (tableToken systemLookup) (tokens p) = true ->
    tableToken systemLookup (current p) = true ->
    parseExpression systemLookup fuel minPrec p = Ok (n, p') ->
    nestsByPrecedence n = true /\ bindsAtLeast minPrec n = true.
Proof.
  intros systemLookup fuel minPrec p n p' H1 H2 E.
  destruct (parseExpression_nests systemLookup fuel _ _ _ _ (conj H1 H2) E)
    as (A & B & _).
  auto.
Qed.

Lemma operators_nest_by_precedence_witness :
  parseExpression testSystemLookup 6 0 (newParser differenceTokens)
  = Ok (differenceNode, mkParser differenceTokens 7 EndToken)
  /\ nestsByPrecedence differenceNode = true
  /\ bindsAtLeast 0 differenceNode = true.
Proof.
  split; [reflexivity|].
  exact (operators_nest_by_precedence testSystemLookup 6 0
           (newParser differenceTokens) differenceNode
           (mkParser differenceTokens 7 EndToken) eq_refl eq_refl eq_refl).
Defined.

(** [a - (b - c)] written without the parentheses: not a tree of the
    parser. *)
Example nestsByPrecedence_refuses :
  nestsByPrecedence
    (BinaryOperation "-" (UserIdentifier "a")
       (BinaryOperation "-" (UserIdentifier "b") (UserIdentifier "c")))
  = false.
Proof. reflexivity. Qed.

(** A [Symbol] token named like a member of [Object.prototype] is not a
    token of the table, and the tree of [1 + 2 toString 3] does not nest by
    precedence. *)
Example inherited_member_is_no_tableToken :
  tableToken testSystemLookup (sym "toString") = false
  /\ nestsByPrecedence
       (BinaryOperation "+" (Number "1")
          (BinaryOperation "toString" (Number "2") (Number "3")))
     = false.
Proof. split; reflexivity. Qed.

(** X17: the operand of a unary sign is read at the precedence [UNARY]: if
    the precedence of every token is the one that [SYMBOL_TABLE] gives to
    its text (so that no [Symbol] token is named like a member of
    [Object.prototype]), no operator of lower precedence is at the head of
    the operand, so that [-a ^ b] is [(-a) ^ b]. *)
Theorem unary_operand_binds_tightly :
  forall systemLookup fuel p n p',
    forallb (tableToken systemLookup) (tokens p) = true ->
    tableToken systemLookup (current p) = true ->
    parseUnaryOperator (parseExpression systemLookup fuel) p = Ok (n, p') ->
    exists operand,
      n = UnaryOperation (tok_value (current p)) operand
      /\ bindsAtLeast PRECEDENCE.UNARY operand = true
      /\ nestsByPrecedence operand = true.
Proof.
  intros systemLookup fuel p n p' H1 H2 E. unfold parseUnaryOperator in E.
  unfold bind at 1 in E. unfold getCurrent at 1 in E.
  unfold bind at 1 in E. unfold advance at 1 in E.
  apply bind_Ok in E. destruct E as (operand & q & Eo & E).
  inversion E; subst. exists operand. split; [reflexivity|].
  destruct (parseExpression_nests systemLookup fuel _ _ _ _
              (tableTokens_step _ _ _ (conj H1 H2) (cursorStep_advance _)) Eo)
    as (A & B & _).
  auto.
Qed.

Lemma unary_operand_binds_tightly_witness :
  parseUnaryOperator (parseExpression testSystemLookup 4)
    (newParser signedPowerTokens)
  = Ok (UnaryOperation "-" (UserIdentifier "a"),
        mkParser signedPowerTokens 3 (sym "^"))
  /\ exists operand,
      UnaryOperation "-" (UserIdentifier "a")
      = UnaryOperation (tok_value (current (newParser signedPowerTokens)))
          operand
      /\ bindsAtLeast PRECEDENCE.UNARY operand = true
      /\ nestsByPrecedence operand = true.
Proof.
  split; [reflexivity|].
  exact (unary_operand_binds_tightly testSystemLookup 4
           (newParser signedPowerTokens)
           (UnaryOperation "-" (UserIdentifier "a"))
           (mkParser signedPowerTokens 3 (sym "^"))
           eq_refl eq_refl eq_refl).
Defined.

(** ** Operands side by side *)

Lemma juxtaposed_operands systemLookup (pe : Z -> M node) fuel a op b :
  existsb (String.eqb op) reservedTexts = false ->
  pe 0 (mkParser [num a; num op; num b] 3 (num b))
  = Ok (Number b, mkParser [num a; num op; num b] 3 EndToken) ->
  parseExpression_body systemLookup pe (S (S fuel)) 0
    (newParser [num a; num op; num b])
  = Ok (BinaryOperation op (Number a) (Number b),
        mkParser [num a; num op; num b] 3 EndToken).
Proof.
  intros H Hpe.
  cbn [existsb reservedTexts] in H.
  repeat (apply orb_false_iff in H; destruct H as [? H]).
  unfold parseExpression_body, parsePrefix, parseInfix, isTerminator,
    isCommentToken, bind, getCurrent, advance, ret, newParser, advanceParser,
    value_is, type_is, kind_is.
  repeat (progress (cbn -[String.eqb];
    change (String.eqb "operand" "statement") with false;
    change (String.eqb "operand" "separator") with false;
    change (String.eqb "operand" "postfix") with false;
    rewrite ?andb_false_r, ?Hpe;
    repeat match goal with
           | E : String.eqb op _ = false |- _ => rewrite E
           end)).
  reflexivity.
Qed.

(** X18: operands written side by side are not refused: a number between
    two numbers is read as a binary operator, its text as the operator. *)
Theorem operand_taken_as_operator :
  forall systemLookup a op b,
    existsb (String.eqb op) reservedTexts = false ->
    parse systemLookup 4 [num a; num op; num b]
    = Ok [BinaryOperation op (Number a) (Number b)].
Proof.
  intros systemLookup a op b H.
  pose proof (juxtaposed_operands systemLookup
                (parseExpression systemLookup 3) 2 a op b H eq_refl) as E.
  unfold parse, parseProgram, parseStatement.
  change (parseExpression_body systemLookup (parseExpression systemLookup 3) 4)
    with (parseExpression systemLookup 4) in E.
  set (pe4 := parseExpression systemLookup 4) in *. clearbody pe4.
  unfold newParser, advanceParser in *. cbn in E.
  unfold bind, getCurrent, advance, ret, isCommentToken, type_is, kind_is,
    value_is, advanceParser.
  cbn. rewrite E. cbn. reflexivity.
Qed.

Lemma operand_taken_as_operator_witness :
  parse testSystemLookup 4 [num "1"; num "2"; num "3"]
  = Ok [BinaryOperation "2" (Number "1") (Number "3")].
Proof.
  exact (operand_taken_as_operator testSystemLookup "1" "2" "3" eq_refl).
Defined.

(** ** The errors of the parser *)

Lemma bind_Error {A B} (m : M A) (k : A -> M B) p msg :
  bind m k p = Error msg ->
  m p = Error msg \/ exists a p1, m p = Ok (a, p1) /\ k a p1 = Error msg.
Proof.
  unfold bind. destruct (m p) as [[a p1]| |]; intros H.
  - right. eauto.
  - left. inversion H. reflexivity.
  - discriminate.
Qed.

Lemma errs_ret {A} (a : A) : errs (ret a).
Proof. intros p msg E. discriminate. Qed.

Lemma errs_getCurrent : errs getCurrent.
Proof. intros p msg E. discriminate. Qed.

Lemma errs_getParser : errs getParser.
Proof. intros p msg E. discriminate. Qed.

Lemma errs_advance : errs advance.
Proof. intros p msg E. discriminate. Qed.

Lemma parseErrors_In msg :
  existsb (String.eqb msg) parseErrors = true -> In msg parseErrors.
Proof.
  intros H. apply existsb_exists in H. destruct H as (x & Hx & E).
  apply String.eqb_eq in E. subst. exact Hx.
Qed.

Lemma errs_error {A} msg :
  existsb (String.eqb msg) parseErrors = true -> errs (@error A msg).
Proof.
  intros H p msg' E. inversion E; subst. left. exact (parseErrors_In _ H).
Qed.

Lemma errs_bind {A B} (m : M A) (k : A -> M B) :
  errs m -> (forall a, errs (k a)) -> errs (bind m k).
Proof.
  intros Hm Hk p msg E. apply bind_Error in E.
  destruct E as [E|(a & p1 & _ & E)].
  - exact (Hm _ _ E).
  - exact (Hk _ _ _ E).
Qed.

Lemma errs_while {S} fuel cond (body : S -> M (flow * S)) :
  (forall s, errs (body s)) -> forall s, errs (while_ fuel cond body s).
Proof.
  intros Hb. induction fuel as [|fuel IH]; intros s p msg E.
  - discriminate.
  - cbn [while_] in E. destruct (cond s (current p)); [|discriminate].
    destruct (body s p) as [[[f s1] p1]|e|] eqn:Eb; try discriminate.
    + destruct f; [exact (IH _ _ _ E)|discriminate].
    + inversion E; subst. exact (Hb _ _ _ Eb).
Qed.

Lemma errs_do_while {S} fuel cond (body : S -> M (flow * S)) :
  (forall s, errs (body s)) -> forall s, errs (do_while fuel cond body s).
Proof.
  intros Hb s. unfold do_while. apply errs_bind; [apply Hb|].
  intros [f s1]. destruct f; [apply errs_while; exact Hb|apply errs_ret].
Qed.

Lemma parseEmbeddedLanguage_errs content :
  errs (liftResult (parseEmbeddedLanguage content)).
Proof.
  intros p msg E. unfold liftResult in E.
  destruct (parseEmbeddedLanguage content) as [n|e|] eqn:El;
    try discriminate.
  inversion E; subst. clear E. left.
  unfold parseEmbeddedLanguage in El.
  destruct (_ || _); [discriminate|].
  destruct (splitHeader content) as [header body].
  destruct (parseHeader header) as [[l c]|e|] eqn:Eh; try discriminate.
  inversion El; subst. clear El.
  unfold parseHeader in Eh.
  repeat match type of Eh with
         | (if ?b then _ else _) = _ => destruct b
         end;
    try discriminate; inversion Eh; subst; apply parseErrors_In;
    vm_compute; reflexivity.
Qed.

(** Runs through a method, given the lemmas [lems] for the methods it
    calls. *)
Ltac errs_with lems :=
  repeat first
    [ apply errs_ret | apply errs_advance | apply errs_getCurrent
    | apply errs_getParser | apply parseEmbeddedLanguage_errs
    | apply errs_error; vm_compute; reflexivity
    | lems
    | apply errs_bind; [|intros ?]
    | apply errs_while; intros ?
    | apply errs_do_while; intros ?
    | progress cbv beta
    | match goal with
      | |- errs (if ?b then _ else _) => destruct b
      | |- errs (match ?x with _ => _ end) => destruct x
      end ].

Lemma consumeSemicolonSequence_errs : errs consumeSemicolonSequence.
Proof. unfold consumeSemicolonSequence. errs_with fail. Qed.

Lemma parseVariableList_errs fuel : errs (parseVariableList fuel).
Proof. unfold parseVariableList. errs_with fail. Qed.

Lemma collectQuotes_errs fuel : errs (collectQuotes fuel).
Proof. unfold collectQuotes. errs_with fail. Qed.

(** The check after the variable list never fails. *)
Lemma parseBracketVariables_errs fuel : errs (parseBracketVariables fuel).
Proof.
  intros p msg E. unfold parseBracketVariables in E.
  unfold bind at 1 in E. unfold getCurrent at 1 in E.
  destruct (value_is (current p) "["); [|discriminate].
  unfold bind at 1 in E. unfold advance at 1 in E.
  apply bind_Error in E. destruct E as [E|(vs & p1 & E1 & E)].
  - exact (parseVariableList_errs _ _ _ E).
  - pose proof (parseVariableList_ends_at_bracket _ _ _ _ E1) as Hc.
    unfold bind, getCurrent in E. rewrite Hc in E. discriminate.
Qed.

Section Errors.

Variable systemLookup : string -> systemInfo.
Variable pe : Z -> M node.
Variable fuel : nat.
Hypothesis Hpe : forall minPrec, errs (pe minPrec).

Ltac errs_run lems := errs_with ltac:(first [apply Hpe | lems]).

Lemma parseTupleElements_errs : errs (parseTupleElements pe fuel).
Proof. unfold parseTupleElements, parseTupleElement. errs_run fail. Qed.

Lemma parseFunctionParameters_errs : errs (parseFunctionParameters pe fuel).
Proof.
  unfold parseFunctionParameters, parseFunctionParameters_body,
    parseFunctionParameter.
  errs_run fail.
Qed.

Lemma parseFunctionCallArgs_errs : errs (parseFunctionCallArgs pe fuel).
Proof. unfold parseFunctionCallArgs. errs_run fail. Qed.

Lemma parseGrouping_errs : errs (parseGrouping pe fuel).
Proof.
  unfold parseGrouping.
  errs_run ltac:(first [ apply parseFunctionParameters_errs
                       | apply parseTupleElements_errs ]).
Qed.

Lemma parseArray_errs : errs (parseArray pe fuel).
Proof.
  unfold parseArray, parseMatrixOrArray, parseMatrixOrArray_loop,
    parseMatrixOrArray_body, parseMatrixOrArray_finish.
  errs_run ltac:(apply consumeSemicolonSequence_errs).
Qed.

Lemma parseBraceContainer_errs : errs (parseBraceContainer pe fuel).
Proof.
  unfold parseBraceContainer, parseBraceContainer_loop,
    parseBraceContainer_body, parseBraceContainer_classify.
  errs_run fail.
Qed.

Lemma parseCodeBlock_errs : errs (parseCodeBlock pe fuel).
Proof. unfold parseCodeBlock. errs_run fail. Qed.

Lemma parseUnaryOperator_errs : errs (parseUnaryOperator pe).
Proof. unfold parseUnaryOperator. errs_run fail. Qed.

Lemma parseEvaluationOrOperations_errs :
  errs (parseEvaluationOrOperations pe fuel).
Proof.
  unfold parseEvaluationOrOperations, parseCalculusParentheses.
  errs_run fail.
Qed.

Lemma parseDerivative_errs left : errs (parseDerivative pe fuel left).
Proof.
  unfold parseDerivative.
  errs_run ltac:(first [ apply collectQuotes_errs
                       | apply parseBracketVariables_errs
                       | apply parseEvaluationOrOperations_errs ]).
Qed.

Lemma parseIntegral_errs : errs (parseIntegral systemLookup pe fuel).
Proof.
  unfold parseIntegral.
  errs_run ltac:(first [ apply collectQuotes_errs
                       | apply parseBracketVariables_errs
                       | apply parseEvaluationOrOperations_errs ]).
Qed.

Lemma parsePrefix_errs : errs (parsePrefix systemLookup pe fuel).
Proof.
  unfold parsePrefix.
  apply errs_bind; [apply errs_getCurrent|]. intros tok.
  destruct (tok_type tok) eqn:Et;
    try solve [errs_run fail].
  - errs_run ltac:(first [ apply parseGrouping_errs
                         | apply parseArray_errs
                         | apply parseBraceContainer_errs
                         | apply parseCodeBlock_errs
                         | apply parseUnaryOperator_errs
                         | apply parseIntegral_errs ]).
    intros p msg E. inversion E; subst. right.
    exists (tok_value tok). reflexivity.
Qed.

Lemma parseInfix_errs left info : errs (parseInfix pe fuel left info).
Proof.
  unfold parseInfix. errs_run ltac:(apply parseFunctionCallArgs_errs).
Qed.

Lemma parseExpression_body_errs minPrec :
  errs (parseExpression_body systemLookup pe fuel minPrec).
Proof.
  unfold parseExpression_body.
  errs_run ltac:(first [ apply parsePrefix_errs
                       | apply parseInfix_errs
                       | apply parseDerivative_errs ]).
Qed.

End Errors.

Lemma parseExpression_errs systemLookup fuel :
  forall minPrec, errs (parseExpression systemLookup fuel minPrec).
Proof.
  induction fuel as [|fuel IH]; intros minPrec.
  - intros p msg E. discriminate.
  - cbn [parseExpression]. apply parseExpression_body_errs. exact IH.
Qed.

Lemma parseProgram_errs systemLookup fuel :
  errs (parseProgram systemLookup fuel).
Proof.
  unfold parseProgram, parseStatement.
  errs_with ltac:(apply parseExpression_errs).
Qed.

(** X19: every error of [parse] carries one of the messages of [parseErrors],
    or [Unexpected symbol: ] and a text; the message about the closing
    bracket of a variable list is not among them. *)
Theorem parse_errors_are_known :
  forall systemLookup fuel ts msg,
    parse systemLookup fuel ts = Error msg ->
    In msg parseErrors
    \/ exists v, msg = ("Unexpected symbol: " ++ v)%string.
Proof.
  intros systemLookup fuel ts msg E. unfold parse in E.
  destruct (parseProgram systemLookup fuel (newParser ts))
    as [[a p']|e|] eqn:Ep; try discriminate.
  inversion E; subst.
  exact (parseProgram_errs systemLookup fuel _ _ Ep).
Qed.

Lemma parse_errors_are_known_witness :
  parse testSystemLookup 4 danglingTokens = Error "Unexpected token: End"
  /\ (In "Unexpected token: End" parseErrors
      \/ exists v, "Unexpected token: End" = ("Unexpected symbol: " ++ v)%string).
Proof.
  split; [reflexivity|].
  exact (parse_errors_are_known testSystemLookup 4 danglingTokens
           "Unexpected token: End" eq_refl).
Defined.
